(* ===== verification/_CoqProject ===== *)
-Q . S2P
Prelude.v
PyStr.v
Routing.v
Keys.v
Json.v
JsonParse.v
Redis.v
Effects.v
Handlers.v
Freshness.v
Contract.v
Async.v
Interleaving.v
Atomic.v
Inline.v
Liveness.v
Enums.v
Pydantic.v
Models.v
Http.v
Cors.v
Service.v
HttpLoop.v
HttpLiveness.v
Server.v
