(* ===== verification/Prelude.v ===== *)
(** * Akwam streaming API: a verification development

    The program (src/backend/src) is a FastAPI service that puts a Redis
    read-through cache in front of an upstream scraper, and a module of
    pydantic models that describe and validate the entities it serves.

    ** The program's parts

    - [main.py], handlers: six endpoints ([get_home_page], [search_content],
      [get_movie_details], [get_series_details], [get_video_sources],
      [get_category]).  Each derives a cache key with an f-string, reads it
      from Redis, returns [json.loads] of a non-empty hit, and otherwise
      awaits the upstream resolver, stores [json.dumps] of the result with
      [setex] and a per-endpoint TTL, and returns the result.  The movie,
      series and watch handlers store only truthy results.
    - [main.py], resolver stubs: [get_home_content] ... [get_category_content]
      return constants; the real scraper is not in the repository.
    - [main.py], application: [app = FastAPI(...)], the eight routes that
      the decorators register with the parameters each endpoint function
      declares ([page: int = 1] in the query, [movie_id: str] in the path,
      [request: SearchRequest] in the body), the endpoints [root] and
      [health_check], the CORS middleware with its four arguments, and the
      settings read from the environment when the module loads.
    - [main.py], classes: [SearchRequest], the body of the search endpoint,
      and three response classes that no handler uses.
    - [models.py]: the enumerations [ContentType], [Language], [Quality]; the
      pydantic classes for movies, episodes, series, video sources,
      subtitles and the response envelopes, with the bounds of their fields
      ([ge], [le]) and five functions decorated [@validator].
    - Libraries the sources only call: redis-py, the [json] module,
      pydantic, asyncio, FastAPI and Starlette (routing, parameters,
      middleware), the [str] methods.  Their behaviour is modelled from
      their documentation where a handler, a route or a validator depends
      on it, and marked as such in the manifest.

    A request enters the CORS middleware, is routed, has its parameters
    read and validated, and calls a handler; the handler talks to Redis
    and awaits the upstream; its value or its exception goes back through
    the middleware to the client.  All of this is one coroutine per
    request, and the event loop runs the coroutines of the requests that
    are under way in turns: one runs until it awaits the upstream, and
    the others run in the meantime.

    ** Files

    - [Prelude] (this file): the [result] type with stdpp's monad notation,
      the development's tactics and hint databases, the lemmas on
      strings that the components share, sums over lists ([weight]) and
      what every run of a transition system reaches ([reached], with the
      argument by a measure).
    - [PyStr]: the [str] operations the sources use: [str(int)] as an
      f-string renders it and [int(str)], [startswith], [strip], [lower],
      [join], truthiness.
    - [Routing]: path templates and their matching, routes, and the router
      (first full match, 405, the redirect of a trailing slash, 404); what
      a template denotes ([matches]) and which of the matches the regular
      expression returns ([preferred]), as the reference for the matcher.
    - [Keys]: the request shapes of the six endpoints, the key each handler
      builds, its TTL and whether it stores falsy results.
    - [Json]: the JSON values a handler returns, Python truthiness on them,
      [json.dumps], and the class [Codec] of what a handler needs of its
      values.  [JsonParse]: [json.loads] and the round trip.
    - [Redis]: the server as a [gmap] from keys to values with an absolute
      expiry on a clock and a connection flag; [redis_get], [redis_setex],
      the passing of time, the purge of expired keys.
    - [Effects]: a handler body as a finite tree of operations ([Get],
      [Setex], [Await]), its sequential execution [run], and the log of
      upstream calls (which the code does not keep and the properties
      speak of).
    - [Handlers]: the six handlers as the code writes them, the routing
      [handle], the resolver stubs, and histories of requests, clock ticks,
      connection changes and purges served one after the other.
    - [Freshness]: histories in which the upstream changes between
      requests, the requests of a history with the time each was served
      ([answers]), what makes a served value [fresh], and how long an
      entry [lasts].
    - [Contract]: what the cache facade promises, as a machine of its own:
      a [cache] of typed values indexed by requests, with [read] for a
      request and [contract] for a history; the reading of a world as a
      cache ([abstraction]) and the relation [refines] between what the
      code does and what the contract says.  Caches are compared by what
      they hold ([≡]), and the operations of the contract respect it.
    - [Async]: the handlers under the asyncio event loop: tasks that run
      from their start to the [await] of the resolver and from its answer
      to their return, interleaved; a step relation [step], its executions
      [trace] and their executable form [schedule].  [run_until_await]
      runs any coroutine to its next stop.
    - [Interleaving]: the event loop against an upstream that is a
      function of the time ([execution]), under a scheduling policy
      ([prompt]: a woken task runs before the clock moves, or
      [unconstrained]); the class [Lag] says what a policy promises about
      the time between an answer and the run that uses it, and the
      invariant is proved once against it.
    - [Atomic]: the schedules of a resolver that does not suspend
      ([immediate]: a task at its [await] is answered and run before
      anything else happens), the world once the task that is under way
      has returned ([settled]), and the sequential history of a schedule
      ([sequential]).
    - [Inline]: the event loop with the bodies of the upstream functions.
      A body returns, raises, or fetches from the scraper ([coroutine]);
      a task runs through the [await] of a body that does not fetch and
      gives way where one does ([run_inline], [inline_step], with
      [inline_schedule] as the executable form).  [stub_code] is the six
      bodies at the end of [main.py], and [history] the requests of a
      schedule in the order in which their tasks start
      ([shipped_history] for the code as it ships).
    - [Liveness]: the work a task has left ([work], [pending]), the shape
      of the tasks of a handler ([single_await]) and what is [eventually]
      reached on every schedule ([reached] along the moves of the
      scheduler), also with an upstream that changes ([inevitably] with
      one that does not).
    - [Enums]: the three enumerations with their values and the lookup of a
      member by value, as instances of the class [StrEnum].
    - [Pydantic]: the construction of an instance from keyword arguments:
      types and their coercions, [None], defaults, bounds, lists, nested
      classes, class validators, the collection of errors; the settings
      of a [class Config] and their inheritance; what a class takes in
      place of a dictionary ([model_input]): the attributes of the value
      with [orm_mode], [dict] of the value without.
    - [Models]: each class of [models.py] and of [main.py] as its list of
      fields in declaration order with the settings of its [class
      Config], subclasses as extensions of their base, and the five
      validators.
    - [Http]: requests, responses, multi-dictionaries of headers and query
      pairs, the responses of the framework, the handler of server errors.
    - [Cors]: the CORS middleware for any configuration: the headers it
      prepares, the preflight response, the headers of a simple response.
    - [Service]: the application of [main.py]: the routes ([root_route] ...
      [health_route]) with their parameters, [root] and [health_check], the
      solving of parameters ([solve_dependencies]), the call of the
      endpoint ([handle_request]), the router with its error responses
      ([router_app]), the stack of middleware ([asgi]), the settings of
      start-up, and what a request asks for ([request_of], the inverse of
      the client's [http_of]).  The same application as the coroutine of
      a request ([stack]: preflight, routing, validation and the endpoint
      as one program over Redis and the upstream) and what is sent for
      its outcome ([send_response]), with [asgi] as the coroutine run in
      one go.
    - [HttpLoop]: the event loop with the requests on the wire as its
      tasks: an [exchange] is a request with its coroutine (not yet run,
      suspended at its [await], woken, or answered), [http_step] the step
      relation, [http_run] its executions under an upstream that changes
      and a policy of scheduling, [http_schedule] the executable form.
      [embeds] and [same_state] relate a server to the loop of [Async]
      whose tasks are the exchanges that ask for an operation; [follows]
      says which step of that loop a step of the server is, and the class
      [Follows] which policy of the server a policy of the loop allows.
    - [HttpLiveness]: the work an exchange has left ([left_to_do],
      [outstanding]), the exchanges whose coroutine has one [await]
      ([settles]) and what every schedule reaches ([http_eventually]).
    - [Server]: histories of HTTP requests with the clock, the connection
      and the purges in between ([serve_http]), the history of the
      handlers that each one is ([cache_event]), and the same history in
      the event loop, each exchange scheduled as it comes ([in_turn]).

    ** What is proved

    - Keys: distinct requests have distinct keys, within an endpoint and
      across endpoints.
    - One call: a hit returns the stored value, calls nothing and changes
      nothing; a miss calls the resolver once, returns its result and stores
      it with the endpoint's TTL; falsy results of movie, series and watch
      are returned and not stored, and the next call asks again; an entry
      is served for TTL seconds and no longer; an exception of the resolver
      propagates and stores nothing; with Redis down the handler fails
      before calling the resolver; a handler touches its own key only.
    - Histories: every non-empty entry decodes, so [json.loads] never fails
      on what the handlers stored, and every error response is the
      connection error or the resolver's exception.
    - Interleavings: the same, for every interleaving of tasks, and more:
      each response is what the resolver answers to that very request; a
      task scheduled alone behaves as the sequential handler; every task
      finishes; the resolver is called at most once per request; and two
      concurrent misses for one key both call the resolver, since nothing
      serializes them.
    - Refinement: from an empty server and along every history, the
      responses of the handlers are those of the contract, and the world
      reads as the cache of the contract: the keys, the JSON text and
      the expiry of Redis implement a cache of typed values.  Responses
      depend on the server through that reading alone.
    - Freshness: with an upstream that changes over time, a served value
      is what the upstream answered to the same request less than one TTL
      before; and after a request that stored, the upstream is not asked
      for the same thing again before one TTL has passed, whatever
      happens in between.
    - Interleavings with an upstream that changes: on every schedule a
      response is something that the upstream gave for that very request
      at some moment; when woken tasks run before the clock moves it is
      less than one TTL old; and a task that is left waiting between its
      answer and its store makes the next hour of responses older than
      that (the TTL counts from the store).
    - Without suspension: the resolver functions that [main.py] ships
      have no [await] in their bodies, so with them a task returns in the
      turn that starts it.  This is derived from the bodies and not
      assumed: on every schedule of [Inline]'s loop with [stub_code],
      whatever scraper stands behind, no task is left at its [await], the
      server and the log are those of the sequential service on the
      requests in the order in which their tasks start and every response
      is that of its handler run alone, so that the service under the
      loop implements the contract of [Contract] (the world reads as the
      contract's cache, and each response is what the contract reads for
      its request); and any number of simultaneous
      requests for one page of the home, a search or a category call the
      upstream once (a movie, a series or the sources of a video are asked
      for again each time, since the stubs answer [None] and the empty
      list, which the handlers do not store).  Every such schedule is a
      schedule of the loop of [Async] under the policy [immediate], under
      which the same holds for any resolver; and with bodies that all
      fetch [Inline]'s loop is the loop of [Async], step for step.  The
      interleavings above are those of a resolver that does I/O.
    - Liveness: from every reachable state of the event loop and on every
      schedule, all tasks finish with a response that their request
      explains; with an upstream that changes over time they finish as
      well, the cache keeping its dated entries; the scheduler takes at
      most three steps per request, whatever the cache holds and the
      upstream answers.
    - Service: a request whose method, path, query and body ask for an
      operation, whatever else it carries, runs the handler of that
      operation with the arguments read from it and the client gets
      exactly [deliver] of its outcome: 200 with the handler's value, with
      the CORS headers when the request has an origin, or the bare 500
      for its exception; every other
      request (404, 405, 307, 422, preflight, documents, root, health) is
      answered without touching the cache or the upstream; and a whole
      history of HTTP requests implements the contract of the cache.  A
      500 is always the exception of the handler that the request asks
      for and bears no CORS header; the
      page of the query is what [int] reads; the health endpoint answers
      healthy with Redis down; any origin is allowed with credentials.
    - On the wire: the event loop that runs the whole application is
      simulated by the loop of the handlers alone ([same_state] is kept
      by every step, which is the same step of the handlers or none when
      the request asks for nothing), under any upstream and both
      policies.  So on every interleaving of requests a response is
      [deliver] of what the resolver gives for the operation asked, or
      the application's own response; with an upstream that changes it
      is less than one TTL old when woken exchanges run before the clock
      moves; every accepted request gets its response on every schedule,
      in at most three steps of the scheduler; and an exchange that runs
      without interruption is [asgi], so the loop that serves each
      request as it comes, as it does with the resolvers that the
      repository ships, is the sequential service [serve_http], and
      any number of requests for one thing that reach an empty server
      call the upstream once.  Conversely every execution of the
      handlers alone is one of the server, step for step, so the two
      concurrent misses that both call the upstream happen on the wire
      as well.
    - Routing: the matcher returns the parameters of the preferred match
      of the reference and nothing when there is no match; a final
      newline is let pass and a last parameter takes it.
    - JSON: [loads (dumps v) = Some v].  Strings: [int(str(z)) = z].
    - Models: every instance has one value per field, of the field's type
      and within its bounds; an instance validates again to itself; a
      subclass validates inherited fields as its base does; a missing
      required field is reported at its location; the three classes
      with [orm_mode] read a row as the dictionary of its attributes and
      refuse other data that is no dictionary, [id] missing, where a
      class without refuses a row and takes a list of pairs for the
      dictionary of the pairs (so the body of a search may be such a
      list); the year, rating, title,
      episode and season numbers, year order, url and subtitle language of
      an instance satisfy what their validators and bounds test, and
      exactly that: year zero passes, and a source may be both direct and
      proxied.

    ** Bounds and fuel

    Integers are [Z] (Python integers are unbounded).  The values that a
    resolver returns are values that [json.dumps] accepts: the class
    [Codec] has a total [encode].  Strings are
    sequences of 8-bit code points; white space, lower-casing and the
    JSON escapes are modelled on that range.  Floats are exact rationals
    ([Q]): the bounds [ge] and [le] are comparisons, which are exact on the
    floats that pass them; reading a float or a datetime from a string and
    printing a float are parameters of the [runtime] record, as are the
    current year and instant and the year of an instant.  [str_nat] runs on a fuel of the binary size
    of its argument, which bounds the number of decimal digits, and
    [loads] on a fuel of the input's length plus one, since every recursive
    call of the parser consumes a character; both are proved enough.  The
    time of the Redis server advances only between handlers, or between
    the two halves of a handler in [Async].  A request is seen after the
    server has parsed it: the path is decoded, the query is a list of
    pairs, header names are in lower case and the body is a Python value
    (or is marked as not being JSON).  In [Interleaving] the upstream is
    a function of the time of the Redis clock, the one clock of the
    model, and the policy [prompt] stands for the assumption that running
    a task takes no time.  In [Inline] a body of the upstream is what the
    task that awaits it sees of it: it returns or raises within the turn,
    or it waits for I/O, and then the answer is that of the resolver of
    [Async]; the bodies of [main.py] are single [return] statements, so
    nothing of them is left out.  Liveness needs no fairness: the
    work left is a natural number that every step of the scheduler
    lowers, so the bound on the steps is the proof of termination.  An
    exchange is driven by three labels (run, answer, run), which is
    enough because the coroutine of every request has at most one
    [await] ([awaits_once_stack]).  The simulation of [HttpLoop] is a
    relation and not a function: what is left of a coroutine is what is
    left of its handler followed by the making of the response, an
    equation between programs that holds by construction.

    ** Not modelled

    The server process (uvicorn) below the event loop: sockets, the
    parsing of the bytes of a request and the writing of a response,
    keep-alive and the limits on connections; requests that are
    cancelled or whose client goes away; percent-decoding, the content of the
    generated OpenAPI documents, path convertors other than [str],
    [allow_origin_regex]; JSON numbers with a fraction or an exponent and
    code points from 256 on; pydantic's aliases and pre-validators; of
    an object (the row that [orm_mode] is meant for) anything but its
    attributes that are data, and of the attributes of a [str] or a
    [datetime] those that no class with [orm_mode] names; the difference
    that [use_enum_values] makes, a member against its value, which are
    equal strings for the enumerations of [models.py]; the cancellation
    of a task and a
    bound on the wait for the upstream (the code has neither).  The
    contract of [Contract] is the read-through algorithm of the design
    without its lock, its validation step and its bypass of an
    unreachable cache, which the code does not have; the findings of the
    manifest list these differences.  The video source selector,
    the search ranker and the per-key lock of the design document have no
    code in the repository: [extract_video_sources] and [perform_search]
    are stubs that return nothing to select or rank. *)

From Stdlib Require Export ZArith Ascii Lia Bool.
From stdpp Require Export base tactics option list strings.

(** This file: results and their monad, shared tactics and hint databases,
    and the string lemmas used by every component. *)

(** ** Results: a value or an error *)

Inductive result (E A : Type) : Type :=
| Ok (a : A)
| Err (e : E).
Arguments Ok {E A} a.
Arguments Err {E A} e.

#[export] Instance result_ret {E} : MRet (result E) := λ A a, Ok a.
#[export] Instance result_bind {E} : MBind (result E) := λ A B f r,
  match r with Ok a => f a | Err e => Err e end.
#[export] Instance result_fmap {E} : FMap (result E) := λ A B f r,
  match r with Ok a => Ok (f a) | Err e => Err e end.

Definition is_ok {E A} (r : result E A) : bool :=
  match r with Ok _ => true | Err _ => false end.

Definition result_of_option {E A} (e : E) (o : option A) : result E A :=
  match o with Some a => Ok a | None => Err e end.

#[export] Instance result_eq_dec {E A} `{EqDecision E, EqDecision A} :
  EqDecision (result E A).
Proof. solve_decision. Defined.

(** ** Hint databases and tactics *)

(** [str] rewrites string expressions to a normal form; [akwam] collects the
    resolution hints of the components. *)
Create HintDb akwam discriminated.
Create Rewrite HintDb str.

(** Split on the innermost [match] or [if] of the goal, keeping equations. *)
Ltac case_inner :=
  match goal with
  | |- context [match ?x with _ => _ end] =>
      lazymatch x with
      | context [match _ with _ => _ end] => fail
      | _ => destruct x eqn:?
      end
  end.

(** Turn boolean tests of the hypotheses and the goal into propositions. *)
Ltac bool_to_prop :=
  repeat match goal with
  | H : _ && _ = true |- _ => apply andb_true_iff in H; destruct H
  | H : _ || _ = false |- _ => apply orb_false_iff in H; destruct H
  | H : negb _ = true |- _ => apply negb_true_iff in H
  | H : negb _ = false |- _ => apply negb_false_iff in H
  | H : (_ <=? _)%Z = true |- _ => apply Z.leb_le in H
  | H : (_ <=? _)%Z = false |- _ => apply Z.leb_gt in H
  | H : (_ <? _)%Z = true |- _ => apply Z.ltb_lt in H
  | H : (_ <? _)%Z = false |- _ => apply Z.ltb_ge in H
  | H : (_ =? _)%Z = true |- _ => apply Z.eqb_eq in H
  | H : (_ =? _)%Z = false |- _ => apply Z.eqb_neq in H
  end.

(** ** Strings *)

Section strings.
Implicit Types (s t u : string) (c a : ascii).

Lemma str_app_cons a s t : String a s +:+ t = String a (s +:+ t).
Proof. reflexivity. Qed.

Lemma str_app_nil_l s : "" +:+ s = s.
Proof. reflexivity. Qed.

Lemma str_app_nil_r s : s +:+ "" = s.
Proof. induction s as [|a s IH]; [done|]. by rewrite str_app_cons, IH. Qed.

Lemma str_app_assoc s t u : (s +:+ t) +:+ u = s +:+ (t +:+ u).
Proof.
  induction s as [|a s IH]; [done|]. by rewrite !str_app_cons, IH.
Qed.

Lemma str_length_app s t :
  String.length (s +:+ t) = String.length s + String.length t.
Proof.
  induction s as [|a s IH]; [done|]. rewrite str_app_cons. simpl. by rewrite IH.
Qed.

(** Two ways of cutting a string at the same position are the same. *)
Lemma str_app_inj_length v v' s s' :
  v +:+ s = v' +:+ s' → String.length v = String.length v' → v = v' ∧ s = s'.
Proof.
  revert v'. induction v as [|a v IH]; intros [|a' v']; simpl; try done.
  intros [= -> E] [= Hl]. by destruct (IH v' E Hl) as [-> ->].
Qed.

Lemma str_app_inv_l s t u : s +:+ t = s +:+ u → t = u.
Proof.
  induction s as [|a s IH]; [done|]. rewrite !str_app_cons. intros [= ?]. auto.
Qed.

End strings.

#[export] Hint Rewrite str_app_cons str_app_nil_l str_app_nil_r
  str_app_assoc str_length_app : str.

Ltac simp_str := autorewrite with str in *.

(** [char_in c s]: the character [c] occurs in [s]. *)
Fixpoint char_in (c : ascii) (s : string) : bool :=
  match s with
  | "" => false
  | String a s' => bool_decide (a = c) || char_in c s'
  end.

Section char_in.
Implicit Types (s t : string) (c a : ascii).

Lemma char_in_app c s t : char_in c (s +:+ t) = char_in c s || char_in c t.
Proof.
  induction s as [|a s IH]; [done|].
  rewrite str_app_cons. simpl. by rewrite IH, orb_assoc.
Qed.

Lemma char_in_cons_false c a s :
  char_in c (String a s) = false ↔ a ≠ c ∧ char_in c s = false.
Proof.
  simpl. rewrite orb_false_iff, bool_decide_eq_false. done.
Qed.

(** A string is split in one way only at the last occurrence of a
    separator: if [c] occurs in neither tail, the two heads and the two
    tails agree. *)
Lemma str_app_sep_inj c s1 s2 t1 t2 :
  char_in c t1 = false → char_in c t2 = false →
  s1 +:+ String c t1 = s2 +:+ String c t2 → s1 = s2 ∧ t1 = t2.
Proof.
  intros Ht1 Ht2. revert s2.
  induction s1 as [|a s1 IH]; intros [|b s2] Heq; simp_str.
  - by simplify_eq.
  - injection Heq as -> ->.
    rewrite char_in_app in Ht1. simpl in Ht1.
    rewrite bool_decide_eq_true_2, orb_true_r in Ht1 by done. done.
  - injection Heq as <- <-.
    rewrite char_in_app in Ht2. simpl in Ht2.
    rewrite bool_decide_eq_true_2, orb_true_r in Ht2 by done. done.
  - injection Heq as -> Heq. destruct (IH _ Heq) as [-> ->]. done.
Qed.

End char_in.

#[export] Hint Rewrite char_in_app : str.

(** ** Measures on lists *)

Section weight.
Context {A : Type} (w : A → nat).

(** The sum of [w] over a list. *)
Fixpoint weight (xs : list A) : nat :=
  match xs with
  | [] => 0
  | x :: xs' => w x + weight xs'
  end.

Lemma weight_insert xs i x x' :
  xs !! i = Some x → weight (<[i := x']> xs) + w x = weight xs + w x'.
Proof.
  revert i. induction xs as [|a xs IH]; intros [|i]; simpl; try done.
  - intros [= ->]. lia.
  - intros Hi. specialize (IH i Hi). lia.
Qed.

Lemma weight_app xs ys : weight (xs ++ ys) = weight xs + weight ys.
Proof. induction xs as [|x xs IH]; simpl; lia. Qed.

Lemma weight_le n xs : (∀ x, w x ≤ n) → weight xs ≤ n * length xs.
Proof. intros Hn. induction xs as [|x xs IH]; simpl; [lia|]. specialize (Hn x). lia. Qed.

(** A list with weight has an element with weight. *)
Lemma weight_pos xs : weight xs ≠ 0 → ∃ i x, xs !! i = Some x ∧ w x ≠ 0.
Proof.
  induction xs as [|a xs IH]; simpl; [done|]. intros Hp.
  destruct (decide (w a = 0)) as [Ha|Ha]; [|by exists 0, a].
  destruct IH as (i & x & Hi & Hx); [lia|]. by exists (S i), x.
Qed.

Lemma weight_zero xs i x : weight xs = 0 → xs !! i = Some x → w x = 0.
Proof.
  revert i. induction xs as [|a xs IH]; intros [|i]; simpl; try done.
  - intros Hp [= ->]. lia.
  - intros Hp. apply IH. lia.
Qed.

End weight.

(** How many elements of a list satisfy [f]. *)
Fixpoint count {A} (f : A → bool) (xs : list A) : nat :=
  match xs with
  | [] => 0
  | x :: xs' => (if f x then 1 else 0) + count f xs'
  end.

(** ** What every run reaches *)

Section reached.
Context {S : Type} (next : S → S → Prop).

(** [P] holds now, or there is a move and [P] is reached after each
    move: [P] is reached however the moves are chosen. *)
Inductive reached (P : S → Prop) (s : S) : Prop :=
| reached_now : P s → reached P s
| reached_later :
    (∃ s', next s s') → (∀ s', next s s' → reached P s') → reached P s.

Lemma reached_impl (P Q : S → Prop) s :
  (∀ s', P s' → Q s') → reached P s → reached Q s.
Proof.
  intros HPQ. induction 1 as [|s Hex _ IH];
    [apply reached_now | apply reached_later]; auto.
Qed.

(** A measure that every move lowers, with a move while it is not
    zero, reaches zero, with every invariant of the moves kept. *)
Lemma reached_measure (m : S → nat) (I : S → Prop) s :
  (∀ s, I s → m s ≠ 0 → ∃ s', next s s') →
  (∀ s s', I s → next s s' → I s' ∧ m s' < m s) →
  I s → reached (λ s', I s' ∧ m s' = 0) s.
Proof.
  intros Hmove Hlower. remember (m s) as n eqn:Hn. revert s Hn.
  induction (lt_wf n) as [n _ IH]. intros s -> Hs.
  destruct (decide (m s = 0)) as [Hz|Hz]; [by apply reached_now|].
  apply reached_later; [by apply Hmove|].
  intros s' Hnext. destruct (Hlower s s' Hs Hnext) as [Hs' Hlt]. by eapply IH.
Qed.

End reached.
