(* ===== verification/PyStr.v ===== *)
(** Python [str] operations that the sources call: truthiness ([if cached]),
    [str.startswith] with a tuple of prefixes, [str.strip], and the decimal
    rendering of an [int] inside an f-string.  Strings are sequences of
    8-bit code points. *)

From S2P Require Import Prelude.

(** ** Truthiness and prefixes *)

(** [bool(s)]: a string is truthy when it is not empty. *)
Definition str_truthy (s : string) : bool :=
  match s with "" => false | String _ _ => true end.

(** [s.startswith(p)] *)
Fixpoint startswith (s p : string) {struct p} : bool :=
  match p, s with
  | "", _ => true
  | String b p', String a s' => bool_decide (a = b) && startswith s' p'
  | String _ _, "" => false
  end.

(** [s.startswith((p1, ..., pn))]: some prefix of the tuple matches. *)
Definition startswith_any (s : string) (ps : list string) : bool :=
  existsb (startswith s) ps.

(** [s in l] for a list or tuple of strings. *)
Definition str_in (s : string) (l : list string) : bool := existsb (String.eqb s) l.

(** ** Whitespace and [strip] *)

(** [c.isspace()] on code points below 256: the ASCII controls 9-13 and
    28-31, the space, NEL (133) and the no-break space (160). *)
Definition isspace (c : ascii) : bool :=
  let n := N_of_ascii c in
  ((9 <=? n) && (n <=? 13) || (28 <=? n) && (n <=? 32)
   || (n =? 133) || (n =? 160))%N.

Fixpoint all_space (s : string) : bool :=
  match s with
  | "" => true
  | String a s' => isspace a && all_space s'
  end.

(** [s.lstrip()] *)
Fixpoint lstrip (s : string) : string :=
  match s with
  | "" => ""
  | String a s' => if isspace a then lstrip s' else s
  end.

(** [s.rstrip()] *)
Fixpoint rstrip (s : string) : string :=
  match s with
  | "" => ""
  | String a s' =>
      match rstrip s' with
      | "" => if isspace a then "" else String a ""
      | r => String a r
      end
  end.

(** [s.strip()] *)
Definition strip (s : string) : string := rstrip (lstrip s).

(** First and last characters, for stating what [strip] leaves. *)
Definition str_head (s : string) : option ascii :=
  match s with "" => None | String a _ => Some a end.

Fixpoint str_last (s : string) : option ascii :=
  match s with
  | "" => None
  | String a "" => Some a
  | String _ s' => str_last s'
  end.

(** ** Decimal rendering of integers *)

Definition digit_char (d : N) : ascii := ascii_of_N (48 + d).

Definition digit_val (c : ascii) : option N :=
  let n := N_of_ascii c in
  if ((48 <=? n) && (n <=? 57))%N then Some (n - 48)%N else None.

Definition is_digit (c : ascii) : bool :=
  match digit_val c with Some _ => true | None => false end.

(** The digits of [n], most significant first, pushed in front of [acc].
    The fuel counts the recursive calls that remain: the last digit is
    produced whatever it is. *)
Fixpoint digits_go (fuel : nat) (n : N) (acc : string) : string :=
  let acc' := String (digit_char (n mod 10)) acc in
  match fuel with
  | O => acc'
  | S fuel' => if (n / 10 =? 0)%N then acc' else digits_go fuel' (n / 10) acc'
  end.

(** Fuel for [n]: the position of its highest bit, which bounds the number
    of its decimal digits after the first. *)
Definition digits_fuel (n : N) : nat := N.to_nat (N.log2 n).

(** [pow2 f] is 2 to the [f]: the bound that a fuel of [f] covers. *)
Fixpoint pow2 (f : nat) : N :=
  match f with O => 1 | S f' => 2 * pow2 f' end%N.

(** [str(n)] for a natural number. *)
Definition str_nat (n : N) : string := digits_go (digits_fuel n) n "".

(** [str(z)], which is what [f"{z}"] inserts for an [int]. *)
Definition str_int (z : Z) : string :=
  match z with
  | Z0 => "0"
  | Zpos p => str_nat (Npos p)
  | Zneg p => String "-" (str_nat (Npos p))
  end.

(** [f"{x}"] for an [Optional[int]]: [None] is rendered as its name. *)
Definition str_opt_int (o : option Z) : string :=
  match o with Some z => str_int z | None => "None" end.

(** Reference reading of a decimal string, by Horner's rule. *)
Fixpoint num_go (s : string) (acc : N) : option N :=
  match s with
  | "" => Some acc
  | String c s' => d ← digit_val c; num_go s' (acc * 10 + d)%N
  end.

Definition nat_of_str (s : string) : option N :=
  match s with "" => None | _ => num_go s 0 end.

Definition int_of_str (s : string) : option Z :=
  match s with
  | "" => None
  | String a s' =>
      if bool_decide (a = "-"%char) then (λ n, - Z.of_N n)%Z <$> nat_of_str s'
      else Z.of_N <$> nat_of_str s
  end.

Fixpoint all_digits (s : string) : bool :=
  match s with
  | "" => true
  | String c s' => is_digit c && all_digits s'
  end.

(** [sep.join(l)] *)
Fixpoint str_join (sep : string) (l : list string) : string :=
  match l with
  | [] => ""
  | [s] => s
  | s :: l' => s +:+ sep +:+ str_join sep l'
  end.

(** [int(s)]: surrounding whitespace is dropped, a sign may lead, and
    single underscores may separate digits. *)
Fixpoint num_us (s : string) (acc : N) (prev : bool) : option N :=
  match s with
  | "" => if prev then Some acc else None
  | String c s' =>
      if bool_decide (c = "_"%char)
      then (if prev then num_us s' acc false else None)
      else d ← digit_val c; num_us s' (acc * 10 + d)%N true
  end.

Definition py_int (s : string) : option Z :=
  match strip s with
  | "" => None
  | String a r as t =>
      if bool_decide (a = "-"%char) then (λ n, - Z.of_N n)%Z <$> num_us r 0 false
      else if bool_decide (a = "+"%char) then Z.of_N <$> num_us r 0 false
      else Z.of_N <$> num_us t 0 false
  end.

(** [s.lower()] on 8-bit code points: the ASCII capitals and the Latin-1
    capitals (all of 192-222 but the multiplication sign). *)
Definition lower_char (c : ascii) : ascii :=
  let n := N_of_ascii c in
  if ((65 <=? n) && (n <=? 90) || (192 <=? n) && (n <=? 222) && negb (n =? 215))%N
  then ascii_of_N (n + 32) else c.

Fixpoint lower (s : string) : string :=
  match s with
  | "" => ""
  | String c s' => String (lower_char c) (lower s')
  end.

(** ** Lemmas: prefixes *)

Lemma startswith_spec s p : startswith s p = true ↔ ∃ t, s = p +:+ t.
Proof.
  revert s. induction p as [|b p IH]; intros s; simpl.
  - split; [intros _; by exists s | done].
  - destruct s as [|a s].
    { split; [done|]. intros [t Ht]. by rewrite str_app_cons in Ht. }
    rewrite andb_true_iff, bool_decide_eq_true, IH. split.
    + intros [-> [t ->]]. by exists t.
    + intros [t Ht]. simp_str. simplify_eq. eauto.
Qed.

Lemma startswith_any_spec s ps :
  startswith_any s ps = true ↔ ∃ p t, p ∈ ps ∧ s = p +:+ t.
Proof.
  unfold startswith_any. rewrite existsb_exists. split.
  - intros (p & Hin & Hp). apply startswith_spec in Hp as [t ->].
    exists p, t. by rewrite list_elem_of_In.
  - intros (p & t & Hin & ->). exists p. split; [by apply list_elem_of_In|].
    apply startswith_spec. eauto.
Qed.

Lemma str_in_spec s l : str_in s l = true ↔ s ∈ l.
Proof.
  unfold str_in. rewrite existsb_exists. setoid_rewrite String.eqb_eq.
  setoid_rewrite <-list_elem_of_In. naive_solver.
Qed.

Lemma startswith_app p t : startswith (p +:+ t) p = true.
Proof. apply startswith_spec. eauto. Qed.

Lemma str_join_cons sep s l :
  l ≠ [] → str_join sep (s :: l) = s +:+ sep +:+ str_join sep l.
Proof. by destruct l. Qed.

(** ** Lemmas: [strip] *)

Lemma lstrip_all_space s : all_space s = true → lstrip s = "".
Proof.
  induction s as [|a s IH]; simpl; [done|].
  intros [Ha Hs]%andb_true_iff. rewrite Ha. auto.
Qed.

Lemma lstrip_head s a : str_head (lstrip s) = Some a → isspace a = false.
Proof.
  induction s as [|b s IH]; simpl; [done|].
  destruct (isspace b) eqn:Hb; [done|]. simpl. by intros [= <-].
Qed.

Lemma lstrip_fixed s :
  (∀ a, str_head s = Some a → isspace a = false) → lstrip s = s.
Proof.
  destruct s as [|a s]; simpl; [done|]. intros H. by rewrite (H a).
Qed.

Lemma rstrip_all_space s : all_space s = true → rstrip s = "".
Proof.
  induction s as [|a s IH]; simpl; [done|].
  intros [Ha Hs]%andb_true_iff. by rewrite IH, Ha.
Qed.

Lemma rstrip_empty s : rstrip s = "" → all_space s = true.
Proof.
  induction s as [|a s IH]; simpl; [done|].
  destruct (rstrip s) eqn:Hr; [|done].
  destruct (isspace a); [auto | done].
Qed.

Lemma rstrip_last s a : str_last (rstrip s) = Some a → isspace a = false.
Proof.
  induction s as [|b s IH]; simpl; [done|].
  destruct (rstrip s) as [|c r] eqn:Hr.
  - destruct (isspace b) eqn:Hb; simpl; [done|]. by intros [= <-].
  - exact IH.
Qed.

Lemma rstrip_head s : str_head (rstrip s) = None ∨ str_head (rstrip s) = str_head s.
Proof.
  destruct s as [|a s]; simpl; [by left|].
  destruct (rstrip s); [destruct (isspace a)|]; auto.
Qed.

Lemma rstrip_fixed s :
  (∀ a, str_last s = Some a → isspace a = false) → rstrip s = s.
Proof.
  induction s as [|a s IH]; simpl; [done|]. intros H.
  destruct s as [|b s].
  - simpl. by rewrite (H a).
  - rewrite IH by done. done.
Qed.

Lemma strip_head s a : str_head (strip s) = Some a → isspace a = false.
Proof.
  unfold strip. intros H. destruct (rstrip_head (lstrip s)) as [E|E].
  - congruence.
  - rewrite E in H. eauto using lstrip_head.
Qed.

Lemma strip_last s a : str_last (strip s) = Some a → isspace a = false.
Proof. apply rstrip_last. Qed.

Lemma strip_idemp s : strip (strip s) = strip s.
Proof.
  unfold strip at 1.
  rewrite lstrip_fixed by eauto using strip_head.
  apply rstrip_fixed. eauto using strip_last.
Qed.

Lemma strip_empty_iff s : strip s = "" ↔ all_space s = true.
Proof.
  unfold strip. split.
  - intros H%rstrip_empty. revert H.
    induction s as [|a s IH]; simpl; [done|].
    destruct (isspace a) eqn:Ha; simpl; [auto | by rewrite Ha].
  - intros H. by rewrite lstrip_all_space.
Qed.

(** ** Lemmas: decimal rendering *)

Lemma pow2_spec f : pow2 f = (2 ^ N.of_nat f)%N.
Proof.
  induction f as [|f IH]; [done|].
  rewrite Nat2N.inj_succ, N.pow_succ_r', <- IH. done.
Qed.

Lemma digits_fuel_enough n : (n < pow2 (S (digits_fuel n)))%N.
Proof.
  unfold digits_fuel. rewrite pow2_spec, Nat2N.inj_succ, N2Nat.id.
  destruct (decide (n = 0%N)) as [->|Hn]; [done|].
  apply N.log2_spec. lia.
Qed.

Lemma digit_val_char d : (d < 10)%N → digit_val (digit_char d) = Some d.
Proof.
  intros Hd.
  assert (d = 0 ∨ d = 1 ∨ d = 2 ∨ d = 3 ∨ d = 4 ∨ d = 5 ∨ d = 6 ∨ d = 7
          ∨ d = 8 ∨ d = 9)%N as Hcases by lia.
  destruct_or!; by subst.
Qed.

Lemma is_digit_char d : (d < 10)%N → is_digit (digit_char d) = true.
Proof. intros Hd. unfold is_digit. by rewrite digit_val_char. Qed.

Lemma digits_go_app fuel n acc :
  digits_go fuel n acc = digits_go fuel n "" +:+ acc.
Proof.
  revert n acc. induction fuel as [|f IH]; intros n acc; simpl; [done|].
  case_match; [done|].
  rewrite IH, (IH _ (String _ "")). by simp_str.
Qed.

Lemma digits_go_fuel f1 f2 n acc :
  (n < pow2 (S f1))%N → (n < pow2 (S f2))%N →
  digits_go f1 n acc = digits_go f2 n acc.
Proof.
  revert f2 n acc. induction f1 as [|f1 IH]; intros [|f2] n acc H1 H2;
    cbn [digits_go pow2] in *; try done.
  - rewrite N.div_small by lia. done.
  - destruct (N.eqb_spec (n / 10) 0) as [E|E]; [done|].
    rewrite N.div_small in E by lia. done.
  - destruct (N.eqb_spec (n / 10) 0) as [E|E]; [done|].
    apply IH.
    + assert (n / 10 <= n / 2)%N by (apply N.div_le_compat_l; lia).
      assert (n / 2 < 2 * pow2 f1)%N by (apply N.Div0.div_lt_upper_bound; lia).
      lia.
    + assert (n / 10 <= n / 2)%N by (apply N.div_le_compat_l; lia).
      assert (n / 2 < 2 * pow2 f2)%N by (apply N.Div0.div_lt_upper_bound; lia).
      lia.
Qed.

Lemma digits_go_small f n acc :
  (n < 10)%N → digits_go f n acc = String (digit_char n) acc.
Proof.
  intros Hn. destruct f; simpl; rewrite ?N.div_small, N.mod_small by done; done.
Qed.

Lemma str_nat_small n : (n < 10)%N → str_nat n = String (digit_char n) "".
Proof. apply digits_go_small. Qed.

Lemma str_nat_step n :
  (10 ≤ n)%N →
  str_nat n = str_nat (n / 10) +:+ String (digit_char (n mod 10)) "".
Proof.
  intros Hn. unfold str_nat. pose proof (digits_fuel_enough n) as Hf.
  assert (n / 10 ≠ 0)%N as Hq.
  { intros E%N.div_small_iff; lia. }
  destruct (digits_fuel n) as [|f]; cbn [digits_go pow2] in *; [lia|].
  rewrite (proj2 (N.eqb_neq _ _) Hq), digits_go_app. f_equal.
  apply digits_go_fuel; [|apply digits_fuel_enough].
  assert (n / 10 <= n / 2)%N by (apply N.div_le_compat_l; lia).
  assert (n / 2 < 2 * pow2 f)%N by (apply N.Div0.div_lt_upper_bound; lia).
  cbn [pow2]. lia.
Qed.

(** Induction on the decimal digits of a number. *)
Lemma dec_ind (P : N → Prop) :
  (∀ n, (n < 10)%N → P n) →
  (∀ n, (10 ≤ n)%N → P (n / 10)%N → P n) →
  ∀ n, P n.
Proof.
  intros Hsmall Hstep n.
  induction (N.lt_wf_0 n) as [n _ IH].
  destruct (decide (n < 10)%N); [auto|].
  apply Hstep; [lia|]. apply IH. apply N.div_lt; lia.
Qed.

Lemma all_digits_app s t : all_digits (s +:+ t) = all_digits s && all_digits t.
Proof.
  induction s as [|a s IH]; [done|]. simp_str. simpl. by rewrite IH, andb_assoc.
Qed.

Lemma str_nat_all_digits n : all_digits (str_nat n) = true.
Proof.
  induction n as [n Hn|n Hn IH] using dec_ind.
  - rewrite str_nat_small by done. simpl. by rewrite is_digit_char.
  - rewrite str_nat_step, all_digits_app, IH by done. simpl.
    rewrite is_digit_char; [done|]. by apply N.mod_lt.
Qed.

Lemma str_nat_nonempty n : str_nat n ≠ "".
Proof.
  destruct (decide (n < 10)%N).
  - by rewrite str_nat_small.
  - rewrite str_nat_step by lia. destruct (str_nat (n / 10)); by simp_str.
Qed.

Lemma num_go_app s t a : num_go (s +:+ t) a = num_go s a ≫= num_go t.
Proof.
  revert a. induction s as [|c s IH]; intros a; [done|].
  simp_str. simpl. destruct (digit_val c); simpl; [apply IH | done].
Qed.

Lemma num_go_str_nat n : num_go (str_nat n) 0 = Some n.
Proof.
  induction n as [n Hn|n Hn IH] using dec_ind.
  - rewrite str_nat_small by done. simpl. by rewrite digit_val_char.
  - rewrite str_nat_step, num_go_app, IH by done. simpl.
    rewrite digit_val_char by (by apply N.mod_lt). simpl. f_equal.
    rewrite (N.div_mod n 10) at 3 by done. lia.
Qed.

Lemma nat_of_str_nat n : nat_of_str (str_nat n) = Some n.
Proof.
  unfold nat_of_str. pose proof (str_nat_nonempty n).
  destruct (str_nat n) eqn:E; [done|]. rewrite <- E. apply num_go_str_nat.
Qed.

Lemma str_nat_inj n m : str_nat n = str_nat m → n = m.
Proof.
  intros E. apply (f_equal nat_of_str) in E.
  rewrite !nat_of_str_nat in E. by simplify_eq.
Qed.

Lemma all_digits_char_in c s :
  all_digits s = true → is_digit c = false → char_in c s = false.
Proof.
  intros Hs Hc. induction s as [|a s IH]; [done|]. simpl in *.
  apply andb_true_iff in Hs as [Ha Hs]. rewrite IH by done.
  rewrite bool_decide_eq_false_2; [done|]. intros ->. congruence.
Qed.

Lemma all_digits_head s a :
  all_digits s = true → str_head s = Some a → is_digit a = true.
Proof.
  destruct s as [|b s]; simpl; [done|].
  intros [Hb _]%andb_true_iff [= <-]. done.
Qed.

Lemma str_nat_head_digit n : ∃ a s, str_nat n = String a s ∧ is_digit a = true.
Proof.
  pose proof (str_nat_nonempty n) as Hne.
  pose proof (str_nat_all_digits n) as Hd.
  destruct (str_nat n) as [|a s]; [done|]. exists a, s. split; [done|].
  by eapply all_digits_head.
Qed.

Lemma int_of_str_int z : int_of_str (str_int z) = Some z.
Proof.
  destruct z as [|p|p]; simpl; [done|..].
  - destruct (str_nat_head_digit (Npos p)) as (a & s & E & Ha).
    unfold int_of_str. rewrite E.
    rewrite bool_decide_eq_false_2 by (by intros ->).
    by rewrite <- E, nat_of_str_nat.
  - by rewrite nat_of_str_nat.
Qed.

Lemma str_int_inj z1 z2 : str_int z1 = str_int z2 → z1 = z2.
Proof.
  intros E. apply (f_equal int_of_str) in E.
  rewrite !int_of_str_int in E. by simplify_eq.
Qed.

Lemma str_int_nonempty z : str_int z ≠ "".
Proof. destruct z; simpl; [done| apply str_nat_nonempty | done]. Qed.

(** Only digits and a leading minus sign occur in a rendered integer. *)
Lemma str_int_char_in c z :
  is_digit c = false → c ≠ "-"%char → char_in c (str_int z) = false.
Proof.
  intros Hc Hm. destruct z as [|p|p]; simpl.
  - rewrite bool_decide_eq_false_2; [done|]. by intros <-.
  - by apply all_digits_char_in, Hc; apply str_nat_all_digits.
  - rewrite bool_decide_eq_false_2 by done.
    by apply all_digits_char_in, Hc; apply str_nat_all_digits.
Qed.

Lemma str_opt_int_inj o1 o2 : str_opt_int o1 = str_opt_int o2 → o1 = o2.
Proof.
  destruct o1 as [z1|], o2 as [z2|]; simpl; intros E; try done.
  - by apply str_int_inj in E as ->.
  - apply (f_equal int_of_str) in E. by rewrite int_of_str_int in E.
  - apply (f_equal int_of_str) in E. by rewrite int_of_str_int in E.
Qed.

Lemma str_opt_int_no_underscore o : char_in "_" (str_opt_int o) = false.
Proof. destruct o; [by apply str_int_char_in | done]. Qed.

(** ** Reading back what [str] prints *)

Lemma is_digit_not_space c : is_digit c = true → isspace c = false.
Proof.
  unfold is_digit, digit_val, isspace.
  destruct (_ && _)%N eqn:E; [|done]. intros _.
  apply andb_true_iff in E as [?%N.leb_le ?%N.leb_le].
  repeat (apply orb_false_iff; split); try apply andb_false_iff;
    rewrite ?N.leb_gt, ?N.eqb_neq; lia.
Qed.

Lemma all_digits_last s a : all_digits s = true → str_last s = Some a → is_digit a = true.
Proof.
  induction s as [|b s IH]; simpl; [done|]. intros [Hb Hs]%andb_true_iff.
  destruct s as [|c s]; [by intros [= <-] | by apply IH].
Qed.

Lemma strip_fixed s :
  (∀ a, str_head s = Some a → isspace a = false) →
  (∀ a, str_last s = Some a → isspace a = false) → strip s = s.
Proof. intros Hh Hl. unfold strip. rewrite lstrip_fixed by done. by apply rstrip_fixed. Qed.

(** A string of digits has no whitespace for [strip] to drop. *)
Lemma strip_digits s : all_digits s = true → strip s = s.
Proof.
  intros Hs. apply strip_fixed; intros a Ha;
    eauto using is_digit_not_space, all_digits_last, all_digits_head.
Qed.

(** On digits without underscore [int] reads as Horner's rule does. *)
Lemma num_us_digits s acc prev :
  all_digits s = true → s ≠ "" ∨ prev = true → num_us s acc prev = num_go s acc.
Proof.
  revert acc prev. induction s as [|c s IH]; intros acc prev; simpl.
  - intros _ [?| ->]; done.
  - intros [Hc Hs]%andb_true_iff _. unfold is_digit in Hc.
    rewrite bool_decide_eq_false_2 by (by intros ->).
    destruct (digit_val c) as [d|]; [|done]. simpl. apply IH; auto.
Qed.

Lemma py_int_str_nat n : py_int (str_nat n) = Some (Z.of_N n).
Proof.
  unfold py_int. rewrite strip_digits by apply str_nat_all_digits.
  destruct (str_nat_head_digit n) as (a & s & E & Ha). rewrite E.
  rewrite !bool_decide_eq_false_2 by (by intros ->).
  rewrite <-E, num_us_digits, num_go_str_nat;
    [done | apply str_nat_all_digits | left; apply str_nat_nonempty].
Qed.

(** [int(str(z))] is [z]. *)
Lemma py_int_str_int z : py_int (str_int z) = Some z.
Proof.
  destruct z as [|p|p]; [reflexivity | apply (py_int_str_nat (N.pos p)) |].
  unfold py_int, str_int. rewrite strip_fixed.
  - rewrite bool_decide_eq_true_2 by done.
    rewrite num_us_digits, num_go_str_nat;
      [done | apply str_nat_all_digits | left; apply str_nat_nonempty].
  - by intros a [= <-].
  - intros a Ha. apply is_digit_not_space.
    apply (all_digits_last (str_nat (N.pos p))); [apply str_nat_all_digits|].
    pose proof (str_nat_nonempty (N.pos p)). by destruct (str_nat (N.pos p)).
Qed.

Example str_int_2024 : str_int 2024 = "2024".
Proof. reflexivity. Qed.
Example str_int_neg7 : str_int (-7) = "-7".
Proof. reflexivity. Qed.
Example strip_ex : strip "  The  Pilot
" = "The  Pilot".
Proof. reflexivity. Qed.

Example py_int_ex :
  py_int " 1_000 " = Some 1000%Z ∧ py_int "+5" = Some 5%Z ∧ py_int "-12" = Some (-12)%Z
  ∧ py_int "1__0" = None ∧ py_int "_1" = None ∧ py_int "1_" = None ∧ py_int "7.5" = None.
Proof. repeat split; reflexivity. Qed.
Example lower_ex : lower "YES" = "yes" ∧ lower "On" = "on".
Proof. split; reflexivity. Qed.
