(* ===== verification/Routing.v ===== *)
(** Routing of a request to an endpoint, as the framework under [main.py]
    does it for the paths of the [@app.get] and [@app.post] decorators: a
    path template is compiled to literal pieces and parameters, a
    parameter matches a non-empty run of characters other than the slash,
    and the router takes the first route that matches path and method,
    then the first that matches the path alone, then looks for the path
    with its trailing slash toggled.  The matcher is a backtracking
    function; [matches] says what a template denotes and [preferred]
    which match the regular expression returns, and the two are proved
    to agree. *)

From S2P Require Import Prelude PyStr.

(** ** Path templates *)

Inductive piece :=
| Lit (s : string)
| Param (name : string).

#[export] Instance piece_eq_dec : EqDecision piece.
Proof. solve_decision. Defined.

Definition slash : ascii := "/"%char.
Definition newline : ascii := "010"%char.

Definition lit_piece (s : string) : list piece :=
  match s with "" => [] | _ => [Lit s] end.

(** The template read from left to right: [lit] is the literal text
    since the last parameter, [name] the text since an opening brace.  A
    brace that is not closed is literal text. *)
Fixpoint compile_go (s lit : string) (name : option string) : list piece :=
  match s with
  | "" =>
      match name with
      | None => lit_piece lit
      | Some n => lit_piece (lit +:+ "{" +:+ n)
      end
  | String c s' =>
      match name with
      | None =>
          if Ascii.eqb c "{" then compile_go s' lit (Some "")
          else compile_go s' (lit +:+ String c "") None
      | Some n =>
          if Ascii.eqb c "}" then lit_piece lit ++ Param n :: compile_go s' "" None
          else compile_go s' lit (Some (n +:+ String c ""))
      end
  end.

Definition compile_path (path : string) : list piece := compile_go path "" None.

(** ** Matching a path against a template *)

(** [s] without its prefix [p]. *)
Fixpoint strip_prefix (p s : string) : option string :=
  match p, s with
  | "", _ => Some s
  | String a p', String b s' => if Ascii.eqb a b then strip_prefix p' s' else None
  | String _ _, "" => None
  end.

(** The end of the pattern: the end of the path, or a newline that ends
    it. *)
Definition at_end (s : string) : bool :=
  match s with
  | "" => true
  | String c "" => Ascii.eqb c newline
  | _ => false
  end.

(** A parameter: the longest run of characters other than the slash after
    which the rest of the pattern matches; [acc] is the run read so far
    and [k] matches the rest. *)
Fixpoint match_param {A} (k : string → string → option A) (acc s : string)
    : option A :=
  match s with
  | "" => None
  | String c s' =>
      if Ascii.eqb c slash then None
      else
        let acc' := acc +:+ String c "" in
        match match_param k acc' s' with
        | Some r => Some r
        | None => k acc' s'
        end
  end.

(** The parameters of the path when it matches the pieces. *)
Fixpoint match_pieces (ps : list piece) (s : string)
    : option (list (string * string)) :=
  match ps with
  | [] => if at_end s then Some [] else None
  | Lit l :: ps' =>
      match strip_prefix l s with
      | Some rest => match_pieces ps' rest
      | None => None
      end
  | Param n :: ps' =>
      match_param (λ v rest, cons (n, v) <$> match_pieces ps' rest) "" s
  end.

Definition match_path (template path : string) : option (list (string * string)) :=
  match_pieces (compile_path template) path.

(** ** The reference: what a compiled template denotes *)

(** A path matches a template when it is the literal pieces in order,
    with a non-empty run of characters other than the slash in the place
    of each parameter, up to its end or to a newline that ends it. *)
Inductive matches : list piece → string → list (string * string) → Prop :=
| matches_end s : at_end s = true → matches [] s []
| matches_lit l ps s kv : matches ps s kv → matches (Lit l :: ps) (l +:+ s) kv
| matches_param n ps v s kv :
    str_truthy v = true → char_in slash v = false → matches ps s kv →
    matches (Param n :: ps) (v +:+ s) ((n, v) :: kv).

(** Of the ways in which a path matches, the one that the regular
    expression returns: each parameter, from left to right, takes the
    longest run after which the rest of the template still matches. *)
Inductive preferred : list piece → string → list (string * string) → Prop :=
| preferred_end s : at_end s = true → preferred [] s []
| preferred_lit l ps s kv : preferred ps s kv → preferred (Lit l :: ps) (l +:+ s) kv
| preferred_param n ps v s kv :
    str_truthy v = true → char_in slash v = false → preferred ps s kv →
    (∀ v' s' kv', v +:+ s = v' +:+ s' → char_in slash v' = false →
                  matches ps s' kv' → String.length v' ≤ String.length v) →
    preferred (Param n :: ps) (v +:+ s) ((n, v) :: kv).

(** ** Routes and the router *)

Record route (E : Type) := mkRoute {
  r_path : string;
  r_methods : list string;
  r_endpoint : E;
}.
Arguments mkRoute {E}.
Arguments r_path {E}.
Arguments r_methods {E}.
Arguments r_endpoint {E}.

Inductive matching :=
| MatchNone
| MatchPartial
| MatchFull (params : list (string * string)).

(** A route matches fully when path and method fit, partially when only
    the path does. *)
Definition route_matches {E} (rt : route E) (method path : string) : matching :=
  match match_path (r_path rt) path with
  | None => MatchNone
  | Some ps => if str_in method (r_methods rt) then MatchFull ps else MatchPartial
  end.

Inductive found (E : Type) :=
| Found (rt : route E) (params : list (string * string))
| MethodNotAllowed (rt : route E)
| RedirectSlashes (path : string)
| NotFound.
Arguments Found {E}.
Arguments MethodNotAllowed {E}.
Arguments RedirectSlashes {E}.
Arguments NotFound {E}.

(** The loop over the routes, in the order of their declaration. *)
Fixpoint find_route {E} (routes : list (route E)) (method path : string)
    (partial : option (route E)) : found E :=
  match routes with
  | [] =>
      match partial with
      | Some rt => MethodNotAllowed rt
      | None => NotFound
      end
  | rt :: routes' =>
      match route_matches rt method path with
      | MatchFull ps => Found rt ps
      | MatchPartial =>
          find_route routes' method path
            (match partial with None => Some rt | Some _ => partial end)
      | MatchNone => find_route routes' method path partial
      end
  end.

(** [path.rstrip("/")] *)
Fixpoint rstrip_slash (s : string) : string :=
  match s with
  | "" => ""
  | String a s' =>
      match rstrip_slash s' with
      | "" => if Ascii.eqb a slash then "" else String a ""
      | r => String a r
      end
  end.

Definition endswith_slash (s : string) : bool :=
  match str_last s with
  | Some c => Ascii.eqb c slash
  | None => false
  end.

(** The path with its trailing slashes removed, or with one added. *)
Definition toggle_slash (path : string) : string :=
  if endswith_slash path then rstrip_slash path else path +:+ "/".

Definition path_known {E} (routes : list (route E)) (path : string) : bool :=
  existsb (λ rt, match match_path (r_path rt) path with
                 | Some _ => true
                 | None => false
                 end) routes.

Definition router {E} (routes : list (route E)) (method path : string) : found E :=
  match find_route routes method path None with
  | NotFound =>
      if negb (String.eqb path "/") && path_known routes (toggle_slash path)
      then RedirectSlashes (toggle_slash path)
      else NotFound
  | f => f
  end.

(** ** Lemmas *)

Section routing.
Implicit Types (s t p : string) (c : ascii).

Lemma strip_prefix_spec p s t : strip_prefix p s = Some t ↔ s = p +:+ t.
Proof.
  revert s. induction p as [|a p IH]; intros s; simpl.
  - split; [by intros [= ->] | by intros ->].
  - destruct s as [|b s]; [done|]. destruct (Ascii.eqb_spec a b) as [->|Hne].
    + rewrite IH. split; [by intros -> | by intros [= ->]].
    + split; [done | intros [= ? _]; by subst].
Qed.

Lemma strip_prefix_app p t : strip_prefix p (p +:+ t) = Some t.
Proof. by apply strip_prefix_spec. Qed.

Lemma strip_prefix_None p s : strip_prefix p s = None ↔ startswith s p = false.
Proof.
  rewrite eq_None_not_Some, <-not_true_iff_false, startswith_spec.
  apply not_iff_compat. unfold is_Some. by setoid_rewrite strip_prefix_spec.
Qed.

(** A parameter at the end of a template takes the rest of the path,
    which has to be non-empty and free of slashes. *)
Lemma match_param_last {A} (f : string → A) acc s :
  match_param (λ v rest, if at_end rest then Some (f v) else None) acc s
  = if str_truthy s && negb (char_in slash s) then Some (f (acc +:+ s)) else None.
Proof.
  revert acc. induction s as [|c s IH]; intros acc; simpl; [done|].
  destruct (Ascii.eqb_spec c slash) as [->|Hc]; [by rewrite bool_decide_true|].
  rewrite bool_decide_false by done. simpl.
  rewrite IH. destruct s as [|c' s]; simpl; [done|].
  destruct (negb _) eqn:Hs; [by rewrite str_app_assoc|].
  destruct s as [|c'' s]; simpl; [|done].
  by destruct (Ascii.eqb_spec c' newline) as [->|].
Qed.

Lemma match_param_ext {A} (k k' : string → string → option A) acc s :
  (∀ v rest, k v rest = k' v rest) → match_param k acc s = match_param k' acc s.
Proof.
  intros Hk. revert acc. induction s as [|c s IH]; intros acc; simpl; [done|].
  by rewrite IH, Hk.
Qed.

Lemma match_last_param p n s :
  match_pieces [Lit p; Param n] s
  = match strip_prefix p s with
    | Some v =>
        if str_truthy v && negb (char_in slash v) then Some [(n, v)] else None
    | None => None
    end.
Proof.
  simpl. destruct (strip_prefix p s) as [v|]; [|done].
  etrans; [|apply (match_param_last (λ v, [(n, v)]) "" v)].
  apply match_param_ext. intros v' rest. by destruct (at_end rest).
Qed.

(** A template without parameter matches its own text, with or without a
    final newline. *)
Lemma match_literal p s :
  match_pieces [Lit p] s
  = if String.eqb s p || String.eqb s (p +:+ String newline "") then Some [] else None.
Proof.
  simpl. destruct (strip_prefix p s) as [v|] eqn:Hp.
  - apply strip_prefix_spec in Hp as ->.
    assert (at_end v = true ↔ v = "" ∨ v = String newline "") as Hv.
    { destruct v as [|c [|c' v]]; simpl; [naive_solver| |naive_solver].
      destruct (Ascii.eqb_spec c newline); naive_solver. }
    destruct (String.eqb_spec (p +:+ v) p) as [E|E]; simpl.
    { rewrite (proj2 Hv); [done|]. left. apply (str_app_inv_l p). by rewrite str_app_nil_r. }
    destruct (String.eqb_spec (p +:+ v) (p +:+ String newline "")) as [E'|E'].
    { rewrite (proj2 Hv); [done|]. right. by apply (str_app_inv_l p). }
    destruct (at_end v); [|done].
    destruct (proj1 Hv eq_refl) as [->| ->]; [by rewrite str_app_nil_r in E | done].
  - apply strip_prefix_None in Hp.
    destruct (String.eqb_spec s p) as [->|_].
    { pose proof (startswith_app p "") as E. rewrite str_app_nil_r in E. congruence. }
    simpl. destruct (String.eqb_spec s (p +:+ String newline "")) as [->|_]; [|done].
    by rewrite startswith_app in Hp.
Qed.

End routing.

(** ** The matcher and the reference *)

Section reference.
Implicit Types (s t p v : string) (c : ascii) (ps : list piece).
Implicit Types (kv : list (string * string)).

(** When a parameter does not match, no run of characters does. *)
Lemma match_param_None {A} (k : string → string → option A) acc s v rest :
  match_param k acc s = None → s = v +:+ rest →
  str_truthy v = true → char_in slash v = false → k (acc +:+ v) rest = None.
Proof.
  revert acc v. induction s as [|c s IH]; intros acc [|a v]; simpl; try done.
  intros Hm [= <- ->] _ [Hc Hv]%orb_false_elim. apply bool_decide_eq_false in Hc.
  destruct (Ascii.eqb_spec c slash) as [|_]; [done|].
  destruct (match_param k _ (v +:+ rest)) eqn:Hp; [done|].
  destruct v as [|b v]; [done|].
  rewrite <-(IH _ (String b v) Hp eq_refl eq_refl Hv). by rewrite str_app_assoc.
Qed.

(** When it matches, it took the longest run that does. *)
Lemma match_param_Some {A} (k : string → string → option A) acc s r :
  match_param k acc s = Some r →
  ∃ v rest, s = v +:+ rest ∧ str_truthy v = true ∧ char_in slash v = false
    ∧ k (acc +:+ v) rest = Some r
    ∧ ∀ v' rest', s = v' +:+ rest' → char_in slash v' = false →
        String.length v < String.length v' → k (acc +:+ v') rest' = None.
Proof.
  revert acc. induction s as [|c s IH]; intros acc; simpl; [done|].
  destruct (Ascii.eqb_spec c slash) as [|Hc]; [done|].
  destruct (match_param k _ s) eqn:Hp.
  - intros [= ->]. destruct (IH _ Hp) as (v & rest & -> & Hv & Hs & Hk & Hmax).
    exists (String c v), rest. rewrite str_app_assoc in Hk. split_and!; try done.
    { simpl. by rewrite bool_decide_eq_false_2. }
    intros [|c' v'] rest'; simpl; [lia|]. intros [= <- E] [_ Hv']%orb_false_elim Hl.
    rewrite <-(Hmax v' rest' E Hv') by lia. by rewrite str_app_assoc.
  - intros Hk. exists (String c ""), s. split_and!; try done.
    { simpl. by rewrite bool_decide_eq_false_2. }
    intros [|c' [|b v']] rest'; simpl; try lia. intros [= <- E] [_ Hv']%orb_false_elim _.
    rewrite <-(match_param_None k _ s (String b v') rest' Hp E eq_refl Hv').
    by rewrite str_app_assoc.
Qed.

Lemma preferred_matches ps s kv : preferred ps s kv → matches ps s kv.
Proof. induction 1; by constructor. Qed.

(** A path that matches in the reference is matched. *)
Lemma match_pieces_complete ps s kv : matches ps s kv → is_Some (match_pieces ps s).
Proof.
  induction 1 as [s Hs|l ps s kv _ IH|n ps v s kv Hv Hsl _ [kv' IH]]; simpl.
  - by rewrite Hs.
  - by rewrite strip_prefix_app.
  - apply not_eq_None_Some. intros Hm.
    pose proof (match_param_None _ "" _ v s Hm eq_refl Hv Hsl) as Hk.
    simpl in Hk. by rewrite IH in Hk.
Qed.

(** What is matched is the preferred match of the reference. *)
Lemma match_pieces_preferred ps s kv : match_pieces ps s = Some kv → preferred ps s kv.
Proof.
  revert s kv. induction ps as [|[l|n] ps IH]; intros s kv; simpl.
  - destruct (at_end s) eqn:Hs; [|done]. intros [= <-]. by constructor.
  - destruct (strip_prefix l s) as [rest|] eqn:Hl; [|done].
    apply strip_prefix_spec in Hl as ->. intros ?%IH. by constructor.
  - intros (v & rest & -> & Hv & Hsl & Hk & Hmax)%match_param_Some. simpl in Hk.
    destruct (match_pieces ps rest) as [kv'|] eqn:Hm; [|done]. injection Hk as <-.
    constructor; [done..|by apply IH|]. intros v' s' kv2 E Hv' Hm'.
    apply Nat.nlt_ge. intros Hlt. specialize (Hmax v' s' E Hv' Hlt). simpl in Hmax.
    destruct (match_pieces_complete _ _ _ Hm') as [kv3 E3]. by rewrite E3 in Hmax.
Qed.

Lemma preferred_lit_inv l ps s kv :
  preferred (Lit l :: ps) s kv → ∃ s', s = l +:+ s' ∧ preferred ps s' kv.
Proof. inversion 1; subst; eauto. Qed.

Lemma preferred_param_inv n ps s kv :
  preferred (Param n :: ps) s kv →
  ∃ v s' kv', s = v +:+ s' ∧ kv = (n, v) :: kv' ∧ char_in slash v = false
    ∧ preferred ps s' kv'
    ∧ ∀ v2 s2 kv2, s = v2 +:+ s2 → char_in slash v2 = false → matches ps s2 kv2 →
        String.length v2 ≤ String.length v.
Proof. inversion 1; subst. eexists _, _, _. split_and!; eauto. Qed.

(** The preferred match is unique. *)
Lemma preferred_unique ps s kv1 kv2 :
  preferred ps s kv1 → preferred ps s kv2 → kv1 = kv2.
Proof.
  intros H1. revert kv2.
  induction H1 as [s Hs|l ps s kv _ IH|n ps v s kv Hv Hsl H1 IH Hmax]; intros kv2.
  - by inversion 1.
  - intros (s' & ->%str_app_inv_l & H2)%preferred_lit_inv. by apply IH.
  - intros (v2 & s2 & kv' & E & -> & Hsl2 & H2 & Hmax2)%preferred_param_inv.
    destruct (str_app_inj_length v v2 s s2 E) as [<- <-].
    { apply Nat.le_antisymm.
      - eapply Hmax2; [done..|by apply preferred_matches].
      - eapply Hmax; [done..|by apply preferred_matches]. }
    f_equal. by apply IH.
Qed.

(** The matcher is the reference: it returns the parameters of the
    preferred match, and nothing when the path does not match. *)
Theorem match_pieces_reference ps s kv :
  match_pieces ps s = Some kv ↔ preferred ps s kv.
Proof.
  split; [apply match_pieces_preferred|]. intros Hp.
  destruct (match_pieces_complete ps s kv (preferred_matches _ _ _ Hp)) as [kv' Hm].
  by rewrite Hm, (preferred_unique _ _ _ _ (match_pieces_preferred _ _ _ Hm) Hp).
Qed.

Theorem match_pieces_matches ps s : is_Some (match_pieces ps s) ↔ ∃ kv, matches ps s kv.
Proof.
  split.
  - intros [kv Hm]. exists kv. by apply preferred_matches, match_pieces_preferred.
  - intros [kv Hm]. by eapply match_pieces_complete.
Qed.

End reference.

(** ** The loop over the routes *)

Section router.
Context {E : Type}.
Implicit Types (rt : route E) (routes : list (route E)).

(** The first route that matches path and method is the one found, if
    no route before it does. *)
Lemma find_route_full routes1 rt routes2 method path ps partial :
  Forall (λ rt', ∀ ps', route_matches rt' method path ≠ MatchFull ps') routes1 →
  route_matches rt method path = MatchFull ps →
  find_route (routes1 ++ rt :: routes2) method path partial = Found rt ps.
Proof.
  intros Hf Hm. revert partial.
  induction Hf as [|rt' routes1 Hrt' _ IH]; intros partial; simpl; [by rewrite Hm|].
  destruct (route_matches rt' method path) as [| |ps'] eqn:E'; [done..|].
  by destruct (Hrt' ps').
Qed.

Lemma find_route_skip rt routes method path partial :
  match_path (r_path rt) path = None →
  find_route (rt :: routes) method path partial = find_route routes method path partial.
Proof. intros Hm. simpl. unfold route_matches. by rewrite Hm. Qed.

Lemma find_route_here rt routes method path partial ps :
  route_matches rt method path = MatchFull ps →
  find_route (rt :: routes) method path partial = Found rt ps.
Proof. intros Hm. simpl. by rewrite Hm. Qed.

(** The route that is found, or refused for its method, is one of the
    routes. *)
Lemma find_route_Found routes method path partial rt ps :
  find_route routes method path partial = Found rt ps →
  rt ∈ routes ∧ route_matches rt method path = MatchFull ps.
Proof.
  revert partial. induction routes as [|rt' routes IH]; intros partial; simpl.
  { by destruct partial. }
  destruct (route_matches rt' method path) as [| |ps'] eqn:Hm.
  - intros [? ?]%IH. split; [by right | done].
  - intros [? ?]%IH. split; [by right | done].
  - intros [= <- <-]. split; [by left | done].
Qed.

Lemma router_Found routes method path rt ps :
  router routes method path = Found rt ps →
  rt ∈ routes ∧ route_matches rt method path = MatchFull ps.
Proof.
  unfold router. destruct (find_route routes method path None) eqn:Hf; try done.
  - intros [= <- <-]. by eapply find_route_Found.
  - by destruct (_ && _).
Qed.

(** Where no path matches, no route is found, whatever the method. *)
Lemma find_route_none routes method path :
  Forall (λ rt, match_path (r_path rt) path = None) routes →
  find_route routes method path None = NotFound.
Proof.
  induction 1 as [|rt routes Hrt _ IH]; simpl; [done|].
  unfold route_matches. by rewrite Hrt.
Qed.

Lemma path_known_false routes path :
  Forall (λ rt, match_path (r_path rt) path = None) routes →
  path_known routes path = false.
Proof.
  induction 1 as [|rt routes Hrt _ IH]; simpl; [done|].
  by rewrite IH, Hrt.
Qed.

End router.

Example compile_path_param :
  compile_path "/api/movie/{movie_id}" = [Lit "/api/movie/"; Param "movie_id"].
Proof. reflexivity. Qed.

Example compile_path_two_params :
  compile_path "/{kind}/item-{id}.json"
  = [Lit "/"; Param "kind"; Lit "/item-"; Param "id"; Lit ".json"].
Proof. reflexivity. Qed.

Example match_path_backtracks :
  match_path "/{name}.tar.gz" "/v1.tar.tar.gz" = Some [("name", "v1.tar")].
Proof. reflexivity. Qed.

Example match_path_slash : match_path "/api/movie/{movie_id}" "/api/movie/a/b" = None.
Proof. reflexivity. Qed.

(** The match of [match_path_backtracks] in the reference: the
    parameter cannot be longer, since what is left has to be
    [.tar.gz]. *)
Example match_path_backtracks_preferred :
  preferred (compile_path "/{name}.tar.gz") "/v1.tar.tar.gz" [("name", "v1.tar")].
Proof. by apply match_pieces_reference. Qed.

(** A final newline: the path reaches the route of the path without it,
    and a parameter at the end takes the newline with it. *)
Example match_path_newline :
  match_path "/api/home" ("/api/home" +:+ String newline "") = Some []
  ∧ match_path "/api/movie/{movie_id}" ("/api/movie/m1" +:+ String newline "")
    = Some [("movie_id", "m1" +:+ String newline "")].
Proof. split; reflexivity. Qed.
