(* ===== verification/Keys.v ===== *)
(** Cache keys of [main.py]: the request each endpoint receives, the key
    its handler derives with an f-string, the TTL it passes to [setex], and
    whether it stores a falsy result. *)

From S2P Require Import Prelude PyStr.

(** The body of [POST /api/search]: [page] defaults to 1 and may be sent
    as [null]. *)
Record SearchRequest := mkSearchRequest {
  query : string;
  page : option Z;
}.

Definition SearchRequest_default (q : string) : SearchRequest :=
  {| query := q; page := Some 1%Z |}.

(** What an endpoint is called with. *)
Inductive request :=
| GetHome (page : Z)
| Search (req : SearchRequest)
| GetMovie (movie_id : string)
| GetSeries (series_id : string)
| GetWatch (content_id : string)
| GetCategory (category : string) (page : Z).

#[export] Instance SearchRequest_eq_dec : EqDecision SearchRequest.
Proof. solve_decision. Defined.
#[export] Instance request_eq_dec : EqDecision request.
Proof. solve_decision. Defined.

(** [f"home_page_{page}"] *)
Definition home_key (page : Z) : string := "home_page_" +:+ str_int page.

(** [f"search_{request.query}_{request.page}"] *)
Definition search_key (req : SearchRequest) : string :=
  "search_" +:+ query req +:+ "_" +:+ str_opt_int (page req).

(** [f"movie_{movie_id}"] *)
Definition movie_key (movie_id : string) : string := "movie_" +:+ movie_id.

(** [f"series_{series_id}"] *)
Definition series_key (series_id : string) : string := "series_" +:+ series_id.

(** [f"watch_{content_id}"] *)
Definition watch_key (content_id : string) : string := "watch_" +:+ content_id.

(** [f"category_{category}_{page}"] *)
Definition category_key (category : string) (page : Z) : string :=
  "category_" +:+ category +:+ "_" +:+ str_int page.

Definition cache_key (r : request) : string :=
  match r with
  | GetHome p => home_key p
  | Search req => search_key req
  | GetMovie i => movie_key i
  | GetSeries i => series_key i
  | GetWatch i => watch_key i
  | GetCategory c p => category_key c p
  end.

(** The second argument of each handler's [setex], in seconds. *)
Definition ttl (r : request) : Z :=
  match r with
  | GetHome _ => 3600
  | Search _ => 1800
  | GetMovie _ => 7200
  | GetSeries _ => 7200
  | GetWatch _ => 3600
  | GetCategory _ _ => 3600
  end.

(** Whether the handler stores its result without testing it: the movie,
    series and watch handlers guard [setex] with [if data:]. *)
Definition stores_falsy (r : request) : bool :=
  match r with
  | GetHome _ | Search _ | GetCategory _ _ => true
  | GetMovie _ | GetSeries _ | GetWatch _ => false
  end.

(** ** Injectivity *)

(** Unfold the keys and expose their literal prefixes. *)
Ltac unfold_keys :=
  unfold cache_key, home_key, search_key, movie_key, series_key, watch_key,
    category_key in *;
  repeat rewrite str_app_cons in *; repeat rewrite str_app_nil_l in *.

Lemma search_key_inj r1 r2 : search_key r1 = search_key r2 → r1 = r2.
Proof.
  destruct r1 as [q1 p1], r2 as [q2 p2]. unfold_keys. simpl. intros E.
  simplify_eq.
  apply str_app_sep_inj in E as [-> E]; auto using str_opt_int_no_underscore.
  by apply str_opt_int_inj in E as ->.
Qed.

Lemma category_key_inj c1 p1 c2 p2 :
  category_key c1 p1 = category_key c2 p2 → c1 = c2 ∧ p1 = p2.
Proof.
  unfold_keys. intros E. simplify_eq.
  apply str_app_sep_inj in E as [-> E]; [|by apply str_int_char_in..].
  by apply str_int_inj in E as ->.
Qed.

#[export] Instance cache_key_inj : Inj (=) (=) cache_key.
Proof.
  intros r1 r2. destruct r1, r2; intros E;
    try (by unfold_keys; simplify_eq);
    try (by unfold_keys; simplify_eq; f_equal; apply str_int_inj).
  - by apply search_key_inj in E as ->.
  - by apply category_key_inj in E as [-> ->].
Qed.

(** C5: distinct requests never share a cache key: the six f-strings of
    [main.py] do not collide, within an endpoint (a query or category that
    contains underscores included) or across endpoints. *)
Theorem cache_key_distinct r1 r2 : r1 ≠ r2 → cache_key r1 ≠ cache_key r2.
Proof. intros Hne E. apply Hne. by apply (inj cache_key). Qed.

Lemma cache_key_distinct_witness :
  cache_key (Search (mkSearchRequest "a_1" (Some 2%Z)))
  ≠ cache_key (Search (mkSearchRequest "a" (Some 12%Z))).
Proof. apply cache_key_distinct. intros [=]. Defined.
