(* ===== verification/Json.v ===== *)
(** The values that handlers return and cache: JSON documents as Python
    builds them ([None], [bool], [int], [str], [list], [dict] with string
    keys, in insertion order), Python's truthiness on them, and
    [json.dumps] with its default separators and [ensure_ascii] escapes.
    The [Codec] class is what the handlers need of a value type. *)

From S2P Require Import Prelude PyStr.

Unset Elimination Schemes.
Inductive json :=
| JNull
| JBool (b : bool)
| JInt (z : Z)
| JStr (s : string)
| JList (l : list json)
| JDict (m : list (string * json)).
Set Elimination Schemes.

(** Induction with the hypothesis on every element of a list and on every
    value of a dictionary. *)
Section json_ind.
Variable P : json → Prop.
Hypothesis Hnull : P JNull.
Hypothesis Hbool : ∀ b, P (JBool b).
Hypothesis Hint : ∀ z, P (JInt z).
Hypothesis Hstr : ∀ s, P (JStr s).
Hypothesis Hlist : ∀ l, Forall P l → P (JList l).
Hypothesis Hdict : ∀ m, Forall (λ kv, P kv.2) m → P (JDict m).

Fixpoint json_ind (v : json) : P v :=
  match v with
  | JNull => Hnull
  | JBool b => Hbool b
  | JInt z => Hint z
  | JStr s => Hstr s
  | JList l =>
      Hlist l ((fix go l : Forall P l :=
                  match l with
                  | [] => List.Forall_nil _
                  | x :: l' => List.Forall_cons _ x l' (json_ind x) (go l')
                  end) l)
  | JDict m =>
      Hdict m ((fix go m : Forall (λ kv, P kv.2) m :=
                  match m with
                  | [] => List.Forall_nil _
                  | kv :: m' => List.Forall_cons _ kv m' (json_ind kv.2) (go m')
                  end) m)
  end.
End json_ind.

(** ** Equality *)

Fixpoint json_eqb (a b : json) : bool :=
  match a, b with
  | JNull, JNull => true
  | JBool x, JBool y => bool_decide (x = y)
  | JInt x, JInt y => bool_decide (x = y)
  | JStr x, JStr y => bool_decide (x = y)
  | JList l1, JList l2 =>
      (fix go l1 l2 :=
         match l1, l2 with
         | [], [] => true
         | x :: l1', y :: l2' => json_eqb x y && go l1' l2'
         | _, _ => false
         end) l1 l2
  | JDict m1, JDict m2 =>
      (fix go m1 m2 :=
         match m1, m2 with
         | [], [] => true
         | kx :: m1', ky :: m2' =>
             bool_decide (kx.1 = ky.1) && json_eqb kx.2 ky.2 && go m1' m2'
         | _, _ => false
         end) m1 m2
  | _, _ => false
  end.

(** ** Truthiness *)

(** [bool(v)]: [None], [False], [0], the empty string, list and dict are
    falsy. *)
Definition json_truthy (v : json) : bool :=
  match v with
  | JNull => false
  | JBool b => b
  | JInt z => negb (z =? 0)%Z
  | JStr s => str_truthy s
  | JList l => match l with [] => false | _ => true end
  | JDict m => match m with [] => false | _ => true end
  end.

(** ** [json.dumps] *)

Definition dquote : ascii := "034"%char.

(** Lower-case hexadecimal digit. *)
Definition hex_char (n : N) : ascii :=
  if (n <? 10)%N then ascii_of_N (48 + n) else ascii_of_N (87 + n).

(** One character of a string literal: the quote and the backslash are
    escaped, the usual controls have short escapes, printable ASCII stands
    for itself, and every other code point is written [\u00XX]. *)
Definition escape_char (c : ascii) : string :=
  let n := N_of_ascii c in
  if (n =? 34)%N then String "\" (String c "")
  else if (n =? 92)%N then "\\"
  else if (n =? 10)%N then "\n"
  else if (n =? 13)%N then "\r"
  else if (n =? 9)%N then "\t"
  else if (n =? 8)%N then "\b"
  else if (n =? 12)%N then "\f"
  else if ((32 <=? n) && (n <=? 126))%N then String c ""
  else "\u00" +:+ String (hex_char (n / 16)) (String (hex_char (n mod 16)) "").

Fixpoint escape (s : string) : string :=
  match s with
  | "" => ""
  | String c s' => escape_char c +:+ escape s'
  end.

Definition dumps_str (s : string) : string :=
  String dquote (escape s +:+ String dquote "").

Definition dumps_member (dumps : json → string) (kv : string * json) : string :=
  dumps_str kv.1 +:+ ": " +:+ dumps kv.2.

Fixpoint dumps (v : json) : string :=
  match v with
  | JNull => "null"
  | JBool true => "true"
  | JBool false => "false"
  | JInt z => str_int z
  | JStr s => dumps_str s
  | JList l => "[" +:+ str_join ", " (map dumps l) +:+ "]"
  | JDict m => "{" +:+ str_join ", " (map (dumps_member dumps) m) +:+ "}"
  end.

(** ** What a handler needs of its values *)

(** A value type with Python truthiness and a serialization whose output
    is never empty and reads back as the value. *)
Class Codec (V : Type) := {
  truthy : V → bool;
  encode : V → string;
  decode : string → option V;
  decode_encode : ∀ v, decode (encode v) = Some v;
  encode_truthy : ∀ v, str_truthy (encode v) = true;
}.

(** ** Lemmas *)

Lemma json_eqb_eq a b : json_eqb a b = true ↔ a = b.
Proof.
  revert b. induction a as [|x|x|x|l IH|m IH] using json_ind;
    intros [|y|y|y|l2|m2]; simpl; try (split; done);
    rewrite ?bool_decide_eq_true; try (split; congruence).
  - revert l2. induction IH as [|x l Hx _ IHl]; intros [|y l2];
      try (split; done).
    rewrite andb_true_iff, Hx, IHl. split; [intros [-> [=]]|intros [=]]; by subst.
  - revert m2. induction IH as [|[k x] m Hx _ IHm]; intros [|[k2 y] m2];
      try (split; done).
    rewrite !andb_true_iff, bool_decide_eq_true, Hx, IHm. simpl.
    split; [intros [[-> ->] [=]]|intros [=]]; by subst.
Qed.

#[export] Instance json_eq_dec : EqDecision json.
Proof.
  refine (λ a b, cast_if (decide (json_eqb a b = true)));
    abstract (by rewrite <- json_eqb_eq).
Defined.

Lemma dumps_str_truthy s : str_truthy (dumps_str s) = true.
Proof. done. Qed.

Lemma dumps_truthy v : str_truthy (dumps v) = true.
Proof.
  destruct v as [|[]|z| | |]; try done.
  simpl. pose proof (str_int_nonempty z). by destruct (str_int z).
Qed.

Example dumps_home_stub :
  dumps (JDict [("sections", JList []); ("featured", JList [])])
  = String "{" (dumps_str "sections" +:+ ": [], "
                +:+ dumps_str "featured" +:+ ": []}").
Proof. reflexivity. Qed.
