(* ===== verification/JsonParse.v ===== *)
(** [json.loads] on the values of [Json]: a recursive-descent reader with
    fuel, and the proof that it reads back what [dumps] writes. *)

From S2P Require Import Prelude PyStr Json.

(** ** The reader *)

(** JSON whitespace: space, tab, line feed, carriage return. *)
Definition is_ws (c : ascii) : bool :=
  let n := N_of_ascii c in ((n =? 32) || (n =? 9) || (n =? 10) || (n =? 13))%N.

Fixpoint skip_ws (s : string) : string :=
  match s with
  | String c s' => if is_ws c then skip_ws s' else s
  | "" => ""
  end.

(** The rest of [s] after the character [c], if [s] starts with it. *)
Definition eat (c : ascii) (s : string) : option string :=
  match s with
  | String a r => if bool_decide (a = c) then Some r else None
  | "" => None
  end.

Fixpoint str_drop (n : nat) (s : string) : string :=
  match n, s with
  | S n', String _ s' => str_drop n' s'
  | _, _ => s
  end.

(** A keyword [p] standing for the value [v]. *)
Definition literal (p : string) (v : json) (s : string) : option (json * string) :=
  if startswith s p then Some (v, str_drop (String.length p) s) else None.

Definition hex_val (c : ascii) : option N :=
  let n := N_of_ascii c in
  if ((48 <=? n) && (n <=? 57))%N then Some (n - 48)%N
  else if ((97 <=? n) && (n <=? 102))%N then Some (n - 87)%N
  else if ((65 <=? n) && (n <=? 70))%N then Some (n - 55)%N
  else None.

(** The character that a one-letter escape stands for. *)
Definition unescape (e : ascii) : option ascii :=
  let n := N_of_ascii e in
  if ((n =? 34) || (n =? 92) || (n =? 47))%N then Some e
  else if (n =? 98)%N then Some "008"%char
  else if (n =? 102)%N then Some "012"%char
  else if (n =? 110)%N then Some "010"%char
  else if (n =? 114)%N then Some "013"%char
  else if (n =? 116)%N then Some "009"%char
  else None.

(** Four hexadecimal digits of a [\u] escape; code points from 256 on are
    outside the modelled strings. *)
Definition parse_u4 (s : string) : option (ascii * string) :=
  match s with
  | String h1 (String h2 (String h3 (String h4 r))) =>
      a ← hex_val h1; b ← hex_val h2; c ← hex_val h3; d ← hex_val h4;
      let code := (((a * 16 + b) * 16 + c) * 16 + d)%N in
      if (code <? 256)%N then Some (ascii_of_N code, r) else None
  | _ => None
  end.

Definition cons_fst (c : ascii) (p : string * string) : string * string :=
  (String c p.1, p.2).

(** The characters of a string literal after its opening quote, up to the
    closing quote.  Raw control characters are refused. *)
Fixpoint parse_str (s : string) : option (string * string) :=
  match s with
  | "" => None
  | String c s' =>
      if bool_decide (c = dquote) then Some ("", s')
      else if bool_decide (c = "\"%char) then
        match s' with
        | "" => None
        | String e s'' =>
            match unescape e with
            | Some ch => cons_fst ch <$> parse_str s''
            | None =>
                if bool_decide (e = "u"%char) then
                  match s'' with
                  | String h1 (String h2 (String h3 (String h4 r))) =>
                      '(ch, _) ← parse_u4 s''; cons_fst ch <$> parse_str r
                  | _ => None
                  end
                else None
            end
        end
      else if (N_of_ascii c <? 32)%N then None
      else cons_fst c <$> parse_str s'
  end.

Fixpoint take_digits (s : string) : string * string :=
  match s with
  | String c s' =>
      if is_digit c then cons_fst c (take_digits s') else ("", s)
  | "" => ("", "")
  end.

(** A fraction or an exponent follows: the number is a float. *)
Definition float_follows (s : string) : bool :=
  match s with
  | String c _ => bool_decide (c = "."%char) || bool_decide (c = "e"%char)
                  || bool_decide (c = "E"%char)
  | "" => false
  end.

(** [0|[1-9][0-9]*], refusing a fraction or an exponent after it. *)
Definition parse_nat (s : string) : option (N * string) :=
  match s with
  | String c s' =>
      if bool_decide (c = "0"%char) then
        if float_follows s' then None else Some (0%N, s')
      else
        let '(d, r) := take_digits s in
        match d with
        | "" => None
        | _ => if float_follows r then None else n ← num_go d 0; Some (n, r)
        end
  | "" => None
  end.

Definition parse_int (s : string) : option (Z * string) :=
  match s with
  | String c s' =>
      if bool_decide (c = "-"%char)
      then '(n, r) ← parse_nat s'; Some ((- Z.of_N n)%Z, r)
      else '(n, r) ← parse_nat s; Some (Z.of_N n, r)
  | "" => None
  end.

(** One unit of fuel is spent on each call. *)
Fixpoint parse_value (fuel : nat) (s : string) : option (json * string) :=
  match fuel with
  | O => None
  | S f =>
      match skip_ws s with
      | "" => None
      | String c s' as s0 =>
          if bool_decide (c = "n"%char) then literal "null" JNull s0
          else if bool_decide (c = "t"%char) then literal "true" (JBool true) s0
          else if bool_decide (c = "f"%char) then literal "false" (JBool false) s0
          else if bool_decide (c = dquote) then
            '(str, r) ← parse_str s'; Some (JStr str, r)
          else if bool_decide (c = "["%char) then
            match eat "]" (skip_ws s') with
            | Some r => Some (JList [], r)
            | None => '(l, r) ← parse_elems f s'; Some (JList l, r)
            end
          else if bool_decide (c = "{"%char) then
            match eat "}" (skip_ws s') with
            | Some r => Some (JDict [], r)
            | None => '(m, r) ← parse_members f s'; Some (JDict m, r)
            end
          else '(z, r) ← parse_int s0; Some (JInt z, r)
      end
  end
with parse_elems (fuel : nat) (s : string) : option (list json * string) :=
  match fuel with
  | O => None
  | S f =>
      '(v, r) ← parse_value f s;
      match eat "," (skip_ws r) with
      | Some r' => '(l, r'') ← parse_elems f r'; Some (v :: l, r'')
      | None => r' ← eat "]" (skip_ws r); Some ([v], r')
      end
  end
with parse_members (fuel : nat) (s : string)
    : option (list (string * json) * string) :=
  match fuel with
  | O => None
  | S f =>
      s1 ← eat dquote (skip_ws s);
      '(k, r) ← parse_str s1;
      r1 ← eat ":" (skip_ws r);
      '(v, r2) ← parse_value f r1;
      match eat "," (skip_ws r2) with
      | Some r3 => '(m, r4) ← parse_members f r3; Some ((k, v) :: m, r4)
      | None => r3 ← eat "}" (skip_ws r2); Some ([(k, v)], r3)
      end
  end.

(** [json.loads s]: one value, then only whitespace. *)
Definition loads (s : string) : option json :=
  '(v, r) ← parse_value (S (String.length s)) s;
  match skip_ws r with "" => Some v | _ => None end.


(** What may follow a number: anything but a digit, a fraction or an
    exponent. *)
Definition num_end (s : string) : bool :=
  match s with
  | "" => true
  | String c _ => negb (is_digit c) && negb (float_follows s)
  end.

(** The fuel that reading [dumps v] takes. *)
Fixpoint need (v : json) : nat :=
  match v with
  | JList l => S (foldr (λ x n, S (Nat.max (need x) n)) 0 l)
  | JDict m => S (foldr (λ kv n, S (Nat.max (need kv.2) n)) 0 m)
  | _ => 1
  end.

(** The characters a rendered value can start with. *)
Definition val_start (c : ascii) : bool :=
  is_digit c || bool_decide (c ∈ ["n"; "t"; "f"; dquote; "["; "{"; "-"]%char).

Definition need_list (l : list json) : nat :=
  foldr (λ x n, S (Nat.max (need x) n)) 0 l.
Definition need_members (m : list (string * json)) : nat :=
  foldr (λ kv n, S (Nat.max (need kv.2) n)) 0 m.

(** [v] is read back from its rendering, whatever delimiter follows. *)
Definition reads_back (v : json) : Prop :=
  ∀ fuel rest, need v ≤ fuel → num_end rest = true →
    parse_value fuel (dumps v +:+ rest) = Some (v, rest).


(** ** Lemmas: strings *)

Lemma parse_str_escape_char c t :
  parse_str (escape_char c +:+ t) = cons_fst c <$> parse_str t.
Proof. by destruct c as [[] [] [] [] [] [] [] []]. Qed.

Lemma parse_str_escape s rest :
  parse_str (escape s +:+ String dquote rest) = Some (s, rest).
Proof.
  induction s as [|c s IH]; [done|].
  simpl. by rewrite str_app_assoc, parse_str_escape_char, IH.
Qed.

(** ** Lemmas: numbers *)

Lemma take_digits_app d rest :
  all_digits d = true → (∀ c, str_head rest = Some c → is_digit c = false) →
  take_digits (d +:+ rest) = (d, rest).
Proof.
  intros Hd Hr. induction d as [|c d IH]; simp_str.
  - destruct rest as [|c r]; [done|]. simpl. by rewrite (Hr c).
  - simpl in *. apply andb_true_iff in Hd as [-> Hd]. by rewrite IH.
Qed.

Lemma num_end_digit rest c :
  num_end rest = true → str_head rest = Some c → is_digit c = false.
Proof.
  destruct rest as [|a r]; simpl; [done|].
  intros [Ha _]%andb_true_iff [= <-]. by apply negb_true_iff.
Qed.

Lemma num_end_float rest : num_end rest = true → float_follows rest = false.
Proof.
  destruct rest as [|a r]; [done|]. unfold num_end.
  intros [_ H]%andb_true_iff. by apply negb_true_iff.
Qed.

(** No leading zero. *)
Lemma str_nat_head n :
  (0 < n)%N → ∃ c s, str_nat n = String c s ∧ c ≠ "0"%char.
Proof.
  induction n as [n Hn|n Hn IH] using dec_ind; intros Hpos.
  - rewrite str_nat_small by done. eexists _, _. split; [done|].
    assert (n = 1 ∨ n = 2 ∨ n = 3 ∨ n = 4 ∨ n = 5 ∨ n = 6 ∨ n = 7 ∨ n = 8
            ∨ n = 9)%N as Hcases by lia.
    destruct_or!; by subst.
  - destruct IH as (c & s & E & Hc).
    { apply N.div_str_pos. lia. }
    rewrite str_nat_step, E by done. simp_str. eauto.
Qed.

Lemma str_head_app s t c : str_head s = Some c → str_head (s +:+ t) = Some c.
Proof. by destruct s. Qed.

Lemma parse_nat_digits s c d r :
  str_head s = Some c → c ≠ "0"%char →
  take_digits s = (d, r) → d ≠ "" → float_follows r = false →
  parse_nat s = n ← num_go d 0; Some (n, r).
Proof.
  destruct s as [|a s]; [done|]. intros [= ->] Hc Htd Hd Hr. unfold parse_nat.
  rewrite bool_decide_eq_false_2, Htd by done. destruct d; [done|].
  by rewrite Hr.
Qed.

Lemma parse_int_nonneg s c :
  str_head s = Some c → c ≠ "-"%char →
  parse_int s = '(n, r) ← parse_nat s; Some (Z.of_N n, r).
Proof.
  destruct s as [|a s]; [done|]. intros [= ->] Hc. unfold parse_int.
  by rewrite bool_decide_eq_false_2.
Qed.

Lemma parse_nat_str_nat n rest :
  num_end rest = true → parse_nat (str_nat n +:+ rest) = Some (n, rest).
Proof.
  intros Hr. destruct (decide (n = 0%N)) as [->|Hn].
  - simpl. by rewrite num_end_float.
  - destruct (str_nat_head n) as (c & s & E & Hc); [lia|].
    rewrite (parse_nat_digits _ c (str_nat n) rest), num_go_str_nat;
      eauto using str_nat_nonempty, num_end_float.
    + by apply str_head_app; rewrite E.
    + eauto using take_digits_app, str_nat_all_digits, num_end_digit.
Qed.

Lemma parse_int_str_int z rest :
  num_end rest = true → parse_int (str_int z +:+ rest) = Some (z, rest).
Proof.
  intros Hr. destruct z as [|p|p]; simpl.
  - by rewrite num_end_float.
  - destruct (str_nat_head_digit (Npos p)) as (a & s & E & Ha).
    rewrite (parse_int_nonneg _ a), parse_nat_str_nat; try done.
    + by apply str_head_app; rewrite E.
    + by intros ->.
  - simp_str. simpl. by rewrite parse_nat_str_nat.
Qed.

(** ** Lemmas: values *)

Lemma dumps_head v : ∃ c s, dumps v = String c s ∧ val_start c = true.
Proof.
  destruct v as [|[]|z|s|l|m]; try by (eexists _, _).
  destruct z as [|p|p]; try by (eexists _, _).
  destruct (str_nat_head_digit (Npos p)) as (a & s & E & Ha).
  exists a, s. split; [done|]. unfold val_start. by rewrite Ha.
Qed.

Lemma val_start_not_ws c : val_start c = true → is_ws c = false.
Proof. by destruct c as [[] [] [] [] [] [] [] []]. Qed.

Lemma val_start_eat c d s :
  val_start c = true → d ∈ ["]"; "}"; ","; ":"]%char → eat d (String c s) = None.
Proof.
  intros Hc Hd. unfold eat. rewrite bool_decide_eq_false_2; [done|].
  intros ->. revert Hc. rewrite !elem_of_cons, elem_of_nil in Hd.
  by destruct_or!; subst.
Qed.

Lemma skip_ws_val_start c s : val_start c = true → skip_ws (String c s) = String c s.
Proof. intros H. simpl. by rewrite val_start_not_ws. Qed.

Lemma parse_value_S f s :
  parse_value (S f) s =
    match skip_ws s with
    | "" => None
    | String c s' as s0 =>
        if bool_decide (c = "n"%char) then literal "null" JNull s0
        else if bool_decide (c = "t"%char) then literal "true" (JBool true) s0
        else if bool_decide (c = "f"%char) then literal "false" (JBool false) s0
        else if bool_decide (c = dquote) then
          '(str, r) ← parse_str s'; Some (JStr str, r)
        else if bool_decide (c = "["%char) then
          match eat "]" (skip_ws s') with
          | Some r => Some (JList [], r)
          | None => '(l, r) ← parse_elems f s'; Some (JList l, r)
          end
        else if bool_decide (c = "{"%char) then
          match eat "}" (skip_ws s') with
          | Some r => Some (JDict [], r)
          | None => '(m, r) ← parse_members f s'; Some (JDict m, r)
          end
        else '(z, r) ← parse_int s0; Some (JInt z, r)
    end.
Proof. done. Qed.

Lemma parse_elems_S f s :
  parse_elems (S f) s =
    '(v, r) ← parse_value f s;
    match eat "," (skip_ws r) with
    | Some r' => '(l, r'') ← parse_elems f r'; Some (v :: l, r'')
    | None => r' ← eat "]" (skip_ws r); Some ([v], r')
    end.
Proof. done. Qed.

Lemma parse_members_S f s :
  parse_members (S f) s =
    s1 ← eat dquote (skip_ws s);
    '(k, r) ← parse_str s1;
    r1 ← eat ":" (skip_ws r);
    '(v, r2) ← parse_value f r1;
    match eat "," (skip_ws r2) with
    | Some r3 => '(m, r4) ← parse_members f r3; Some ((k, v) :: m, r4)
    | None => r3 ← eat "}" (skip_ws r2); Some ([(k, v)], r3)
    end.
Proof. done. Qed.

Lemma parse_value_ws fuel c s :
  is_ws c = true → parse_value fuel (String c s) = parse_value fuel s.
Proof.
  intros Hc. destruct fuel as [|f]; [done|].
  rewrite !parse_value_S. simpl. by rewrite Hc.
Qed.

Lemma parse_elems_ws fuel c s :
  is_ws c = true → parse_elems fuel (String c s) = parse_elems fuel s.
Proof.
  intros Hc. destruct fuel as [|f]; [done|].
  by rewrite !parse_elems_S, parse_value_ws.
Qed.

Lemma parse_members_ws fuel c s :
  is_ws c = true → parse_members fuel (String c s) = parse_members fuel s.
Proof.
  intros Hc. destruct fuel as [|f]; [done|].
  rewrite !parse_members_S. simpl. by rewrite Hc.
Qed.

(** A number is read by [parse_int]. *)
Lemma parse_value_number f c s :
  is_digit c = true ∨ c = "-"%char →
  parse_value (S f) (String c s)
  = '(z, r) ← parse_int (String c s); Some (JInt z, r).
Proof.
  intros Hc. rewrite parse_value_S.
  assert (val_start c = true) as Hv.
  { unfold val_start. destruct Hc as [->| ->]; [done|]. by rewrite orb_true_r. }
  rewrite skip_ws_val_start by done.
  destruct Hc as [Hc| ->]; [|done].
  by destruct c as [[] [] [] [] [] [] [] []].
Qed.

Lemma parse_elems_dumps l :
  l ≠ [] → Forall reads_back l →
  ∀ fuel rest, need_list l ≤ fuel →
    parse_elems fuel (str_join ", " (map dumps l) +:+ String "]" rest)
    = Some (l, rest).
Proof.
  intros Hne Hall. induction Hall as [|x l Hx _ IH]; [done|].
  intros [|f] rest Hf; unfold need_list in *; simpl in Hf; [lia|].
  rewrite parse_elems_S.
  destruct l as [|y l].
  - simpl. rewrite Hx by (done || lia). done.
  - rewrite map_cons, str_join_cons by done. simp_str.
    rewrite Hx by (done || lia). simpl.
    rewrite parse_elems_ws, IH by (done || lia). done.
Qed.

Lemma parse_members_dumps m :
  m ≠ [] → Forall (λ kv, reads_back kv.2) m →
  ∀ fuel rest, need_members m ≤ fuel →
    parse_members fuel
      (str_join ", " (map (dumps_member dumps) m) +:+ String "}" rest)
    = Some (m, rest).
Proof.
  intros Hne Hall. induction Hall as [|[k x] m Hx _ IH]; [done|].
  simpl in Hx. intros [|f] rest Hf; unfold need_members in *; simpl in Hf; [lia|].
  rewrite parse_members_S.
  destruct m as [|y m].
  - simpl. unfold dumps_member, dumps_str. simpl. simp_str. simpl.
    rewrite parse_str_escape. simpl.
    rewrite parse_value_ws, Hx by (done || lia). done.
  - rewrite map_cons, str_join_cons by done.
    unfold dumps_member at 1, dumps_str. simpl. simp_str. simpl.
    rewrite parse_str_escape. simpl.
    rewrite parse_value_ws, Hx by (done || lia). simpl.
    rewrite parse_members_ws, IH by (done || lia). done.
Qed.

Lemma parse_value_list f s :
  eat "]" (skip_ws s) = None →
  parse_value (S f) (String "[" s) = '(l, r) ← parse_elems f s; Some (JList l, r).
Proof. intros H. rewrite parse_value_S. simpl. by rewrite H. Qed.

Lemma parse_value_dict f s :
  eat "}" (skip_ws s) = None →
  parse_value (S f) (String "{" s)
  = '(m, r) ← parse_members f s; Some (JDict m, r).
Proof. intros H. rewrite parse_value_S. simpl. by rewrite H. Qed.

Lemma str_join_head sep x l t :
  ∃ c s, str_join sep (dumps x :: l) +:+ t = String c s ∧ val_start c = true.
Proof.
  destruct (dumps_head x) as (c & s & E & Hc).
  destruct l; simpl; rewrite E; simp_str; eauto.
Qed.

Lemma str_join_member_head sep kv m t :
  ∃ s, str_join sep (dumps_member dumps kv :: m) +:+ t = String dquote s.
Proof. destruct m; simpl; unfold dumps_member, dumps_str; simp_str; eauto. Qed.

Lemma parse_value_dumps v : reads_back v.
Proof.
  induction v as [|b|z|s|l IH|m IH] using json_ind;
    intros [|f] rest Hf Hr; try (simpl in Hf; lia).
  - done.
  - by destruct b.
  - destruct (dumps_head (JInt z)) as (c & s & E & Hc). simpl in E.
    pose proof (parse_int_str_int z rest Hr) as Hint.
    cbn [dumps]. rewrite E in Hint |- *. simp_str.
    rewrite parse_value_number, Hint; [done|].
    destruct z as [|p|p]; simplify_eq/=; [by left| |by right].
    destruct (str_nat_head_digit (Npos p)) as (a & s' & E' & Ha).
    left. congruence.
  - cbn [dumps]. unfold dumps_str. simp_str. rewrite parse_value_S. simpl.
    by rewrite parse_str_escape.
  - destruct l as [|x l]; [done|]. cbn [dumps]. simp_str.
    rewrite parse_value_list, parse_elems_dumps; try done.
    + unfold need_list. simpl in *. lia.
    + rewrite map_cons.
      destruct (str_join_head ", " x (map dumps l) (String "]" rest))
        as (c & s & -> & Hc).
      rewrite skip_ws_val_start by done. apply val_start_eat; [done|].
      by constructor.
  - destruct m as [|kv m]; [done|]. cbn [dumps]. simp_str.
    rewrite parse_value_dict, parse_members_dumps; try done.
    + unfold need_members. simpl in *. lia.
    + rewrite map_cons.
      by destruct (str_join_member_head ", " kv
                     (map (dumps_member dumps) m) (String "}" rest)) as (s & ->).
Qed.

(** ** The round trip *)

Lemma need_list_cons x l : need_list (x :: l) = S (Nat.max (need x) (need_list l)).
Proof. done. Qed.

Lemma need_members_cons kv m :
  need_members (kv :: m) = S (Nat.max (need kv.2) (need_members m)).
Proof. done. Qed.

Lemma need_list_length l :
  Forall (λ v, need v ≤ String.length (dumps v)) l →
  need_list l ≤ S (String.length (str_join ", " (map dumps l))).
Proof.
  induction 1 as [|x l Hx _ IH]; [by compute; lia|].
  rewrite need_list_cons, map_cons. destruct l as [|y l].
  - change (need_list []) with 0. simpl. lia.
  - rewrite str_join_cons by done. simp_str. cbn [String.length]. lia.
Qed.

Lemma need_members_length m :
  Forall (λ kv, need kv.2 ≤ String.length (dumps kv.2)) m →
  need_members m ≤ S (String.length (str_join ", " (map (dumps_member dumps) m))).
Proof.
  induction 1 as [|kv m Hx _ IH]; [by compute; lia|].
  rewrite need_members_cons, map_cons. destruct m as [|y m].
  - change (need_members []) with 0. simpl. unfold dumps_member.
    simp_str. lia.
  - rewrite str_join_cons by done. unfold dumps_member at 1.
    simp_str. cbn [String.length]. lia.
Qed.

Lemma need_length v : need v ≤ String.length (dumps v).
Proof.
  induction v as [|b|z|s|l IH|m IH] using json_ind.
  - simpl. lia.
  - destruct b; simpl; lia.
  - simpl. pose proof (str_int_nonempty z). destruct (str_int z); [done|].
    simpl. lia.
  - simpl. lia.
  - cbn [need dumps]. simp_str. simpl.
    pose proof (need_list_length l IH). unfold need_list in *. lia.
  - cbn [need dumps]. simp_str. simpl.
    pose proof (need_members_length m IH). unfold need_members in *. lia.
Qed.

(** Reading the rendering of a value gives the value back. *)
Lemma loads_dumps v : loads (dumps v) = Some v.
Proof.
  unfold loads. pose proof (need_length v).
  rewrite <- (str_app_nil_r (dumps v)) at 2.
  rewrite parse_value_dumps by (done || lia). done.
Qed.

#[export] Program Instance json_codec : Codec json := {|
  truthy := json_truthy;
  encode := dumps;
  decode := loads;
|}.
Next Obligation. apply loads_dumps. Qed.
Next Obligation. apply dumps_truthy. Qed.

(** C19: [json.loads] reads back every value that [json.dumps] wrote, so a
    cache entry written by a handler decodes to the value that was
    returned to the first caller. *)
Theorem json_roundtrip v : loads (dumps v) = Some v.
Proof. apply loads_dumps. Qed.

(** Two values with the same encoding in the cache are the same
    value. *)
Theorem encode_inj (v1 v2 : json) :
  encode (Codec := json_codec) v1 = encode v2 → v1 = v2.
Proof.
  simpl. intros E. apply (f_equal loads) in E. rewrite !loads_dumps in E.
  by simplify_eq.
Qed.

Lemma encode_inj_witness : JList [JInt 1; JInt 2] = JList [JInt 1; JInt 2].
Proof. apply (encode_inj (JList [JInt 1; JInt 2]) (JList [JInt 1; JInt 2])). reflexivity. Defined.
