(* ===== verification/Redis.v ===== *)
(** The Redis server behind [redis_client] as the handlers see it: string
    values under string keys, each with an absolute expiry on the server's
    clock, and a connection that may be down.  [redis_get] and
    [redis_setex] are the two commands [main.py] issues; [tick] lets time
    pass and [purge] is the server's removal of expired keys. *)

From stdpp Require Import gmap.
From S2P Require Import Prelude PyStr.

(** A stored value and the instant from which it is gone. *)
Record entry := mkEntry {
  e_value : string;
  e_expires : Z;
}.

Record redis := mkRedis {
  store : gmap string entry;
  now : Z;
  connected : bool;
}.

(** What a command raises: the connection is down, or the server refuses
    the command. *)
Inductive redis_error :=
| ConnectionError
| ResponseError.

#[export] Instance entry_eq_dec : EqDecision entry.
Proof. solve_decision. Defined.
#[export] Instance redis_error_eq_dec : EqDecision redis_error.
Proof. solve_decision. Defined.

(** [redis.Redis(host, port, decode_responses=True)]: a client of a server
    that holds [m] at time [t]. *)
Definition redis_client (m : gmap string entry) (t : Z) : redis :=
  {| store := m; now := t; connected := true |}.

(** An entry is visible until its expiry. *)
Definition live (t : Z) (e : entry) : bool := (t <? e_expires e)%Z.

(** What the server holds under [k] at its current time. *)
Definition visible (r : redis) (k : string) : option string :=
  match store r !! k with
  | Some e => if live (now r) e then Some (e_value e) else None
  | None => None
  end.

(** [redis_client.get(k)]: the value as a [str], or [None]. *)
Definition redis_get (k : string) (r : redis) : result redis_error (option string) :=
  if connected r then Ok (visible r k) else Err ConnectionError.

(** [redis_client.setex(k, ttl, v)]: the server refuses a TTL that is not
    positive. *)
Definition redis_setex (k : string) (ttl : Z) (v : string) (r : redis)
    : result redis_error redis :=
  if negb (connected r) then Err ConnectionError
  else if (ttl <=? 0)%Z then Err ResponseError
  else Ok {| store := <[k := mkEntry v (now r + ttl)]> (store r);
             now := now r; connected := connected r |}.

(** [d] seconds pass. *)
Definition tick (d : Z) (r : redis) : redis :=
  {| store := store r; now := (now r + Z.max 0 d)%Z; connected := connected r |}.

(** The connection goes down or comes back. *)
Definition set_connected (b : bool) (r : redis) : redis :=
  {| store := store r; now := now r; connected := b |}.

(** The server drops the entries that have expired. *)
Definition purge (r : redis) : redis :=
  {| store := filter (λ kv, live (now r) kv.2 = true) (store r);
     now := now r; connected := connected r |}.

(** Two servers that no command can tell apart. *)
Definition redis_equiv (r1 r2 : redis) : Prop :=
  now r1 = now r2 ∧ connected r1 = connected r2
  ∧ ∀ k, visible r1 k = visible r2 k.

Infix "≈r" := redis_equiv (at level 70).

(** ** Lemmas *)

Section redis.
Implicit Types (r : redis) (k : string) (v : string) (ttl d : Z).

Lemma redis_get_connected r k :
  connected r = true → redis_get k r = Ok (visible r k).
Proof. unfold redis_get. by intros ->. Qed.

Lemma redis_get_down r k : connected r = false → redis_get k r = Err ConnectionError.
Proof. unfold redis_get. by intros ->. Qed.

Lemma redis_setex_ok r k ttl v :
  connected r = true → (0 < ttl)%Z →
  redis_setex k ttl v r
  = Ok {| store := <[k := mkEntry v (now r + ttl)]> (store r);
          now := now r; connected := true |}.
Proof.
  unfold redis_setex. intros Hc Ht. rewrite Hc. simpl.
  destruct (Z.leb_spec ttl 0); [lia | done].
Qed.

Lemma redis_setex_inv r k ttl v r' :
  redis_setex k ttl v r = Ok r' →
  connected r = true ∧ (0 < ttl)%Z
  ∧ r' = {| store := <[k := mkEntry v (now r + ttl)]> (store r);
            now := now r; connected := true |}.
Proof.
  unfold redis_setex. destruct (connected r) eqn:Hc; simpl; [|done].
  destruct (Z.leb_spec ttl 0); [done|]. intros [= <-]. split_and!; done || lia.
Qed.

Lemma redis_setex_down r k ttl v :
  connected r = false → redis_setex k ttl v r = Err ConnectionError.
Proof. unfold redis_setex. by intros ->. Qed.

(** What is visible after a [setex]. *)
Lemma visible_setex r r' k k' ttl v :
  redis_setex k ttl v r = Ok r' →
  visible r' k' = if decide (k = k') then Some v else visible r k'.
Proof.
  intros (_ & Ht & ->)%redis_setex_inv. unfold visible. simpl.
  rewrite lookup_insert. case_decide; [|done].
  unfold live. simpl. destruct (Z.ltb_spec (now r) (now r + ttl)); [done | lia].
Qed.

(** Time passing hides an entry when its expiry is reached, and only
    then. *)
Lemma visible_tick r k d :
  visible (tick d r) k =
    match store r !! k with
    | Some e => if (now r + Z.max 0 d <? e_expires e)%Z then Some (e_value e) else None
    | None => None
    end.
Proof. done. Qed.

Lemma visible_tick_None r k d : visible r k = None → visible (tick d r) k = None.
Proof.
  rewrite visible_tick. unfold visible, live.
  destruct (store r !! k) as [e|]; [|done].
  destruct (Z.ltb_spec (now r) (e_expires e)); [done|]. intros _.
  destruct (Z.ltb_spec (now r + Z.max 0 d) (e_expires e)); [lia | done].
Qed.

(** A value written with TTL [ttl] is read back for [ttl] seconds and no
    longer. *)
Lemma visible_setex_tick r r' k ttl v d :
  redis_setex k ttl v r = Ok r' →
  visible (tick d r') k = if (Z.max 0 d <? ttl)%Z then Some v else None.
Proof.
  intros (_ & Ht & ->)%redis_setex_inv. rewrite visible_tick. simpl.
  rewrite lookup_insert_eq. simpl.
  destruct (Z.ltb_spec (Z.max 0 d) ttl), (Z.ltb_spec (now r + Z.max 0 d) (now r + ttl));
    done || lia.
Qed.

Lemma visible_purge r k : visible (purge r) k = visible r k.
Proof.
  unfold visible, purge. simpl.
  destruct (store r !! k) as [e|] eqn:E.
  - destruct (live (now r) e) eqn:L.
    + erewrite map_lookup_filter_Some_2; [by rewrite L | done | done].
    + rewrite map_lookup_filter_None_2; [done|]. right. intros e' ?.
      simplify_eq. simpl. congruence.
  - rewrite map_lookup_filter_None_2; [done|]. by left.
Qed.

(** ** Observational equivalence *)

#[export] Instance redis_equiv_equivalence : Equivalence redis_equiv.
Proof.
  split.
  - by intros r.
  - intros r1 r2 (? & ? & ?). by repeat split.
  - intros r1 r2 r3 (? & ? & H12) (? & ? & H23).
    split_and!; [congruence..|]. intros k. by rewrite H12.
Qed.

Lemma purge_equiv r : purge r ≈r r.
Proof. repeat split. apply visible_purge. Qed.

#[export] Instance redis_get_proper k : Proper (redis_equiv ==> (=)) (redis_get k).
Proof.
  intros r1 r2 (_ & Hc & Hv). unfold redis_get. by rewrite Hc, Hv.
Qed.

End redis.

(** A value written with [setex] is what [get] returns for the next
    [ttl] seconds, and [get] returns nothing from then on. *)
Theorem setex_expires r r' k ttl v d :
  redis_setex k ttl v r = Ok r' →
  redis_get k (tick d r') = Ok (if (Z.max 0 d <? ttl)%Z then Some v else None).
Proof.
  intros H. pose proof (redis_setex_inv _ _ _ _ _ H) as (Hc & _ & Hr).
  rewrite redis_get_connected by (by rewrite Hr).
  by rewrite (visible_setex_tick _ _ _ _ _ _ H).
Qed.

Lemma setex_expires_witness :
  redis_get "k" (tick 3599 (mkRedis (<["k" := mkEntry "v" 3600]> ∅) 0 true))
  = Ok (Some "v").
Proof. apply (setex_expires (redis_client ∅ 0) _ "k" 3600 "v" 3599). reflexivity. Defined.
