(* ===== verification/Effects.v ===== *)
(** What a handler of [main.py] does, as data: a finite tree of Redis
    commands and upstream calls with the continuation after each.  The
    tree is what the handler is; [run] executes it sequentially against a
    resolver, and [Async] executes it piecewise between suspension points.
    The world carries the Redis server and a log of the upstream calls
    made, which the code does not keep but the properties speak of. *)

From stdpp Require Import gmap.
From S2P Require Import Prelude PyStr Keys Json Redis.

(** Exceptions that leave a handler. *)
Inductive exn :=
| RedisError (e : redis_error)
| JSONDecodeError
| TypeError
| UpstreamError (name : string).

#[export] Instance exn_eq_dec : EqDecision exn.
Proof. solve_decision. Defined.

(** A call of one of the six resolver functions. *)
Inductive call :=
| CHome (page : Z)
| CSearch (query : string) (page : option Z)
| CMovie (movie_id : string)
| CSeries (series_id : string)
| CWatch (content_id : string)
| CCategory (category : string) (page : Z).

#[export] Instance call_eq_dec : EqDecision call.
Proof. solve_decision. Defined.

(** The resolver call a request leads to on a miss. *)
Definition call_of (r : request) : call :=
  match r with
  | GetHome p => CHome p
  | Search req => CSearch (query req) (page req)
  | GetMovie i => CMovie i
  | GetSeries i => CSeries i
  | GetWatch i => CWatch i
  | GetCategory c p => CCategory c p
  end.

Section effects.
Context {V : Type}.

(** The upstream collaborator: each function returns a value or raises. *)
Record resolver := mkResolver {
  get_home_content : Z → result exn V;
  perform_search : string → option Z → result exn V;
  get_movie_info : string → result exn V;
  get_series_info : string → result exn V;
  extract_video_sources : string → result exn V;
  get_category_content : string → Z → result exn V;
}.

Definition resolve (R : resolver) (c : call) : result exn V :=
  match c with
  | CHome p => get_home_content R p
  | CSearch q p => perform_search R q p
  | CMovie i => get_movie_info R i
  | CSeries i => get_series_info R i
  | CWatch i => extract_video_sources R i
  | CCategory c p => get_category_content R c p
  end.

(** Handler bodies. *)
Inductive prog (A : Type) : Type :=
| Ret (a : A)
| Raise (e : exn)
| Get (k : string) (cont : option string → prog A)
| Setex (k : string) (ttl : Z) (v : string) (cont : prog A)
| Await (c : call) (cont : V → prog A).
Arguments Ret {A} a.
Arguments Raise {A} e.
Arguments Get {A} k cont.
Arguments Setex {A} k ttl v cont.
Arguments Await {A} c cont.

Fixpoint prog_bind {A B} (f : A → prog B) (p : prog A) : prog B :=
  match p with
  | Ret a => f a
  | Raise e => Raise e
  | Get k cont => Get k (λ o, prog_bind f (cont o))
  | Setex k ttl v cont => Setex k ttl v (prog_bind f cont)
  | Await c cont => Await c (λ v, prog_bind f (cont v))
  end.

(** The operations as one-node programs. *)
Definition get (k : string) : prog (option string) := Get k Ret.
Definition setex (k : string) (ttl : Z) (v : string) : prog () :=
  Setex k ttl v (Ret ()).
Definition await (c : call) : prog V := Await c Ret.

(** The server and the upstream calls made so far, oldest first. *)
Record world := mkWorld {
  w_redis : redis;
  w_log : list call;
}.

Definition with_redis (r : redis) (w : world) : world :=
  {| w_redis := r; w_log := w_log w |}.
Definition logged (c : call) (w : world) : world :=
  {| w_redis := w_redis w; w_log := w_log w ++ [c] |}.

(** Sequential execution: every upstream call is answered at once by [R]
    and no time passes. *)
Fixpoint run {A} (R : resolver) (p : prog A) (w : world) : result exn A * world :=
  match p with
  | Ret a => (Ok a, w)
  | Raise e => (Err e, w)
  | Get k cont =>
      match redis_get k (w_redis w) with
      | Ok o => run R (cont o) w
      | Err e => (Err (RedisError e), w)
      end
  | Setex k ttl v cont =>
      match redis_setex k ttl v (w_redis w) with
      | Ok r' => run R cont (with_redis r' w)
      | Err e => (Err (RedisError e), w)
      end
  | Await c cont =>
      match resolve R c with
      | Ok v => run R (cont v) (logged c w)
      | Err e => (Err e, logged c w)
      end
  end.

End effects.

Arguments resolver V : clear implicits.
Arguments prog V A : clear implicits.
Arguments Ret {V A} a.
Arguments Raise {V A} e.
Arguments Get {V A} k cont.
Arguments Setex {V A} k ttl v cont.
Arguments Await {V A} c cont.

#[export] Instance prog_ret {V} : MRet (prog V) := λ A, Ret.
#[export] Instance prog_mbind {V} : MBind (prog V) := λ A B, prog_bind.

(** ** Lemmas *)

Section run.
Context {V : Type}.
Implicit Types (R : resolver V) (w : world).

Lemma run_bind {A B} R (p : prog V A) (f : A → prog V B) w :
  run R (p ≫= f) w =
    match run R p w with
    | (Ok a, w') => run R (f a) w'
    | (Err e, w') => (Err e, w')
    end.
Proof.
  revert w. induction p as [a|e|k cont IH|k ttl v cont IH|c cont IH];
    intros w; simpl; try done.
  - destruct (redis_get k (w_redis w)); [apply IH | done].
  - destruct (redis_setex k ttl v (w_redis w)); [apply IH | done].
  - destruct (resolve R c); [apply IH | done].
Qed.

Lemma run_get R k w :
  run R (get k) w =
    match redis_get k (w_redis w) with
    | Ok o => (Ok o, w)
    | Err e => (Err (RedisError e), w)
    end.
Proof. simpl. by destruct (redis_get k (w_redis w)). Qed.

Lemma run_setex R k ttl v w :
  run R (setex k ttl v) w =
    match redis_setex k ttl v (w_redis w) with
    | Ok r' => (Ok (), with_redis r' w)
    | Err e => (Err (RedisError e), w)
    end.
Proof. simpl. by destruct (redis_setex k ttl v (w_redis w)). Qed.

Lemma run_await R c w :
  run R (await c) w =
    match resolve R c with
    | Ok v => (Ok v, logged c w)
    | Err e => (Err e, logged c w)
    end.
Proof. simpl. by destruct (resolve R c). Qed.

(** The log only grows. *)
Lemma run_log_prefix {A} R (p : prog V A) w :
  w_log w `prefix_of` w_log (run R p w).2.
Proof.
  revert w. induction p as [a|e|k cont IH|k ttl v cont IH|c cont IH];
    intros w; simpl; try done.
  - destruct (redis_get k (w_redis w)); [apply IH | done].
  - destruct (redis_setex k ttl v (w_redis w)); [|done].
    apply (IH (with_redis _ w)).
  - destruct (resolve R c); simpl.
    + etrans; [|apply IH]. by apply prefix_app_r.
    + by apply prefix_app_r.
Qed.

(** The clock and the connection are not touched by a handler. *)
Lemma run_now {A} R (p : prog V A) w :
  now (w_redis (run R p w).2) = now (w_redis w)
  ∧ connected (w_redis (run R p w).2) = connected (w_redis w).
Proof.
  revert w. induction p as [a|e|k cont IH|k ttl v cont IH|c cont IH];
    intros w; simpl; try done.
  - destruct (redis_get k (w_redis w)); [apply IH | done].
  - destruct (redis_setex k ttl v (w_redis w)) as [r'|] eqn:E; [|done].
    destruct (IH (with_redis r' w)) as [-> ->].
    by apply redis_setex_inv in E as (-> & _ & ->).
  - destruct (resolve R c); [apply (IH _ (logged c w)) | done].
Qed.

End run.

(** Push [run] through the first bind of the goal. *)
Ltac run_bind :=
  match goal with
  | |- context [run ?R (?p ≫= ?f) ?w] => rewrite (run_bind R p f w)
  end.
