(* ===== verification/Handlers.v ===== *)
(** The six cached endpoints of [main.py], written as the code is: key,
    [get], test of the hit, resolver call, guarded [setex], return.
    [read_through] is the one algorithm they all instantiate, and
    [stub_resolver] is the resolver that the file ships. *)

From stdpp Require Import gmap.
From S2P Require Import Prelude PyStr Keys Json JsonParse Redis Effects.

Section handlers.
Context {V : Type} `{!Codec V}.

(** [if cached:] on what [get] returned: [None] and the empty string are
    falsy. *)
Definition cached_truthy (cached : option string) : bool :=
  match cached with Some s => str_truthy s | None => false end.

(** [json.loads(cached)] *)
Definition json_loads (cached : option string) : prog V V :=
  match cached with
  | Some s =>
      match decode s with Some v => Ret v | None => Raise JSONDecodeError end
  | None => Raise TypeError
  end.

(** [json.dumps(data)] *)
Definition json_dumps (data : V) : string := encode data.

(** [GET /api/home] *)
Definition get_home_page (page : Z) : prog V V :=
  let cache_key := home_key page in
  cached ← get cache_key;
  if cached_truthy cached then json_loads cached
  else
    home_data ← await (CHome page);
    setex cache_key 3600 (json_dumps home_data);;
    mret home_data.

(** [POST /api/search] *)
Definition search_content (req : SearchRequest) : prog V V :=
  let cache_key := search_key req in
  cached ← get cache_key;
  if cached_truthy cached then json_loads cached
  else
    search_results ← await (CSearch (query req) (page req));
    setex cache_key 1800 (json_dumps search_results);;
    mret search_results.

(** [GET /api/movie/{movie_id}] *)
Definition get_movie_details (movie_id : string) : prog V V :=
  let cache_key := movie_key movie_id in
  cached ← get cache_key;
  if cached_truthy cached then json_loads cached
  else
    movie_data ← await (CMovie movie_id);
    (if truthy movie_data
     then setex cache_key 7200 (json_dumps movie_data)
     else mret ());;
    mret movie_data.

(** [GET /api/series/{series_id}] *)
Definition get_series_details (series_id : string) : prog V V :=
  let cache_key := series_key series_id in
  cached ← get cache_key;
  if cached_truthy cached then json_loads cached
  else
    series_data ← await (CSeries series_id);
    (if truthy series_data
     then setex cache_key 7200 (json_dumps series_data)
     else mret ());;
    mret series_data.

(** [GET /api/watch/{content_id}] *)
Definition get_video_sources (content_id : string) : prog V V :=
  let cache_key := watch_key content_id in
  cached ← get cache_key;
  if cached_truthy cached then json_loads cached
  else
    sources ← await (CWatch content_id);
    (if truthy sources
     then setex cache_key 3600 (json_dumps sources)
     else mret ());;
    mret sources.

(** [GET /api/category/{category}] *)
Definition get_category (category : string) (page : Z) : prog V V :=
  let cache_key := category_key category page in
  cached ← get cache_key;
  if cached_truthy cached then json_loads cached
  else
    category_data ← await (CCategory category page);
    setex cache_key 3600 (json_dumps category_data);;
    mret category_data.

(** The routing table: the handler a request reaches. *)
Definition handle (r : request) : prog V V :=
  match r with
  | GetHome p => get_home_page p
  | Search req => search_content req
  | GetMovie i => get_movie_details i
  | GetSeries i => get_series_details i
  | GetWatch i => get_video_sources i
  | GetCategory c p => get_category c p
  end.

(** The read-through algorithm with its three parameters: the key, the
    TTL, and whether a falsy result is stored. *)
Definition read_through (r : request) : prog V V :=
  cached ← get (cache_key r);
  if cached_truthy cached then json_loads cached
  else
    data ← await (call_of r);
    (if stores_falsy r || truthy data
     then setex (cache_key r) (ttl r) (json_dumps data)
     else mret ());;
    mret data.

(** The world after a miss that stored [data]. *)
Definition stored (r : request) (data : V) (w : world) : world :=
  {| w_redis :=
       {| store := <[cache_key r :=
                       mkEntry (json_dumps data) (now (w_redis w) + ttl r)]>
                     (store (w_redis w));
          now := now (w_redis w);
          connected := connected (w_redis w) |};
     w_log := w_log w ++ [call_of r] |}.

(** What a handler does in a world, branch by branch. *)
Definition outcome (R : resolver V) (r : request) (w : world)
    : result exn V * world :=
  if negb (connected (w_redis w)) then (Err (RedisError ConnectionError), w)
  else
    let cached := visible (w_redis w) (cache_key r) in
    if cached_truthy cached then
      match cached ≫= decode with
      | Some v => (Ok v, w)
      | None => (Err JSONDecodeError, w)
      end
    else
      match resolve R (call_of r) with
      | Err e => (Err e, logged (call_of r) w)
      | Ok data =>
          if stores_falsy r || truthy data
          then (Ok data, stored r data w)
          else (Ok data, logged (call_of r) w)
      end.

End handlers.

(** The resolver functions at the end of [main.py]. *)
Definition stub_resolver : resolver json := {|
  get_home_content := λ page,
    Ok (JDict [("sections", JList []); ("featured", JList [])]);
  perform_search := λ query page,
    Ok (JDict [("results", JList []); ("total_pages", JInt 0)]);
  get_movie_info := λ movie_id, Ok JNull;
  get_series_info := λ series_id, Ok JNull;
  extract_video_sources := λ content_id, Ok (JList []);
  get_category_content := λ category page,
    Ok (JDict [("items", JList []); ("total_pages", JInt 0)]);
|}.

(** [d] seconds pass between two requests. *)
Definition later (d : Z) (w : world) : world :=
  with_redis (tick d (w_redis w)) w.

(** Every non-empty value that the server shows is the encoding of a
    value: what the handlers rely on when they call [json.loads]. *)
Definition cache_ok {V} `{!Codec V} (w : world) : Prop :=
  ∀ k s, visible (w_redis w) k = Some s → str_truthy s = true →
         ∃ v : V, s = encode v.

(** What happens to the service, one thing after the other: a request
    arrives and is served by the upstream of that moment, time passes,
    the connection to Redis changes, the server drops expired keys. *)
Inductive event {V : Type} :=
| Req (R : resolver V) (r : request)
| Tick (d : Z)
| Conn (b : bool)
| Purge.
Arguments event V : clear implicits.

(** The world after an event and, for a request, its response. *)
Definition serve1 {V} `{!Codec V} (ev : event V) (w : world)
    : option (result exn V) * world :=
  match ev with
  | Req R r => prod_map Some id (run R (handle r) w)
  | Tick d => (None, later d w)
  | Conn b => (None, with_redis (set_connected b (w_redis w)) w)
  | Purge => (None, with_redis (purge (w_redis w)) w)
  end.

(** A history of events; the responses are returned oldest first. *)
Fixpoint serve {V} `{!Codec V} (evs : list (event V)) (w : world)
    : list (result exn V) * world :=
  match evs with
  | [] => ([], w)
  | ev :: evs' =>
      let now := serve1 ev w in
      let rest := serve evs' now.2 in
      (option_list now.1 ++ rest.1, rest.2)
  end.

(** The requests of a history. *)
Definition requests {V} (evs : list (event V)) : list (resolver V * request) :=
  omap (λ ev, match ev with Req R r => Some (R, r) | _ => None end) evs.

(** A response is explained by its request: it is a value, the connection
    error, or the exception of the resolver. *)
Definition explained {V} (Rr : resolver V * request) (res : result exn V) : Prop :=
  ∀ e, res = Err e →
       e = RedisError ConnectionError ∨ resolve Rr.1 (call_of Rr.2) = Err e.

(** Resolvers for the examples: one that answers [v] to every call, one
    that always fails. *)
Definition const_resolver {V} (v : V) : resolver V := {|
  get_home_content := λ _, Ok v;
  perform_search := λ _ _, Ok v;
  get_movie_info := λ _, Ok v;
  get_series_info := λ _, Ok v;
  extract_video_sources := λ _, Ok v;
  get_category_content := λ _ _, Ok v;
|}.

Definition down_resolver {V} : resolver V := {|
  get_home_content := λ _, Err (UpstreamError "unavailable");
  perform_search := λ _ _, Err (UpstreamError "unavailable");
  get_movie_info := λ _, Err (UpstreamError "unavailable");
  get_series_info := λ _, Err (UpstreamError "unavailable");
  extract_video_sources := λ _, Err (UpstreamError "unavailable");
  get_category_content := λ _ _, Err (UpstreamError "unavailable");
|}.

(** A world with a connected, empty server at time 0 and no call made. *)
Definition w0 : world := mkWorld (redis_client ∅ 0) [].

(** ** Lemmas *)

Section lemmas.
Context {V : Type} `{!Codec V}.
Implicit Types (R : resolver V) (r : request) (w : world) (v : V).

Lemma run_json_loads R cached w :
  cached_truthy cached = true →
  run R (json_loads cached) w =
    match cached ≫= decode with
    | Some v => (Ok v, w)
    | None => (Err JSONDecodeError, w)
    end.
Proof.
  destruct cached as [s|]; [|done]. intros _. simpl. by destruct (decode s).
Qed.

Lemma ttl_pos r : (0 < ttl r)%Z.
Proof. by destruct r. Qed.

Lemma run_read_through R r w :
  run R (read_through r) w = outcome R r w.
Proof.
  unfold read_through, outcome.
  run_bind. rewrite run_get. unfold redis_get.
  destruct (connected (w_redis w)) eqn:Hc; simpl; [|done].
  destruct (cached_truthy _) eqn:Ht; [by apply run_json_loads|]. simpl.
  destruct (resolve R (call_of r)) as [data|e]; [|done].
  run_bind. destruct (stores_falsy r || truthy data); [|done].
  rewrite run_setex. simpl. rewrite redis_setex_ok by auto using ttl_pos.
  unfold stored. simpl. by rewrite Hc.
Qed.

(** Sequential execution of a handler, in closed form. *)
Lemma run_handle R r w : run R (handle r) w = outcome R r w.
Proof. rewrite <- run_read_through. by destruct r. Qed.

Lemma cached_truthy_encode v : cached_truthy (Some (encode v)) = true.
Proof. apply encode_truthy. Qed.

Lemma outcome_hit R r w v :
  connected (w_redis w) = true →
  visible (w_redis w) (cache_key r) = Some (encode v) →
  outcome R r w = (Ok v, w).
Proof.
  intros Hc Hv. unfold outcome.
  rewrite Hc, Hv, cached_truthy_encode. simpl. by rewrite decode_encode.
Qed.

Lemma outcome_miss R r w :
  connected (w_redis w) = true →
  cached_truthy (visible (w_redis w) (cache_key r)) = false →
  outcome R r w =
    match resolve R (call_of r) with
    | Err e => (Err e, logged (call_of r) w)
    | Ok data =>
        if stores_falsy r || truthy data
        then (Ok data, stored r data w)
        else (Ok data, logged (call_of r) w)
    end.
Proof. intros Hc Hm. unfold outcome. by rewrite Hc, Hm. Qed.

Lemma outcome_down R r w :
  connected (w_redis w) = false →
  outcome R r w = (Err (RedisError ConnectionError), w).
Proof. intros Hc. unfold outcome. by rewrite Hc. Qed.

(** What is visible after a store. *)
Lemma visible_stored r v w k :
  visible (w_redis (stored r v w)) k
  = if decide (cache_key r = k) then Some (encode v) else visible (w_redis w) k.
Proof.
  unfold visible, stored, live. simpl. rewrite lookup_insert.
  case_decide; [|done]. simpl.
  pose proof (ttl_pos r). by rewrite (proj2 (Z.ltb_lt _ _)) by lia.
Qed.

(** The stored entry stays visible for [ttl r] seconds and no longer. *)
Lemma visible_stored_tick r v w d :
  visible (tick d (w_redis (stored r v w))) (cache_key r)
  = if (Z.max 0 d <? ttl r)%Z then Some (encode v) else None.
Proof.
  rewrite visible_tick. simpl. rewrite lookup_insert_eq. simpl.
  destruct (Z.ltb_spec (Z.max 0 d) (ttl r)),
    (Z.ltb_spec (now (w_redis w) + Z.max 0 d) (now (w_redis w) + ttl r));
    done || lia.
Qed.

Lemma w_redis_later d w : w_redis (later d w) = tick d (w_redis w).
Proof. done. Qed.

Lemma cached_truthy_tick w k d :
  cached_truthy (visible (w_redis w) k) = false →
  cached_truthy (visible (w_redis (later d w)) k) = false.
Proof.
  unfold later. simpl. rewrite visible_tick. unfold visible, live.
  destruct (store (w_redis w) !! k) as [e|]; [|done].
  repeat case_match; simpl; try done. lia.
Qed.

(** A handler leaves the server as it is, or stores one value. *)
Lemma outcome_redis R r w :
  w_redis (outcome R r w).2 = w_redis w
  ∨ ∃ v, (outcome R r w).2 = stored r v w.
Proof. unfold outcome. repeat case_match; simpl; eauto. Qed.

(** ** Properties of one call *)

(** The six handlers are instances of one read-through algorithm,
    parameterised by the key, the TTL and whether falsy results are
    stored. *)
Theorem handle_read_through r : handle r = read_through r.
Proof. by destruct r. Qed.

(** C2: a hit.  When the connection is up and the key holds the encoding
    of [v], the handler returns [v]; the resolver is not called and the
    world is unchanged. *)
Theorem cache_hit R r w v :
  connected (w_redis w) = true →
  visible (w_redis w) (cache_key r) = Some (encode v) →
  run R (handle r) w = (Ok v, w).
Proof. intros. rewrite run_handle. by apply outcome_hit. Qed.

(** C1: a miss that stores.  When the key holds nothing (or the empty
    string), the resolver is called once, its result is returned, and, if
    the endpoint stores falsy results or the result is truthy, its encoding
    is stored under the key with the endpoint's TTL. *)
Theorem cache_miss_stores R r w v :
  connected (w_redis w) = true →
  cached_truthy (visible (w_redis w) (cache_key r)) = false →
  resolve R (call_of r) = Ok v →
  stores_falsy r || truthy v = true →
  run R (handle r) w = (Ok v, stored r v w).
Proof.
  intros Hc Hm Hr Hs. by rewrite run_handle, outcome_miss, Hr, Hs.
Qed.

(** C3: negative results are not stored.  A falsy result of the movie,
    series and watch resolvers is returned and leaves the store as it
    was. *)
Theorem negative_not_stored R r w v :
  connected (w_redis w) = true →
  cached_truthy (visible (w_redis w) (cache_key r)) = false →
  resolve R (call_of r) = Ok v →
  stores_falsy r = false → truthy v = false →
  run R (handle r) w = (Ok v, logged (call_of r) w).
Proof.
  intros Hc Hm Hr Hs Hv. by rewrite run_handle, outcome_miss, Hr, Hs, Hv.
Qed.

(** C4: a second call inside the TTL resolves nothing.  After a miss that
    stored [v], the same request, [d < ttl] seconds later and whatever the
    upstream would now answer, returns [v] again and leaves the world as
    it is: one upstream call in all. *)
Theorem second_call_hits R R' r w v d :
  connected (w_redis w) = true →
  cached_truthy (visible (w_redis w) (cache_key r)) = false →
  resolve R (call_of r) = Ok v →
  stores_falsy r || truthy v = true →
  (d < ttl r)%Z →
  ∃ w1, run R (handle r) w = (Ok v, w1)
        ∧ run R' (handle r) (later d w1) = (Ok v, later d w1)
        ∧ w_log (later d w1) = w_log w ++ [call_of r].
Proof.
  intros Hc Hm Hr Hs Hd. exists (stored r v w).
  rewrite !run_handle, outcome_miss, Hr, Hs by done. split_and!; [done| |done].
  apply outcome_hit; [done|]. rewrite w_redis_later, visible_stored_tick. pose proof (ttl_pos r).
  by rewrite (proj2 (Z.ltb_lt _ _)) by lia.
Qed.

(** A negative result is asked again.  After a falsy movie, series or
    watch result, the next call for the same request calls the resolver
    again and returns what it answers then. *)
Theorem negative_retried R R' r w v v' d :
  connected (w_redis w) = true →
  cached_truthy (visible (w_redis w) (cache_key r)) = false →
  resolve R (call_of r) = Ok v →
  stores_falsy r = false → truthy v = false →
  resolve R' (call_of r) = Ok v' →
  ∃ w1 w2, run R (handle r) w = (Ok v, w1)
           ∧ run R' (handle r) (later d w1) = (Ok v', w2)
           ∧ w_log w2 = w_log w ++ [call_of r; call_of r].
Proof.
  intros Hc Hm Hr Hs Hv Hr'. exists (logged (call_of r) w).
  rewrite !run_handle, (outcome_miss R r w), Hr, Hs, Hv by done. simpl.
  rewrite outcome_miss, Hr', Hs
    by (done || by apply cached_truthy_tick).
  destruct (truthy v'); eexists; (split_and!; [done..|]); simpl;
    by rewrite <- app_assoc.
Qed.

(** An expired entry is a miss.  Once [ttl] seconds have passed since
    the store, the same request calls the resolver again. *)
Theorem expired_entry_misses R R' r w v v' d :
  connected (w_redis w) = true →
  cached_truthy (visible (w_redis w) (cache_key r)) = false →
  resolve R (call_of r) = Ok v →
  stores_falsy r || truthy v = true →
  (ttl r ≤ d)%Z →
  resolve R' (call_of r) = Ok v' →
  ∃ w1 w2, run R (handle r) w = (Ok v, w1)
           ∧ run R' (handle r) (later d w1) = (Ok v', w2)
           ∧ w_log w2 = w_log w ++ [call_of r; call_of r].
Proof.
  intros Hc Hm Hr Hs Hd Hr'. exists (stored r v w).
  rewrite !run_handle, (outcome_miss R r w), Hr, Hs by done.
  rewrite outcome_miss, Hr'; [| exact Hc |].
  - destruct (stores_falsy r || truthy v'); eexists;
      (split_and!; [done..|]); simpl; by rewrite <- app_assoc.
  - rewrite w_redis_later, visible_stored_tick.
    by rewrite (proj2 (Z.ltb_ge _ _)) by lia.
Qed.

(** C32: an upstream failure stores nothing.  The resolver's exception
    leaves the handler as it is, and the server is as before. *)
Theorem upstream_error_propagates R r w e :
  connected (w_redis w) = true →
  cached_truthy (visible (w_redis w) (cache_key r)) = false →
  resolve R (call_of r) = Err e →
  run R (handle r) w = (Err e, logged (call_of r) w).
Proof. intros Hc Hm Hr. by rewrite run_handle, outcome_miss, Hr. Qed.

(** C33: no degradation when Redis is down.  With the connection down the
    handler raises the connection error at its first command: the resolver
    is not called and nothing is returned. *)
Theorem redis_down_fails R r w :
  connected (w_redis w) = false →
  run R (handle r) w = (Err (RedisError ConnectionError), w).
Proof. intros Hc. rewrite run_handle. by apply outcome_down. Qed.

(** A handler writes under its own key only. *)
Theorem handle_frame R r w k :
  k ≠ cache_key r →
  visible (w_redis (run R (handle r) w).2) k = visible (w_redis w) k.
Proof.
  intros Hk. rewrite run_handle.
  destruct (outcome_redis R r w) as [->|[v ->]]; [done|].
  rewrite visible_stored. by rewrite decide_False.
Qed.

(** The handlers keep the store readable. *)
Lemma handle_cache_ok R r w :
  cache_ok w → cache_ok (run R (handle r) w).2.
Proof.
  intros Hok. rewrite run_handle. unfold cache_ok.
  destruct (outcome_redis R r w) as [->|[v ->]]; [done|].
  intros k s. rewrite visible_stored. case_decide; [|by apply Hok].
  intros [= <-] _. eauto.
Qed.

(** On a readable store, [json.loads] does not fail in a handler. *)
Lemma handle_explained R r w :
  cache_ok w → explained (R, r) (run R (handle r) w).1.
Proof.
  intros Hok e. rewrite run_handle. unfold outcome. simpl.
  destruct (connected (w_redis w)); simpl; [|by intros [= <-]; left].
  destruct (visible _ _) as [s|] eqn:Hv; simpl.
  - destruct (str_truthy s) eqn:Hs.
    + destruct (Hok _ _ Hv Hs) as [v ->]. by rewrite decode_encode.
    + repeat case_match; simplify_eq/=; auto.
  - repeat case_match; simplify_eq/=; auto.
Qed.

(** A handler makes at most one upstream call. *)
Lemma handle_log R r w :
  w_log (run R (handle r) w).2 = w_log w
  ∨ w_log (run R (handle r) w).2 = w_log w ++ [call_of r].
Proof. rewrite run_handle. unfold outcome. repeat case_match; simpl; auto. Qed.

Lemma cache_ok_redis w w' :
  (∀ k, visible (w_redis w') k = visible (w_redis w) k ∨ visible (w_redis w') k = None) →
  cache_ok w → cache_ok w'.
Proof.
  intros Hv Hok k s. destruct (Hv k) as [-> | ->]; [apply Hok | done].
Qed.

Lemma serve1_cache_ok ev w : cache_ok w → cache_ok (serve1 ev w).2.
Proof.
  intros Hok. destruct ev as [R r|d|b|]; simpl.
  - by apply handle_cache_ok.
  - apply (cache_ok_redis w); [|done]. intros k. rewrite w_redis_later.
    rewrite visible_tick. unfold visible, live.
    destruct (store (w_redis w) !! k); repeat case_match; auto; lia.
  - apply (cache_ok_redis w); [|done]. by left.
  - apply (cache_ok_redis w); [|done]. intros k. left. apply visible_purge.
Qed.

Lemma serve1_log ev w :
  length (w_log (serve1 ev w).2)
  ≤ length (w_log w) + length (requests [ev]).
Proof.
  destruct ev as [R r|d|b|]; simpl; try lia.
  destruct (handle_log R r w) as [-> | ->]; rewrite ?length_app; simpl; lia.
Qed.

Lemma cache_ok_w0 : cache_ok w0.
Proof. intros k s. unfold visible. simpl. by rewrite lookup_empty. Qed.

(** ** Properties of histories *)

(** C16: the store stays readable.  Starting from a store whose non-empty
    values are encodings (the empty store is one), after any history of
    requests, clock ticks, connection changes and purges, every non-empty
    value the server shows is still the encoding of a value. *)
Theorem serve_cache_ok evs w : cache_ok w → cache_ok (serve evs w).2.
Proof.
  revert w. induction evs as [|ev evs IH]; intros w Hok; [done|].
  simpl. by apply IH, serve1_cache_ok.
Qed.

(** No response is a decoding failure.  In any history that starts
    from a readable store there is one response per request, and each is
    a value, the Redis connection error, or the exception that the
    resolver raised for that request. *)
Theorem serve_explained evs w :
  cache_ok w → Forall2 explained (requests evs) (serve evs w).1.
Proof.
  revert w. induction evs as [|ev evs IH]; intros w Hok; [by constructor|].
  specialize (IH _ (serve1_cache_ok ev w Hok)).
  destruct ev as [R r|d|b|]; simpl in *; try done.
  constructor; [by apply handle_explained | done].
Qed.

(** At most one upstream call per request.  The log of a history
    grows by no more calls than the history has requests. *)
Theorem serve_log_bound evs w :
  length (w_log (serve evs w).2) ≤ length (w_log w) + length (requests evs).
Proof.
  revert w. induction evs as [|ev evs IH]; intros w; simpl; [lia|].
  specialize (IH (serve1 ev w).2). pose proof (serve1_log ev w).
  destruct ev; simpl in *; lia.
Qed.

End lemmas.

(** With the resolvers that the file ships, the movie, series and
    watch endpoints never write to the cache: each answers [null] or the
    empty list, which the guard before [setex] refuses. *)
Theorem stub_never_stores r w :
  stores_falsy r = false →
  w_redis (run stub_resolver (handle r) w).2 = w_redis w.
Proof.
  intros Hs. rewrite run_handle. unfold outcome.
  destruct r; try done; repeat case_match; simplify_eq/=; done.
Qed.

Lemma cache_miss_stores_witness :
  run stub_resolver (handle (GetHome 1)) w0
  = (Ok (JDict [("sections", JList []); ("featured", JList [])]),
     stored (GetHome 1)
       (JDict [("sections", JList []); ("featured", JList [])]) w0).
Proof. apply cache_miss_stores; reflexivity. Defined.

Lemma negative_not_stored_witness :
  run stub_resolver (handle (GetMovie "m1")) w0
  = (Ok JNull, logged (CMovie "m1") w0).
Proof. apply (negative_not_stored stub_resolver (GetMovie "m1")); reflexivity. Defined.

Lemma cache_hit_witness :
  run stub_resolver (handle (GetMovie "m1"))
    (mkWorld (redis_client
                {[ movie_key "m1" := mkEntry (dumps (JDict [("id", JStr "m1")])) 7200 ]}
                100) [])
  = (Ok (JDict [("id", JStr "m1")]),
     mkWorld (redis_client
                {[ movie_key "m1" := mkEntry (dumps (JDict [("id", JStr "m1")])) 7200 ]}
                100) []).
Proof. apply (cache_hit stub_resolver (GetMovie "m1")); reflexivity. Defined.

Lemma stub_never_stores_witness :
  w_redis (run stub_resolver (handle (GetWatch "ep1")) w0).2 = w_redis w0.
Proof. by apply stub_never_stores. Defined.

(** ** The properties at concrete inputs *)

(** The home page as the shipped resolver answers it. *)
Definition home_stub : json :=
  JDict [("sections", JList []); ("featured", JList [])].

Lemma second_call_hits_witness :
  ∃ w1, run stub_resolver (handle (GetHome 1)) w0 = (Ok home_stub, w1)
        ∧ run down_resolver (handle (GetHome 1)) (later 3599 w1)
          = (Ok home_stub, later 3599 w1)
        ∧ w_log (later 3599 w1) = w_log w0 ++ [CHome 1].
Proof.
  apply (second_call_hits stub_resolver down_resolver (GetHome 1) w0 home_stub 3599);
    reflexivity.
Defined.

Lemma negative_retried_witness :
  ∃ w1 w2,
    run stub_resolver (handle (GetMovie "m1")) w0 = (Ok JNull, w1)
    ∧ run (const_resolver (JDict [("id", JStr "m1")])) (handle (GetMovie "m1"))
        (later 5 w1) = (Ok (JDict [("id", JStr "m1")]), w2)
    ∧ w_log w2 = w_log w0 ++ [CMovie "m1"; CMovie "m1"].
Proof.
  apply (negative_retried stub_resolver (const_resolver (JDict [("id", JStr "m1")]))
           (GetMovie "m1") w0 JNull (JDict [("id", JStr "m1")]) 5);
    reflexivity.
Defined.

Lemma expired_entry_misses_witness :
  ∃ w1 w2,
    run stub_resolver (handle (Search (SearchRequest_default "batman"))) w0
      = (Ok (JDict [("results", JList []); ("total_pages", JInt 0)]), w1)
    ∧ run (const_resolver (JList [])) (handle (Search (SearchRequest_default "batman")))
        (later 1800 w1) = (Ok (JList []), w2)
    ∧ w_log w2 = w_log w0 ++ [CSearch "batman" (Some 1%Z); CSearch "batman" (Some 1%Z)].
Proof.
  apply (expired_entry_misses stub_resolver (const_resolver (JList []))
           (Search (SearchRequest_default "batman")) w0
           (JDict [("results", JList []); ("total_pages", JInt 0)]) (JList []) 1800);
    reflexivity || (by vm_compute).
Defined.

Lemma upstream_error_propagates_witness :
  run down_resolver (handle (GetCategory "drama" 2)) w0
  = (Err (UpstreamError "unavailable"), logged (CCategory "drama" 2) w0 : world).
Proof.
  apply (upstream_error_propagates (V:=json) down_resolver (GetCategory "drama" 2) w0);
    reflexivity.
Defined.

Lemma redis_down_fails_witness :
  run stub_resolver (handle (GetHome 1))
    (with_redis (set_connected false (w_redis w0)) w0)
  = (Err (RedisError ConnectionError),
     with_redis (set_connected false (w_redis w0)) w0).
Proof. apply redis_down_fails. reflexivity. Defined.

Lemma handle_frame_witness :
  visible (w_redis (run stub_resolver (handle (GetHome 1)) w0).2) "home_page_2"
  = visible (w_redis w0) "home_page_2".
Proof. apply handle_frame. by vm_compute. Defined.

Lemma serve_cache_ok_witness :
  cache_ok (V:=json)
    (serve [Req stub_resolver (GetHome 1); Tick 4000; Purge;
            Req stub_resolver (GetMovie "m1"); Conn false;
            Req stub_resolver (GetHome 1)] w0).2.
Proof. apply serve_cache_ok, cache_ok_w0. Defined.

Lemma serve_explained_witness :
  Forall2 explained
    (requests [Req stub_resolver (GetHome 1); Conn false;
               Req down_resolver (GetHome 2)])
    (serve [Req stub_resolver (GetHome 1); Conn false;
            Req down_resolver (GetHome 2)] w0).1.
Proof. apply serve_explained, cache_ok_w0. Defined.
