(* ===== verification/Freshness.v ===== *)
(** How old a served value can be.  In a history of requests in which the
    upstream changes its answers from one request to the next, a value
    that a handler of [main.py] returns is what the upstream answered to
    the same request at most one TTL earlier: the handlers store under a
    key that only that request has, with an expiry that Redis enforces,
    and nothing else writes to the store.  In the other direction, an
    entry that a handler stored lasts for its TTL whatever happens, so the
    upstream is not asked twice for the same thing within one TTL. *)

From stdpp Require Import gmap.
From S2P Require Import Prelude PyStr Keys Json JsonParse Redis Effects Handlers.

Section freshness.
Context {V : Type} `{!Codec V}.

(** A request of a history as it was served: the time on the clock of
    Redis, the upstream of that moment, and the response. *)
Record answer := mkAnswer {
  a_time : Z;
  a_resolver : resolver V;
  a_request : request;
  a_response : result exn V;
}.

(** The requests of a history in order, each served in the world that the
    events before it leave. *)
Fixpoint answers (evs : list (event V)) (w : world) : list answer :=
  match evs with
  | [] => []
  | ev :: evs' =>
      match ev with
      | Req R r => [mkAnswer (now (w_redis w)) R r (run R (handle r) w).1]
      | _ => []
      end
      ++ answers evs' (serve1 ev w).2
  end.

(** The value [v] served for [r] at time [t] is fresh: among [asked] there
    is a request for [r], made no later than [t] and less than [ttl r]
    seconds before, to which the upstream of its moment answered [v]. *)
Definition fresh (asked : list answer) (t : Z) (r : request) (v : V) : Prop :=
  ∃ a, a ∈ asked ∧ a_request a = r
       ∧ resolve (a_resolver a) (call_of r) = Ok v
       ∧ (a_time a ≤ t < a_time a + ttl r)%Z.

(** Every entry under the key of a request comes from a request of
    [past]: it holds what the upstream answered then and expires one TTL
    after. *)
Definition sourced (past : list answer) (rd : redis) : Prop :=
  ∀ r e, store rd !! cache_key r = Some e →
    ∃ a v, a ∈ past ∧ a_request a = r
           ∧ resolve (a_resolver a) (call_of r) = Ok v
           ∧ e_value e = encode v
           ∧ e_expires e = (a_time a + ttl r)%Z
           ∧ (a_time a ≤ now rd)%Z.

(** The entry of [r] lasts until [x]: before [x] the store has under the
    key of [r] a non-empty text that does not expire before [x]. *)
Definition lasts (rd : redis) (r : request) (x : Z) : Prop :=
  (now rd < x)%Z →
  ∃ e, store rd !! cache_key r = Some e ∧ str_truthy (e_value e) = true
       ∧ (x ≤ e_expires e)%Z.

End freshness.

Arguments answer V : clear implicits.

(** ** Lemmas *)

Section lemmas.
Context {V : Type} `{!Codec V}.
Implicit Types (R : resolver V) (r : request) (w : world) (v : V)
  (past : list (answer V)) (rd : redis).

(** The responses of the answers are those of the history. *)
Lemma answers_responses evs w : a_response <$> answers evs w = (serve evs w).1.
Proof.
  revert w. induction evs as [|ev evs IH]; intros w; simpl; [done|].
  rewrite fmap_app, IH. by destruct ev.
Qed.

Lemma sourced_mono past past' rd : past ⊆ past' → sourced past rd → sourced past' rd.
Proof.
  intros Hsub Hs r e He. destruct (Hs r e He) as (a & v & Ha & Hrest).
  exists a, v. split; [by apply Hsub | done].
Qed.

Lemma sourced_empty past t : sourced past (redis_client ∅ t).
Proof. intros r e. simpl. by rewrite lookup_empty. Qed.

Lemma sourced_tick past rd d : sourced past rd → sourced past (tick d rd).
Proof.
  intros Hs r e He. destruct (Hs r e He) as (a & v & ? & ? & ? & ? & ? & ?).
  exists a, v. split_and!; try done. simpl. lia.
Qed.

Lemma sourced_connection past rd b : sourced past rd → sourced past (set_connected b rd).
Proof. done. Qed.

Lemma sourced_purge past rd : sourced past rd → sourced past (purge rd).
Proof.
  intros Hs r e He. simpl in He. apply map_lookup_filter_Some in He as [He _].
  exact (Hs r e He).
Qed.

(** A value served from the cache is fresh. *)
Lemma hit_fresh past w r v :
  sourced past (w_redis w) →
  visible (w_redis w) (cache_key r) ≫= decode = Some v →
  fresh past (now (w_redis w)) r v.
Proof.
  intros Hs Hv. unfold visible in Hv.
  destruct (store (w_redis w) !! cache_key r) as [e|] eqn:He; [|done].
  destruct (live _ e) eqn:Hl; [|done]. simpl in Hv.
  destruct (Hs r e He) as (a & v' & Ha & Hr & Hres & Hval & Hexp & Hle).
  rewrite Hval, decode_encode in Hv. injection Hv as <-.
  exists a. split_and!; try done. unfold live in Hl. apply Z.ltb_lt in Hl. lia.
Qed.

(** A handler serves a fresh value from the cache, or the value that the
    upstream answers now. *)
Lemma outcome_fresh past R r w v :
  sourced past (w_redis w) → (outcome R r w).1 = Ok v →
  fresh past (now (w_redis w)) r v ∨ resolve R (call_of r) = Ok v.
Proof.
  intros Hs. unfold outcome. destruct (connected _); simpl; [|done].
  destruct (cached_truthy _).
  - destruct (_ ≫= decode) as [v'|] eqn:Hv; simpl; [|done].
    intros [= <-]. left. by apply hit_fresh.
  - destruct (resolve R (call_of r)) as [data|e]; simpl; [|done].
    destruct (_ || _); simpl; intros [= <-]; by right.
Qed.

(** What the handler stores is sourced by the request it serves. *)
Lemma stored_sourced past R r w v :
  resolve R (call_of r) = Ok v → sourced past (w_redis w) →
  sourced (past ++ [mkAnswer (now (w_redis w)) R r (Ok v)]) (w_redis (stored r v w)).
Proof.
  intros Hr Hs r' e. simpl. rewrite lookup_insert. case_decide as Hk.
  - apply (inj cache_key) in Hk as <-. intros [= <-].
    exists (mkAnswer (now (w_redis w)) R r (Ok v)), v.
    split_and!; try done. apply elem_of_app. right. apply list_elem_of_here.
  - intros He. destruct (Hs r' e He) as (a & v' & Ha & Hrest).
    exists a, v'. split; [|done]. apply elem_of_app. by left.
Qed.

Lemma outcome_sourced past R r w :
  sourced past (w_redis w) →
  sourced (past ++ [mkAnswer (now (w_redis w)) R r (outcome R r w).1])
    (w_redis (outcome R r w).2).
Proof.
  intros Hs. pose proof (λ a, sourced_mono past (past ++ [a]) (w_redis w)
                                 ltac:(set_solver) Hs) as Hw.
  unfold outcome. destruct (connected _); simpl; [|done].
  destruct (cached_truthy _); [by destruct (_ ≫= decode)|].
  destruct (resolve R (call_of r)) as [data|e] eqn:Hr; simpl; [|done].
  destruct (_ || _); simpl; [by apply stored_sourced | done].
Qed.

Lemma fresh_mono asked asked' t r v : asked ⊆ asked' → fresh asked t r v → fresh asked' t r v.
Proof. intros Hsub (a & Ha & Hrest). exists a. split; [by apply Hsub | done]. Qed.

(** In a history, every value served is fresh with respect to the
    requests before the history and those of the history. *)
Lemma answers_fresh evs w past a v :
  sourced past (w_redis w) → a ∈ answers evs w → a_response a = Ok v →
  fresh (past ++ answers evs w) (a_time a) (a_request a) v.
Proof.
  revert w past. induction evs as [|ev evs IH]; intros w past Hs; simpl.
  { by intros ?%elem_of_nil. }
  destruct ev as [R r|d|b|]; simpl.
  - rewrite run_handle. intros [->|Ha]%elem_of_cons Hv; simpl in *.
    + destruct (outcome_fresh past R r w v Hs Hv) as [Hf|Hr].
      * eapply fresh_mono; [|done]. set_solver.
      * exists (mkAnswer (now (w_redis w)) R r (outcome R r w).1).
        pose proof (ttl_pos r). split_and!; simpl; try done; [set_solver | lia].
    + eapply fresh_mono; [|apply (IH _ _ (outcome_sourced past R r w Hs) Ha Hv)].
      rewrite <-app_assoc. done.
  - apply IH. by apply sourced_tick.
  - apply IH. by apply sourced_connection.
  - apply IH. by apply sourced_purge.
Qed.

(** ** How often the upstream is asked *)

Lemma lasts_hit rd r x :
  lasts rd r x → (now rd < x)%Z → cached_truthy (visible rd (cache_key r)) = true.
Proof.
  intros Hl Hx. destruct (Hl Hx) as (e & He & Ht & Hle). unfold visible, live.
  rewrite He. by rewrite (proj2 (Z.ltb_lt _ _)) by lia.
Qed.

Lemma lasts_stored r v w : lasts (w_redis (stored r v w)) r (now (w_redis w) + ttl r).
Proof.
  intros _. eexists. simpl. rewrite lookup_insert_eq. split_and!; [done| |done].
  apply encode_truthy.
Qed.

(** A handler overwrites an entry only when it does not see it: an entry
    that lasts is left alone. *)
Lemma outcome_lasts R r' w r x :
  lasts (w_redis w) r x → lasts (w_redis (outcome R r' w).2) r x.
Proof.
  intros Hl. unfold outcome. destruct (connected _); simpl; [|done].
  destruct (cached_truthy _) eqn:Hm; [by destruct (_ ≫= decode)|].
  destruct (resolve R (call_of r')) as [data|e]; simpl; [|done].
  destruct (_ || _); simpl; [|done]. intros Hx. simpl in Hx.
  destruct (decide (r' = r)) as [->|Hne].
  - by rewrite (lasts_hit _ _ _ Hl Hx) in Hm.
  - destruct (Hl Hx) as (e & He & Hrest). exists e. split; [|done].
    simpl. rewrite lookup_insert_ne; [done|]. by intros ?%(inj cache_key).
Qed.

Lemma serve1_lasts ev w r x :
  lasts (w_redis w) r x → lasts (w_redis (serve1 ev w).2) r x.
Proof.
  intros Hl. destruct ev as [R r'|d|b|]; simpl.
  - rewrite run_handle. by apply outcome_lasts.
  - intros Hx. simpl in Hx. apply Hl. lia.
  - done.
  - intros Hx. destruct (Hl Hx) as (e & He & Ht & Hle). exists e. split; [|done].
    simpl in *. apply map_lookup_filter_Some. split; [done|].
    unfold live. simpl. apply Z.ltb_lt. lia.
Qed.

Lemma serve_lasts evs w r x :
  lasts (w_redis w) r x → lasts (w_redis (serve evs w).2) r x.
Proof.
  revert w. induction evs as [|ev evs IH]; intros w Hl; simpl; [done|].
  by apply IH, serve1_lasts.
Qed.

(** A handler that sees its entry does not call the upstream. *)
Lemma outcome_hit_log R r w :
  cached_truthy (visible (w_redis w) (cache_key r)) = true →
  w_log (outcome R r w).2 = w_log w.
Proof.
  intros Ht. unfold outcome. rewrite Ht.
  destruct (connected _); simpl; [|done]. by destruct (_ ≫= decode).
Qed.

(** C13: the upstream is asked at most once per request and TTL.  After a
    request that missed and stored the answer of the upstream, and
    whatever happens next (other requests, requests for the same thing,
    time passing, the connection lost and back, purges), a request for the
    same thing made less than [ttl] seconds after the first does not call
    the upstream. *)
Theorem upstream_calls_spaced evs R0 R r w v :
  connected (w_redis w) = true →
  cached_truthy (visible (w_redis w) (cache_key r)) = false →
  resolve R0 (call_of r) = Ok v →
  stores_falsy r || truthy v = true →
  let w' := (serve (Req R0 r :: evs) w).2 in
  (now (w_redis w') < now (w_redis w) + ttl r)%Z →
  w_log (run R (handle r) w').2 = w_log w'.
Proof.
  intros Hc Hm Hr Hs. simpl. rewrite !run_handle, outcome_miss, Hr, Hs by done.
  simpl. intros Hx. apply outcome_hit_log.
  eapply lasts_hit; [|done]. apply serve_lasts, lasts_stored.
Qed.

(** C12: a served value is never older than its TTL.  In a history that
    starts with an empty store, with an upstream whose answers may change
    from one request to the next, each value that a handler returns is
    what the upstream answered to a request for the same thing, made in
    the history no later than this one and less than [ttl] seconds
    before. *)
Theorem served_values_fresh evs t a v :
  a ∈ answers evs (mkWorld (redis_client ∅ t) []) → a_response a = Ok v →
  fresh (answers evs (mkWorld (redis_client ∅ t) [])) (a_time a) (a_request a) v.
Proof.
  intros Ha Hv. apply (answers_fresh evs _ [] a v); [|done..].
  apply sourced_empty.
Qed.

End lemmas.

(** ** Witness *)

(** The home page is asked for, the upstream changes, and the page is
    asked for again half an hour later: the second response is the first
    answer of the upstream. *)
Definition changing_upstream : list (event json) :=
  [Req (const_resolver (JStr "old")) (GetHome 1); Tick 1800;
   Req (const_resolver (JStr "new")) (GetHome 1)].

Lemma served_values_fresh_witness :
  fresh (answers changing_upstream w0) 1800 (GetHome 1) (JStr "old").
Proof.
  apply (served_values_fresh changing_upstream 0
           (mkAnswer 1800 (const_resolver (JStr "new")) (GetHome 1) (Ok (JStr "old")))).
  - apply list_elem_of_further, list_elem_of_here.
  - reflexivity.
Defined.

(** The home page is asked for and stored; then a movie is asked for, 59
    minutes pass, the server purges, the connection drops and comes back:
    the home page is still served without a call. *)
Definition eventful_hour : list (event json) :=
  [Req stub_resolver (GetMovie "m1"); Tick 3540; Purge; Conn false;
   Req stub_resolver (GetHome 1); Conn true].

Lemma upstream_calls_spaced_witness :
  w_log (run stub_resolver (handle (GetHome 1))
           (serve (Req stub_resolver (GetHome 1) :: eventful_hour) w0).2).2
  = [CHome 1; CMovie "m1"].
Proof.
  etrans; [apply (upstream_calls_spaced eventful_hour stub_resolver stub_resolver
                    (GetHome 1) w0 home_stub)|]; reflexivity.
Defined.
