(* ===== verification/Contract.v ===== *)
(** The contract of the cache facade, and that the handlers of [main.py]
    implement it.  The contract is a cache of typed values indexed by
    requests: it knows no key, no JSON text and no Redis.  The handlers
    work on strings under string keys; [abstraction] reads a world as a
    cache, and along every history of events the code and the contract
    give the same responses and stay related. *)

From stdpp Require Import gmap.
From S2P Require Import Prelude PyStr Keys Json JsonParse Redis Effects Handlers.

Section contract.
Context {V : Type} `{!Codec V}.

(** For each request the value held and the instant from which it is
    gone, the time, whether the store can be reached, and the calls made
    to the upstream, oldest first. *)
Record cache := mkCache {
  held : request → option (V * Z);
  clock : Z;
  reachable : bool;
  resolved : list call;
}.

(** Two caches that hold the same for every request. *)
#[export] Instance cache_equiv : Equiv cache := λ c1 c2,
  (∀ r, held c1 r = held c2 r) ∧ clock c1 = clock c2
  ∧ reachable c1 = reachable c2 ∧ resolved c1 = resolved c2.

(** The value held for [r] that has not expired. *)
Definition cached (c : cache) (r : request) : option V :=
  match held c r with
  | Some (v, expires) => if (clock c <? expires)%Z then Some v else None
  | None => None
  end.

(** The suppression rule: a falsy result is kept only by the operations
    that keep every result. *)
Definition cacheable (r : request) (v : V) : bool := stores_falsy r || truthy v.

(** The cache after the upstream was called for [r]: with its answer kept
    for [ttl r] seconds, or with nothing kept. *)
Definition remember (r : request) (v : V) (c : cache) : cache :=
  {| held := λ r', if decide (r' = r) then Some (v, clock c + ttl r)%Z else held c r';
     clock := clock c; reachable := reachable c;
     resolved := resolved c ++ [call_of r] |}.

Definition asked (r : request) (c : cache) : cache :=
  {| held := held c; clock := clock c; reachable := reachable c;
     resolved := resolved c ++ [call_of r] |}.

(** Read-through: the value held, or else the answer of the upstream,
    which is kept when it is cacheable.  An exception of the upstream is
    the response and nothing is kept; a store that cannot be reached is an
    error before anything else. *)
Definition read (R : resolver V) (r : request) (c : cache) : result exn V * cache :=
  if negb (reachable c) then (Err (RedisError ConnectionError), c)
  else
    match cached c r with
    | Some v => (Ok v, c)
    | None =>
        match resolve R (call_of r) with
        | Ok v => (Ok v, if cacheable r v then remember r v c else asked r c)
        | Err e => (Err e, asked r c)
        end
    end.

Definition elapse (d : Z) (c : cache) : cache :=
  {| held := held c; clock := (clock c + Z.max 0 d)%Z; reachable := reachable c;
     resolved := resolved c |}.

Definition reach (b : bool) (c : cache) : cache :=
  {| held := held c; clock := clock c; reachable := b; resolved := resolved c |}.

(** The values that have expired are dropped. *)
Definition forget (c : cache) : cache :=
  {| held := λ r,
       match held c r with
       | Some (v, expires) => if (clock c <? expires)%Z then Some (v, expires) else None
       | None => None
       end;
     clock := clock c; reachable := reachable c; resolved := resolved c |}.

(** The contract on an event and on a history. *)
Definition contract1 (ev : event V) (c : cache) : option (result exn V) * cache :=
  match ev with
  | Req R r => prod_map Some id (read R r c)
  | Tick d => (None, elapse d c)
  | Conn b => (None, reach b c)
  | Purge => (None, forget c)
  end.

Fixpoint contract (evs : list (event V)) (c : cache) : list (result exn V) * cache :=
  match evs with
  | [] => ([], c)
  | ev :: evs' =>
      let now := contract1 ev c in
      let rest := contract evs' now.2 in
      (option_list now.1 ++ rest.1, rest.2)
  end.

(** A world read as a cache: under the key of a request, a non-empty text
    that decodes is the value held. *)
Definition abstraction (w : world) : cache :=
  {| held := λ r,
       e ← store (w_redis w) !! cache_key r;
       if str_truthy (e_value e)
       then v ← decode (e_value e); Some (v, e_expires e)
       else None;
     clock := now (w_redis w);
     reachable := connected (w_redis w);
     resolved := w_log w |}.

(** The cache that holds nothing, at time [t] with the calls [l] made. *)
Definition vacant (t : Z) (l : list call) : cache :=
  {| held := λ _, None; clock := t; reachable := true; resolved := l |}.

(** The code implements the contract from [w]: equal responses, related
    states. *)
Definition refines {A} (code : A * world) (spec : A * cache) : Prop :=
  code.1 = spec.1 ∧ abstraction code.2 ≡ spec.2.

End contract.

Arguments cache V : clear implicits.

(** ** Lemmas *)

Section lemmas.
Context {V : Type} `{!Codec V}.
Implicit Types (R : resolver V) (r : request) (w : world) (v : V) (c : cache V).

#[export] Instance cache_equivalence : Equivalence (≡@{cache V}).
Proof.
  split.
  - by intros c.
  - intros c1 c2 (? & ? & ? & ?). by split_and!.
  - intros c1 c2 c3 (H12 & ? & ? & ?) (H23 & ? & ? & ?).
    split_and!; [|congruence..]. intros r. by rewrite H12.
Qed.

#[export] Instance cached_proper : Proper ((≡) ==> (=) ==> (=)) (cached (V:=V)).
Proof. intros c1 c2 (Hh & Hc & _) r ? <-. unfold cached. by rewrite Hh, Hc. Qed.

#[export] Instance remember_proper r v : Proper ((≡) ==> (≡)) (remember r v).
Proof.
  intros c1 c2 (Hh & Hc & Hr & Hl). split_and!; simpl; [|congruence..].
  intros r'. by rewrite Hh, Hc.
Qed.

#[export] Instance asked_proper r : Proper ((≡) ==> (≡)) (asked (V:=V) r).
Proof. intros c1 c2 (Hh & Hc & Hr & Hl). split_and!; simpl; congruence. Qed.

#[export] Instance elapse_proper d : Proper ((≡) ==> (≡)) (elapse (V:=V) d).
Proof. intros c1 c2 (Hh & Hc & Hr & Hl). split_and!; simpl; congruence. Qed.

#[export] Instance reach_proper b : Proper ((≡) ==> (≡)) (reach (V:=V) b).
Proof. intros c1 c2 (Hh & Hc & Hr & Hl). split_and!; simpl; congruence. Qed.

#[export] Instance forget_proper : Proper ((≡) ==> (≡)) (forget (V:=V)).
Proof.
  intros c1 c2 (Hh & Hc & Hr & Hl). split_and!; simpl; [|congruence..].
  intros r. by rewrite Hh, Hc.
Qed.

(** Equivalent caches answer alike and stay equivalent. *)
#[export] Instance read_proper R r :
  Proper ((≡) ==> prod_relation (=) (≡)) (read R r).
Proof.
  intros c1 c2 Hc. unfold read. rewrite <-(cached_proper _ _ Hc r r eq_refl).
  pose proof Hc as (_ & _ & <- & _).
  destruct (negb (reachable c1)); [done|].
  destruct (cached c1 r); [done|].
  destruct (resolve R (call_of r)) as [v|e]; [destruct (cacheable r v)|];
    split; simpl; try done; by rewrite Hc.
Qed.

#[export] Instance contract1_proper ev :
  Proper ((≡) ==> prod_relation (=) (≡)) (contract1 (V:=V) ev).
Proof.
  intros c1 c2 Hc. destruct ev as [R r|d|b|]; simpl.
  - destruct (read_proper R r _ _ Hc) as [Hres Hst]. split; simpl; [by f_equal|done].
  - split; [done|]. simpl. by rewrite Hc.
  - split; [done|]. simpl. by rewrite Hc.
  - split; [done|]. simpl. by rewrite Hc.
Qed.

#[export] Instance contract_proper evs :
  Proper ((≡) ==> prod_relation (=) (≡)) (contract (V:=V) evs).
Proof.
  induction evs as [|ev evs IH]; intros c1 c2 Hc; simpl; [done|].
  destruct (contract1_proper ev _ _ Hc) as [Hres Hst].
  destruct (IH _ _ Hst) as [Hres' Hst']. split; simpl; [congruence | done].
Qed.

(** The value that the contract holds for a request is the non-empty
    text that the server shows under its key, decoded. *)
Lemma cached_abstraction w r :
  cached (abstraction w) r
  = s ← visible (w_redis w) (cache_key r); if str_truthy s then decode s else None.
Proof.
  unfold cached, abstraction, visible, live. simpl.
  destruct (store (w_redis w) !! cache_key r) as [e|]; simpl; [|done].
  destruct (str_truthy (e_value e)) eqn:Hs; simpl; [|by case_match; simpl; rewrite ?Hs].
  destruct (decode (e_value e)) eqn:Hd; simpl; case_match; simpl; by rewrite ?Hs, ?Hd.
Qed.

Lemma abstraction_stored r v w :
  abstraction (stored r v w) ≡ remember r v (abstraction w).
Proof.
  split_and!; try done. intros r'. simpl. rewrite lookup_insert.
  destruct (decide (r' = r)) as [->|Hne].
  - rewrite decide_True by done. simpl. unfold json_dumps.
    by rewrite encode_truthy, decode_encode.
  - rewrite decide_False; [done|]. by intros ?%(inj cache_key).
Qed.

Lemma abstraction_logged r w : abstraction (logged (call_of r) w) ≡ asked r (abstraction w).
Proof. by split_and!. Qed.

(** A miss: the upstream is called, and what the handler stores is what
    the contract keeps. *)
Lemma miss_refined R r w :
  refines
    match resolve R (call_of r) with
    | Err e => (Err e, logged (call_of r) w)
    | Ok data =>
        if stores_falsy r || truthy data
        then (Ok data, stored r data w)
        else (Ok data, logged (call_of r) w)
    end
    match resolve R (call_of r) with
    | Ok v =>
        (Ok v, if cacheable r v then remember r v (abstraction w)
               else asked r (abstraction w))
    | Err e => (Err e, asked r (abstraction w))
    end.
Proof.
  unfold cacheable.
  destruct (resolve R (call_of r)) as [v|e]; [destruct (_ || _)|];
    (split; [done|]); simpl; auto using abstraction_stored, abstraction_logged.
Qed.

(** One call of a handler is one read of the contract. *)
Lemma read_refined R r w :
  cache_ok w → refines (run R (handle r) w) (read R r (abstraction w)).
Proof.
  intros Hok. rewrite run_handle. unfold outcome, read. simpl.
  destruct (connected (w_redis w)); simpl; [|done].
  rewrite cached_abstraction.
  destruct (visible (w_redis w) (cache_key r)) as [s|] eqn:Hv; simpl;
    [|apply miss_refined].
  destruct (str_truthy s) eqn:Hs; simpl; [|apply miss_refined].
  destruct (Hok _ _ Hv Hs) as [v ->]. by rewrite decode_encode.
Qed.

Lemma abstraction_purge w :
  abstraction (with_redis (purge (w_redis w)) w) ≡ forget (abstraction w).
Proof.
  split_and!; try done. intros r. simpl.
  destruct (store (w_redis w) !! cache_key r) as [e|] eqn:He; simpl.
  - destruct (live (now (w_redis w)) e) eqn:Hl.
    + erewrite map_lookup_filter_Some_2; [|done..]. simpl. unfold live in Hl.
      destruct (str_truthy _); [|done]. destruct (decode _); simpl; by rewrite ?Hl.
    + rewrite map_lookup_filter_None_2.
      * unfold live in Hl. destruct (str_truthy _); [|done].
        destruct (decode _); simpl; by rewrite ?Hl.
      * right. intros e' ?. simplify_eq. simpl. congruence.
  - rewrite map_lookup_filter_None_2; [done | by left].
Qed.

(** One event of a history. *)
Lemma contract1_refined ev w :
  cache_ok w → refines (serve1 ev w) (contract1 ev (abstraction w)).
Proof.
  intros Hok. destruct ev as [R r|d|b|]; simpl.
  - destruct (read_refined R r w Hok) as [Hres Hst]. split; simpl; [by f_equal|done].
  - by split; [|split_and!].
  - by split; [|split_and!].
  - split; [done|]. apply abstraction_purge.
Qed.

(** A history of events: the responses are those of the contract and the
    world at the end reads as the cache at the end. *)
Lemma serve_refined evs w :
  cache_ok w → refines (serve evs w) (contract evs (abstraction w)).
Proof.
  revert w. induction evs as [|ev evs IH]; intros w Hok; simpl; [done|].
  destruct (contract1_refined ev w Hok) as [Hres Hst].
  destruct (IH _ (serve1_cache_ok ev w Hok)) as [Hres' Hst'].
  destruct (contract_proper evs _ _ Hst) as [Hres'' Hst''].
  split; simpl; [congruence | by etrans].
Qed.

(** The same from any cache that the world reads as. *)
Lemma serve_refined_from evs w c :
  cache_ok w → abstraction w ≡ c → refines (serve evs w) (contract evs c).
Proof.
  intros [Hres Hst]%(serve_refined evs) Hc.
  destruct (contract_proper evs _ _ Hc) as [Hres' Hst'].
  split; [congruence | by etrans].
Qed.

(** A request served after a history: the handler answers what the
    contract reads from the cache that the history has left. *)
Lemma serve_then_read R r evs w c :
  cache_ok w → abstraction w ≡ c →
  (run R (handle r) (serve evs w).2).1 = (read R r (contract evs c).2).1.
Proof.
  intros Hok Hc. destruct (serve_refined_from evs w c Hok Hc) as [_ Hst].
  assert (cache_ok (serve evs w).2) as Hok'.
  { clear Hst Hc. revert w Hok. induction evs as [|ev evs IH]; intros w Hok; [done|].
    apply IH, serve1_cache_ok, Hok. }
  destruct (read_refined R r _ Hok') as [-> _].
  by destruct (read_proper R r _ _ Hst) as [-> _].
Qed.

Lemma cache_ok_empty t l : cache_ok (V:=V) (mkWorld (redis_client ∅ t) l).
Proof. intros k s. unfold visible. simpl. by rewrite lookup_empty. Qed.

Lemma abstraction_empty t l : abstraction (V:=V) (mkWorld (redis_client ∅ t) l) ≡ vacant t l.
Proof. by split_and!. Qed.

(** The responses depend on the server through the cache alone: what
    lies under other keys, what has no text and what does not decode
    after its expiry change nothing. *)
Lemma responses_depend_on_cache evs w1 w2 :
  cache_ok w1 → cache_ok w2 → abstraction w1 ≡ abstraction w2 →
  (serve evs w1).1 = (serve evs w2).1.
Proof.
  intros [H1 _]%(serve_refined evs) [H2 _]%(serve_refined evs) Heq.
  rewrite H1, H2. by destruct (contract_proper evs _ _ Heq).
Qed.

(** C6: the handlers implement the contract of the cache.  From a server
    that holds nothing, along every history of requests, clock ticks,
    losses of the connection and purges, the responses of the handlers
    are those of a cache of typed values indexed by requests, and the
    world at the end reads as the cache at the end: the same values held
    with the same expiries, the same time, the same calls made to the
    upstream. *)
Theorem serve_refines_contract evs t l :
  refines (serve evs (mkWorld (redis_client ∅ t) l)) (contract evs (vacant t l)).
Proof.
  destruct (serve_refined evs _ (cache_ok_empty t l)) as [Hres Hst].
  assert (abstraction (mkWorld (redis_client ∅ t) l) ≡ vacant t l) as Hv.
  { by split_and!. }
  destruct (contract_proper evs _ _ Hv) as [Hres' Hst'].
  split; [congruence | by etrans].
Qed.

End lemmas.

(** ** Examples *)

(** The home page twice with the hour in between, a movie that the
    upstream does not have, and a purge: the contract asks the upstream
    each time. *)
Definition busy_hour : list (event json) :=
  [Req stub_resolver (GetHome 1); Tick 3600; Req stub_resolver (GetMovie "m1");
   Purge; Req stub_resolver (GetHome 1)].

Example contract_busy_hour :
  resolved (contract busy_hour (vacant 0 [])).2 = [CHome 1; CMovie "m1"; CHome 1].
Proof. reflexivity. Qed.
