(* ===== verification/Async.v ===== *)
(** The handlers of [main.py] under the asyncio event loop.  A handler runs
    without interruption up to its [await] of the resolver (the Redis
    client is the blocking one, so its commands do not yield), and again
    from the resolver's answer to its return; between the two, other
    handlers run.  The loop is a step relation over a pool of tasks, the
    Redis server and the log of upstream calls; [fire] and [schedule] are
    its executable form.  The [await] is a point of suspension when the
    resolver does I/O, as a scraper does; the resolver functions that
    [main.py] ships return at once, and of the schedules below only those
    of [Atomic] are theirs. *)

From stdpp Require Import gmap.
From S2P Require Import Prelude PyStr Keys Json JsonParse Redis Effects Handlers.

Section async.
Context {V : Type} `{!Codec V}.

(** Where a coroutine stops: at its return or exception, or at an
    [await] with the rest of its body. *)
Inductive paused (A : Type) :=
| Returned (res : result exn A)
| Awaiting (c : call) (k : V → prog V A).
Arguments Returned {A} res.
Arguments Awaiting {A} c k.

(** Runs the body of a coroutine up to its next [await]. *)
Fixpoint run_until_await {A} (p : prog V A) (rd : redis) : paused A * redis :=
  match p with
  | Ret a => (Returned (Ok a), rd)
  | Raise e => (Returned (Err e), rd)
  | Get k cont =>
      match redis_get k rd with
      | Ok o => run_until_await (cont o) rd
      | Err e => (Returned (Err (RedisError e)), rd)
      end
  | Setex k ttl v cont =>
      match redis_setex k ttl v rd with
      | Ok rd' => run_until_await cont rd'
      | Err e => (Returned (Err (RedisError e)), rd)
      end
  | Await c k => (Awaiting c k, rd)
  end.

(** A task of the loop, with the request it serves: created and not yet
    run, suspended at its [await], woken up with the rest of its body, or
    finished with its response. *)
Inductive task :=
| Created (r : request)
| Waiting (r : request) (c : call) (k : V → prog V V)
| Resumed (r : request) (p : prog V V)
| Finished (r : request) (res : result exn V).

Record loop := mkLoop {
  l_redis : redis;
  l_tasks : list task;
  l_log : list call;
}.

(** What can happen next: a request arrives, the loop runs a task that is
    ready, the upstream answers a waiting task, time passes, the
    connection to Redis changes, the server drops expired keys. *)
Inductive label :=
| Arrive (r : request)
| Run (i : nat)
| Answer (i : nat)
| Pass (d : Z)
| Connection (b : bool)
| Expire.

Definition arrive (r : request) (l : loop) : loop :=
  mkLoop (l_redis l) (l_tasks l ++ [Created r]) (l_log l).

(** Task [i] runs [p] up to its next stop. *)
Definition resume (i : nat) (r : request) (p : prog V V) (l : loop) : loop :=
  let out := run_until_await p (l_redis l) in
  match out.1 with
  | Returned res => mkLoop out.2 (<[i := Finished r res]> (l_tasks l)) (l_log l)
  | Awaiting c k => mkLoop out.2 (<[i := Waiting r c k]> (l_tasks l)) (l_log l ++ [c])
  end.

(** The resolver's answer wakes task [i] up: with the value, or with the
    exception raised at the [await]. *)
Definition answer (R : resolver V) (i : nat) (r : request) (c : call)
    (k : V → prog V V) (l : loop) : loop :=
  let p := match resolve R c with Ok v => k v | Err e => Raise e end in
  mkLoop (l_redis l) (<[i := Resumed r p]> (l_tasks l)) (l_log l).

Definition on_redis (f : redis → redis) (l : loop) : loop :=
  mkLoop (f (l_redis l)) (l_tasks l) (l_log l).

Inductive step (R : resolver V) : loop → label → loop → Prop :=
| step_arrive l r : step R l (Arrive r) (arrive r l)
| step_start l i r :
    l_tasks l !! i = Some (Created r) →
    step R l (Run i) (resume i r (handle r) l)
| step_resume l i r p :
    l_tasks l !! i = Some (Resumed r p) →
    step R l (Run i) (resume i r p l)
| step_answer l i r c k :
    l_tasks l !! i = Some (Waiting r c k) →
    step R l (Answer i) (answer R i r c k l)
| step_pass l d : step R l (Pass d) (on_redis (tick d) l)
| step_connection l b : step R l (Connection b) (on_redis (set_connected b) l)
| step_expire l : step R l Expire (on_redis purge l).

(** An execution: the labels fired, in order. *)
Inductive trace (R : resolver V) : loop → list label → loop → Prop :=
| trace_nil l : trace R l [] l
| trace_cons l1 a l2 ls l3 :
    step R l1 a l2 → trace R l2 ls l3 → trace R l1 (a :: ls) l3.

(** The loop as a function: the state after a label, when it is
    enabled. *)
Definition fire (R : resolver V) (a : label) (l : loop) : option loop :=
  match a with
  | Arrive r => Some (arrive r l)
  | Run i =>
      match l_tasks l !! i with
      | Some (Created r) => Some (resume i r (handle r) l)
      | Some (Resumed r p) => Some (resume i r p l)
      | _ => None
      end
  | Answer i =>
      match l_tasks l !! i with
      | Some (Waiting r c k) => Some (answer R i r c k l)
      | _ => None
      end
  | Pass d => Some (on_redis (tick d) l)
  | Connection b => Some (on_redis (set_connected b) l)
  | Expire => Some (on_redis purge l)
  end.

Fixpoint schedule (R : resolver V) (ls : list label) (l : loop) : option loop :=
  match ls with
  | [] => Some l
  | a :: ls' => fire R a l ≫= schedule R ls'
  end.

(** Fires a label when it is enabled, and does nothing otherwise. *)
Definition fire_try (R : resolver V) (a : label) (l : loop) : loop :=
  match fire R a l with Some l' => l' | None => l end.

(** Task [i] scheduled until it has finished: started, answered, resumed. *)
Definition drive (R : resolver V) (i : nat) (l : loop) : loop :=
  fire_try R (Run i) (fire_try R (Answer i) (fire_try R (Run i) l)).

(** The loop with no task. *)
Definition idle (rd : redis) : loop := mkLoop rd [] [].

(** ** The shape of the tasks *)

(** The body of a handler after its [await]. *)
Definition after_await (r : request) (data : V) : prog V V :=
  (if stores_falsy r || truthy data
   then setex (cache_key r) (ttl r) (json_dumps data)
   else mret ());;
  mret data.

(** A response that its request explains under the resolver [R]: the
    resolver's value, the resolver's exception, or the connection
    error. *)
Definition answered (R : resolver V) (r : request) (res : result exn V) : Prop :=
  match res with
  | Ok v => resolve R (call_of r) = Ok v
  | Err e => e = RedisError ConnectionError ∨ resolve R (call_of r) = Err e
  end.

Definition task_ok (R : resolver V) (t : task) : Prop :=
  match t with
  | Created r => True
  | Waiting r c k => c = call_of r ∧ k = after_await r
  | Resumed r p =>
      (∃ v, resolve R (call_of r) = Ok v ∧ p = after_await r v)
      ∨ (∃ e, resolve R (call_of r) = Err e ∧ p = Raise e)
  | Finished r res => answered R r res
  end.

(** Every non-empty entry under the key of a request is the encoding of
    what the resolver answers to that request. *)
Definition coherent (R : resolver V) (rd : redis) : Prop :=
  ∀ r s, visible rd (cache_key r) = Some s → str_truthy s = true →
         ∃ v, s = encode v ∧ resolve R (call_of r) = Ok v.

Definition loop_ok (R : resolver V) (l : loop) : Prop :=
  coherent R (l_redis l) ∧ Forall (task_ok R) (l_tasks l).

(** A task that has run at least once, and how many of them a pool
    holds. *)
Definition started (t : task) : bool :=
  match t with Created _ => false | _ => true end.

Fixpoint started_count (ts : list task) : nat :=
  match ts with
  | [] => 0
  | t :: ts' => (if started t then 1 else 0) + started_count ts'
  end.

Definition world_of (l : loop) : world := mkWorld (l_redis l) (l_log l).

End async.

Arguments paused V A : clear implicits.
Arguments Returned {V A} res.
Arguments Awaiting {V A} c k.
Arguments task V : clear implicits.
Arguments loop V : clear implicits.

(** ** Lemmas *)

Section lemmas.
Context {V : Type} `{!Codec V}.
Implicit Types (R : resolver V) (r : request) (rd : redis) (l : loop V) (v : V).

(** Running a body in one go is running it up to its [await] and then
    the rest with the answer. *)
Lemma run_split {A} R (p : prog V A) rd log :
  run R p (mkWorld rd log) =
    match run_until_await p rd with
    | (Returned res, rd') => (res, mkWorld rd' log)
    | (Awaiting c k, rd') =>
        run R match resolve R c with Ok v => k v | Err e => Raise e end
          (mkWorld rd' (log ++ [c]))
    end.
Proof.
  revert rd. induction p as [a|e|k cont IH|k ttl v cont IH|c cont IH]; intros rd;
    simpl; try done.
  - destruct (redis_get k rd); [apply IH | done].
  - destruct (redis_setex k ttl v rd); [apply IH | done].
  - by destruct (resolve R c).
Qed.

(** A body followed by a continuation stops where the body stops; when
    the body returns a value the continuation goes on from there. *)
Lemma run_until_await_bind {A B} (p : prog V A) (f : A → prog V B) rd :
  run_until_await (p ≫= f) rd =
    match run_until_await p rd with
    | (Returned (Ok a), rd') => run_until_await (f a) rd'
    | (Returned (Err e), rd') => (Returned (Err e), rd')
    | (Awaiting c k, rd') => (Awaiting c (λ v, k v ≫= f), rd')
    end.
Proof.
  revert rd. induction p as [a|e|k cont IH|k ttl v cont IH|c cont IH]; intros rd;
    simpl; try done.
  - destruct (redis_get k rd); [apply IH | done].
  - destruct (redis_setex k ttl v rd); [apply IH | done].
Qed.

(** A handler up to its [await]: the connection error, the decoded hit, or
    the call of the resolver with the rest of the body. *)
Lemma run_until_await_handle r rd :
  run_until_await (handle r) rd =
    if negb (connected rd) then (Returned (Err (RedisError ConnectionError)), rd)
    else if cached_truthy (visible rd (cache_key r)) then
      (Returned (match visible rd (cache_key r) ≫= decode with
                 | Some v => Ok v
                 | None => Err JSONDecodeError
                 end), rd)
    else (Awaiting (call_of r) (after_await r), rd).
Proof.
  assert (handle r = read_through r) as -> by (by destruct r).
  unfold read_through. simpl. unfold redis_get.
  destruct (connected rd); simpl; [|done].
  destruct (visible rd (cache_key r)) as [s|]; simpl; [|done].
  destruct (str_truthy s); simpl; [|done]. by destruct (decode s).
Qed.

(** A handler from the resolver's answer to its return. *)
Lemma run_until_await_after r v rd :
  run_until_await (after_await r v) rd =
    if stores_falsy r || truthy v then
      match redis_setex (cache_key r) (ttl r) (encode v) rd with
      | Ok rd' => (Returned (Ok v), rd')
      | Err e => (Returned (Err (RedisError e)), rd)
      end
    else (Returned (Ok v), rd).
Proof.
  unfold after_await. destruct (stores_falsy r || truthy v); simpl; [|done].
  by destruct (redis_setex _ _ _ rd).
Qed.

(** ** The function and the relation *)

Lemma fire_step R a l l' : fire R a l = Some l' ↔ step R l a l'.
Proof.
  split.
  - destruct a as [r|i|i|d|b|]; simpl; try (intros [= <-]; constructor).
    + destruct (l_tasks l !! i) as [[r|r c k|r p|r res]|] eqn:E; intros [= <-];
        by constructor.
    + destruct (l_tasks l !! i) as [[r|r c k|r p|r res]|] eqn:E; intros [= <-];
        by constructor.
  - intros Hs.
    destruct Hs as [|??? E|???? E|????? E| | |]; simpl; try done; by rewrite E.
Qed.

Lemma schedule_trace R ls l l' : schedule R ls l = Some l' ↔ trace R l ls l'.
Proof.
  revert l. induction ls as [|a ls IH]; intros l; simpl.
  - split; [intros [= <-]; constructor | by inversion 1].
  - rewrite bind_Some. split.
    + intros (l2 & ?%fire_step & ?%IH). by econstructor.
    + inversion 1; subst. eexists. by rewrite fire_step, IH.
Qed.

Lemma trace_app R l1 ls1 l2 ls2 l3 :
  trace R l1 ls1 l2 → trace R l2 ls2 l3 → trace R l1 (ls1 ++ ls2) l3.
Proof. induction 1; simpl; [done|]. intros. econstructor; eauto. Qed.


(** ** The invariant *)

Lemma visible_tick_Some rd k d s :
  visible (tick d rd) k = Some s → visible rd k = Some s.
Proof.
  destruct (visible rd k) as [s'|] eqn:E.
  - rewrite visible_tick. unfold visible in E.
    destruct (store rd !! k) as [e|]; [|done]. do 2 case_match; by simplify_eq.
  - by rewrite (visible_tick_None _ _ _ E).
Qed.

Lemma coherent_tick R rd d : coherent R rd → coherent R (tick d rd).
Proof. intros Hc r s Hv. apply Hc. by eapply visible_tick_Some. Qed.

Lemma coherent_purge R rd : coherent R rd → coherent R (purge rd).
Proof. intros Hc r s. rewrite visible_purge. apply Hc. Qed.

Lemma coherent_connection R rd b : coherent R rd → coherent R (set_connected b rd).
Proof. done. Qed.

(** Storing the resolver's answer under the key of its request keeps the
    cache coherent, because no other request has that key. *)
Lemma coherent_setex R rd rd' r v :
  resolve R (call_of r) = Ok v →
  redis_setex (cache_key r) (ttl r) (encode v) rd = Ok rd' →
  coherent R rd → coherent R rd'.
Proof.
  intros Hr Hs Hc r' s. rewrite (visible_setex _ _ _ _ _ _ Hs).
  case_decide as E; [|apply Hc].
  apply (inj cache_key) in E as <-. intros [= <-] _. eauto.
Qed.

Lemma redis_setex_Err rd k ttl s e :
  (0 < ttl)%Z → redis_setex k ttl s rd = Err e → e = ConnectionError.
Proof.
  unfold redis_setex. destruct (connected rd); simpl; [|by intros _ [= <-]].
  destruct (Z.leb_spec ttl 0); [lia | done].
Qed.

(** What a task that starts leaves behind. *)
Lemma start_ok R r rd :
  coherent R rd →
  let out := run_until_await (handle r) rd in
  out.2 = rd
  ∧ match out.1 with
    | Returned res => answered R r res
    | Awaiting c k => c = call_of r ∧ k = after_await r
    end.
Proof.
  intros Hc. rewrite run_until_await_handle.
  destruct (connected rd); simpl; [|by split; [|left]].
  destruct (visible rd (cache_key r)) as [s|] eqn:Hv; simpl; [|done].
  destruct (str_truthy s) eqn:Hs; [|done]. split; [done|].
  destruct (Hc r s Hv Hs) as (v & -> & Hr). by rewrite decode_encode.
Qed.

(** What a task that is woken up with the resolver's value leaves
    behind. *)
Lemma finish_ok R r v rd :
  coherent R rd → resolve R (call_of r) = Ok v →
  let out := run_until_await (after_await r v) rd in
  coherent R out.2 ∧ ∃ res, out.1 = Returned res ∧ answered R r res.
Proof.
  intros Hc Hr. rewrite run_until_await_after.
  destruct (stores_falsy r || truthy v); simpl; [|eauto].
  destruct (redis_setex _ _ _ rd) as [rd'|e] eqn:Hs; simpl.
  - split; [by eapply coherent_setex | eauto].
  - apply redis_setex_Err in Hs as ->; [|apply ttl_pos]. split; [done|].
    eexists. split; [done|]. by left.
Qed.

Lemma resume_ok R l i r p :
  loop_ok R l → l_tasks l !! i = Some (Resumed r p) → loop_ok R (resume i r p l).
Proof.
  intros [Hc Ht] Hi. pose proof (Forall_lookup_1 _ _ _ _ Ht Hi) as Hp.
  unfold resume. destruct Hp as [(v & Hr & ->)|(e & Hr & ->)].
  - destruct (finish_ok R r v _ Hc Hr) as (Hc' & res & -> & Hres).
    split; [done|]. by apply Forall_insert.
  - split; [done|]. apply Forall_insert; [done|]. by right.
Qed.

Lemma start_loop_ok R l i r :
  loop_ok R l → loop_ok R (resume i r (handle r) l).
Proof.
  intros [Hc Ht]. unfold resume.
  destruct (start_ok R r _ Hc) as [-> Ho].
  destruct (run_until_await (handle r) (l_redis l)).1;
    (split; [done|]; by apply Forall_insert).
Qed.

Lemma answer_ok R l i r c k :
  loop_ok R l → l_tasks l !! i = Some (Waiting r c k) → loop_ok R (answer R i r c k l).
Proof.
  intros [Hc Ht] Hi. destruct (Forall_lookup_1 _ _ _ _ Ht Hi) as [-> ->].
  split; [done|]. apply Forall_insert; [done|]. simpl.
  destruct (resolve R (call_of r)); eauto.
Qed.

(** Every step keeps the cache coherent and the tasks in shape. *)
Lemma step_ok R l a l' : step R l a l' → loop_ok R l → loop_ok R l'.
Proof.
  destruct 1; intros Hl;
    eauto using start_loop_ok, resume_ok, answer_ok.
  - destruct Hl. split; [done|]. apply Forall_app. by split; [|repeat constructor].
  - destruct Hl. split; [by apply coherent_tick | done].
  - destruct Hl. split; [by apply coherent_purge | done].
Qed.

Lemma trace_ok R l ls l' : trace R l ls l' → loop_ok R l → loop_ok R l'.
Proof. induction 1; eauto using step_ok. Qed.

Lemma idle_ok R rd : coherent R rd → loop_ok R (idle rd).
Proof. intros ?. split; [done | constructor]. Qed.

Lemma coherent_empty R t : coherent R (redis_client ∅ t).
Proof. by intros r s. Qed.

(** ** One task at a time *)

Lemma lookup_insert_tasks l i (t t' : task V) :
  l_tasks l !! i = Some t → <[i := t']> (l_tasks l) !! i = Some t'.
Proof. intros Hi. apply list_lookup_insert_eq. by eapply lookup_lt_Some. Qed.

Lemma fire_try_run_finished R l i r res :
  l_tasks l !! i = Some (Finished r res) → fire_try R (Run i) l = l.
Proof. unfold fire_try. simpl. by intros ->. Qed.

Lemma fire_try_answer_finished R l i r res :
  l_tasks l !! i = Some (Finished r res) → fire_try R (Answer i) l = l.
Proof. unfold fire_try. simpl. by intros ->. Qed.

Lemma fire_try_run_created R l i r :
  l_tasks l !! i = Some (Created r) → fire_try R (Run i) l = resume i r (handle r) l.
Proof. unfold fire_try. simpl. by intros ->. Qed.

Lemma fire_try_run_resumed R l i r p :
  l_tasks l !! i = Some (Resumed r p) → fire_try R (Run i) l = resume i r p l.
Proof. unfold fire_try. simpl. by intros ->. Qed.

Lemma fire_try_answer_waiting R l i r c k :
  l_tasks l !! i = Some (Waiting r c k) → fire_try R (Answer i) l = answer R i r c k l.
Proof. unfold fire_try. simpl. by intros ->. Qed.

(** A task that has finished stays as it is. *)
Lemma drive_finished R l i r res :
  l_tasks l !! i = Some (Finished r res) → drive R i l = l.
Proof.
  intros Hi. unfold drive.
  by rewrite (fire_try_run_finished _ _ _ _ _ Hi), (fire_try_answer_finished _ _ _ _ _ Hi),
    (fire_try_run_finished _ _ _ _ _ Hi).
Qed.

(** A resumed task finishes at its next run. *)
Lemma drive_resumed R l i r p :
  l_tasks l !! i = Some (Resumed r p) →
  (∃ res, (run_until_await p (l_redis l)).1 = Returned res) →
  drive R i l = resume i r p l.
Proof.
  intros Hi [res Hres]. unfold drive. rewrite (fire_try_run_resumed _ _ _ _ _ Hi).
  assert (l_tasks (resume i r p l) !! i = Some (Finished r res)) as Hf.
  { unfold resume. rewrite Hres. simpl. by eapply lookup_insert_tasks. }
  by rewrite (fire_try_answer_finished _ _ _ _ _ Hf), (fire_try_run_finished _ _ _ _ _ Hf).
Qed.

(** A created task driven alone does what the sequential handler does to
    the server and to the log, and finishes with the handler's result. *)
Lemma drive_created R l i r :
  l_tasks l !! i = Some (Created r) →
  drive R i l =
    let out := outcome R r (world_of l) in
    mkLoop (w_redis out.2) (<[i := Finished r out.1]> (l_tasks l)) (w_log out.2).
Proof.
  intros Hi. unfold drive. rewrite (fire_try_run_created _ _ _ _ Hi).
  unfold resume at 1, outcome. rewrite run_until_await_handle. simpl.
  destruct (connected (l_redis l)) eqn:Hc; simpl.
  2: { erewrite fire_try_answer_finished, fire_try_run_finished; [done| |];
       simpl; by eapply lookup_insert_tasks. }
  destruct (cached_truthy _) eqn:Ht; simpl.
  { erewrite fire_try_answer_finished, fire_try_run_finished;
      [by destruct (_ ≫= decode)| |]; simpl; by eapply lookup_insert_tasks. }
  erewrite fire_try_answer_waiting by (simpl; by eapply lookup_insert_tasks).
  erewrite fire_try_run_resumed.
  2: { simpl. apply list_lookup_insert_eq. rewrite length_insert. by eapply lookup_lt_Some. }
  unfold resume, answer. simpl.
  destruct (resolve R (call_of r)) as [v|e]; simpl;
    [|by rewrite !list_insert_insert_eq].
  rewrite run_until_await_after.
  destruct (stores_falsy r || truthy v); simpl; [|by rewrite !list_insert_insert_eq].
  rewrite redis_setex_ok by (done || apply ttl_pos). simpl.
  by rewrite Hc, !list_insert_insert_eq.
Qed.

(** Whatever state a task of a well-formed loop is in, driving it
    finishes it. *)
Lemma drive_finishes R l i t :
  loop_ok R l → l_tasks l !! i = Some t →
  ∃ r res, l_tasks (drive R i l) !! i = Some (Finished r res).
Proof.
  intros [Hc Ht] Hi. pose proof (Forall_lookup_1 _ _ _ _ Ht Hi) as Hok.
  destruct t as [r|r c k|r p|r res]; simpl in Hok.
  - rewrite (drive_created _ _ _ _ Hi). simpl. eexists _, _.
    by eapply lookup_insert_tasks.
  - destruct Hok as [-> ->]. unfold drive. unfold fire_try at 3. simpl. rewrite Hi.
    rewrite (fire_try_answer_waiting _ _ _ _ _ _ Hi).
    erewrite fire_try_run_resumed by (simpl; by eapply lookup_insert_tasks).
    unfold resume, answer. simpl.
    destruct (resolve R (call_of r)) as [v|e]; simpl.
    + rewrite run_until_await_after.
      destruct (stores_falsy r || truthy v); [destruct (redis_setex _ _ _ _)|];
        simpl; eexists _, _; apply list_lookup_insert_eq;
        rewrite length_insert; by eapply lookup_lt_Some.
    + eexists _, _. apply list_lookup_insert_eq.
      rewrite length_insert. by eapply lookup_lt_Some.
  - assert (∃ res, (run_until_await p (l_redis l)).1 = Returned res) as [res Hres].
    { destruct Hok as [(v & Hr & ->)|(e & _ & ->)]; [|by eexists].
      by destruct (finish_ok R r v _ Hc Hr) as (_ & res & ? & _); eexists. }
    rewrite (drive_resumed _ _ _ _ _ Hi) by eauto. unfold resume. rewrite Hres.
    simpl. eexists _, _. by eapply lookup_insert_tasks.
  - rewrite (drive_finished _ _ _ _ _ Hi). eauto.
Qed.

(** ** Upstream calls *)

Lemma started_count_insert (ts : list (task V)) i t t' :
  ts !! i = Some t →
  started_count (<[i := t']> ts) + (if started t then 1 else 0)
  = started_count ts + (if started t' then 1 else 0).
Proof.
  revert i. induction ts as [|a ts IH]; intros [|i]; simpl; try done.
  - intros [= ->]. lia.
  - intros Hi. specialize (IH i Hi). lia.
Qed.

Lemma started_count_app (ts1 ts2 : list (task V)) :
  started_count (ts1 ++ ts2) = started_count ts1 + started_count ts2.
Proof. induction ts1 as [|t ts1 IH]; simpl; lia. Qed.

Lemma started_count_le (ts : list (task V)) : started_count ts ≤ length ts.
Proof. induction ts as [|t ts IH]; simpl; [done|]. destruct (started t); lia. Qed.

(** A step makes at most one upstream call, and only when it starts a
    task. *)
Lemma step_calls R l a l' :
  step R l a l' → loop_ok R l →
  length (l_log l) ≤ started_count (l_tasks l) →
  length (l_log l') ≤ started_count (l_tasks l').
Proof.
  destruct 1 as [l r|l i r Hi|l i r p Hi|l i r c k Hi| | |]; intros [Hc Ht] Hle;
    simpl; try done.
  - rewrite started_count_app. lia.
  - pose proof (started_count_insert (l_tasks l) i) as Hins. unfold resume.
    destruct (run_until_await (handle r) (l_redis l)).1; simpl;
      [specialize (Hins _ (Finished r res) Hi) | specialize (Hins _ (Waiting r c k) Hi)];
      simpl in Hins; rewrite ?length_app; simpl; lia.
  - unfold resume.
    assert (∃ res, (run_until_await p (l_redis l)).1 = Returned res) as [res ->].
    { destruct (Forall_lookup_1 _ _ _ _ Ht Hi) as [(v & Hr & ->)|(e & _ & ->)];
        [|by eexists].
      by destruct (finish_ok R r v _ Hc Hr) as (_ & res & ? & _); eexists. }
    simpl. pose proof (started_count_insert _ _ _ (Finished r res) Hi). simpl in *. lia.
  - pose proof (started_count_insert _ _ _ (Resumed r
      match resolve R c with Ok v => k v | Err e => Raise e end) Hi). simpl in *. lia.
Qed.

Lemma trace_calls R l ls l' :
  trace R l ls l' → loop_ok R l →
  length (l_log l) ≤ started_count (l_tasks l) →
  length (l_log l') ≤ started_count (l_tasks l').
Proof. induction 1; eauto using step_calls, step_ok. Qed.

(** Two requests for one key that both miss: each calls the resolver. *)
Lemma schedule_two_misses R r rd :
  connected rd = true → cached_truthy (visible rd (cache_key r)) = false →
  schedule R [Arrive r; Arrive r; Run 0; Run 1] (idle rd)
  = Some (mkLoop rd [Waiting r (call_of r) (after_await r);
                     Waiting r (call_of r) (after_await r)]
            [call_of r; call_of r]).
Proof.
  intros Hc Hm. simpl. unfold resume. simpl.
  rewrite !run_until_await_handle, Hc, Hm. simpl.
  unfold resume. simpl. by rewrite run_until_await_handle, Hc, Hm.
Qed.

(** ** Every interleaving *)

(** C8: from a server whose non-empty entries are the encodings of what
    the resolver answers for their keys ([coherent]; the empty server is
    one), whatever the interleaving of the handlers, of the passing of
    time, of connection losses and of expiries, every response is
    explained by its own request: it is the value the resolver answers to
    that request, the exception the resolver raises for it, or the Redis
    connection error.  No handler gets another request's entry, and
    [json.loads] never fails. *)
Theorem responses_answered R rd ls l i r res :
  coherent R rd → trace R (idle rd) ls l →
  l_tasks l !! i = Some (Finished r res) → answered R r res.
Proof.
  intros Hc Htr Hi. destruct (trace_ok _ _ _ _ Htr (idle_ok _ _ Hc)) as [_ Ht].
  exact (Forall_lookup_1 _ _ _ _ Ht Hi).
Qed.

(** C30: when the server starts with entries that are the encodings of
    what the resolver answers for their keys ([coherent]; the empty
    server is one), in every interleaving each non-empty entry under the
    key of a request stays the encoding of what the resolver answers to
    that request. *)
Theorem cache_stays_coherent R rd ls l :
  coherent R rd → trace R (idle rd) ls l → coherent R (l_redis l).
Proof. intros Hc Htr. by destruct (trace_ok _ _ _ _ Htr (idle_ok _ _ Hc)). Qed.

(** C25: nothing serializes two misses for one key: with a resolver that
    suspends, when two requests for the same key arrive before either has
    stored its result, each calls the resolver. *)
Theorem concurrent_misses_resolve_twice R r rd :
  connected rd = true → cached_truthy (visible rd (cache_key r)) = false →
  ∃ l, trace R (idle rd) [Arrive r; Arrive r; Run 0; Run 1] l
       ∧ l_log l = [call_of r; call_of r].
Proof.
  intros Hc Hm.
  exists (mkLoop rd [Waiting r (call_of r) (after_await r);
                     Waiting r (call_of r) (after_await r)]
            [call_of r; call_of r]).
  split; [|done]. apply schedule_trace. by apply schedule_two_misses.
Qed.

(** A request that is served with no other task running in between
    does to the server and to the log what the sequential handler does, and
    gets the sequential handler's response. *)
Theorem alone_is_sequential R l r :
  drive R (length (l_tasks l)) (arrive r l) =
    let out := run R (handle r) (world_of l) in
    mkLoop (w_redis out.2) (l_tasks l ++ [Finished r out.1]) (w_log out.2).
Proof.
  rewrite (drive_created R (arrive r l) _ r).
  - rewrite run_handle. simpl. f_equal.
    by rewrite insert_app_r_alt, Nat.sub_diag.
  - simpl. by rewrite lookup_app_r, Nat.sub_diag.
Qed.

(** A task never hangs: in any state that the loop reaches, scheduling
    a task (run, answer, run) finishes it. *)
Theorem driven_task_finishes R rd ls l i t :
  coherent R rd → trace R (idle rd) ls l → l_tasks l !! i = Some t →
  ∃ r res, l_tasks (drive R i l) !! i = Some (Finished r res).
Proof.
  intros Hc Htr Hi. eapply drive_finishes; [|done].
  eapply trace_ok; [done|]. by apply idle_ok.
Qed.

(** In every interleaving the resolver is called at most once per
    request that has arrived. *)
Theorem calls_bounded R rd ls l :
  coherent R rd → trace R (idle rd) ls l → length (l_log l) ≤ length (l_tasks l).
Proof.
  intros Hc Htr. etrans; [|apply started_count_le].
  eapply trace_calls; [done | by apply idle_ok | done].
Qed.

End lemmas.

(** ** Witnesses *)

(** Two requests for the home page, interleaved: both miss, the second
    is answered and stores first. *)
Definition two_homes : list label :=
  [Arrive (GetHome 1); Arrive (GetHome 1); Run 0; Run 1;
   Answer 1; Run 1; Answer 0; Run 0].

Definition after_two_homes : loop json :=
  default (idle (redis_client ∅ 0)) (schedule stub_resolver two_homes (idle (redis_client ∅ 0))).

Lemma responses_answered_witness :
  answered stub_resolver (GetHome 1)
    (Ok (JDict [("sections", JList []); ("featured", JList [])])).
Proof.
  apply (responses_answered stub_resolver (redis_client ∅ 0) two_homes after_two_homes 0).
  - apply coherent_empty.
  - apply schedule_trace. reflexivity.
  - reflexivity.
Defined.

Lemma cache_stays_coherent_witness : coherent stub_resolver (l_redis after_two_homes).
Proof.
  apply (cache_stays_coherent stub_resolver (redis_client ∅ 0) two_homes).
  - apply coherent_empty.
  - apply schedule_trace. reflexivity.
Defined.

Lemma concurrent_misses_resolve_twice_witness :
  ∃ l, trace stub_resolver (idle (redis_client ∅ 0))
         [Arrive (GetMovie "m1"); Arrive (GetMovie "m1"); Run 0; Run 1] l
       ∧ l_log l = [CMovie "m1"; CMovie "m1"].
Proof.
  apply (concurrent_misses_resolve_twice stub_resolver (GetMovie "m1") (redis_client ∅ 0));
    reflexivity.
Defined.

Lemma driven_task_finishes_witness :
  ∃ r res, l_tasks (drive stub_resolver 1
                      (default (idle (redis_client ∅ 0))
                         (schedule stub_resolver
                            [Arrive (GetHome 1); Arrive (GetWatch "m1"); Run 1]
                            (idle (redis_client ∅ 0))))) !! 1
           = Some (Finished r res).
Proof.
  eapply (driven_task_finishes stub_resolver (redis_client ∅ 0)
            [Arrive (GetHome 1); Arrive (GetWatch "m1"); Run 1]).
  - apply coherent_empty.
  - apply schedule_trace. reflexivity.
  - reflexivity.
Defined.

Lemma calls_bounded_witness :
  length (l_log after_two_homes) ≤ length (l_tasks after_two_homes).
Proof.
  apply (calls_bounded stub_resolver (redis_client ∅ 0) two_homes).
  - apply coherent_empty.
  - apply schedule_trace. reflexivity.
Defined.
