(* ===== verification/Interleaving.v ===== *)
(** The handlers of [main.py] under the event loop with an upstream that
    changes over time.  Each step of the loop of [Async] is taken with the
    upstream of its moment, and the question is how old a response can
    be.  On every schedule a response is what the upstream answered to the
    same request at some moment, and it was stored less than one TTL ago.
    When a task that the upstream has answered runs before the clock
    moves, the answer itself is less than one TTL old; when the task is
    left waiting, the TTL counts from its store and the response is
    older.  The two cases are instances of one invariant, with the
    scheduling policy and the lag it allows between an answer and its
    store as an interface ([Lag]). *)

From stdpp Require Import gmap.
From S2P Require Import Prelude PyStr Keys Json JsonParse Redis Effects Handlers Async.

Section interleaving.
Context {V : Type} `{!Codec V}.

(** A task that the upstream has answered and that has not run since. *)
Definition woken (t : task V) : bool :=
  match t with Resumed _ _ => true | _ => false end.

(** Which labels a loop may fire.  [prompt]: the clock does not move
    while a task is woken, which is to say that running a task takes no
    time.  [unconstrained]: any label. *)
Definition prompt (l : loop V) (a : label) : bool :=
  match a with
  | Pass d => (d <=? 0)%Z || forallb (λ t, negb (woken t)) (l_tasks l)
  | _ => true
  end.

Definition unconstrained (l : loop V) (a : label) : bool := true.

(** An execution under the upstream [U], a function of the time: every
    step is a step of the loop with the upstream of its moment. *)
Inductive execution (U : Z → resolver V) (policy : loop V → label → bool)
    : loop V → list label → loop V → Prop :=
| execution_nil l : execution U policy l [] l
| execution_cons l1 a l2 ls l3 :
    policy l1 a = true →
    step (U (now (l_redis l1))) l1 a l2 →
    execution U policy l2 ls l3 →
    execution U policy l1 (a :: ls) l3.

Fixpoint schedule_at (U : Z → resolver V) (policy : loop V → label → bool)
    (ls : list label) (l : loop V) : option (loop V) :=
  match ls with
  | [] => Some l
  | a :: ls' =>
      if policy l a
      then fire (U (now (l_redis l))) a l ≫= schedule_at U policy ls'
      else None
  end.

(** What a policy promises: [lag t_a t] bounds the instant [t_a] of an
    answer by the instant [t] at which its task runs.  A task may run at
    the instant of its answer, and when the clock moves either no task is
    woken or the lag allows the new time. *)
Class Lag (policy : loop V → label → bool) (lag : Z → Z → Prop) := {
  lag_now t : lag t t;
  lag_before t_a t : lag t_a t → (t_a ≤ t)%Z;
  lag_pass l d t_a :
    policy l (Pass d) = true →
    Exists (λ t, woken t = true) (l_tasks l) →
    lag t_a (now (l_redis l)) → lag t_a (now (tick d (l_redis l)));
}.

Section dated.
Context (U : Z → resolver V) (lag : Z → Z → Prop).

(** A response given at time [t] that the upstream explains: a value that
    it answered at [t_a] and that was stored at [t_s], less than [ttl]
    seconds before [t]; an exception that it raised; or the connection
    error. *)
Definition explained_at (t : Z) (r : request) (res : result exn V) : Prop :=
  match res with
  | Ok v =>
      ∃ t_a t_s, lag t_a t_s ∧ (t_s ≤ t < t_s + ttl r)%Z
                 ∧ resolve (U t_a) (call_of r) = Ok v
  | Err e =>
      e = RedisError ConnectionError
      ∨ ∃ t_a, lag t_a t ∧ resolve (U t_a) (call_of r) = Err e
  end.

(** Every entry under the key of a request holds an answer of the
    upstream and expires one TTL after its store. *)
Definition dated (rd : redis) : Prop :=
  ∀ r e, store rd !! cache_key r = Some e →
    ∃ t_a t_s v, e_value e = encode v ∧ resolve (U t_a) (call_of r) = Ok v
                 ∧ lag t_a t_s ∧ e_expires e = (t_s + ttl r)%Z ∧ (t_s ≤ now rd)%Z.

(** The tasks at time [t]: a woken task holds an answer of the
    upstream. *)
Definition task_dated (t : Z) (tk : task V) : Prop :=
  match tk with
  | Created _ | Finished _ _ => True
  | Waiting r c k => c = call_of r ∧ k = after_await r
  | Resumed r p =>
      ∃ t_a, lag t_a t
             ∧ p = match resolve (U t_a) (call_of r) with
                   | Ok v => after_await r v
                   | Err e => Raise e
                   end
  end.

Definition loop_dated (l : loop V) : Prop :=
  dated (l_redis l) ∧ Forall (task_dated (now (l_redis l))) (l_tasks l).

End dated.

(** [v] is recent at time [t]: the upstream answered [v] to the request
    [r] at an instant of the last [ttl r] seconds. *)
Definition recent (U : Z → resolver V) (t : Z) (r : request) (v : V) : Prop :=
  ∃ t_a, (t_a ≤ t < t_a + ttl r)%Z ∧ resolve (U t_a) (call_of r) = Ok v.

(** A response given at time [t]: a recent value, the exception that the
    upstream raises at [t], or the connection error. *)
Definition timely (U : Z → resolver V) (t : Z) (r : request) (res : result exn V)
    : Prop :=
  match res with
  | Ok v => recent U t r v
  | Err e => e = RedisError ConnectionError ∨ resolve (U t) (call_of r) = Err e
  end.

(** A response given at time [t]: a value or an exception that the
    upstream gave at some instant up to [t], or the connection error. *)
Definition sourced (U : Z → resolver V) (t : Z) (r : request) (res : result exn V)
    : Prop :=
  res = Err (RedisError ConnectionError)
  ∨ ∃ t_a, (t_a ≤ t)%Z ∧ resolve (U t_a) (call_of r) = res.

End interleaving.

(** ** The two policies *)

#[export] Instance prompt_lag {V} : Lag (V:=V) prompt eq.
Proof.
  split; [done | by intros ?? -> |]. simpl. intros l d t_a Hp Hw ->.
  apply orb_true_iff in Hp as [Hd|Hq]; [apply Z.leb_le in Hd; lia|].
  rewrite forallb_forall in Hq. apply Exists_exists in Hw as (t & Hin & Ht).
  apply list_elem_of_In, Hq in Hin. by rewrite Ht in Hin.
Qed.

#[export] Instance unconstrained_lag {V} : Lag (V:=V) unconstrained Z.le.
Proof. split; simpl; intros; lia. Qed.

(** ** Lemmas *)

Section lemmas.
Context {V : Type} `{!Codec V}.
Context (U : Z → resolver V) (policy : loop V → label → bool) (lag : Z → Z → Prop).
Context `{!Lag policy lag}.
Implicit Types (r : request) (rd : redis) (l : loop V) (v : V).

Lemma schedule_at_execution ls l l' :
  schedule_at U policy ls l = Some l' ↔ execution U policy l ls l'.
Proof.
  revert l. induction ls as [|a ls IH]; intros l; simpl.
  - split; [intros [= <-]; constructor | by inversion 1].
  - split.
    + destruct (policy l a) eqn:Hp; [|done].
      intros (l2 & ?%fire_step & ?%IH)%bind_Some. by econstructor.
    + inversion 1 as [|? ? l2 ? ? Hp Hs Hex]; subst. rewrite Hp.
      apply bind_Some. exists l2. by rewrite fire_step, IH.
Qed.

Lemma dated_hit rd r s :
  dated U lag rd → visible rd (cache_key r) = Some s →
  ∃ v, s = encode v ∧ explained_at U lag (now rd) r (Ok v).
Proof.
  intros Hd Hv. unfold visible in Hv.
  destruct (store rd !! cache_key r) as [e|] eqn:He; [|done].
  destruct (live (now rd) e) eqn:Hl; [|done]. injection Hv as <-.
  destruct (Hd r e He) as (t_a & t_s & v & Hval & Hr & Hlag & Hexp & Hle).
  exists v. split; [done|]. exists t_a, t_s. split_and!; try done.
  unfold live in Hl. apply Z.ltb_lt in Hl. lia.
Qed.

Lemma dated_tick rd d : dated U lag rd → dated U lag (tick d rd).
Proof.
  intros Hd r e He. destruct (Hd r e He) as (t_a & t_s & v & ? & ? & ? & ? & ?).
  exists t_a, t_s, v. split_and!; try done. simpl. lia.
Qed.

Lemma dated_purge rd : dated U lag rd → dated U lag (purge rd).
Proof.
  intros Hd r e He. simpl in He. apply map_lookup_filter_Some in He as [He _].
  exact (Hd r e He).
Qed.

Lemma dated_setex rd rd' r v t_a :
  lag t_a (now rd) → resolve (U t_a) (call_of r) = Ok v →
  redis_setex (cache_key r) (ttl r) (encode v) rd = Ok rd' →
  dated U lag rd → dated U lag rd'.
Proof.
  intros Hlag Hr (_ & _ & ->)%redis_setex_inv Hd r' e. simpl. rewrite lookup_insert.
  case_decide as Hk; [|apply Hd].
  apply (inj cache_key) in Hk as <-. intros [= <-]. by exists t_a, (now rd), v.
Qed.

(** A task that starts: it finishes with a response that the upstream
    explains, or waits for the upstream; the server is as it was. *)
Lemma start_dated r rd :
  dated U lag rd →
  let out := run_until_await (handle r) rd in
  out.2 = rd
  ∧ match out.1 with
    | Returned res => explained_at U lag (now rd) r res
    | Awaiting c k => c = call_of r ∧ k = after_await r
    end.
Proof.
  intros Hd. rewrite run_until_await_handle.
  destruct (connected rd); simpl; [|by split; [|left]].
  destruct (visible rd (cache_key r)) as [s|] eqn:Hv; simpl; [|done].
  destruct (str_truthy s); [|done]. split; [done|].
  destruct (dated_hit rd r s Hd Hv) as (v & -> & Hrec). by rewrite decode_encode.
Qed.

(** A task that was woken: it finishes with a response that the upstream
    explains, and what it stores is dated. *)
Lemma finish_dated r p rd :
  dated U lag rd → task_dated U lag (now rd) (Resumed r p) →
  let out := run_until_await p rd in
  dated U lag out.2 ∧ now out.2 = now rd
  ∧ ∃ res, out.1 = Returned res ∧ explained_at U lag (now rd) r res.
Proof.
  intros Hd (t_a & Hlag & ->).
  destruct (resolve (U t_a) (call_of r)) as [v|e] eqn:Hr.
  2: { simpl. split_and!; try done. eexists. split; [done|]. right. eauto. }
  assert (explained_at U lag (now rd) r (Ok v)) as Hrec.
  { exists t_a, (now rd). split_and!; try done. pose proof (ttl_pos r). lia. }
  rewrite run_until_await_after.
  destruct (stores_falsy r || truthy v); simpl; [|by eauto].
  destruct (redis_setex _ _ _ rd) as [rd'|e] eqn:Hs; simpl.
  - split_and!; [by eapply dated_setex| |by eauto].
    by apply redis_setex_inv in Hs as (_ & _ & ->).
  - apply redis_setex_Err in Hs as ->; [|apply ttl_pos].
    split_and!; try done. eexists. split; [done|]. by left.
Qed.

(** When the clock moves the tasks stay dated: the policy allows the new
    time for the answers of the woken tasks, and the others do not depend
    on the time. *)
Lemma tasks_dated_pass l d :
  policy l (Pass d) = true →
  Forall (task_dated U lag (now (l_redis l))) (l_tasks l) →
  Forall (task_dated U lag (now (tick d (l_redis l)))) (l_tasks l).
Proof.
  intros Hp Ht. apply Forall_forall. intros tk Hin.
  pose proof (proj1 (Forall_forall _ _) Ht tk Hin) as Hk.
  destruct tk as [r|r c k|r p|r res]; try done.
  destruct Hk as (t_a & Hlag & Hk). exists t_a. split; [|done].
  apply (lag_pass l d t_a Hp); [|done]. apply Exists_exists. by exists (Resumed r p).
Qed.

(** Every step that the policy allows keeps the entries and the tasks
    dated. *)
Lemma step_dated l a l' :
  policy l a = true → step (U (now (l_redis l))) l a l' →
  loop_dated U lag l → loop_dated U lag l'.
Proof.
  intros Hp Hs [Hd Ht].
  inversion Hs as [? r|? i r Hi|? i r p Hi|? i r c k Hi|? d|? b|]; subst.
  - split; [done|]. apply Forall_app. by split; [|repeat constructor].
  - unfold resume. destruct (start_dated r _ Hd) as [Heq Ho].
    destruct (run_until_await (handle r) (l_redis l)) as [[res|c k] rd'];
      simpl in *; subst rd'; (split; [done|]); by apply Forall_insert.
  - destruct (finish_dated r p _ Hd (Forall_lookup_1 _ _ _ _ Ht Hi))
      as (Hd' & Hnow & res & Hres & _).
    unfold resume. rewrite Hres. split; [done|]. simpl.
    rewrite Hnow. by apply Forall_insert.
  - destruct (Forall_lookup_1 _ _ _ _ Ht Hi) as [-> ->].
    split; [done|]. apply Forall_insert; [done|]. simpl.
    exists (now (l_redis l)). split; [apply lag_now|]. by destruct (resolve _ _).
  - split; [by apply dated_tick | by apply (tasks_dated_pass l d)].
  - done.
  - split; [by apply dated_purge | done].
Qed.

Lemma execution_dated l ls l' :
  execution U policy l ls l' → loop_dated U lag l → loop_dated U lag l'.
Proof. induction 1; eauto using step_dated. Qed.

Lemma idle_dated t : loop_dated U lag (idle (redis_client ∅ t)).
Proof. split; [|constructor]. intros r e. simpl. by rewrite lookup_empty. Qed.

(** The response of a task that finishes is explained by the upstream. *)
Lemma run_explained l i l' r res :
  loop_dated U lag l → step (U (now (l_redis l))) l (Run i) l' →
  l_tasks l' !! i = Some (Finished r res) →
  explained_at U lag (now (l_redis l)) r res.
Proof.
  intros [Hd Ht] Hs. inversion Hs as [|? ? r' Hi|? ? r' p Hi| | | |]; subst; unfold resume.
  - destruct (start_dated r' _ Hd) as [_ Ho].
    destruct (run_until_await (handle r') (l_redis l)).1; simpl;
      rewrite (lookup_insert_tasks _ _ _ _ Hi); [|done]. by intros [= <- <-].
  - destruct (finish_dated r' p _ Hd (Forall_lookup_1 _ _ _ _ Ht Hi))
      as (_ & _ & res' & -> & Hres).
    simpl. rewrite (lookup_insert_tasks _ _ _ _ Hi). by intros [= <- <-].
Qed.

(** From a server that holds nothing, under the policy. *)
Lemma execution_explained t0 ls l i l' r res :
  execution U policy (idle (redis_client ∅ t0)) ls l →
  step (U (now (l_redis l))) l (Run i) l' →
  l_tasks l' !! i = Some (Finished r res) →
  explained_at U lag (now (l_redis l)) r res.
Proof.
  intros Hex. apply run_explained. eapply execution_dated; [done|]. apply idle_dated.
Qed.

End lemmas.

Section theorems.
Context {V : Type} `{!Codec V}.
Implicit Types (U : Z → resolver V) (r : request) (l : loop V).

(** With an upstream that does not change, the executions are those of
    [Async]. *)
Lemma execution_trace (R : resolver V) ls l l' :
  execution (λ _, R) unconstrained l ls l' ↔ trace R l ls l'.
Proof. split; induction 1; econstructor; eauto. Qed.

Lemma explained_timely U t r res : explained_at U eq t r res → timely U t r res.
Proof.
  destruct res as [v|e]; simpl.
  - intros (t_a & t_s & <- & ? & ?). by exists t_a.
  - intros [->|(t_a & <- & ?)]; auto.
Qed.

Lemma explained_sourced U t r res : explained_at U Z.le t r res → sourced U t r res.
Proof.
  destruct res as [v|e]; simpl.
  - intros (t_a & t_s & ? & ? & ?). right. exists t_a. split; [lia | done].
  - intros [->|(t_a & ? & ?)]; [by left|]. right. by exists t_a.
Qed.

(** C14: under the event loop, with an upstream whose answers change over
    time, a response is never older than its TTL.  From a server that
    holds nothing, on every schedule of arrivals, runs, answers, clock
    ticks, connection changes and purges in which a task that was
    answered runs before the clock moves, the response with which a task
    finishes at time [t] is a value that the upstream gave for the same
    request at an instant of the last [ttl] seconds, or the exception
    that the upstream raises at [t], or the connection error. *)
Theorem interleaved_responses_timely U t0 ls l i l' r res :
  execution U prompt (idle (redis_client ∅ t0)) ls l →
  step (U (now (l_redis l))) l (Run i) l' →
  l_tasks l' !! i = Some (Finished r res) →
  timely U (now (l_redis l)) r res.
Proof.
  intros Hex Hs Hf. apply explained_timely.
  exact (execution_explained U prompt eq t0 ls l i l' r res Hex Hs Hf).
Qed.

(** On every schedule, whenever the tasks run, a response is something
    that the upstream gave for the same request at some instant of the
    past, or the connection error: no task gets the answer of another
    request and nothing is made up. *)
Lemma interleaved_responses_sourced U t0 ls l i l' r res :
  execution U unconstrained (idle (redis_client ∅ t0)) ls l →
  step (U (now (l_redis l))) l (Run i) l' →
  l_tasks l' !! i = Some (Finished r res) →
  sourced U (now (l_redis l)) r res.
Proof.
  intros Hex Hs Hf. apply explained_sourced.
  exact (execution_explained U unconstrained Z.le t0 ls l i l' r res Hex Hs Hf).
Qed.

End theorems.

(** ** Examples *)

(** An upstream whose home page changes ten seconds after the start. *)
Definition turning_upstream (t : Z) : resolver json :=
  if (t <? 10)%Z then const_resolver (JStr "old") else const_resolver (JStr "new").

(** A request is answered at once and its task is left waiting for fifty
    minutes before it stores; a second request arrives just under an hour
    after that. *)
Definition late_resume : list label :=
  [Arrive (GetHome 1); Run 0; Answer 0; Pass 3000; Run 0; Pass 3599;
   Arrive (GetHome 1); Run 1].

(** The second response is the old page, which the upstream has not given
    for 6589 seconds: the TTL counts from the store, not from the
    answer. *)
Example late_resume_serves_old :
  ∃ l, schedule_at turning_upstream unconstrained late_resume (idle (redis_client ∅ 0))
       = Some l
       ∧ now (l_redis l) = 6599%Z
       ∧ l_tasks l !! 1 = Some (Finished (GetHome 1) (Ok (JStr "old")))
       ∧ ¬ recent turning_upstream 6599 (GetHome 1) (JStr "old").
Proof.
  eexists. split_and!; [reflexivity..|].
  intros (t_a & Ht & Hr). unfold turning_upstream in Hr. simpl in Ht.
  by destruct (Z.ltb_spec t_a 10); [lia|].
Qed.

(** The same requests with the task run as soon as it is answered. *)
Definition prompt_resume : list label :=
  [Arrive (GetHome 1); Run 0; Answer 0; Run 0; Pass 3599; Arrive (GetHome 1)].

Definition after_prompt_resume : loop json :=
  default (idle (redis_client ∅ 0))
    (schedule_at turning_upstream prompt prompt_resume (idle (redis_client ∅ 0))).

Lemma interleaved_responses_timely_witness :
  timely turning_upstream 3599 (GetHome 1) (Ok (JStr "old")).
Proof.
  apply (interleaved_responses_timely turning_upstream 0 prompt_resume
           after_prompt_resume 1
           (resume 1 (GetHome 1) (handle (GetHome 1)) after_prompt_resume)).
  - apply schedule_at_execution. reflexivity.
  - by apply step_start.
  - reflexivity.
Defined.
