(* ===== verification/Atomic.v ===== *)
(** The event loop when the resolver does not suspend.  A coroutine
    function without an [await] of its own runs to its return when it is
    awaited, without giving the loop a turn, so a handler that awaits
    only such functions runs from its start to its return as one step.
    In the loop of [Async] these are the schedules in which a task that
    is at its [await] is answered and run before anything else happens:
    the policy [immediate], which [Inline] shows to be what the loop does
    with the resolver functions of [main.py].  Under that policy the loop
    is the sequential service: the server and the log are those of the
    history of requests in the order in which their tasks started, and
    the single-flight property of the design holds. *)

From stdpp Require Import gmap.
From S2P Require Import Prelude PyStr Keys Json JsonParse Redis Effects Handlers Async.
From S2P Require Import Interleaving.

Section atomic.
Context {V : Type} `{!Codec V}.

(** A task between its [await] and its return. *)
Definition flying (t : task V) : bool :=
  match t with Waiting _ _ _ | Resumed _ _ => true | _ => false end.

Fixpoint flights (ts : list (task V)) : nat :=
  match ts with
  | [] => 0
  | t :: ts' => (if flying t then 1 else 0) + flights ts'
  end.

(** While a task is flying nothing else happens: only a flying task is
    answered or run. *)
Definition immediate (l : loop V) (a : label) : bool :=
  (flights (l_tasks l) =? 0)
  || match a with
     | Run j | Answer j =>
         match l_tasks l !! j with Some t => flying t | None => false end
     | _ => false
     end.

(** The world once a flying task has returned: what is left of its body
    runs in one go. *)
Definition finish_task (R : resolver V) (t : task V) (w : world) : world :=
  match t with
  | Waiting _ c k => (run R match resolve R c with Ok v => k v | Err e => Raise e end w).2
  | Resumed _ p => (run R p w).2
  | _ => w
  end.

Definition settled (U : Z → resolver V) (l : loop V) : world :=
  foldr (finish_task (U (now (l_redis l)))) (world_of l) (l_tasks l).

(** The event of the sequential service that a label stands for: the
    start of a task is its request, served by the upstream of the
    moment. *)
Definition event_of (U : Z → resolver V) (l : loop V) (a : label) : option (event V) :=
  match a with
  | Run i =>
      match l_tasks l !! i with
      | Some (Created r) => Some (Req (U (now (l_redis l))) r)
      | _ => None
      end
  | Pass d => Some (Tick d)
  | Connection b => Some (Conn b)
  | Expire => Some Purge
  | _ => None
  end.

(** The sequential history of a schedule. *)
Fixpoint sequential (U : Z → resolver V) (ls : list label) (l : loop V)
    : list (event V) :=
  match ls with
  | [] => []
  | a :: ls' =>
      option_list (event_of U l a)
      ++ match fire (U (now (l_redis l))) a l with
         | Some l' => sequential U ls' l'
         | None => []
         end
  end.

(** The request that a task serves. *)
Definition task_request (t : task V) : request :=
  match t with Created r | Waiting r _ _ | Resumed r _ | Finished r _ => r end.

(** Requests for [r] arrive and the loop runs them; nothing else
    happens. *)
Definition burst (r : request) (a : label) : Prop :=
  match a with
  | Arrive r' => r' = r
  | Run _ | Answer _ => True
  | _ => False
  end.

End atomic.

(** ** Lemmas *)

Section lemmas.
Context {V : Type} `{!Codec V}.
Implicit Types (U : Z → resolver V) (R : resolver V) (r : request) (l : loop V)
  (ts : list (task V)) (w : world).

Lemma run_until_await_now (p : prog V V) rd :
  now (run_until_await p rd).2 = now rd.
Proof.
  revert rd. induction p as [a|e|k cont IH|k ttl v cont IH|c cont IH]; intros rd;
    simpl; try done.
  - destruct (redis_get k rd); [apply IH | done].
  - destruct (redis_setex k ttl v rd) as [rd'|] eqn:E; [|done].
    rewrite IH. by apply redis_setex_inv in E as (_ & _ & ->).
Qed.

Lemma flights_insert ts i (t t' : task V) :
  ts !! i = Some t →
  flights (<[i := t']> ts) + (if flying t then 1 else 0)
  = flights ts + (if flying t' then 1 else 0).
Proof.
  revert i. induction ts as [|a ts IH]; intros [|i]; simpl; try done.
  - intros [= ->]. lia.
  - intros Hi. specialize (IH i Hi). lia.
Qed.

Lemma flights_lookup ts i (t : task V) :
  ts !! i = Some t → (if flying t then 1 else 0) ≤ flights ts.
Proof.
  revert i. induction ts as [|a ts IH]; intros [|i]; simpl; try done.
  - intros [= ->]. lia.
  - intros Hi. specialize (IH i Hi). lia.
Qed.

Lemma flights_app ts1 ts2 : flights (ts1 ++ ts2) = flights ts1 + flights ts2.
Proof. induction ts1 as [|t ts1 IH]; simpl; lia. Qed.

(** With no task flying nothing is left to run. *)
Lemma finish_calm R ts w : flights ts = 0 → foldr (finish_task R) w ts = w.
Proof.
  induction ts as [|t ts IH]; simpl; [done|]. intros Hf.
  rewrite IH by lia. destruct t; simpl in *; done || lia.
Qed.

(** With one task flying, what is left to run is the rest of that
    task; and when it has moved, the rest of what it has become. *)
Lemma finish_insert R ts i (t t' : task V) w :
  ts !! i = Some t → flights ts ≤ (if flying t then 1 else 0) →
  foldr (finish_task R) w (<[i := t']> ts) = finish_task R t' w.
Proof.
  revert i. induction ts as [|a ts IH]; intros [|i]; simpl; try done.
  - intros [= ->] Hf. rewrite finish_calm; [done|]. destruct (flying t); lia.
  - intros Hi Hf. pose proof (flights_lookup ts i t Hi).
    rewrite (IH i Hi) by lia. destruct a; simpl in *; done || lia.
Qed.

Lemma finish_lookup R ts i (t : task V) w :
  ts !! i = Some t → flights ts ≤ (if flying t then 1 else 0) →
  foldr (finish_task R) w ts = finish_task R t w.
Proof.
  intros Hi Hf. rewrite <-(list_insert_id ts i t Hi) at 1. by eapply finish_insert.
Qed.

Lemma serve_app (evs1 evs2 : list (event V)) w :
  (serve (evs1 ++ evs2) w).2 = (serve evs2 (serve evs1 w).2).2.
Proof. revert w. induction evs1 as [|ev evs1 IH]; intros w; simpl; [done | apply IH]. Qed.

(** A task that runs: what it leaves to run afterwards is what was left
    before, less what it has just done. *)
Lemma resume_settled U l i r (p : prog V V) t :
  l_tasks l !! i = Some t → flights (l_tasks l) ≤ (if flying t then 1 else 0) →
  flights (l_tasks (resume i r p l)) ≤ 1
  ∧ settled U (resume i r p l) = (run (U (now (l_redis l))) p (world_of l)).2.
Proof.
  intros Hi Hf. unfold settled, resume, world_of. rewrite run_split.
  pose proof (run_until_await_now p (l_redis l)) as Hnow.
  pose proof (flights_insert (l_tasks l) i t) as Hins.
  destruct (run_until_await p (l_redis l)) as [[res|c k] rd']; simpl in *; rewrite Hnow.
  - specialize (Hins (Finished r res) Hi). simpl in Hins.
    split; [destruct (flying t); lia|]. by rewrite (finish_insert _ _ _ t).
  - specialize (Hins (Waiting r c k) Hi). simpl in Hins.
    split; [destruct (flying t); lia|]. by rewrite (finish_insert _ _ _ t).
Qed.

(** The environment moves only when no task is flying. *)
Lemma immediate_calm l a :
  immediate l a = true →
  match a with Run _ | Answer _ => False | _ => True end →
  flights (l_tasks l) = 0.
Proof.
  unfold immediate. intros [H|H]%orb_true_iff Ha; [by apply Nat.eqb_eq in H|].
  by destruct a.
Qed.

Lemma settled_calm U l : flights (l_tasks l) = 0 → settled U l = world_of l.
Proof. apply finish_calm. Qed.

Lemma settled_lookup U l i (t : task V) :
  l_tasks l !! i = Some t → flights (l_tasks l) ≤ (if flying t then 1 else 0) →
  settled U l = finish_task (U (now (l_redis l))) t (world_of l).
Proof. apply finish_lookup. Qed.

(** One step of the loop is at most one event of the sequential
    service, on the world as it will be once the flying task has
    returned. *)
Lemma step_settled U l a l' :
  flights (l_tasks l) ≤ 1 → immediate l a = true →
  step (U (now (l_redis l))) l a l' →
  flights (l_tasks l') ≤ 1
  ∧ settled U l' = (serve (option_list (event_of U l a)) (settled U l)).2.
Proof.
  intros Hf Hp Hs.
  inversion Hs as [? r|? i r Hi|? i r p Hi|? i r c k Hi|? d|? b|]; subst; simpl.
  - rewrite flights_app. simpl. split; [lia|].
    unfold settled. simpl. by rewrite foldr_app.
  - rewrite Hi. simpl. unfold immediate in Hp. rewrite Hi, orb_false_r in Hp.
    apply Nat.eqb_eq in Hp. rewrite (settled_calm U l Hp).
    apply (resume_settled U l i r (handle r) (Created r)); [done | simpl; lia].
  - rewrite Hi. simpl. rewrite (settled_lookup U l i (Resumed r p)) by done.
    by apply (resume_settled U l i r p (Resumed r p)).
  - pose proof (flights_insert (l_tasks l) i _
        (Resumed r match resolve (U (now (l_redis l))) c with
                   | Ok v => k v | Err e => Raise e end) Hi) as Hins.
    simpl in Hins. split; [lia|].
    rewrite (settled_lookup U l i (Waiting r c k)) by done.
    unfold settled. simpl. by rewrite (finish_insert _ _ _ (Waiting r c k)) by done.
  - pose proof (immediate_calm l _ Hp I) as Hc.
    split; [lia|]. by rewrite !settled_calm.
  - pose proof (immediate_calm l _ Hp I) as Hc.
    split; [lia|]. by rewrite !settled_calm.
  - pose proof (immediate_calm l _ Hp I) as Hc.
    split; [lia|]. by rewrite !settled_calm.
Qed.

Lemma execution_settled U l ls l' :
  execution U immediate l ls l' → flights (l_tasks l) ≤ 1 →
  flights (l_tasks l') ≤ 1
  ∧ settled U l' = (serve (sequential U ls l) (settled U l)).2.
Proof.
  induction 1 as [|l1 a l2 ls l3 Hp Hs Hex IH]; intros Hf; [done|].
  destruct (step_settled U l1 a l2 Hf Hp Hs) as [Hf2 Heq].
  destruct (IH Hf2) as [Hf3 Heq3]. split; [done|].
  simpl. rewrite (proj2 (fire_step _ _ _ _) Hs), serve_app. by rewrite <-Heq.
Qed.

(** Under [immediate] the loop is the sequential service: once every
    task that has started has returned, the server and the log of
    upstream calls are those of the sequential history of the requests
    in the order of their start, each served by the upstream of its
    moment. *)
Lemma immediate_is_sequential U rd ls l :
  execution U immediate (idle rd) ls l → flights (l_tasks l) = 0 →
  world_of l = (serve (sequential U ls (idle rd)) (mkWorld rd [])).2.
Proof.
  intros Hex Hc. destruct (execution_settled U _ _ _ Hex) as [_ Heq]; [simpl; lia|].
  by rewrite settled_calm in Heq.
Qed.

(** ** Simultaneous requests *)

(** Once the answer of the upstream is stored and while the clock
    stands still, requests for the same thing change nothing. *)
Lemma serve_hits R r v (evs : list (event V)) w :
  connected (w_redis w) = true →
  visible (w_redis w) (cache_key r) = Some (encode v) →
  Forall (λ ev, ev = Req R r) evs → (serve evs w).2 = w.
Proof.
  intros Hc Hv. induction 1 as [|ev evs -> _ IH]; simpl; [done|].
  by rewrite run_handle, (outcome_hit R r w v).
Qed.

(** Requests for one thing, served one after the other from a server
    that holds nothing: the upstream is called for the first and for no
    other. *)
Lemma serve_burst R r v (evs : list (event V)) t :
  resolve R (call_of r) = Ok v → stores_falsy r || truthy v = true →
  Forall (λ ev, ev = Req R r) evs →
  w_log (serve evs (mkWorld (redis_client ∅ t) [])).2
  = match evs with [] => [] | _ => [call_of r] end.
Proof.
  intros Hr Hs. destruct 1 as [|ev evs -> Hevs]; simpl; [done|].
  rewrite run_handle, outcome_miss, Hr, Hs by done. simpl.
  rewrite (serve_hits R r v evs); [done..| |done].
  by rewrite visible_stored, decide_True.
Qed.

Lemma step_request U r l a l' :
  burst r a → step (U (now (l_redis l))) l a l' →
  Forall (λ t, task_request t = r) (l_tasks l) →
  Forall (λ t, task_request t = r) (l_tasks l')
  ∧ Forall (λ ev, ev = Req (U (now (l_redis l))) r) (option_list (event_of U l a)).
Proof.
  intros Hb Hs Ht.
  inversion Hs as [? r'|? i r' Hi|? i r' p Hi|? i r' c k Hi|? d|? b|]; subst;
    simpl in *; try done.
  - subst. split; [|done]. apply Forall_app. by split; [|repeat constructor].
  - rewrite Hi. pose proof (Forall_lookup_1 _ _ _ _ Ht Hi) as Hr. simpl in Hr. subst r'.
    split; [|by repeat constructor]. unfold resume.
    destruct (run_until_await _ _).1; by apply Forall_insert.
  - rewrite Hi. pose proof (Forall_lookup_1 _ _ _ _ Ht Hi) as Hr. split; [|done].
    unfold resume. destruct (run_until_await _ _).1; by apply Forall_insert.
  - pose proof (Forall_lookup_1 _ _ _ _ Ht Hi) as Hr. split; [|done].
    by apply Forall_insert.
Qed.

(** The history of a burst under an upstream that does not change is
    made of requests for the one thing. *)
Lemma sequential_burst R r l ls l' :
  execution (λ _, R) immediate l ls l' → Forall (burst r) ls →
  Forall (λ t, task_request t = r) (l_tasks l) →
  Forall (λ ev, ev = Req R r) (sequential (λ _, R) ls l).
Proof.
  induction 1 as [|l1 a l2 ls l3 Hp Hs Hex IH]; intros Hb Ht; simpl; [done|].
  apply Forall_cons in Hb as [Ha Hb].
  destruct (step_request (λ _, R) r l1 a l2 Ha Hs Ht) as [Ht2 Hev].
  rewrite (proj2 (fire_step _ _ _ _) Hs). apply Forall_app. split; [done | by apply IH].
Qed.

(** C24: simultaneous requests for one thing are resolved once when the
    resolver does not suspend.  Any number of requests for the same
    thing arrive at a server that holds nothing and their tasks run in any
    order: once they have returned, the upstream has been called once
    (the property of the design for concurrent requests on the same key),
    provided the answer is one that the handler stores. *)
Theorem simultaneous_requests_resolved_once R r v t ls l :
  resolve R (call_of r) = Ok v → stores_falsy r || truthy v = true →
  execution (λ _, R) immediate (idle (redis_client ∅ t)) ls l →
  Forall (burst r) ls → flights (l_tasks l) = 0 →
  l_log l = match sequential (λ _, R) ls (idle (redis_client ∅ t)) with
            | [] => []
            | _ => [call_of r]
            end.
Proof.
  intros Hr Hs Hex Hb Hc.
  pose proof (execution_settled (λ _, R) _ _ _ Hex) as [_ Heq]; [simpl; lia|].
  rewrite settled_calm in Heq by done.
  change (l_log l) with (w_log (world_of l)). rewrite Heq.
  apply (serve_burst R r v); [done..|].
  eapply sequential_burst; [done..|constructor].
Qed.

End lemmas.

(** ** Witnesses *)

(** Three requests for the home page arrive together; the third task
    runs first. *)
Definition three_homes : list label :=
  [Arrive (GetHome 1); Arrive (GetHome 1); Arrive (GetHome 1);
   Run 2; Answer 2; Run 2; Run 0; Run 1].

Definition after_three_homes : loop json :=
  default (idle (redis_client ∅ 0))
    (schedule_at (λ _, stub_resolver) immediate three_homes (idle (redis_client ∅ 0))).

Lemma simultaneous_requests_resolved_once_witness :
  l_log after_three_homes = [CHome 1].
Proof.
  apply (simultaneous_requests_resolved_once stub_resolver (GetHome 1) home_stub 0
           three_homes after_three_homes); try reflexivity.
  - apply (schedule_at_execution (λ _, stub_resolver) immediate). reflexivity.
  - repeat constructor.
Defined.

(** The interleaving in which two tasks are both at their [await] is not
    a schedule of a resolver that does not suspend. *)
Example no_two_flights :
  schedule_at (λ _, stub_resolver) immediate
    [Arrive (GetMovie "m1"); Arrive (GetMovie "m1"); Run 0; Run 1]
    (idle (redis_client ∅ 0)) = None.
Proof. reflexivity. Qed.

