(* ===== verification/Inline.v ===== *)
(** What [await] does to a task.  A handler awaits a coroutine function
    of the upstream ([data = await get_home_content(page)]): the body of
    that function runs within the turn of the task, and the task gives
    the loop a turn only where the body itself waits for I/O.  The loop
    of [Async] suspends a task at every [await] of a handler, which is
    what happens with a scraper that fetches at every call; the functions
    at the end of [main.py] have no [await] in their bodies.

    Here the loop takes the bodies as they are written ([coroutine]: a
    body returns, raises, or fetches from the upstream) and runs a
    handler through the calls whose body does not fetch ([run_inline]).
    With bodies that all fetch it is the loop of [Async]; with the bodies
    of [main.py] ([stub_code]) a task runs from its start to its return
    in one turn, under every schedule and without any policy: the loop is
    the sequential service in the order in which the tasks start, and so
    implements the contract of [Contract]. *)

From stdpp Require Import gmap.
From S2P Require Import Prelude PyStr Keys Json JsonParse Redis Effects Handlers.
From S2P Require Import Contract Async Interleaving Atomic.

Section inline.
Context {V : Type} `{!Codec V}.

(** The body of a coroutine function of the upstream, as the task that
    awaits it sees it: a body without [await] returns a value or raises
    within the turn of the task, and a body that waits for the upstream
    suspends the task until the upstream has answered. *)
Inductive coroutine :=
| Returns (v : V)
| Raises (e : exn)
| Fetches.

(** What the task gets: what the body gives, or what the upstream [R]
    answers to the call. *)
Definition result_of (co : coroutine) (R : resolver V) (c : call) : result exn V :=
  match co with
  | Returns v => Ok v
  | Raises e => Err e
  | Fetches => resolve R c
  end.

(** The functions of the upstream as the handlers see them once the
    calls are over. *)
Definition settled_resolver (code : call → coroutine) (R : resolver V) : resolver V := {|
  get_home_content := λ page, result_of (code (CHome page)) R (CHome page);
  perform_search := λ query page,
    result_of (code (CSearch query page)) R (CSearch query page);
  get_movie_info := λ movie_id, result_of (code (CMovie movie_id)) R (CMovie movie_id);
  get_series_info := λ series_id,
    result_of (code (CSeries series_id)) R (CSeries series_id);
  extract_video_sources := λ content_id,
    result_of (code (CWatch content_id)) R (CWatch content_id);
  get_category_content := λ category page,
    result_of (code (CCategory category page)) R (CCategory category page);
|}.

(** Runs a coroutine up to the first [await] of a body that fetches;
    the calls on the way are logged. *)
Fixpoint run_inline {A} (code : call → coroutine) (p : prog V A) (rd : redis)
    (log : list call) : paused V A * redis * list call :=
  match p with
  | Ret a => (Returned (Ok a), rd, log)
  | Raise e => (Returned (Err e), rd, log)
  | Get k cont =>
      match redis_get k rd with
      | Ok o => run_inline code (cont o) rd log
      | Err e => (Returned (Err (RedisError e)), rd, log)
      end
  | Setex k ttl v cont =>
      match redis_setex k ttl v rd with
      | Ok rd' => run_inline code cont rd' log
      | Err e => (Returned (Err (RedisError e)), rd, log)
      end
  | Await c k =>
      match code c with
      | Returns v => run_inline code (k v) rd (log ++ [c])
      | Raises e => (Returned (Err e), rd, log ++ [c])
      | Fetches => (Awaiting c k, rd, log ++ [c])
      end
  end.

(** Task [i] runs [p] up to its next stop. *)
Definition resume_inline (code : call → coroutine) (i : nat) (r : request)
    (p : prog V V) (l : loop V) : loop V :=
  let out := run_inline code p (l_redis l) (l_log l) in
  match out.1.1 with
  | Returned res => mkLoop out.1.2 (<[i := Finished r res]> (l_tasks l)) out.2
  | Awaiting c k => mkLoop out.1.2 (<[i := Waiting r c k]> (l_tasks l)) out.2
  end.

(** The loop of [Async] with the bodies of the upstream functions: a
    task stops where a body fetches, and the answer of the upstream [R]
    wakes it up. *)
Inductive inline_step (code : call → coroutine) (R : resolver V)
    : loop V → label → loop V → Prop :=
| inline_arrive l r : inline_step code R l (Arrive r) (arrive r l)
| inline_start l i r :
    l_tasks l !! i = Some (Created r) →
    inline_step code R l (Run i) (resume_inline code i r (handle r) l)
| inline_resume l i r p :
    l_tasks l !! i = Some (Resumed r p) →
    inline_step code R l (Run i) (resume_inline code i r p l)
| inline_answer l i r c k :
    l_tasks l !! i = Some (Waiting r c k) →
    inline_step code R l (Answer i) (answer R i r c k l)
| inline_pass l d : inline_step code R l (Pass d) (on_redis (tick d) l)
| inline_connection l b : inline_step code R l (Connection b) (on_redis (set_connected b) l)
| inline_expire l : inline_step code R l Expire (on_redis purge l).

(** An execution under the upstream [U], a function of the time: any
    schedule of the labels. *)
Inductive inline_execution (code : call → coroutine) (U : Z → resolver V)
    : loop V → list label → loop V → Prop :=
| inline_execution_nil l : inline_execution code U l [] l
| inline_execution_cons l1 a l2 ls l3 :
    inline_step code (U (now (l_redis l1))) l1 a l2 →
    inline_execution code U l2 ls l3 →
    inline_execution code U l1 (a :: ls) l3.

(** The loop as a function. *)
Definition inline_fire (code : call → coroutine) (R : resolver V) (a : label)
    (l : loop V) : option (loop V) :=
  match a with
  | Arrive r => Some (arrive r l)
  | Run i =>
      match l_tasks l !! i with
      | Some (Created r) => Some (resume_inline code i r (handle r) l)
      | Some (Resumed r p) => Some (resume_inline code i r p l)
      | _ => None
      end
  | Answer i =>
      match l_tasks l !! i with
      | Some (Waiting r c k) => Some (answer R i r c k l)
      | _ => None
      end
  | Pass d => Some (on_redis (tick d) l)
  | Connection b => Some (on_redis (set_connected b) l)
  | Expire => Some (on_redis purge l)
  end.

Fixpoint inline_schedule (code : call → coroutine) (U : Z → resolver V)
    (ls : list label) (l : loop V) : option (loop V) :=
  match ls with
  | [] => Some l
  | a :: ls' => inline_fire code (U (now (l_redis l))) a l ≫= inline_schedule code U ls'
  end.

(** The history of a schedule as the sequential service sees it: the
    request of each task at the label that starts it, served by the
    upstream [W] of that moment, and the events of the environment. *)
Fixpoint history (code : call → coroutine) (U W : Z → resolver V) (ls : list label)
    (l : loop V) : list (event V) :=
  match ls with
  | [] => []
  | a :: ls' =>
      option_list (event_of W l a)
      ++ match inline_fire code (U (now (l_redis l))) a l with
         | Some l' => history code U W ls' l'
         | None => []
         end
  end.

(** No body fetches / every body fetches. *)
Definition never_fetches (code : call → coroutine) : Prop := ∀ c, code c ≠ Fetches.
Definition always_fetches (code : call → coroutine) : Prop := ∀ c, code c = Fetches.

End inline.

Arguments coroutine V : clear implicits.

(** The six functions at the end of [main.py]: each body is one [return]
    of a constant. *)
Definition stub_code (c : call) : coroutine json :=
  match c with
  | CHome page => Returns (JDict [("sections", JList []); ("featured", JList [])])
  | CSearch query page => Returns (JDict [("results", JList []); ("total_pages", JInt 0)])
  | CMovie movie_id => Returns JNull
  | CSeries series_id => Returns JNull
  | CWatch content_id => Returns (JList [])
  | CCategory category page =>
      Returns (JDict [("items", JList []); ("total_pages", JInt 0)])
  end.

(** The requests of a schedule of the code as it ships, in the order in
    which their tasks start, with the clock, the connection and the
    purges in between. *)
Definition shipped_history (U : Z → resolver json) (ls : list label) (rd : redis)
    : list (event json) :=
  history stub_code U (λ _, stub_resolver) ls (idle rd).

(** ** Lemmas *)

Section lemmas.
Context {V : Type} `{!Codec V}.
Implicit Types (code : call → coroutine V) (U W : Z → resolver V) (R : resolver V).
Implicit Types (r : request) (l : loop V) (rd : redis) (log : list call).

Lemma inline_fire_step code R a l l' :
  inline_fire code R a l = Some l' ↔ inline_step code R l a l'.
Proof.
  split.
  - destruct a; simpl; repeat case_match; try done; intros [= <-]; by constructor.
  - destruct 1; simpl; by simplify_option_eq.
Qed.

Lemma inline_schedule_execution code U ls l l' :
  inline_schedule code U ls l = Some l' ↔ inline_execution code U l ls l'.
Proof.
  split.
  - revert l. induction ls as [|a ls IH]; simpl; intros l.
    + intros [= <-]. constructor.
    + destruct (inline_fire _ _ a l) as [l1|] eqn:Hf; [|done]. simpl. intros Hs.
      econstructor; [by apply inline_fire_step | by apply IH].
  - induction 1 as [|l1 a l2 ls l3 Hs _ IH]; simpl; [done|].
    apply inline_fire_step in Hs. by rewrite Hs.
Qed.

Lemma resolve_settled code R c :
  resolve (settled_resolver code R) c = result_of (code c) R c.
Proof. by destruct c. Qed.

(** *** Bodies that all fetch: the loop of [Async] *)

Lemma run_inline_fetches {A} code (p : prog V A) rd log :
  always_fetches code →
  run_inline code p rd log =
    match run_until_await p rd with
    | (Returned res, rd') => (Returned res, rd', log)
    | (Awaiting c k, rd') => (Awaiting c k, rd', log ++ [c])
    end.
Proof.
  intros Hf. revert rd. induction p as [a|e|k cont IH|k ttl v cont IH|c cont IH];
    intros rd; simpl; try done.
  - destruct (redis_get k rd); [apply IH | done].
  - destruct (redis_setex k ttl v rd); [apply IH | done].
  - by rewrite Hf.
Qed.

Lemma resume_inline_fetches code i r (p : prog V V) l :
  always_fetches code → resume_inline code i r p l = resume i r p l.
Proof.
  intros Hf. unfold resume_inline, resume. rewrite (run_inline_fetches _ _ _ _ Hf).
  by destruct (run_until_await p (l_redis l)) as [[res|c k] rd'].
Qed.

(** *** Bodies that never fetch: one turn per task *)

Lemma run_inline_direct {A} code R (p : prog V A) rd log :
  never_fetches code →
  run_inline code p rd log =
    let out := run (settled_resolver code R) p (mkWorld rd log) in
    (Returned out.1, w_redis out.2, w_log out.2).
Proof.
  intros Hn. revert rd log.
  induction p as [a|e|k cont IH|k ttl v cont IH|c cont IH]; intros rd log; simpl;
    try done.
  - destruct (redis_get k rd); [apply IH | done].
  - destruct (redis_setex k ttl v rd); [apply IH | done].
  - rewrite resolve_settled. specialize (Hn c).
    destruct (code c) as [v|e|]; simpl; [apply IH | done..].
Qed.

(** A task that starts returns in the same turn with the outcome of the
    sequential handler. *)
Lemma resume_inline_direct code R i r (p : prog V V) l :
  never_fetches code →
  resume_inline code i r p l =
    let out := run (settled_resolver code R) p (world_of l) in
    mkLoop (w_redis out.2) (<[i := Finished r out.1]> (l_tasks l)) (w_log out.2).
Proof.
  intros Hn. unfold resume_inline. by rewrite (run_inline_direct _ R _ _ _ Hn).
Qed.

(** One step: no task is left under way, and the world moves as the
    sequential service moves it at the event of the label. *)
Lemma inline_step_calm code R W l a l' :
  never_fetches code → W (now (l_redis l)) = settled_resolver code R →
  inline_step code R l a l' → flights (l_tasks l) = 0 →
  flights (l_tasks l') = 0
  ∧ world_of l' = match event_of W l a with
                  | Some ev => (serve1 ev (world_of l)).2
                  | None => world_of l
                  end.
Proof.
  intros Hn HW Hs Hc.
  destruct Hs as [l r|l i r Hi|l i r p Hi|l i r c k Hi|l d|l b|l]; simpl; try done.
  - split; [|done]. rewrite flights_app. simpl. lia.
  - rewrite Hi, HW, (resume_inline_direct _ R) by done. simpl.
    split; [|by destruct (run _ _ _).2].
    pose proof (flights_insert _ _ _ (Finished r (run (settled_resolver code R)
                  (handle r) (world_of l)).1) Hi) as Hins. simpl in Hins. lia.
  - pose proof (flights_lookup _ _ _ Hi). simpl in *. lia.
  - pose proof (flights_lookup _ _ _ Hi). simpl in *. lia.
Qed.

(** Along an execution, from a loop with no task under way. *)
Lemma inline_execution_calm code U l ls l' :
  never_fetches code → inline_execution code U l ls l' → flights (l_tasks l) = 0 →
  flights (l_tasks l') = 0
  ∧ world_of l'
    = (serve (history code U (λ t, settled_resolver code (U t)) ls l) (world_of l)).2.
Proof.
  intros Hn. induction 1 as [l|l1 a l2 ls l3 Hs _ IH]; intros Hc; simpl; [done|].
  destruct (inline_step_calm code _ (λ t, settled_resolver code (U t)) _ _ _
              Hn eq_refl Hs Hc) as [Hc2 Hw].
  destruct (IH Hc2) as [Hc3 Hw3]. split; [done|].
  rewrite (proj2 (inline_fire_step _ _ _ _ _) Hs), serve_app, Hw3. f_equal.
  rewrite Hw. by destruct (event_of _ l1 a).
Qed.

(** The history of a burst of requests for one thing is made of requests
    for that thing. *)
Lemma inline_step_request code R W r l a l' :
  burst r a → inline_step code R l a l' →
  Forall (λ t, task_request t = r) (l_tasks l) →
  Forall (λ t, task_request t = r) (l_tasks l')
  ∧ Forall (λ ev, ev = Req (W (now (l_redis l))) r) (option_list (event_of W l a)).
Proof.
  intros Hb Hs Ht.
  destruct Hs as [l r'|l i r' Hi|l i r' p Hi|l i r' c k Hi|l d|l b|l];
    simpl in *; try done.
  - subst. split; [|done]. apply Forall_app. by split; [|repeat constructor].
  - rewrite Hi. pose proof (Forall_lookup_1 _ _ _ _ Ht Hi) as Hr. simpl in Hr. subst r'.
    split; [|by repeat constructor]. unfold resume_inline.
    destruct (run_inline _ _ _ _).1.1; by apply Forall_insert.
  - rewrite Hi. pose proof (Forall_lookup_1 _ _ _ _ Ht Hi) as Hr. split; [|done].
    unfold resume_inline. destruct (run_inline _ _ _ _).1.1; by apply Forall_insert.
  - pose proof (Forall_lookup_1 _ _ _ _ Ht Hi) as Hr. split; [|done].
    by apply Forall_insert.
Qed.

Lemma history_burst code U R r l ls l' :
  inline_execution code U l ls l' → Forall (burst r) ls →
  Forall (λ t, task_request t = r) (l_tasks l) →
  Forall (λ ev, ev = Req R r) (history code U (λ _, R) ls l).
Proof.
  induction 1 as [|l1 a l2 ls l3 Hs Hex IH]; intros Hb Ht; simpl; [done|].
  apply Forall_cons in Hb as [Ha Hb].
  destruct (inline_step_request code _ (λ _, R) r l1 a l2 Ha Hs Ht) as [Ht2 Hev].
  rewrite (proj2 (inline_fire_step _ _ _ _ _) Hs). apply Forall_app.
  split; [done | by apply IH].
Qed.

(** *** The policy [immediate] *)

(** The task that has just stopped at an [await] is answered and run
    again while nothing else happens: two steps of the loop of [Async]
    that the policy [immediate] allows. *)
Lemma await_immediate W i r c k l t ls l' :
  l_tasks l !! i = Some t → flights (l_tasks l) ≤ (if flying t then 1 else 0) →
  let p := match resolve (W (now (l_redis l))) c with Ok v => k v | Err e => Raise e end in
  let l2 := mkLoop (l_redis l) (<[i := Resumed r p]> (l_tasks l)) (l_log l ++ [c]) in
  execution W immediate (resume i r p l2) ls l' →
  execution W immediate
    (mkLoop (l_redis l) (<[i := Waiting r c k]> (l_tasks l)) (l_log l ++ [c]))
    (Answer i :: Run i :: ls) l'.
Proof.
  intros Hi Hf p l2 Hex. pose proof (lookup_lt_Some _ _ _ Hi) as Hlt.
  apply execution_cons with (l2 := l2).
  - unfold immediate. simpl. by rewrite list_lookup_insert_eq, orb_true_r.
  - replace l2 with (answer (W (now (l_redis l))) i r c k
      (mkLoop (l_redis l) (<[i := Waiting r c k]> (l_tasks l)) (l_log l ++ [c])))
      by (unfold answer, l2; simpl; by rewrite list_insert_insert_eq).
    apply step_answer. simpl. by rewrite list_lookup_insert_eq.
  - apply execution_cons with (l2 := resume i r p l2); [| |done].
    + unfold immediate, l2. simpl. by rewrite list_lookup_insert_eq, orb_true_r.
    + apply step_resume. unfold l2. simpl. by rewrite list_lookup_insert_eq.
Qed.

(** A task that runs through bodies that do not fetch is, in the loop of
    [Async], a task that is answered at once at each of its [await]s. *)
Lemma resume_inline_immediate code U i r (p : prog V V) l t :
  never_fetches code →
  l_tasks l !! i = Some t → flights (l_tasks l) ≤ (if flying t then 1 else 0) →
  ∃ ls, execution (λ t, settled_resolver code (U t)) immediate
          (resume i r p l) ls (resume_inline code i r p l).
Proof.
  intros Hn. revert l t.
  induction p as [a|e|k cont IH|k ttl v cont IH|c cont IH]; intros l t Hi Hf.
  - exists []. constructor.
  - exists []. constructor.
  - unfold resume, resume_inline. simpl.
    destruct (redis_get k (l_redis l)) as [o|e]; [|exists []; constructor].
    exact (IH o l t Hi Hf).
  - unfold resume, resume_inline. simpl.
    destruct (redis_setex k ttl v (l_redis l)) as [rd'|e]; [|exists []; constructor].
    exact (IH (mkLoop rd' (l_tasks l) (l_log l)) t Hi Hf).
  - pose proof (flights_insert _ _ _ (Resumed r match code c with
        | Returns v => cont v | Raises e => Raise e | Fetches => Raise (RedisError ConnectionError)
        end) Hi) as Hins.
    unfold resume at 1. unfold resume_inline. simpl. specialize (Hn c).
    destruct (code c) as [v|e|] eqn:Hc; [| |done].
    + edestruct (IH v (mkLoop (l_redis l) (<[i := Resumed r (cont v)]> (l_tasks l))
                   (l_log l ++ [c])) (Resumed r (cont v))) as [ls Hex].
      { simpl. apply list_lookup_insert_eq. by eapply lookup_lt_Some. }
      { simpl in *. lia. }
      exists (Answer i :: Run i :: ls). eapply await_immediate; [done..|].
      simpl. rewrite resolve_settled, Hc. simpl.
      unfold resume_inline in Hex. cbn [l_redis l_log l_tasks] in Hex.
      by destruct (run_inline _ _ _ _).1.1; rewrite list_insert_insert_eq in Hex.
    + exists [Answer i; Run i]. eapply await_immediate; [done..|].
      simpl. rewrite resolve_settled, Hc. simpl. unfold resume. simpl.
      rewrite list_insert_insert_eq. constructor.
Qed.

(** One step of the loop with bodies that do not fetch is a schedule of
    the loop of [Async] under [immediate]. *)
Lemma inline_step_immediate code U l a l' :
  never_fetches code → inline_step code (U (now (l_redis l))) l a l' →
  flights (l_tasks l) = 0 →
  ∃ ls, execution (λ t, settled_resolver code (U t)) immediate l ls l'.
Proof.
  intros Hn Hs Hc. set (W := λ t, settled_resolver code (U t)).
  assert (Hp : ∀ b, immediate l b = true)
    by (intros b; unfold immediate; by rewrite Hc).
  inversion Hs as [? r|? i r Hi|? i r p Hi|? i r c k Hi|? d|? b|]; subst.
  - exists [Arrive r]. by repeat econstructor.
  - destruct (resume_inline_immediate code U i r (handle r) l _ Hn Hi) as [ls Hex];
      [simpl; lia|].
    exists (Run i :: ls). apply execution_cons with (l2 := resume i r (handle r) l);
      [done | by constructor | done].
  - pose proof (flights_lookup _ _ _ Hi). simpl in *. lia.
  - pose proof (flights_lookup _ _ _ Hi). simpl in *. lia.
  - exists [Pass d]. by repeat econstructor.
  - exists [Connection b]. by repeat econstructor.
  - exists [Expire]. by repeat econstructor.
Qed.

Lemma execution_app U (policy : loop V → label → bool) l1 ls1 l2 ls2 l3 :
  execution U policy l1 ls1 l2 → execution U policy l2 ls2 l3 →
  execution U policy l1 (ls1 ++ ls2) l3.
Proof. induction 1; simpl; [done|]. intros. econstructor; eauto. Qed.

Lemma inline_execution_immediate code U l ls l' :
  never_fetches code → inline_execution code U l ls l' → flights (l_tasks l) = 0 →
  ∃ ls', execution (λ t, settled_resolver code (U t)) immediate l ls' l'.
Proof.
  intros Hn. induction 1 as [l|l1 a l2 ls l3 Hs _ IH]; intros Hc.
  - exists []. constructor.
  - destruct (inline_step_calm code _ (λ _, settled_resolver code (U (now (l_redis l1))))
                _ _ _ Hn eq_refl Hs Hc) as [Hc2 _].
    destruct (inline_step_immediate code U _ _ _ Hn Hs Hc) as [ls1 Hex1].
    destruct (IH Hc2) as [ls2 Hex2]. exists (ls1 ++ ls2). by eapply execution_app.
Qed.

(** *** The responses *)

(** A task that has returned was started by a step of the schedule, and
    its response is that of the handler on the world of that step. *)
Lemma inline_step_finishes code R l a l' i r res :
  never_fetches code → flights (l_tasks l) = 0 → inline_step code R l a l' →
  l_tasks l' !! i = Some (Finished r res) →
  l_tasks l !! i = Some (Finished r res)
  ∨ a = Run i ∧ l_tasks l !! i = Some (Created r)
    ∧ res = (run (settled_resolver code R) (handle r) (world_of l)).1.
Proof.
  intros Hn Hc Hs.
  destruct Hs as [l r'|l j r' Hj|l j r' p Hj|l j r' c k Hj|l d|l b|l]; simpl; auto.
  - intros [?|[_ Hi]]%lookup_app_Some; [by left|].
    by destruct (i - length (l_tasks l)) as [|[]].
  - rewrite (resume_inline_direct _ R) by done. simpl.
    destruct (decide (i = j)) as [->|Hne].
    + rewrite list_lookup_insert_eq by (by eapply lookup_lt_Some). intros [= <- <-]. auto.
    + rewrite list_lookup_insert_ne by done. auto.
  - pose proof (flights_lookup _ _ _ Hj). simpl in *. lia.
  - pose proof (flights_lookup _ _ _ Hj). simpl in *. lia.
Qed.

Lemma inline_execution_finished code U l ls l' i r res :
  never_fetches code → inline_execution code U l ls l' → flights (l_tasks l) = 0 →
  l_tasks l' !! i = Some (Finished r res) →
  l_tasks l !! i = Some (Finished r res)
  ∨ ∃ ls1 ls2 l1, ls = ls1 ++ Run i :: ls2 ∧ inline_execution code U l ls1 l1
      ∧ res = (run (settled_resolver code (U (now (l_redis l1)))) (handle r)
                 (world_of l1)).1.
Proof.
  intros Hn. induction 1 as [l|l1 a l2 ls l3 Hs Hex IH]; intros Hc Hi; [by left|].
  destruct (inline_step_calm code _ (λ _, settled_resolver code (U (now (l_redis l1))))
              _ _ _ Hn eq_refl Hs Hc) as [Hc2 _].
  destruct (IH Hc2 Hi) as [Hfin|(ls1 & ls2 & l' & -> & Hex1 & Hres)].
  - destruct (inline_step_finishes _ _ _ _ _ _ _ _ Hn Hc Hs Hfin) as [?|(-> & _ & ->)];
      [by left|].
    right. exists [], ls, l1. split; [done|]. split; [constructor | done].
  - right. exists (a :: ls1), ls2, l'. split; [done|]. split; [by econstructor | done].
Qed.

End lemmas.

(** ** The upstream functions of [main.py] *)

Lemma stub_code_never_fetches : never_fetches stub_code.
Proof. by intros []. Qed.

(** The handlers get from the bodies what [stub_resolver] answers, and
    the scraper behind them is never asked. *)
Lemma stub_code_settled R c : result_of (stub_code c) R c = resolve stub_resolver c.
Proof. by destruct c. Qed.

Lemma stub_resolver_answers c : ∃ v, resolve stub_resolver c = Ok v.
Proof. destruct c; by eexists. Qed.

(** ** Theorems *)

(** A scraper that fetches at every call: the loop is the loop of
    [Async], whose tasks give way at each [await]. *)
Theorem fetching_loop_is_async {V} `{!Codec V} (code : call → coroutine V) R l a l' :
  always_fetches code → inline_step code R l a l' ↔ step R l a l'.
Proof.
  intros Hf. rewrite <-inline_fire_step, <-fire_step.
  destruct a; simpl; [done| |done..].
  by destruct (l_tasks l !! i) as [[]|]; rewrite ?(resume_inline_fetches _ _ _ _ _ Hf).
Qed.

(** The policy [immediate] is what the loop does with bodies that do not
    fetch: every schedule of the loop with the functions of [main.py] is
    a schedule of the loop of [Async] in which each task is answered at
    once, with the same server, tasks and log at its end. *)
Theorem shipped_schedules_are_immediate U rd ls l :
  inline_execution stub_code U (idle rd) ls l →
  ∃ ls', execution (λ _, stub_resolver) immediate (idle rd) ls' l.
Proof.
  intros Hex.
  by apply (inline_execution_immediate stub_code U _ _ _ stub_code_never_fetches Hex).
Qed.

(** With the functions of [main.py] the loop is the sequential service
    on the requests in the order in which their tasks start, and the
    response of every task is that of its handler run alone on the world
    that the requests started before it have left. *)
Lemma shipped_loop_sequential U rd ls l :
  inline_execution stub_code U (idle rd) ls l →
  flights (l_tasks l) = 0
  ∧ world_of l = (serve (shipped_history U ls rd) (mkWorld rd [])).2
  ∧ ∀ i r res, l_tasks l !! i = Some (Finished r res) →
      ∃ ls1 ls2, ls = ls1 ++ Run i :: ls2
        ∧ res = (run stub_resolver (handle r)
                   (serve (shipped_history U ls1 rd) (mkWorld rd [])).2).1.
Proof.
  intros Hex. pose proof stub_code_never_fetches as Hn.
  destruct (inline_execution_calm stub_code U _ _ _ Hn Hex eq_refl) as [Hc Hw].
  split_and!; [done..|]. intros i r res Hi.
  destruct (inline_execution_finished stub_code U _ _ _ _ _ _ Hn Hex eq_refl Hi)
    as [?|(ls1 & ls2 & l1 & -> & Hex1 & ->)]; [done|].
  exists ls1, ls2. split; [done|].
  destruct (inline_execution_calm stub_code U _ _ _ Hn Hex1 eq_refl) as [_ Hw1].
  exact (f_equal (λ w, (run stub_resolver (handle r) w).1) Hw1).
Qed.

(** C23: the service as it ships implements the contract of the cache
    under the event loop, on every schedule.  The bodies of the six
    upstream functions of [main.py] have no [await], so the [await] of a
    handler runs them without giving way and a request is served in one
    turn.  Whatever the order in which requests arrive and their tasks
    start, with the clock, the connection and the purges in between, and
    whatever scraper stands behind: no task is ever left at its [await];
    the Redis server and the log of upstream calls read as the cache of
    the contract after the requests in the order in which their tasks
    started; and the response of every task is what the contract reads
    for its request from the cache that the requests started before it
    have left. *)
Theorem shipped_loop_implements_contract U t ls l :
  inline_execution stub_code U (idle (redis_client ∅ t)) ls l →
  flights (l_tasks l) = 0
  ∧ abstraction (world_of l)
    ≡ (contract (shipped_history U ls (redis_client ∅ t)) (vacant t [])).2
  ∧ ∀ i r res, l_tasks l !! i = Some (Finished r res) →
      ∃ ls1 ls2, ls = ls1 ++ Run i :: ls2
        ∧ res = (read stub_resolver r
                   (contract (shipped_history U ls1 (redis_client ∅ t)) (vacant t [])).2).1.
Proof.
  intros (Hc & Hw & Hres)%shipped_loop_sequential.
  pose proof (cache_ok_empty (V:=json) t []) as Hok.
  pose proof (abstraction_empty (V:=json) t []) as Hv.
  split_and!; [done| |].
  - rewrite Hw.
    by destruct (serve_refined_from (shipped_history U ls (redis_client ∅ t)) _ _ Hok Hv).
  - intros i r res (ls1 & ls2 & -> & ->)%Hres. exists ls1, ls2. split; [done|].
    by apply serve_then_read.
Qed.

(** C31: simultaneous requests for one page are resolved once by the code
    as it ships.  Any number of requests for the same page of the home,
    of a search or of a category arrive at a server that holds nothing,
    and the loop runs their tasks in any order: the upstream function is
    called for the task that starts first and for no other, the others
    are served from Redis. *)
Theorem shipped_requests_resolved_once U r t ls l :
  stores_falsy r = true →
  inline_execution stub_code U (idle (redis_client ∅ t)) ls l → Forall (burst r) ls →
  l_log l = match shipped_history U ls (redis_client ∅ t) with
            | [] => []
            | _ => [call_of r]
            end.
Proof.
  intros Hs Hex Hb. destruct (stub_resolver_answers (call_of r)) as [v Hv].
  destruct (inline_execution_calm stub_code U _ _ _ stub_code_never_fetches Hex eq_refl)
    as [_ Hw].
  change (l_log l) with (w_log (world_of l)). rewrite Hw.
  apply (serve_burst stub_resolver r v); [done | by rewrite Hs |].
  eapply history_burst; [done..|constructor].
Qed.

(** ** Witnesses *)

(** Three requests for the home page arrive together at an empty server
    and the third task runs first; the scraper behind the functions is
    down, and is never asked. *)
Definition homes_at_once : list label :=
  [Arrive (GetHome 1); Arrive (GetHome 1); Arrive (GetHome 1); Run 2; Run 0; Run 1].

Definition after_homes_at_once : loop json :=
  from_option id (idle (redis_client ∅ 0))
    (inline_schedule stub_code (λ _, down_resolver) homes_at_once (idle (redis_client ∅ 0))).

Lemma shipped_requests_resolved_once_witness :
  l_log after_homes_at_once = [CHome 1].
Proof.
  apply (shipped_requests_resolved_once (λ _, down_resolver) (GetHome 1) 0 homes_at_once
           after_homes_at_once); [reflexivity| |repeat constructor].
  apply inline_schedule_execution. reflexivity.
Defined.

(** A movie and a page of the home are asked for; ten minutes pass
    between the two tasks and the connection to Redis is lost before the
    third. *)
Definition busy_loop : list label :=
  [Arrive (GetMovie "m1"); Arrive (GetHome 1); Arrive (GetHome 1);
   Run 1; Pass 600; Run 0; Connection false; Run 2].

Definition after_busy_loop : loop json :=
  from_option id (idle (redis_client ∅ 0))
    (inline_schedule stub_code (λ _, down_resolver) busy_loop (idle (redis_client ∅ 0))).

Lemma shipped_loop_implements_contract_witness :
  abstraction (world_of after_busy_loop)
  ≡ (contract [Req stub_resolver (GetHome 1); Tick 600; Req stub_resolver (GetMovie "m1");
               Conn false; Req stub_resolver (GetHome 1)] (vacant 0 [])).2
  ∧ l_tasks after_busy_loop
    = [Finished (GetMovie "m1") (Ok JNull); Finished (GetHome 1) (Ok home_stub);
       Finished (GetHome 1) (Err (RedisError ConnectionError))].
Proof.
  destruct (shipped_loop_implements_contract (λ _, down_resolver) 0 busy_loop
              after_busy_loop) as (_ & Hw & _).
  - apply inline_schedule_execution. reflexivity.
  - split; [exact Hw | reflexivity].
Defined.

(** The movie function returns [None], which the handler does not store:
    each of two requests for one movie calls it. *)
Example shipped_movie_resolved_twice :
  l_log <$> inline_schedule stub_code (λ _, down_resolver)
              [Arrive (GetMovie "m1"); Arrive (GetMovie "m1"); Run 0; Run 1]
              (idle (redis_client ∅ 0))
  = Some [CMovie "m1"; CMovie "m1"].
Proof. reflexivity. Qed.

(** With a scraper that fetches, the two tasks are both at their [await]
    before either returns: the schedule that [immediate] refuses. *)
Example fetching_tasks_overlap :
  flights ∘ l_tasks <$> inline_schedule (λ _, Fetches) (λ _, stub_resolver)
              [Arrive (GetHome 1); Arrive (GetHome 1); Run 0; Run 1]
              (idle (redis_client ∅ 0))
  = Some 2.
Proof. reflexivity. Qed.
