(* ===== verification/Liveness.v ===== *)
(** Progress of the handlers of [main.py] under the event loop of
    [Async]: every task that the loop holds finishes, whatever the order in
    which the loop runs the tasks and the upstream answers them, and
    whatever the upstream answers over time.  The argument is a measure:
    the steps a task still has to take (start, be answered, resume), which
    every step of the scheduler lowers and which no step of the
    environment raises, an arrival apart.  What the measure needs of the
    tasks is that a handler has one [await] ([single_await]), which holds
    of every pool that the loop builds: progress depends neither on the
    cache nor on the upstream. *)

From stdpp Require Import gmap.
From S2P Require Import Prelude PyStr Keys Json JsonParse Redis Effects Handlers Async.
From S2P Require Import Interleaving.

Section liveness.
Context {V : Type} `{!Codec V}.

(** The steps a task has left: a handler has one [await], so a task runs
    at most twice and is answered at most once. *)
Definition work (t : task V) : nat :=
  match t with
  | Created _ => 3
  | Waiting _ _ _ => 2
  | Resumed _ _ => 1
  | Finished _ _ => 0
  end.

Definition pending (ts : list (task V)) : nat := weight work ts.

(** The labels of the scheduler (a task runs, a task is answered) and
    those of the environment. *)
Definition internal (a : label) : bool :=
  match a with
  | Run _ | Answer _ => true
  | _ => false
  end.

Definition arrival (a : label) : bool :=
  match a with
  | Arrive _ => true
  | _ => false
  end.

(** A task of a handler: what waits is the body of the handler after its
    [await], and what is woken is that body with the answer, or the
    exception of the upstream. *)
Definition single_await (t : task V) : Prop :=
  match t with
  | Waiting r _ k => k = after_await r
  | Resumed r p => (∃ v, p = after_await r v) ∨ (∃ e, p = Raise e)
  | _ => True
  end.

(** Every task has finished with a response that its request explains. *)
Definition all_answered (R : resolver V) (l : loop V) : Prop :=
  ∀ i t, l_tasks l !! i = Some t → ∃ r res, t = Finished r res ∧ answered R r res.

Definition all_finished (l : loop V) : Prop :=
  ∀ i t, l_tasks l !! i = Some t → ∃ r res, t = Finished r res.

(** A move of the scheduler under the upstream [U], a function of the
    time. *)
Definition moves (U : Z → resolver V) (l l' : loop V) : Prop :=
  ∃ a, internal a = true ∧ step (U (now (l_redis l))) l a l'.

(** [P] is reached on every schedule: it holds now, or the scheduler can
    move and [P] is reached after each of its moves. *)
Definition eventually (U : Z → resolver V) : (loop V → Prop) → loop V → Prop :=
  reached (moves U).

(** The same with an upstream that does not change. *)
Definition inevitably (R : resolver V) : (loop V → Prop) → loop V → Prop :=
  eventually (λ _, R).

End liveness.

(** ** Lemmas *)

Section lemmas.
Context {V : Type} `{!Codec V}.
Implicit Types (R : resolver V) (U : Z → resolver V) (r : request).
Implicit Types (l : loop V) (t : task V).

Lemma work_zero t : work t = 0 → ∃ r res, t = Finished r res.
Proof. destruct t; simpl; try done. eauto. Qed.

(** A task that is woken up returns at its next run: the rest of a
    handler's body has no [await]. *)
Lemma resumed_returns r p rd :
  single_await (Resumed r p) → ∃ res, (run_until_await p rd).1 = Returned res.
Proof.
  intros [[v ->]|[e ->]]; [|by eexists].
  rewrite run_until_await_after.
  destruct (_ || _); [destruct (redis_setex _ _ _ _)|]; by eexists.
Qed.

(** The loop builds no other tasks. *)
Lemma step_single_await R l a l' :
  step R l a l' → Forall single_await (l_tasks l) → Forall single_await (l_tasks l').
Proof.
  destruct 1 as [l r|l i r Hi|l i r p Hi|l i r c k Hi| | |]; intros Ht; simpl; try done.
  - apply Forall_app. by split; [|repeat constructor].
  - unfold resume. rewrite run_until_await_handle.
    destruct (negb _); [|destruct (cached_truthy _)]; simpl; by apply Forall_insert.
  - destruct (resumed_returns r p (l_redis l) (Forall_lookup_1 _ _ _ _ Ht Hi))
      as [res Hres].
    unfold resume. rewrite Hres. by apply Forall_insert.
  - apply Forall_insert; [done|]. simpl.
    rewrite (Forall_lookup_1 _ _ _ _ Ht Hi : k = _).
    destruct (resolve R c); eauto.
Qed.

Lemma execution_single_await U policy l ls l' :
  execution U policy l ls l' →
  Forall single_await (l_tasks l) → Forall single_await (l_tasks l').
Proof. induction 1; eauto using step_single_await. Qed.

Lemma task_ok_single_await R t : task_ok R t → single_await t.
Proof.
  destruct t; simpl; try done; [by intros [_ ->]|].
  intros [(v & _ & ->)|(e & _ & ->)]; eauto.
Qed.

(** What a step does to the work left: a step of the scheduler lowers it,
    an arrival adds the three steps of the new task, and the environment
    leaves it as it is. *)
Lemma step_pending R l a l' :
  step R l a l' → Forall single_await (l_tasks l) →
  pending (l_tasks l') + (if internal a then 1 else 0)
  ≤ pending (l_tasks l) + (if arrival a then 3 else 0).
Proof.
  unfold pending.
  destruct 1 as [l r|l i r Hi|l i r p Hi|l i r c k Hi| | |]; intros Ht;
    simpl; try lia.
  - rewrite weight_app. simpl. lia.
  - pose proof (weight_insert work (l_tasks l) i) as Hins. unfold resume.
    destruct (run_until_await (handle r) (l_redis l)).1; simpl;
      [specialize (Hins _ (Finished r res) Hi) | specialize (Hins _ (Waiting r c k) Hi)];
      simpl in Hins; lia.
  - destruct (resumed_returns r p (l_redis l) (Forall_lookup_1 _ _ _ _ Ht Hi))
      as [res Hres].
    unfold resume. rewrite Hres. simpl.
    pose proof (weight_insert work _ _ _ (Finished r res) Hi). simpl in *. lia.
  - pose proof (weight_insert work _ _ _ (Resumed r
      match resolve R c with Ok v => k v | Err e => Raise e end) Hi). simpl in *. lia.
Qed.

(** Along an execution the scheduler takes at most three steps per task:
    the steps taken and the work left are bounded by the work at the start
    and the arrivals since. *)
Lemma execution_pending U policy l ls l' :
  execution U policy l ls l' → Forall single_await (l_tasks l) →
  pending (l_tasks l') + count internal ls
  ≤ pending (l_tasks l) + 3 * count arrival ls.
Proof.
  induction 1 as [|l1 a l2 ls l3 _ Hs _ IH]; intros Hl; simpl; [lia|].
  pose proof (step_pending _ _ _ _ Hs Hl).
  specialize (IH (step_single_await _ _ _ _ Hs Hl)).
  destruct (internal a), (arrival a); lia.
Qed.

Lemma trace_pending R l ls l' :
  trace R l ls l' → Forall single_await (l_tasks l) →
  pending (l_tasks l') + count internal ls
  ≤ pending (l_tasks l) + 3 * count arrival ls.
Proof. intros Htr%execution_trace. by apply (execution_pending _ _ _ _ _ Htr). Qed.

(** While a task has work left the scheduler has a step to take. *)
Lemma progress R l :
  pending (l_tasks l) ≠ 0 → ∃ a l', internal a = true ∧ step R l a l'.
Proof.
  intros (i & t & Hi & Ht)%weight_pos. destruct t as [r|r c k|r p|r res]; [| | |done].
  - exists (Run i). eexists. split; [done|]. by apply step_start.
  - exists (Answer i). eexists. split; [done|]. by eapply step_answer.
  - exists (Run i). eexists. split; [done|]. by eapply step_resume.
Qed.

Lemma quiescent_finished l : pending (l_tasks l) = 0 → all_finished l.
Proof. intros Hp i t Hi. apply work_zero. by eapply weight_zero. Qed.

Lemma quiescent_answered R l :
  loop_ok R l → pending (l_tasks l) = 0 → all_answered R l.
Proof.
  intros [_ Ht] Hp i t Hi. destruct (quiescent_finished _ Hp i t Hi) as (r & res & ->).
  exists r, res. split; [done|]. exact (Forall_lookup_1 _ _ _ _ Ht Hi).
Qed.

(** With time passing, the connection changing and keys expiring in
    between, but no new arrival: once the scheduler has taken as many steps
    as there was work, every task is answered.  A scheduler that keeps
    taking a step while one is enabled gets there. *)
Lemma enough_steps_answer_all R l ls l' :
  loop_ok R l → trace R l ls l' → count arrival ls = 0 →
  pending (l_tasks l) ≤ count internal ls → all_answered R l'.
Proof.
  intros Hl Htr Ha Hn. apply quiescent_answered; [by eapply trace_ok|].
  assert (Forall single_await (l_tasks l)) as Hs
    by (eapply Forall_impl; [apply Hl | apply task_ok_single_await]).
  pose proof (trace_pending _ _ _ _ Htr Hs). lia.
Qed.

Lemma eventually_impl U (P Q : loop V → Prop) l :
  (∀ l', P l' → Q l') → eventually U P l → eventually U Q l.
Proof. apply reached_impl. Qed.

(** From a pool of tasks of handlers the scheduler runs out of work on
    every schedule, with every invariant [I] of its steps kept. *)
Lemma eventually_quiescent U (I : loop V → Prop) l :
  (∀ l a l', internal a = true → step (U (now (l_redis l))) l a l' → I l → I l') →
  I l → Forall single_await (l_tasks l) →
  eventually U (λ l', I l' ∧ pending (l_tasks l') = 0) l.
Proof.
  intros HI Hl Hs.
  eapply reached_impl;
    [|apply (reached_measure (moves U) (λ l, pending (l_tasks l))
               (λ l, I l ∧ Forall single_await (l_tasks l)))]; [|..|done].
  - by intros l' [[? _] ?].
  - intros l1 _ Hp.
    destruct (progress (U (now (l_redis l1))) l1 Hp) as (a & l' & Ha & Hst).
    by exists l', a.
  - intros l1 l2 [H1 Hs1] (a & Ha & Hst).
    pose proof (step_pending _ _ _ _ Hst Hs1) as Hle. rewrite Ha in Hle.
    split; [split; [by eapply HI | by eapply step_single_await]|].
    destruct (arrival a) eqn:Hb; [by destruct a|lia].
Qed.

(** From a well-formed loop every schedule ends with all tasks answered. *)
Lemma loop_ok_inevitably R l : loop_ok R l → inevitably R (all_answered R) l.
Proof.
  intros Hl. eapply eventually_impl;
    [|apply (eventually_quiescent (λ _, R) (loop_ok R)); [|done|]].
  - intros l' [??]. by apply quiescent_answered.
  - intros ???? Hs ?. by eapply step_ok.
  - eapply Forall_impl; [apply Hl | apply task_ok_single_await].
Qed.

(** With an upstream that changes over time: whatever has arrived and
    however the time has passed, every schedule ends with all tasks
    finished, the entries of the cache still being answers of the
    upstream within their lag. *)
Lemma requests_finish_under_change U policy lag `{!Lag policy lag} (z : Z) ls l :
  (∀ l' a, internal a = true → policy l' a = true) →
  execution U policy (idle (redis_client ∅ z)) ls l →
  eventually U (λ l', loop_dated U lag l' ∧ all_finished l') l.
Proof.
  intros Hp Hex. eapply eventually_impl;
    [|apply (eventually_quiescent U (loop_dated U lag))].
  - intros l' [??]. split; [done|]. by apply quiescent_finished.
  - intros l1 a l2 Ha Hs. apply (step_dated U policy lag l1 a l2); auto.
  - exact (execution_dated U policy lag _ _ _ Hex (idle_dated U lag z)).
  - exact (execution_single_await _ _ _ _ _ Hex (Forall_nil_2 _)).
Qed.

(** C17: every request is answered in the end: from any state that the loop
    reaches (requests arrived, some handlers suspended at their [await],
    time passed, the connection lost or back), on every schedule of the
    tasks, all tasks finish, each with a response that its own request
    explains. *)
Theorem requests_answered_eventually R rd ls l :
  coherent R rd → trace R (idle rd) ls l → inevitably R (all_answered R) l.
Proof.
  intros Hc Htr. apply loop_ok_inevitably.
  eapply trace_ok; [done|]. by apply idle_ok.
Qed.

(** The scheduler has at most three steps to take per request: in an
    execution from the idle loop the runs and the answers number at most
    three times the arrivals, whatever the cache holds and whatever the
    upstream answers. *)
Theorem scheduler_steps_bounded R rd ls l :
  trace R (idle rd) ls l → count internal ls ≤ 3 * count arrival ls.
Proof.
  intros Htr. pose proof (trace_pending _ _ _ _ Htr (Forall_nil_2 _)) as Hle.
  simpl in Hle. lia.
Qed.

End lemmas.

(** ** Witnesses *)

(** Three requests, two of them for one key, stopped with one task
    finished, one waiting and one not started. *)
Definition three_arrived : list label :=
  [Arrive (GetHome 1); Arrive (GetMovie "m1"); Arrive (GetHome 1);
   Run 0; Pass 5; Answer 0; Run 0; Run 1].

Definition after_three_arrived : loop json :=
  default (idle (redis_client ∅ 0))
    (schedule stub_resolver three_arrived (idle (redis_client ∅ 0))).

Lemma requests_answered_eventually_witness :
  inevitably stub_resolver (all_answered stub_resolver) after_three_arrived.
Proof.
  apply (requests_answered_eventually stub_resolver (redis_client ∅ 0) three_arrived).
  - apply coherent_empty.
  - apply schedule_trace. reflexivity.
Defined.

Lemma scheduler_steps_bounded_witness :
  count internal three_arrived ≤ 3 * count arrival three_arrived.
Proof.
  apply (scheduler_steps_bounded stub_resolver (redis_client ∅ 0) three_arrived
           after_three_arrived).
  apply schedule_trace. reflexivity.
Defined.

(** The same arrivals against the upstream of [Interleaving] that turns
    at the instant 10: the tasks left finish on every schedule. *)
Example turning_upstream_finishes :
  ∀ l, schedule_at turning_upstream prompt three_arrived (idle (redis_client ∅ 0)) = Some l →
       eventually turning_upstream (λ l', loop_dated turning_upstream eq l' ∧ all_finished l') l.
Proof.
  intros l Hl%schedule_at_execution.
  apply (requests_finish_under_change _ prompt eq 0 three_arrived); [by intros ? []|done].
Qed.
