(* ===== verification/Enums.v ===== *)
(** The three string enumerations of [models.py].  Each class mixes in
    [str], so a member is its value for equality and serialization; what
    the class adds is the closed set of members and the lookup of a member
    by value that [ContentType("movie")] performs. *)

From S2P Require Import Prelude PyStr.

Inductive ContentType := MOVIE | SERIES | SHOW | ANIME | DRAMA.

Inductive Language :=
  ARABIC | TURKISH | ENGLISH | HINDI | KOREAN | JAPANESE | MULTI.

Inductive Quality := SD | HD | FHD | UHD.

#[export] Instance ContentType_eq_dec : EqDecision ContentType.
Proof. solve_decision. Defined.
#[export] Instance Language_eq_dec : EqDecision Language.
Proof. solve_decision. Defined.
#[export] Instance Quality_eq_dec : EqDecision Quality.
Proof. solve_decision. Defined.

(** An [Enum] class with string values: its members in definition order
    and the value of each.  Distinct members have distinct values (Python
    would make the second an alias of the first). *)
Class StrEnum (E : Type) `{EqDecision E} := {
  members : list E;
  value : E → string;
  members_all : ∀ e, e ∈ members;
  members_NoDup : NoDup members;
  value_inj :: Inj (=) (=) value;
}.

(** [E(s)]: the member whose value is [s]. *)
Definition of_value {E} `{StrEnum E} (s : string) : option E :=
  snd <$> list_find (λ e, value e = s) members.

(** The values of a class, the strings that validate as a member. *)
Definition values E `{StrEnum E} : list string := value <$> members.

Definition ContentType_value (e : ContentType) : string :=
  match e with
  | MOVIE => "movie"
  | SERIES => "series"
  | SHOW => "show"
  | ANIME => "anime"
  | DRAMA => "drama"
  end.

Definition Language_value (e : Language) : string :=
  match e with
  | ARABIC => "arabic"
  | TURKISH => "turkish"
  | ENGLISH => "english"
  | HINDI => "hindi"
  | KOREAN => "korean"
  | JAPANESE => "japanese"
  | MULTI => "multi"
  end.

Definition Quality_value (e : Quality) : string :=
  match e with
  | SD => "SD"
  | HD => "HD"
  | FHD => "FHD"
  | UHD => "UHD"
  end.

(** Closes the three laws of a class given by its list of members. *)
Ltac solve_enum :=
  solve
    [ intros []; repeat first [ by apply list_elem_of_here | apply list_elem_of_further ]
    | repeat (apply NoDup_cons_2;
              [by rewrite ?elem_of_cons, elem_of_nil; intros ?; destruct_or! |]);
      apply NoDup_nil_2
    | by intros [] [] ].

#[export, refine] Instance ContentType_enum : StrEnum ContentType :=
  {| members := [MOVIE; SERIES; SHOW; ANIME; DRAMA]; value := ContentType_value |}.
Proof. all: solve_enum. Defined.

#[export, refine] Instance Language_enum : StrEnum Language :=
  {| members := [ARABIC; TURKISH; ENGLISH; HINDI; KOREAN; JAPANESE; MULTI];
     value := Language_value |}.
Proof. all: solve_enum. Defined.

#[export, refine] Instance Quality_enum : StrEnum Quality :=
  {| members := [SD; HD; FHD; UHD]; value := Quality_value |}.
Proof. all: solve_enum. Defined.

(** ** Lemmas *)

Section enum.
Context {E : Type} `{StrEnum E}.

Lemma of_value_Some s e : of_value s = Some e ↔ value e = s.
Proof.
  unfold of_value. rewrite fmap_Some. split.
  - intros [[i e'] [Hf ->]]. by apply list_find_Some in Hf as (_ & ? & _).
  - intros Hv. destruct (list_find (λ e, value e = s) members) as [[i e']|] eqn:Hf.
    + exists (i, e'). split; [done|]. simpl.
      apply list_find_Some in Hf as (_ & He' & _).
      apply (inj value). congruence.
    + apply list_find_None in Hf. rewrite Forall_forall in Hf.
      destruct (Hf e (members_all e) Hv).
Qed.

(** Looking a member up by its own value finds it. *)
Lemma of_value_value e : of_value (value e) = Some e.
Proof. by apply of_value_Some. Qed.

Lemma of_value_None s : of_value s = None ↔ s ∉ values E.
Proof.
  rewrite eq_None_not_Some. apply not_iff_compat. unfold is_Some, values.
  rewrite list_elem_of_fmap. split.
  - intros [e He]. exists e. apply of_value_Some in He. split; [done | apply members_all].
  - intros [e [-> _]]. exists e. apply of_value_value.
Qed.

Lemma elem_of_values s : s ∈ values E ↔ ∃ e, value e = s.
Proof.
  unfold values. rewrite list_elem_of_fmap. split.
  - intros [e [-> _]]. by exists e.
  - intros [e <-]. exists e. split; [done | apply members_all].
Qed.

Lemma values_NoDup : NoDup (values E).
Proof. apply (NoDup_fmap_2 value), members_NoDup. Qed.

End enum.

Example values_ContentType :
  values ContentType = ["movie"; "series"; "show"; "anime"; "drama"].
Proof. reflexivity. Qed.

Example of_value_Quality : of_value "FHD" = Some FHD ∧ of_value (E:=Quality) "fhd" = None.
Proof. split; reflexivity. Qed.

(** Looking a member of an enumeration up by its value gives the
    member back, and a string is the value of a member exactly when the
    lookup succeeds. *)
Theorem enum_value_roundtrip {E} `{StrEnum E} (e : E) (s : string) :
  of_value (value e) = Some e ∧ (is_Some (of_value (E:=E) s) ↔ s ∈ values E).
Proof.
  split; [apply of_value_value|]. rewrite elem_of_values. unfold is_Some.
  split; intros [e' He']; exists e'; by apply of_value_Some.
Qed.
