(* ===== verification/Pydantic.v ===== *)
(** What [BaseModel] does with the class bodies of [models.py]: a class is
    a list of fields (type, default, bounds) and of validators by field
    name; [validate_model] is the construction of an instance from keyword
    arguments.  Values are Python data, an instance is the dictionary of
    its field values ([Model.dict()]), and the errors are collected as
    pydantic collects them, each with its location.  A class carries the
    settings of its [class Config]; a field of class type given a value
    that is not a dictionary reads the attributes of the value when the
    class sets [orm_mode] and tries [dict] of the value when not.  The
    coercions are those of pydantic's first major version, which the
    [@validator] and [orm_mode] spellings of the source belong to. *)

From Stdlib Require Import QArith.
From S2P Require Import Prelude PyStr Enums.
Close Scope Q_scope.

(** ** Values *)

(** Python data; [VObject] is any other object (a row of a database, a
    bound method) by its attributes that are data: no coercion reads
    it and it is not iterable. *)
Unset Elimination Schemes.
Inductive pyval :=
| VNone
| VBool (b : bool)
| VInt (z : Z)
| VFloat (q : Q)
| VStr (s : string)
| VDatetime (t : Z)
| VList (l : list pyval)
| VDict (m : list (string * pyval))
| VObject (attrs : list (string * pyval)).
Set Elimination Schemes.

Abbreviation dict := (list (string * pyval)).

(** [m.get(k)] and [k in m] on a dictionary with distinct keys. *)
Fixpoint dict_get (k : string) (m : dict) : option pyval :=
  match m with
  | [] => None
  | (k', v) :: m' => if String.eqb k' k then Some v else dict_get k m'
  end.

Definition dict_has (k : string) (m : dict) : bool :=
  match dict_get k m with Some _ => true | None => false end.

(** What the interpreter and the clock contribute: today's year and
    instant, the reading and printing of floats, and pydantic's reading of
    a datetime from a value that is not one. *)
Record runtime := mkRuntime {
  this_year : Z;
  datetime_now : Z;
  year_of : Z → Z;
  float_of_str : string → option Q;
  str_of_float : Q → string;
  parse_datetime : pyval → option Z;
}.

(** ** Errors *)

Inductive error_kind :=
| Missing
| NoneNotAllowed
| StrError
| IntegerError
| FloatError
| BoolError
| DateTimeError
| ListError
| DictError
| EnumMemberError (permitted : list string)
| NumberNotGe (limit : Q)
| NumberNotLe (limit : Q)
| ValueError (msg : string)
| PlainTypeError (msg : string).

Inductive loc_item :=
| LField (name : string)
| LIndex (i : nat).

Record error := mkError {
  e_loc : list loc_item;
  e_kind : error_kind;
}.

(** What a failed validation raises: at least one error. *)
Abbreviation ValidationError := (error * list error)%type.

Definition raise (loc : list loc_item) (k : error_kind) : ValidationError :=
  (mkError loc k, []).

Definition errors_of (e : ValidationError) : list error := e.1 :: e.2.

(** ** Configuration of a class *)

(** The settings of [class Config] that [models.py] uses. *)
Record Config := mkConfig {
  use_enum_values : bool;
  orm_mode : bool;
}.

(** A line of the body of a [class Config]. *)
Inductive setting :=
| UseEnumValues (b : bool)
| OrmMode (b : bool).

Definition BaseConfig : Config := mkConfig false false.

(** [inherit_config]: the settings of the class body over those of the
    base. *)
Definition inherit_config (own : list setting) (parent : Config) : Config :=
  foldl (λ c s,
    match s with
    | UseEnumValues b => mkConfig b (orm_mode c)
    | OrmMode b => mkConfig (use_enum_values c) b
    end) parent own.

(** ** Types of fields *)

Inductive ftype :=
| TStr
| TInt
| TFloat
| TBool
| TDatetime
| TAny
| TEnum (permitted : list string)
| TList (t : ftype)
| TModel (config : Config) (validate : dict → result ValidationError dict).

(** ** Coercions of the scalar types *)

Definition int_of_float (q : Q) : Z := Z.quot (Qnum q) (Z.pos (Qden q)).

Definition str_validator (rt : runtime) (v : pyval) : result error_kind pyval :=
  match v with
  | VStr s => Ok (VStr s)
  | VInt z => Ok (VStr (str_int z))
  | VBool b => Ok (VStr (if b then "True" else "False"))
  | VFloat q => Ok (VStr (str_of_float rt q))
  | _ => Err StrError
  end.

Definition int_validator (v : pyval) : result error_kind pyval :=
  match v with
  | VInt z => Ok (VInt z)
  | VBool b => Ok (VInt (if b then 1 else 0))
  | VFloat q => Ok (VInt (int_of_float q))
  | VStr s => match py_int s with Some z => Ok (VInt z) | None => Err IntegerError end
  | _ => Err IntegerError
  end.

Definition float_validator (rt : runtime) (v : pyval) : result error_kind pyval :=
  match v with
  | VFloat q => Ok (VFloat q)
  | VInt z => Ok (VFloat (inject_Z z))
  | VBool b => Ok (VFloat (inject_Z (if b then 1 else 0)))
  | VStr s =>
      match float_of_str rt s with Some q => Ok (VFloat q) | None => Err FloatError end
  | _ => Err FloatError
  end.

Definition BOOL_TRUE : list string := ["1"; "on"; "t"; "true"; "y"; "yes"].
Definition BOOL_FALSE : list string := ["0"; "off"; "f"; "false"; "n"; "no"].

Definition bool_validator (v : pyval) : result error_kind pyval :=
  match v with
  | VBool b => Ok (VBool b)
  | VInt z =>
      if (z =? 1)%Z then Ok (VBool true)
      else if (z =? 0)%Z then Ok (VBool false) else Err BoolError
  | VFloat q =>
      if Qeq_bool q 1 then Ok (VBool true)
      else if Qeq_bool q 0 then Ok (VBool false) else Err BoolError
  | VStr s =>
      if bool_decide (lower s ∈ BOOL_TRUE) then Ok (VBool true)
      else if bool_decide (lower s ∈ BOOL_FALSE) then Ok (VBool false)
      else Err BoolError
  | _ => Err BoolError
  end.

Definition datetime_validator (rt : runtime) (v : pyval) : result error_kind pyval :=
  match v with
  | VDatetime t => Ok (VDatetime t)
  | _ =>
      match parse_datetime rt v with
      | Some t => Ok (VDatetime t)
      | None => Err DateTimeError
      end
  end.

(** A member is looked up by value; with [use_enum_values] the field
    holds the value, which a member of a [str] enumeration equals
    anyway. *)
Definition enum_member_validator (permitted : list string) (v : pyval)
    : result error_kind pyval :=
  match v with
  | VStr s =>
      if bool_decide (s ∈ permitted) then Ok (VStr s)
      else Err (EnumMemberError permitted)
  | _ => Err (EnumMemberError permitted)
  end.

(** [ge] and [le] of [Field], checked on the coerced number. *)
Definition number_size_validator (ge le : option Q) (v : pyval)
    : result error_kind pyval :=
  let q := match v with VInt z => Some (inject_Z z) | VFloat q => Some q | _ => None end in
  match q with
  | None => Ok v
  | Some x =>
      match ge with
      | Some lo => if Qle_bool lo x then Ok () else Err (NumberNotGe lo)
      | None => Ok ()
      end ≫= λ _,
      match le with
      | Some hi => if Qle_bool x hi then Ok v else Err (NumberNotLe hi)
      | None => Ok v
      end
  end.

(** ** Validation of a value against a type *)

Definition at_loc {A} (loc : list loc_item) (r : result error_kind A)
    : result ValidationError A :=
  match r with Ok a => Ok a | Err k => Err (raise loc k) end.

Definition relocate (loc : list loc_item) (e : error) : error :=
  mkError (loc ++ e_loc e) (e_kind e).

Definition relocate_all (loc : list loc_item) (e : ValidationError) : ValidationError :=
  (relocate loc e.1, relocate loc <$> e.2).

(** Every item is validated; the errors of all of them are reported. *)
Fixpoint validate_items (f : list loc_item → pyval → result ValidationError pyval)
    (loc : list loc_item) (i : nat) (l : list pyval)
    : result ValidationError (list pyval) :=
  match l with
  | [] => Ok []
  | x :: l' =>
      match f (loc ++ [LIndex i]) x, validate_items f loc (S i) l' with
      | Ok y, Ok ys => Ok (y :: ys)
      | Ok _, Err es => Err es
      | Err e, Ok _ => Err e
      | Err e, Err es => Err (e.1, e.2 ++ errors_of es)
      end
  end.

Definition is_none (v : pyval) : bool :=
  match v with VNone => true | _ => false end.

(** ** What a class takes for keyword arguments *)

(** The items of an iterable: those of a list, the characters of a
    [str], the keys of a dictionary. *)
Definition iterate (v : pyval) : option (list pyval) :=
  match v with
  | VList l => Some l
  | VStr s => Some ((λ a, VStr (String a "")) <$> String.list_ascii_of_string s)
  | VDict m => Some ((λ kv, VStr kv.1) <$> m)
  | _ => None
  end.

(** A key and its value, from a sequence of two items. *)
Definition pair_of (x : pyval) : option (pyval * pyval) :=
  match iterate x with
  | Some [k; v] => Some (k, v)
  | _ => None
  end.

Definition hashable (v : pyval) : bool :=
  match v with VList _ | VDict _ => false | _ => true end.

(** [dict(v)] on a value that is not a dictionary: an iterable of pairs
    with hashable keys, or [TypeError] or [ValueError]. *)
Definition py_dict (v : pyval) : option (list (pyval * pyval)) :=
  l ← iterate v;
  kvs ← mapM pair_of l;
  if forallb (λ kv, hashable kv.1) kvs then Some kvs else None.

(** The pairs as keyword arguments of the class: the keys are to be
    strings; of the values given for one key the last one counts, which
    [dict_get] finds first. *)
Definition keyword (kv : pyval * pyval) : option (string * pyval) :=
  match kv.1 with VStr k => Some (k, kv.2) | _ => None end.

Definition keywords (kvs : list (pyval * pyval)) : option dict :=
  reverse <$> mapM keyword kvs.

(** [GetterDict(v)] on a value that is not a dictionary: the attributes
    of an object; of the names that the classes with [orm_mode] give
    their fields, a [str] has [title], a method, and a [datetime] has its
    [year]. *)
Definition attributes (rt : runtime) (v : pyval) : dict :=
  match v with
  | VObject attrs => attrs
  | VStr _ => [("title", VObject [])]
  | VDatetime t => [("year", VInt (year_of rt t))]
  | _ => []
  end.

(** [Model.validate(v)] as far as the call of the class: a dictionary
    gives the keyword arguments, a class with [orm_mode] reads the
    attributes of anything else, and a class without tries [dict(v)]. *)
Definition model_input (rt : runtime) (config : Config) (v : pyval)
    : result error_kind dict :=
  match v with
  | VDict m => Ok m
  | _ =>
      if orm_mode config then Ok (attributes rt v)
      else
        match py_dict v with
        | None => Err DictError
        | Some kvs =>
            match keywords kvs with
            | None => Err (PlainTypeError "keywords must be strings")
            | Some m => Ok m
            end
        end
  end.

Section validate.
Context (rt : runtime) (ge le : option Q).

(** The validators pydantic finds for a scalar type, in order. *)
Definition find_validators (t : ftype) (v : pyval) : result error_kind pyval :=
  match t with
  | TStr => str_validator rt v
  | TInt => int_validator v ≫= number_size_validator ge le
  | TFloat => float_validator rt v ≫= number_size_validator ge le
  | TBool => bool_validator v
  | TDatetime => datetime_validator rt v
  | TEnum permitted => enum_member_validator permitted v
  | _ => Ok v
  end.

Fixpoint validate_type (t : ftype) (loc : list loc_item) (v : pyval)
    : result ValidationError pyval :=
  match t with
  | TAny => Ok v
  | TList t' =>
      match v with
      | VNone => Err (raise loc NoneNotAllowed)
      | VList l => VList <$> validate_items (validate_type t') loc 0 l
      | _ => Err (raise loc ListError)
      end
  | TModel config validate =>
      if is_none v then Err (raise loc NoneNotAllowed)
      else
        match model_input rt config v with
        | Err k => Err (raise loc k)
        | Ok m =>
            match validate m with
            | Ok d => Ok (VDict d)
            | Err es => Err (relocate_all loc es)
            end
        end
  | _ =>
      if is_none v then Err (raise loc NoneNotAllowed)
      else at_loc loc (find_validators t v)
  end.

End validate.

(** ** Fields and classes *)

Inductive default :=
| Required
| Default (v : pyval)
| DefaultFactory (f : runtime → pyval).

Record field := mkField {
  f_name : string;
  f_type : ftype;
  f_allow_none : bool;
  f_default : default;
  f_ge : option Q;
  f_le : option Q;
}.

(** A function decorated with [@validator]: the value and the fields
    validated so far; it returns the value to keep or raises
    [ValueError]. *)
Definition validator := pyval → dict → result string pyval.

Record model := mkModel {
  m_fields : list field;
  m_validators : list (string * validator);
  m_config : Config;
}.

(** The ways a field is declared in [models.py]. *)
Definition required (name : string) (t : ftype) : field :=
  mkField name t false Required None None.
Definition optional (name : string) (t : ftype) : field :=
  mkField name t true (Default VNone) None None.
Definition defaulted (name : string) (t : ftype) (v : pyval) : field :=
  mkField name t false (Default v) None None.
Definition factory (name : string) (t : ftype) (f : runtime → pyval) : field :=
  mkField name t false (DefaultFactory f) None None.
Definition with_ge (lo : Z) (f : field) : field :=
  mkField (f_name f) (f_type f) (f_allow_none f) (f_default f)
    (Some (inject_Z lo)) (f_le f).
Definition with_le (hi : Z) (f : field) : field :=
  mkField (f_name f) (f_type f) (f_allow_none f) (f_default f)
    (f_ge f) (Some (inject_Z hi)).

(** [class C(BaseModel)] with the settings of its [class Config]. *)
Definition BaseModel (fields : list field)
    (validators : list (string * validator)) (own : list setting) : model :=
  mkModel fields validators (inherit_config own BaseConfig).

(** [class Sub(Base)]: the fields and validators of the base come
    first, and the configuration of the base holds where the class body
    sets nothing else. *)
Definition extends (base : model) (fields : list field)
    (validators : list (string * validator)) (own : list setting) : model :=
  mkModel (m_fields base ++ fields) (m_validators base ++ validators)
    (inherit_config own (m_config base)).

(** ** Validation of a field and of a class *)

Fixpoint validators_of (name : string) (vs : list (string * validator))
    : list validator :=
  match vs with
  | [] => []
  | (n, g) :: vs' =>
      if String.eqb n name then g :: validators_of name vs'
      else validators_of name vs'
  end.

Fixpoint apply_validators (vs : list validator) (loc : list loc_item)
    (v : pyval) (values : dict) : result ValidationError pyval :=
  match vs with
  | [] => Ok v
  | f :: vs' =>
      match f v values with
      | Ok v' => apply_validators vs' loc v' values
      | Err msg => Err (raise loc (ValueError msg))
      end
  end.

Definition is_any (t : ftype) : bool :=
  match t with TAny => true | _ => false end.

Section model.
Context (rt : runtime).

(** A value given for a field: [None] passes where allowed, anything else
    goes through the type, and the class validators see the outcome. *)
Definition validate_field (f : field) (vs : list validator) (v : pyval)
    (values : dict) : result ValidationError pyval :=
  let loc := [LField (f_name f)] in
  if is_none v && (f_allow_none f || is_any (f_type f))
  then apply_validators vs loc v values
  else
    v' ← validate_type rt (f_ge f) (f_le f) (f_type f) loc v;
    apply_validators vs loc v' values.

Definition get_default (f : field) : option pyval :=
  match f_default f with
  | Required => None
  | Default v => Some v
  | DefaultFactory g => Some (g rt)
  end.

(** One turn of the loop over the fields: a missing required field is an
    error, a missing field with a default takes it unvalidated, a given
    value is validated against the fields before it. *)
Definition field_value (vs : list (string * validator)) (f : field)
    (input values : dict) : result ValidationError pyval :=
  match dict_get (f_name f) input with
  | None =>
      match get_default f with
      | None => Err (raise [LField (f_name f)] Missing)
      | Some d => Ok d
      end
  | Some v => validate_field f (validators_of (f_name f) vs) v values
  end.

(** The loop, in declaration order: values and errors accumulate. *)
Fixpoint validate_fields (vs : list (string * validator)) (fs : list field)
    (input values : dict) (errs : list error) : dict * list error :=
  match fs with
  | [] => (values, errs)
  | f :: fs' =>
      match field_value vs f input values with
      | Ok v => validate_fields vs fs' input (values ++ [(f_name f, v)]) errs
      | Err es => validate_fields vs fs' input values (errs ++ errors_of es)
      end
  end.

(** The construction of an instance from the keyword arguments [input]. *)
Definition validate_model (m : model) (input : dict) : result ValidationError dict :=
  let r := validate_fields (m_validators m) (m_fields m) input [] [] in
  match r.2 with
  | [] => Ok r.1
  | e :: es => Err (e, es)
  end.

(** The type of a field annotated with the class [m]. *)
Definition model_type (m : model) : ftype := TModel (m_config m) (validate_model m).

End model.

(** The dictionary [m] written as a list of pairs, as a JSON array of
    arrays of two gives it. *)
Definition pairs (m : dict) : pyval := VList ((λ kv, VList [VStr kv.1; kv.2]) <$> m).

(** ** Validators on typed values *)

(** The functions of [models.py] receive a value that has passed the
    field's type; these wrappers give each its argument at that type.  The
    last case of each is unreachable after type validation and stands for
    the [TypeError] Python would raise. *)
Definition on_str (f : string → result string string) : validator :=
  λ v _, match v with VStr s => VStr <$> f s | _ => Err "TypeError" end.

Definition of_opt_int (o : option Z) : pyval :=
  match o with Some z => VInt z | None => VNone end.

Definition on_opt_int_values (f : option Z → dict → result string (option Z))
    : validator :=
  λ v values,
    match v with
    | VNone => of_opt_int <$> f None values
    | VInt z => of_opt_int <$> f (Some z) values
    | _ => Err "TypeError"
    end.

Definition on_opt_int (f : option Z → result string (option Z)) : validator :=
  on_opt_int_values (λ v _, f v).

(** ** Canonical values *)

Definition number_of (v : pyval) : option Q :=
  match v with VInt z => Some (inject_Z z) | VFloat q => Some q | _ => None end.

Definition in_bounds (ge le : option Q) (x : Q) : bool :=
  from_option (λ lo, Qle_bool lo x) true ge
  && from_option (λ hi, Qle_bool x hi) true le.

(** The values a field of type [t] holds after validation. *)
Fixpoint has_type (ge le : option Q) (t : ftype) (v : pyval) : Prop :=
  match t with
  | TStr => ∃ s, v = VStr s
  | TInt => ∃ z, v = VInt z ∧ in_bounds ge le (inject_Z z) = true
  | TFloat => ∃ q, v = VFloat q ∧ in_bounds ge le q = true
  | TBool => ∃ b, v = VBool b
  | TDatetime => ∃ d, v = VDatetime d
  | TAny => True
  | TEnum permitted => ∃ s, v = VStr s ∧ s ∈ permitted
  | TList t' => ∃ l, v = VList l ∧ Forall (has_type ge le t') l
  | TModel _ validate => ∃ d, v = VDict d ∧ ∃ m, validate m = Ok d
  end.

Definition scalar (t : ftype) : Prop :=
  match t with TAny | TList _ | TModel _ _ => False | _ => True end.

(** A type whose classes accept their own instances unchanged. *)
Fixpoint stable_type (t : ftype) : Prop :=
  match t with
  | TList t' => stable_type t'
  | TModel _ validate => ∀ m d, validate m = Ok d → validate d = Ok d
  | _ => True
  end.

(** What the loop over the fields has stored when it ends without an
    error: one value per field, each the outcome of its turn. *)
Fixpoint fields_ok (rt : runtime) (vs : list (string * validator))
    (fs : list field) (input values out : dict) : Prop :=
  match fs, out with
  | [], [] => True
  | f :: fs', (n, v) :: out' =>
      n = f_name f ∧ field_value rt vs f input values = Ok v
      ∧ fields_ok rt vs fs' input (values ++ [(n, v)]) out'
  | _, _ => False
  end.

(** The values a field may hold: [None] where allowed, or a value of its
    type within its bounds. *)
Definition field_ok (f : field) (v : pyval) : Prop :=
  is_none v && (f_allow_none f || is_any (f_type f)) = true
  ∨ has_type (f_ge f) (f_le f) (f_type f) v.

(** An instance of a class: one well-typed value per field, in order. *)
Definition well_typed (m : model) (d : dict) : Prop :=
  Forall2 (λ f kv, kv.1 = f_name f ∧ field_ok f kv.2) (m_fields m) d.

(** Class validators that keep a value within its field and accept what
    they return. *)
Definition stable_validators (f : field) (gs : list validator) : Prop :=
  ∀ loc v values v',
    field_ok f v → apply_validators gs loc v values = Ok v' →
    field_ok f v' ∧ apply_validators gs loc v' values = Ok v'.

(** A field that accepts its own values and its default unchanged. *)
Definition stable_field (rt : runtime) (vs : list (string * validator))
    (f : field) : Prop :=
  let gs := validators_of (f_name f) vs in
  stable_type (f_type f) ∧ stable_validators f gs
  ∧ ∀ d values, get_default rt f = Some d → validate_field rt f gs d values = Ok d.

Definition stable_model (rt : runtime) (m : model) : Prop :=
  NoDup (f_name <$> m_fields m)
  ∧ Forall (stable_field rt (m_validators m)) (m_fields m).

(** ** Lemmas: dictionaries *)

Lemma dict_get_app k (m1 m2 : dict) :
  dict_get k (m1 ++ m2) =
    match dict_get k m1 with Some v => Some v | None => dict_get k m2 end.
Proof.
  induction m1 as [|[k' v] m1 IH]; simpl; [done|]. by destruct (String.eqb k' k).
Qed.

Lemma dict_get_None k (m : dict) : dict_get k m = None ↔ k ∉ m.*1.
Proof.
  induction m as [|[k' v] m IH]; simpl.
  - split; [intros _; apply not_elem_of_nil | done].
  - rewrite not_elem_of_cons. destruct (String.eqb_spec k' k) as [->|Hne].
    + split; [done | by intros [? _]].
    + rewrite IH. split; [by split | by intros [_ ?]].
Qed.

Lemma dict_get_Some k v (m : dict) : dict_get k m = Some v → (k, v) ∈ m.
Proof.
  induction m as [|[k' v'] m IH]; simpl; [done|].
  destruct (String.eqb_spec k' k) as [->|Hne];
    [intros [= ->]; apply list_elem_of_here|].
  intros ?. apply list_elem_of_further. auto.
Qed.

(** In a dictionary with distinct keys every pair is found by its key. *)
Lemma dict_get_elem_of k v (m : dict) :
  NoDup m.*1 → (k, v) ∈ m → dict_get k m = Some v.
Proof.
  induction m as [|[k' v'] m IH]; simpl; [by intros _ ?%elem_of_nil|].
  intros [Hk Hm]%NoDup_cons [[= -> ->]|Hin]%elem_of_cons.
  - by rewrite String.eqb_refl.
  - destruct (String.eqb_spec k' k) as [->|Hne]; [|auto].
    destruct Hk. apply list_elem_of_fmap. by exists (k, v).
Qed.

Lemma dict_get_lookup (m : dict) i k v :
  NoDup m.*1 → m !! i = Some (k, v) → dict_get k m = Some v.
Proof. intros Hnd Hi. apply dict_get_elem_of; [done|]. by eapply list_elem_of_lookup_2. Qed.

(** The fields before the [i]-th are what its validators saw. *)
Lemma dict_get_take (m : dict) i j k v :
  NoDup m.*1 → m !! j = Some (k, v) → (j < i)%nat → dict_get k (take i m) = Some v.
Proof.
  intros Hnd Hj Hlt. apply (dict_get_lookup _ j).
  - rewrite fmap_take. eapply sublist_NoDup; [done | apply sublist_take].
  - by rewrite lookup_take_lt.
Qed.

(** ** Lemmas: the scalar types *)

Lemma number_size_validator_Ok ge le v v' :
  number_size_validator ge le v = Ok v' ↔
  v' = v ∧ ∀ x, number_of v = Some x → in_bounds ge le x = true.
Proof.
  unfold number_size_validator.
  change (match v with VInt z => Some (inject_Z z) | VFloat q => Some q | _ => None end)
    with (number_of v).
  destruct (number_of v) as [x|]; [|split; [by intros [= <-] | by intros [-> _]]].
  trans (v' = v ∧ in_bounds ge le x = true).
  - unfold in_bounds.
    destruct ge as [lo|], le as [hi|]; simpl;
      try destruct (Qle_bool lo x); try destruct (Qle_bool x hi); simpl;
      (split; [by intros [= <-] | by intros [-> ?]]).
  - split; [intros [-> ?]; split; [done | by intros ? [= <-]] | intros [-> Hx]; eauto].
Qed.

Lemma at_loc_Ok {A} loc (r : result error_kind A) a : at_loc loc r = Ok a ↔ r = Ok a.
Proof. destruct r; simpl; split; by intros [= ->]. Qed.

Lemma bind_Ok {E A B} (r : result E A) (f : A → result E B) b :
  r ≫= f = Ok b ↔ ∃ a, r = Ok a ∧ f a = Ok b.
Proof.
  destruct r as [a|e]; simpl; split; try done.
  - intros ?. by exists a.
  - by intros (? & [= <-] & ?).
  - by intros (? & [=] & ?).
Qed.

Lemma fmap_Ok {E A B} (r : result E A) (f : A → B) b :
  f <$> r = Ok b ↔ ∃ a, r = Ok a ∧ b = f a.
Proof.
  destruct r as [a|e]; simpl; split; try done.
  - intros [= <-]. by exists a.
  - by intros (? & [= <-] & ->).
  - by intros (? & [=] & ?).
Qed.

Lemma validate_items_Ok f loc i l l' :
  validate_items f loc i l = Ok l' →
  Forall2 (λ x y, ∃ loc', f loc' x = Ok y) l l'.
Proof.
  revert i l'. induction l as [|x l IH]; intros i l'; simpl.
  - intros [= <-]. constructor.
  - destruct (f _ x) as [y|e] eqn:Hx,
      (validate_items f loc (S i) l) as [ys|es] eqn:Hl; intros [= <-].
    constructor; eauto.
Qed.

Lemma validate_items_fixed f loc i l :
  Forall (λ x, ∀ loc', f loc' x = Ok x) l → validate_items f loc i l = Ok l.
Proof.
  intros H. revert i. induction H as [|x l Hx _ IH]; intros i; simpl; [done|].
  by rewrite Hx, IH.
Qed.

Section types.
Context (rt : runtime) (ge le : option Q).

(** Closes a goal about one coercion by running it on every shape of
    value. *)
Ltac coercion v :=
  destruct v; simpl; repeat case_match; intros [= <-]; eauto.

Lemma str_validator_Ok v v' : str_validator rt v = Ok v' → ∃ s, v' = VStr s.
Proof. coercion v. Qed.

Lemma int_validator_Ok v v' : int_validator v = Ok v' → ∃ z, v' = VInt z.
Proof. coercion v. Qed.

Lemma float_validator_Ok v v' : float_validator rt v = Ok v' → ∃ q, v' = VFloat q.
Proof. coercion v. Qed.

Lemma bool_validator_Ok v v' : bool_validator v = Ok v' → ∃ b, v' = VBool b.
Proof. coercion v. Qed.

Lemma datetime_validator_Ok v v' :
  datetime_validator rt v = Ok v' → ∃ d, v' = VDatetime d.
Proof. coercion v. Qed.

Lemma enum_member_validator_Ok permitted v v' :
  enum_member_validator permitted v = Ok v' → ∃ s, v' = VStr s ∧ s ∈ permitted.
Proof.
  destruct v; simpl; try done. case_bool_decide; intros [= <-]; eauto.
Qed.

(** A bounded number that passed the bounds. *)
Lemma sized_Ok (r : result error_kind pyval) v' :
  r ≫= number_size_validator ge le = Ok v' ↔
  r = Ok v' ∧ ∀ x, number_of v' = Some x → in_bounds ge le x = true.
Proof.
  rewrite bind_Ok. split.
  - by intros (a & -> & [-> ?]%number_size_validator_Ok).
  - intros [-> ?]. exists v'. by rewrite number_size_validator_Ok.
Qed.

Lemma find_validators_has_type t v v' :
  scalar t → find_validators rt ge le t v = Ok v' → has_type ge le t v'.
Proof.
  destruct t; simpl; try done; intros _.
  - apply str_validator_Ok.
  - intros [[z ->]%int_validator_Ok Hb]%sized_Ok. eauto.
  - intros [[q ->]%float_validator_Ok Hb]%sized_Ok. eauto.
  - apply bool_validator_Ok.
  - apply datetime_validator_Ok.
  - apply enum_member_validator_Ok.
Qed.

Lemma find_validators_fixed t v :
  scalar t → has_type ge le t v → find_validators rt ge le t v = Ok v.
Proof.
  destruct t; simpl; try done; intros _.
  - by intros [s ->].
  - intros (z & -> & Hb). apply sized_Ok. split; [done|]. by intros ? [= <-].
  - intros (q & -> & Hb). apply sized_Ok. split; [done|]. by intros ? [= <-].
  - by intros [b ->].
  - by intros [d ->].
  - intros (s & -> & Hs). simpl. by rewrite bool_decide_eq_true_2.
Qed.

Lemma has_type_not_none t v : has_type ge le t v → scalar t → is_none v = false.
Proof. destruct t; simpl; try done; by intros (? & -> & ?) || intros (? & ->). Qed.

Lemma validate_type_scalar t loc v :
  scalar t →
  validate_type rt ge le t loc v =
    if is_none v then Err (raise loc NoneNotAllowed)
    else at_loc loc (find_validators rt ge le t v).
Proof. by destruct t. Qed.

(** A field of class type holds the instance that the class makes of the
    keyword arguments its value stands for. *)
Lemma validate_type_model config validate loc v v' :
  validate_type rt ge le (TModel config validate) loc v = Ok v' ↔
  ∃ m d, is_none v = false ∧ model_input rt config v = Ok m
         ∧ validate m = Ok d ∧ v' = VDict d.
Proof.
  simpl. split.
  - destruct (is_none v); [done|].
    destruct (model_input rt config v) as [m|]; [|done].
    destruct (validate m) as [d|] eqn:Hm; intros [= <-]. by exists m, d.
  - by intros (m & d & -> & -> & -> & ->).
Qed.

(** What validation returns has the type. *)
Lemma validate_type_has_type t loc v v' :
  validate_type rt ge le t loc v = Ok v' → has_type ge le t v'.
Proof.
  revert loc v v'.
  induction t as [| | | | | |p|t IH|c f]; intros loc v v';
    try (rewrite validate_type_scalar by exact I; destruct (is_none v); [done|];
         rewrite at_loc_Ok; by apply find_validators_has_type).
  - by simpl.
  - destruct v; try done. simpl. intros (l' & Hl & ->)%fmap_Ok.
    exists l'. split; [done|]. apply validate_items_Ok in Hl.
    induction Hl as [|x y l1 l2 [loc' Hx] _ IHl]; constructor; eauto.
  - intros (m & d & _ & _ & Hd & ->)%validate_type_model. simpl. eauto.
Qed.

(** A value of the type validates to itself when the classes inside
    accept their instances. *)
Lemma validate_type_fixed t loc v :
  stable_type t → has_type ge le t v → validate_type rt ge le t loc v = Ok v.
Proof.
  revert loc v.
  induction t as [| | | | | |p|t IH|c f]; intros loc v Hs Hv;
    try (rewrite validate_type_scalar, (has_type_not_none _ _ Hv) by exact I;
         by apply at_loc_Ok, find_validators_fixed).
  - reflexivity.
  - destruct Hv as (l & -> & Hl). simpl.
    rewrite validate_items_fixed; [done|].
    eapply Forall_impl; [exact Hl|]. intros x Hx loc'. by apply IH.
  - destruct Hv as (d & -> & m & Hm). simpl. by rewrite (Hs m d Hm).
Qed.

(** Validation is idempotent. *)
Lemma validate_type_idemp t loc loc' v v' :
  stable_type t →
  validate_type rt ge le t loc v = Ok v' → validate_type rt ge le t loc' v' = Ok v'.
Proof. eauto using validate_type_fixed, validate_type_has_type. Qed.

End types.

(** ** Lemmas: the loop over the fields *)

Section fields.
Context (rt : runtime) (vs : list (string * validator)).
Implicit Types (f : field) (fs : list field) (input values out : dict).
Implicit Types (errs : list error).

Lemma validate_fields_errs fs input values errs :
  errs `prefix_of` (validate_fields rt vs fs input values errs).2.
Proof.
  revert values errs. induction fs as [|f fs IH]; intros values errs; simpl; [done|].
  destruct (field_value rt vs f input values); [apply IH|].
  etrans; [|apply IH]. by apply prefix_app_r.
Qed.

(** The loop ends without an error only when every turn succeeds. *)
Lemma validate_fields_Ok fs input values errs :
  (validate_fields rt vs fs input values errs).2 = [] →
  errs = [] ∧ ∃ out,
    (validate_fields rt vs fs input values errs).1 = values ++ out
    ∧ fields_ok rt vs fs input values out.
Proof.
  revert values errs. induction fs as [|f fs IH]; intros values errs; simpl.
  - intros ->. split; [done|]. exists []. by rewrite app_nil_r.
  - destruct (field_value rt vs f input values) as [v|es] eqn:Hf; intros H.
    + destruct (IH _ _ H) as (-> & out & -> & Hout). split; [done|].
      exists ((f_name f, v) :: out). by rewrite <- app_assoc.
    + pose proof (validate_fields_errs fs input values (errs ++ errors_of es)) as Hp.
      rewrite H in Hp. by apply prefix_nil_inv, app_eq_nil in Hp as [_ ?].
Qed.

Lemma fields_ok_validate fs input values out :
  fields_ok rt vs fs input values out →
  validate_fields rt vs fs input values [] = (values ++ out, []).
Proof.
  revert values out. induction fs as [|f fs IH]; intros values [|[n v] out]; simpl;
    try done.
  - intros _. by rewrite app_nil_r.
  - intros (-> & -> & Hout). rewrite (IH _ _ Hout). by rewrite <- app_assoc.
Qed.

(** One value per field, under the field's name and in order. *)
Lemma fields_ok_names fs input values out :
  fields_ok rt vs fs input values out → out.*1 = f_name <$> fs.
Proof.
  revert values out. induction fs as [|f fs IH]; intros values [|[n v] out]; simpl;
    try done.
  intros (-> & _ & Hout). f_equal. eauto.
Qed.

(** The fields of a base class are validated as in the base class. *)
Lemma fields_ok_app fs1 fs2 input values out :
  fields_ok rt vs (fs1 ++ fs2) input values out ↔
  ∃ o1 o2, out = o1 ++ o2 ∧ fields_ok rt vs fs1 input values o1
           ∧ fields_ok rt vs fs2 input (values ++ o1) o2.
Proof.
  revert values out. induction fs1 as [|f fs1 IH]; intros values out; simpl.
  - split.
    + intros H. exists [], out. by rewrite app_nil_r.
    + intros (o1 & o2 & -> & Ho1 & H). destruct o1; [|done]. by rewrite app_nil_r in H.
  - destruct out as [|[n v] out].
    { split; [done|]. intros (o1 & ? & ? & ? & ?). by destruct o1 as [|[]]. }
    rewrite IH. split.
    + intros (-> & Hf & o1 & o2 & -> & H1 & H2).
      exists ((f_name f, v) :: o1), o2. by rewrite <- app_assoc in H2.
    + intros (o1 & o2 & E & H1 & H2). destruct o1 as [|[n' v'] o1]; [done|].
      injection E as -> -> ->. destruct H1 as (-> & Hf & H1). split_and!; [done..|].
      exists o1, o2. by rewrite <- app_assoc.
Qed.

End fields.

Section class.
Context (rt : runtime).

Lemma validate_model_Ok m input d :
  validate_model rt m input = Ok d ↔
  fields_ok rt (m_validators m) (m_fields m) input [] d.
Proof.
  unfold validate_model. split.
  - destruct (validate_fields rt _ _ input [] []).2 eqn:E; [|done].
    intros [= <-]. by destruct (validate_fields_Ok _ _ _ _ _ _ E) as (_ & out & -> & ?).
  - intros H. by rewrite (fields_ok_validate _ _ _ _ _ _ H).
Qed.

End class.

(** ** Lemmas: one field *)

Section field.
Context (rt : runtime) (vs : list (string * validator)).
Implicit Types (f : field) (gs : list validator) (v d : pyval) (values : dict).

(** Before the class validators run, the value is [None] where allowed or
    has passed the type. *)
Lemma validate_field_Ok f gs v values v' :
  validate_field rt f gs v values = Ok v' →
  ∃ v0, field_ok f v0 ∧ apply_validators gs [LField (f_name f)] v0 values = Ok v'.
Proof.
  unfold validate_field, field_ok.
  destruct (is_none v && _) eqn:E.
  - intros H. exists v. auto.
  - intros (v0 & H0 & H)%bind_Ok. exists v0.
    eauto using validate_type_has_type.
Qed.

(** A value of the field goes through type validation unchanged. *)
Lemma validate_field_fixed f gs v values :
  stable_type (f_type f) → field_ok f v →
  validate_field rt f gs v values = apply_validators gs [LField (f_name f)] v values.
Proof.
  unfold validate_field, field_ok. intros Hs [->|Hv]; [done|].
  case_match; [done|]. by rewrite (validate_type_fixed _ _ _ _ _ _ Hs Hv).
Qed.

Lemma apply_validators_one (g : validator) loc v values v' :
  apply_validators [g] loc v values = Ok v' ↔ g v values = Ok v'.
Proof. simpl. destruct (g v values); split; by intros [= <-]. Qed.

Lemma on_str_Ok g v values v' :
  on_str g v values = Ok v' ↔ ∃ s s', v = VStr s ∧ v' = VStr s' ∧ g s = Ok s'.
Proof.
  split.
  - destruct v; try done. simpl. intros (s' & ? & ->)%fmap_Ok. eauto.
  - intros (s & s' & -> & -> & Hg). simpl. by rewrite Hg.
Qed.

Lemma on_opt_int_values_Ok g v values v' :
  on_opt_int_values g v values = Ok v' ↔
  ∃ o o', v = of_opt_int o ∧ v' = of_opt_int o' ∧ g o values = Ok o'.
Proof.
  split.
  - destruct v as [| |z| | | | | |]; try done; simpl; intros (o' & ? & ->)%fmap_Ok.
    + by exists None, o'.
    + by exists (Some z), o'.
  - intros ([z|] & o' & -> & -> & Hg); simpl; by rewrite Hg.
Qed.

Lemma in_bounds_spec (lo hi : Z) q :
  in_bounds (Some (inject_Z lo)) (Some (inject_Z hi)) q = true ↔
  (inject_Z lo <= q)%Q ∧ (q <= inject_Z hi)%Q.
Proof. unfold in_bounds. simpl. by rewrite andb_true_iff, !Qle_bool_iff. Qed.

Lemma in_bounds_ge (lo : Z) z :
  in_bounds (Some (inject_Z lo)) None (inject_Z z) = true ↔ (lo ≤ z)%Z.
Proof.
  unfold in_bounds. simpl. by rewrite andb_true_r, Qle_bool_iff, <- Zle_Qle.
Qed.

Lemma stable_validators_nil f : stable_validators f [].
Proof. by intros loc v values v' Hv [= <-]. Qed.

(** One validator that keeps the field's type and accepts its results. *)
Lemma stable_validators_one f (g : validator) :
  (∀ v values v', field_ok f v → g v values = Ok v' →
     field_ok f v' ∧ g v' values = Ok v') →
  stable_validators f [g].
Proof.
  intros Hg loc v values v' Hv. simpl.
  destruct (g v values) as [w|] eqn:E; [|done]. intros [= <-].
  destruct (Hg _ _ _ Hv E) as [? ->]. done.
Qed.

Lemma on_str_stable f (g : string → result string string) :
  f_type f = TStr → f_allow_none f = false →
  (∀ s s', g s = Ok s' → g s' = Ok s') →
  stable_validators f [on_str g].
Proof.
  intros Ht Hn Hg. apply stable_validators_one. intros v values v'.
  unfold field_ok. rewrite Ht, Hn. intros [H|[s ->]]; [by destruct v|]. simpl.
  intros (s' & Hs & ->)%fmap_Ok. split; [right; eauto|]. simpl. by rewrite (Hg _ _ Hs).
Qed.

Lemma on_opt_int_values_stable f (g : option Z → dict → result string (option Z)) :
  f_type f = TInt → f_allow_none f = true → f_ge f = None → f_le f = None →
  (∀ o values o', g o values = Ok o' → g o' values = Ok o') →
  stable_validators f [on_opt_int_values g].
Proof.
  intros Ht Hn Hge Hle Hg. apply stable_validators_one. intros v values v'.
  assert (∀ o, field_ok f (of_opt_int o)) as Hok.
  { intros [z|]; unfold field_ok; rewrite Ht, Hn, Hge, Hle; simpl;
      [right; by exists z | by left]. }
  unfold field_ok at 1. rewrite Ht. intros [H|(z & -> & _)].
  - destruct v; try done. simpl. intros (o' & Ho & ->)%fmap_Ok. split; [apply Hok|].
    destruct o'; simpl; by rewrite (Hg _ _ _ Ho).
  - simpl. intros (o' & Ho & ->)%fmap_Ok. split; [apply Hok|].
    destruct o'; simpl; by rewrite (Hg _ _ _ Ho).
Qed.
Lemma validate_field_idemp f v values v' :
  stable_field rt vs f →
  validate_field rt f (validators_of (f_name f) vs) v values = Ok v' →
  field_ok f v'
  ∧ validate_field rt f (validators_of (f_name f) vs) v' values = Ok v'.
Proof.
  intros (Ht & Hg & _) (v0 & H0 & H)%validate_field_Ok.
  destruct (Hg _ _ _ _ H0 H) as [Hv' H']. split; [done|].
  by rewrite validate_field_fixed.
Qed.

(** What a turn of the loop yields is a value of the field, and the field
    accepts it again. *)
Lemma field_value_idemp f input values v :
  stable_field rt vs f →
  field_value rt vs f input values = Ok v →
  field_ok f v
  ∧ validate_field rt f (validators_of (f_name f) vs) v values = Ok v.
Proof.
  intros Hf. unfold field_value.
  destruct (dict_get (f_name f) input) as [x|]; [by apply validate_field_idemp|].
  destruct (get_default rt f) as [d|] eqn:Hd; [|done]. intros [= <-].
  destruct Hf as (Ht & Hg & Hdef). specialize (Hdef _ values Hd).
  split; [|done].
  apply validate_field_Ok in Hdef as (v0 & H0 & H). by apply (Hg _ _ _ _ H0 H).
Qed.

(** An instance validates again to itself, field by field. *)
Lemma fields_ok_again fs input values out D :
  Forall (stable_field rt vs) fs →
  fields_ok rt vs fs input values out →
  (∀ n v, (n, v) ∈ out → dict_get n D = Some v) →
  fields_ok rt vs fs D values out.
Proof.
  intros Hfs. revert values out.
  induction Hfs as [|f fs Hf _ IH]; intros values [|[n v] out]; simpl; try done.
  intros (-> & Hv & Hout) HD. split_and!; [done| |].
  - unfold field_value. rewrite (HD (f_name f) v) by apply list_elem_of_here.
    by apply (field_value_idemp f input).
  - apply IH; [done|]. intros n' v' Hin. by apply HD, list_elem_of_further.
Qed.

Lemma fields_ok_well_typed fs input values out :
  Forall (stable_field rt vs) fs →
  fields_ok rt vs fs input values out →
  Forall2 (λ f kv, kv.1 = f_name f ∧ field_ok f kv.2) fs out.
Proof.
  intros Hfs. revert values out.
  induction Hfs as [|f fs Hf _ IH]; intros values [|[n v] out]; simpl; try done.
  intros (-> & Hv & Hout). constructor; [|eauto].
  split; [done|]. by apply (field_value_idemp f input values).
Qed.

Lemma fields_ok_nth fs input values out i f :
  Forall (stable_field rt vs) fs →
  fields_ok rt vs fs input values out →
  fs !! i = Some f →
  ∃ v, out !! i = Some (f_name f, v) ∧ field_ok f v
       ∧ apply_validators (validators_of (f_name f) vs) [LField (f_name f)] v
           (values ++ take i out) = Ok v.
Proof.
  intros Hfs. revert values out i.
  induction Hfs as [|g fs Hg _ IH]; intros values [|[n w] out] i; simpl; try done.
  intros (-> & Hw & Hout). destruct i as [|i]; simpl.
  - intros [= <-]. exists w. rewrite app_nil_r.
    destruct (field_value_idemp _ _ _ _ Hg Hw) as [Hok Hv].
    split_and!; [done..|]. rewrite <- Hv. symmetry. apply validate_field_fixed; [apply Hg | done].
  - intros Hi. destruct (IH _ _ _ Hout Hi) as (v & ? & ? & Hv).
    exists v. by rewrite <- app_assoc in Hv.
Qed.

(** A required field that the input lacks is reported. *)
Lemma validate_fields_missing fs input values errs f :
  f ∈ fs → dict_get (f_name f) input = None → get_default rt f = None →
  mkError [LField (f_name f)] Missing ∈ (validate_fields rt vs fs input values errs).2.
Proof.
  intros Hin Hi Hd. revert values errs.
  induction Hin as [f fs|f g fs _ IH]; intros values errs; simpl.
  - unfold field_value. rewrite Hi, Hd.
    eapply elem_of_prefix; [|apply validate_fields_errs].
    apply elem_of_app. right. apply list_elem_of_here.
  - destruct (field_value rt vs g input values); by apply IH.
Qed.

End field.

Section classes.
Context (rt : runtime).
Implicit Types (m : model) (input d : dict).

Lemma validate_model_again m input d :
  stable_model rt m → validate_model rt m input = Ok d → validate_model rt m d = Ok d.
Proof.
  intros [Hnd Hfs] H%validate_model_Ok. apply validate_model_Ok.
  eapply fields_ok_again; [done..|]. intros n v Hin.
  apply dict_get_elem_of; [|done].
  by rewrite (fields_ok_names _ _ _ _ _ _ H).
Qed.

Lemma validate_model_typed m input d :
  stable_model rt m → validate_model rt m input = Ok d → well_typed m d.
Proof. intros [_ Hfs] H%validate_model_Ok. by eapply fields_ok_well_typed. Qed.

Lemma validate_model_base base fs own input d :
  validate_model rt (extends base fs [] own) input = Ok d →
  validate_model rt base input = Ok (take (length (m_fields base)) d).
Proof.
  rewrite !validate_model_Ok. unfold extends. simpl. rewrite app_nil_r.
  intros (o1 & o2 & -> & H1 & _)%fields_ok_app.
  apply fields_ok_names in H1 as Hn. apply (f_equal length) in Hn.
  rewrite !length_fmap in Hn. by rewrite <- Hn, take_app_length.
Qed.

(** What an instance holds in its [i]-th field: a value of the field that
    the class validators return unchanged, given the fields before it. *)
Lemma validate_model_nth m input d i f :
  stable_model rt m → validate_model rt m input = Ok d →
  m_fields m !! i = Some f →
  ∃ v, d !! i = Some (f_name f, v) ∧ dict_get (f_name f) d = Some v ∧ field_ok f v
       ∧ apply_validators (validators_of (f_name f) (m_validators m))
           [LField (f_name f)] v (take i d) = Ok v.
Proof.
  intros [Hnd Hfs] H%validate_model_Ok Hi.
  destruct (fields_ok_nth _ _ _ _ _ _ _ _ Hfs H Hi) as (v & Hd & Hok & Hv).
  exists v. split_and!; [done| |done..].
  eapply dict_get_lookup; [|done]. by rewrite (fields_ok_names _ _ _ _ _ _ H).
Qed.

(** A required field that the input lacks makes the construction fail
    with an error [Missing] at the field. *)
Lemma validate_model_missing m input f :
  f ∈ m_fields m → f_default f = Required → dict_get (f_name f) input = None →
  ∃ e, validate_model rt m input = Err e
       ∧ mkError [LField (f_name f)] Missing ∈ errors_of e.
Proof.
  intros Hf Hr Hi.
  pose proof (validate_fields_missing rt (m_validators m) _ input [] [] f Hf Hi) as H.
  unfold validate_model, get_default in *. rewrite Hr in H. specialize (H eq_refl).
  destruct (validate_fields _ _ _ _ _ _).2 as [|e es]; [by apply elem_of_nil in H|].
  by exists (e, es).
Qed.

(** The construction reads its input by key only. *)
Lemma validate_fields_ext vs fs (i1 i2 values : dict) errs :
  (∀ k, dict_get k i1 = dict_get k i2) →
  validate_fields rt vs fs i1 values errs = validate_fields rt vs fs i2 values errs.
Proof.
  intros Hi. revert values errs. induction fs as [|f fs IH]; intros values errs; [done|].
  simpl. unfold field_value. rewrite Hi.
  destruct (match dict_get _ i2 with Some _ => _ | None => _ end); apply IH.
Qed.

Lemma validate_model_ext m (i1 i2 : dict) :
  (∀ k, dict_get k i1 = dict_get k i2) → validate_model rt m i1 = validate_model rt m i2.
Proof. intros Hi. unfold validate_model. by rewrite (validate_fields_ext _ _ i1 i2). Qed.

End classes.

(** ** Lemmas: what a class takes for keyword arguments *)

Lemma errors_of_relocate_all loc e :
  errors_of (relocate_all loc e) = relocate loc <$> errors_of e.
Proof. by destruct e. Qed.

Lemma dict_get_reverse k (m : dict) :
  NoDup m.*1 → dict_get k (reverse m) = dict_get k m.
Proof.
  induction m as [|[k' v] m IH]; [done|]. rewrite fmap_cons, NoDup_cons.
  intros [Hk Hm]. rewrite reverse_cons, dict_get_app, IH by done. simpl.
  destruct (String.eqb_spec k' k) as [->|]; [|by destruct (dict_get k m)].
  by rewrite (proj2 (dict_get_None k m) Hk).
Qed.

Lemma mapM_pair_of (m : dict) :
  mapM pair_of ((λ kv, VList [VStr kv.1; kv.2]) <$> m)
  = Some ((λ kv, (VStr kv.1, kv.2)) <$> m).
Proof. apply mapM_Some, Forall2_fmap, Forall_Forall2_diag, Forall_true. by intros []. Qed.

Lemma mapM_keyword (m : dict) :
  mapM keyword ((λ kv, (VStr kv.1, kv.2)) <$> m) = Some m.
Proof. apply mapM_Some, Forall2_fmap_l, Forall_Forall2_diag, Forall_true. by intros []. Qed.

(** [dict] reads a list of pairs with keys that are strings. *)
Lemma py_dict_pairs m : py_dict (pairs m) = Some ((λ kv, (VStr kv.1, kv.2)) <$> m).
Proof.
  unfold py_dict, pairs. simpl. rewrite mapM_pair_of. simpl.
  by replace (forallb _ _) with true by (by induction m).
Qed.

Section keywords.
Context (rt : runtime).

(** A class without [orm_mode] takes the pairs for keyword arguments. *)
Lemma model_input_pairs config m :
  orm_mode config = false → model_input rt config (pairs m) = Ok (reverse m).
Proof.
  intros Ho. unfold model_input, pairs. rewrite Ho. fold (pairs m).
  unfold keywords. by rewrite py_dict_pairs, mapM_keyword.
Qed.

(** A class with [orm_mode] reads the attributes of what is not a
    dictionary, and never tries [dict]. *)
Lemma model_input_orm config v :
  orm_mode config = true → (∀ m, v ≠ VDict m) →
  model_input rt config v = Ok (attributes rt v).
Proof. intros Ho Hv. destruct v; simpl; rewrite ?Ho; try done. by destruct (Hv m). Qed.

(** Of the values, only an object may have an attribute [id]. *)
Lemma attributes_no_id v : (∀ a, v ≠ VObject a) → dict_get "id" (attributes rt v) = None.
Proof. intros Hv. destruct v; try done. by destruct (Hv attrs). Qed.

(** A field of a class with [orm_mode] reads an object as the dictionary
    of its attributes; a class without refuses it. *)
Lemma validate_type_object ge le m loc a :
  validate_type rt ge le (model_type rt m) loc (VObject a) =
    if orm_mode (m_config m)
    then validate_type rt ge le (model_type rt m) loc (VDict a)
    else Err (raise loc DictError).
Proof. unfold model_type. simpl. by destruct (orm_mode _). Qed.

(** A field of a class without [orm_mode] takes a list of pairs for the
    dictionary of the pairs. *)
Lemma validate_type_pairs ge le m loc (d : dict) :
  orm_mode (m_config m) = false → NoDup d.*1 →
  validate_type rt ge le (model_type rt m) loc (pairs d)
  = validate_type rt ge le (model_type rt m) loc (VDict d).
Proof.
  intros Ho Hd. unfold model_type. cbn [validate_type].
  rewrite model_input_pairs by done. simpl.
  by rewrite (validate_model_ext rt m (reverse d) d)
    by (intros k; by apply dict_get_reverse).
Qed.

(** A field of a class with [orm_mode] that requires [f], which no
    value has for attribute, refuses what is not a dictionary and
    reports [f] missing beneath the field. *)
Lemma validate_type_orm ge le m loc v f :
  orm_mode (m_config m) = true → is_none v = false → (∀ d, v ≠ VDict d) →
  f ∈ m_fields m → f_default f = Required →
  dict_get (f_name f) (attributes rt v) = None →
  ∃ e, validate_type rt ge le (model_type rt m) loc v = Err e
       ∧ mkError (loc ++ [LField (f_name f)]) Missing ∈ errors_of e.
Proof.
  intros Ho Hn Hv Hf Hr Ha. unfold model_type. cbn [validate_type].
  rewrite Hn, model_input_orm by done.
  destruct (validate_model_missing rt m _ f Hf Hr Ha) as (e & -> & He).
  eexists. split; [done|]. rewrite errors_of_relocate_all.
  by apply (list_elem_of_fmap_2 (relocate loc)) in He.
Qed.

End keywords.
