(* ===== verification/Models.v ===== *)
(** The classes of [models.py], field by field in declaration order, with
    the five functions decorated [@validator], and the request and
    response classes that [main.py] declares.  A subclass is its base
    extended, with the settings of its own [class Config] over those of
    the base; a field of class type holds the validation of that
    class. *)

From Stdlib Require Import QArith.
From S2P Require Import Prelude PyStr Keys Enums Pydantic.
Close Scope Q_scope.

(** ** The validators *)

(** [MovieBase.validate_year]: [None] and [0] are falsy and pass. *)
Definition validate_year (rt : runtime) (v : option Z) : result string (option Z) :=
  match v with
  | Some y =>
      if negb (y =? 0)%Z && ((y <? 1900)%Z || (this_year rt + 1 <? y)%Z)
      then Err "Invalid year" else Ok v
  | None => Ok v
  end.

(** [EpisodeBase.validate_title] *)
Definition validate_title (v : string) : result string string :=
  if negb (str_truthy v) || bool_decide (strip v = "")
  then Err "Title cannot be empty" else Ok (strip v).

(** [SeriesBase.validate_year_end]: the test needs [year_start] among the
    fields validated so far and both years truthy. *)
Definition validate_year_end (v : option Z) (values : dict)
    : result string (option Z) :=
  match dict_get "year_start" values, v with
  | Some (VInt year_start), Some year_end =>
      if negb (year_end =? 0)%Z && negb (year_start =? 0)%Z
         && (year_end <? year_start)%Z
      then Err "End year cannot be before start year" else Ok v
  | _, _ => Ok v
  end.

(** [VideoSource.validate_url] *)
Definition validate_url (v : string) : result string string :=
  if negb (str_truthy v) || negb (startswith_any v ["http://"; "https://"; "//"])
  then Err "Invalid URL format" else Ok v.

Definition valid_languages : list string :=
  ["ar"; "en"; "tr"; "fr"; "es"; "de"; "ru"; "fa"; "ur"].

(** [Subtitle.validate_language] *)
Definition validate_language (v : string) : result string string :=
  if bool_decide (v ∉ valid_languages)
  then Err ("Language must be one of: " +:+ str_join ", " valid_languages)
  else Ok v.

Arguments validate_year : simpl never.
Arguments validate_title : simpl never.
Arguments validate_year_end : simpl never.
Arguments validate_url : simpl never.
Arguments validate_language : simpl never.

(** ** The classes of [models.py] *)

Definition datetime_now_factory (rt : runtime) : pyval := VDatetime (datetime_now rt).
Definition list_factory (rt : runtime) : pyval := VList [].

Section models.
Context (rt : runtime).

Definition MovieBase : model :=
  BaseModel
    [ required "id" TStr;
      required "title" TStr;
      optional "original_title" TStr;
      optional "description" TStr;
      optional "year" TInt;
      optional "duration" TInt;
      with_ge 0 (with_le 10 (optional "rating" TFloat)) ]
    [ ("year", on_opt_int (validate_year rt)) ]
    [].

Definition MovieCreate : model :=
  extends MovieBase
    [ optional "poster_url" TStr;
      optional "backdrop_url" TStr;
      optional "trailer_url" TStr;
      factory "genres" (TList TStr) list_factory;
      factory "directors" (TList TStr) list_factory;
      factory "cast" (TList TStr) list_factory;
      optional "country" TStr;
      optional "language" (TEnum (values Language));
      optional "quality" (TEnum (values Quality)) ]
    []
    [ UseEnumValues true ].

Definition MovieResponse : model :=
  extends MovieCreate
    [ factory "created_at" TDatetime datetime_now_factory;
      factory "updated_at" TDatetime datetime_now_factory;
      defaulted "views" TInt (VInt 0);
      required "source_url" TStr ]
    []
    [ OrmMode true ].

Definition EpisodeBase : model :=
  BaseModel
    [ required "id" TStr;
      required "title" TStr;
      with_ge 1 (required "episode_number" TInt);
      with_ge 1 (defaulted "season_number" TInt (VInt 1));
      optional "description" TStr;
      optional "duration" TInt ]
    [ ("title", on_str validate_title) ]
    [].

Definition EpisodeCreate : model :=
  extends EpisodeBase
    [ optional "thumbnail_url" TStr;
      optional "air_date" TDatetime ]
    []
    [ UseEnumValues true ].

Definition EpisodeResponse : model :=
  extends EpisodeCreate
    [ factory "created_at" TDatetime datetime_now_factory;
      factory "updated_at" TDatetime datetime_now_factory;
      required "source_url" TStr ]
    []
    [ OrmMode true ].

Definition SeriesBase : model :=
  BaseModel
    [ required "id" TStr;
      required "title" TStr;
      optional "original_title" TStr;
      optional "description" TStr;
      optional "year_start" TInt;
      optional "year_end" TInt;
      with_ge 0 (with_le 10 (optional "rating" TFloat));
      with_ge 1 (optional "total_seasons" TInt);
      with_ge 1 (optional "total_episodes" TInt) ]
    [ ("year_end", on_opt_int_values validate_year_end) ]
    [].

Definition SeriesCreate : model :=
  extends SeriesBase
    [ optional "poster_url" TStr;
      optional "backdrop_url" TStr;
      optional "trailer_url" TStr;
      factory "genres" (TList TStr) list_factory;
      factory "directors" (TList TStr) list_factory;
      factory "cast" (TList TStr) list_factory;
      optional "country" TStr;
      optional "language" (TEnum (values Language));
      optional "status" TStr ]
    []
    [ UseEnumValues true ].

Definition SeriesResponse : model :=
  extends SeriesCreate
    [ factory "episodes" (TList (model_type rt EpisodeResponse))
        list_factory;
      factory "created_at" TDatetime datetime_now_factory;
      factory "updated_at" TDatetime datetime_now_factory;
      defaulted "views" TInt (VInt 0);
      required "source_url" TStr ]
    []
    [ OrmMode true ].

Definition VideoSource : model :=
  BaseModel
    [ required "url" TStr;
      defaulted "quality" (TEnum (values Quality)) (VStr (value HD));
      defaulted "type" TStr (VStr "video/mp4");
      optional "size" TStr;
      optional "bitrate" TInt;
      optional "width" TInt;
      optional "height" TInt;
      defaulted "is_direct" TBool (VBool true);
      defaulted "requires_proxy" TBool (VBool false) ]
    [ ("url", on_str validate_url) ]
    [].

Definition Subtitle : model :=
  BaseModel
    [ required "language" TStr;
      required "url" TStr;
      defaulted "format" TStr (VStr "srt");
      defaulted "is_default" TBool (VBool false) ]
    [ ("language", on_str validate_language) ]
    [].

Definition WatchResponse : model :=
  BaseModel
    [ required "content_id" TStr;
      required "title" TStr;
      required "type" (TEnum (values ContentType));
      factory "video_sources" (TList (model_type rt VideoSource))
        list_factory;
      factory "subtitles" (TList (model_type rt Subtitle)) list_factory;
      optional "next_episode" TStr;
      optional "prev_episode" TStr ]
    []
    [ UseEnumValues true ].

Definition SearchResult : model :=
  BaseModel
    [ required "id" TStr;
      required "title" TStr;
      required "type" (TEnum (values ContentType));
      optional "year" TInt;
      optional "poster_url" TStr;
      optional "description" TStr;
      defaulted "score" TFloat (VFloat 0) ]
    []
    [ UseEnumValues true ].

Definition SearchResponse : model :=
  BaseModel
    [ required "query" TStr;
      factory "results" (TList (model_type rt SearchResult)) list_factory;
      defaulted "total_results" TInt (VInt 0);
      defaulted "page" TInt (VInt 1);
      defaulted "total_pages" TInt (VInt 1) ]
    []
    [ UseEnumValues true ].

Definition CategoryItem : model :=
  BaseModel
    [ required "id" TStr;
      required "name" TStr;
      optional "description" TStr;
      optional "icon" TStr;
      defaulted "item_count" TInt (VInt 0) ]
    []
    [ UseEnumValues true ].

Definition HomeSection : model :=
  BaseModel
    [ required "title" TStr;
      required "type" TStr;
      factory "items" (TList (model_type rt MovieResponse)) list_factory;
      optional "view_all_url" TStr ]
    []
    [ UseEnumValues true ].

Definition HomeResponse : model :=
  BaseModel
    [ factory "sections" (TList (model_type rt HomeSection)) list_factory;
      optional "featured" (model_type rt MovieResponse);
      factory "updated_at" TDatetime datetime_now_factory ]
    []
    [ UseEnumValues true ].

Definition APIResponse : model :=
  BaseModel
    [ defaulted "success" TBool (VBool true);
      optional "data" TAny;
      optional "message" TStr;
      optional "error_code" TStr;
      factory "timestamp" TDatetime datetime_now_factory ]
    []
    [ UseEnumValues true ].

End models.

(** ** The classes of [main.py] *)

Module Main.

Definition SearchRequest : model :=
  BaseModel
    [ required "query" TStr;
      mkField "page" TInt true (Default (VInt 1)) None None ]
    []
    [].

Definition MovieResponse : model :=
  BaseModel
    [ required "id" TStr;
      required "title" TStr;
      optional "poster" TStr;
      optional "year" TInt;
      required "type" TStr;
      optional "description" TStr;
      required "url" TStr;
      optional "rating" TFloat ]
    []
    [].

Definition EpisodeResponse : model :=
  BaseModel
    [ required "id" TStr;
      required "title" TStr;
      required "episode_number" TInt;
      required "season_number" TInt;
      required "url" TStr;
      optional "thumbnail" TStr ]
    []
    [].

Definition VideoSource : model :=
  BaseModel
    [ required "url" TStr;
      required "quality" TStr;
      required "type" TStr;
      optional "size" TStr ]
    []
    [].

(** The validated body of [POST /api/search] as the handler's argument. *)
Definition to_request (d : dict) : option Keys.SearchRequest :=
  match dict_get "query" d, dict_get "page" d with
  | Some (VStr q), Some (VInt p) => Some (mkSearchRequest q (Some p))
  | Some (VStr q), Some VNone => Some (mkSearchRequest q None)
  | _, _ => None
  end.

End Main.

(** A class with its subclasses. *)
Definition Movie_classes (rt : runtime) : list model :=
  [MovieBase rt; MovieCreate rt; MovieResponse rt].
Definition Episode_classes : list model :=
  [EpisodeBase; EpisodeCreate; EpisodeResponse].
Definition Series_classes (rt : runtime) : list model :=
  [SeriesBase; SeriesCreate; SeriesResponse rt].

(** Keyword arguments of a movie with a year and a rating. *)
Definition movie_input (id title : string) (year : Z) (rating : Q) : dict :=
  [("id", VStr id); ("title", VStr title); ("year", VInt year);
   ("rating", VFloat rating)].

(** Every class that the two files declare. *)
Definition all_classes (rt : runtime) : list model :=
  [ MovieBase rt; MovieCreate rt; MovieResponse rt;
    EpisodeBase; EpisodeCreate; EpisodeResponse;
    SeriesBase; SeriesCreate; SeriesResponse rt;
    VideoSource; Subtitle; WatchResponse rt; SearchResult; SearchResponse rt;
    CategoryItem; HomeSection rt; HomeResponse rt; APIResponse;
    Main.SearchRequest; Main.MovieResponse; Main.EpisodeResponse; Main.VideoSource ].

(** The classes whose [Config] sets [orm_mode]. *)
Definition orm_classes (rt : runtime) : list model :=
  [MovieResponse rt; EpisodeResponse; SeriesResponse rt].

(** Each subclass with its base. *)
Definition subclasses (rt : runtime) : list (model * model) :=
  [ (MovieCreate rt, MovieBase rt); (MovieResponse rt, MovieCreate rt);
    (EpisodeCreate, EpisodeBase); (EpisodeResponse, EpisodeCreate);
    (SeriesCreate, SeriesBase); (SeriesResponse rt, SeriesCreate) ].

(** The instance built from [input], or nothing. *)
Definition instance_of (rt : runtime) (m : model) (input : dict) : dict :=
  match validate_model rt m input with Ok d => d | Err _ => [] end.

(** A runtime for examples: the year 2025, in which every instant
    falls; no float or datetime is read from a string. *)
Definition rt0 : runtime :=
  mkRuntime 2025 1735689600 (λ _, 2025%Z) (λ _, None) (λ _, "") (λ _, None).

Definition example_movie : dict :=
  [("id", VStr "m1"); ("title", VStr "Heat"); ("year", VInt 1995);
   ("rating", VFloat (41 # 5)); ("source_url", VStr "https://akwam.example/movie/m1")].

Definition example_episode : dict :=
  [("id", VStr "e1"); ("title", VStr "  Pilot "); ("episode_number", VStr "1");
   ("source_url", VStr "https://akwam.example/episode/e1")].

Definition example_series : dict :=
  [("id", VStr "s1"); ("title", VStr "Dark"); ("year_start", VInt 2017);
   ("year_end", VInt 2020); ("source_url", VStr "https://akwam.example/series/s1")].

Definition example_source : dict :=
  [("url", VStr "//cdn.example/v.mp4"); ("quality", VStr "FHD")].

Definition example_subtitle : dict :=
  [("language", VStr "ar"); ("url", VStr "https://cdn.example/v.srt")].

Definition example_watch : dict :=
  [("content_id", VStr "m1"); ("title", VStr "Heat"); ("type", VStr "movie");
   ("video_sources", VList [VDict example_source]);
   ("subtitles", VList [VDict example_subtitle])].


(** ** Lemmas: the validators *)

Lemma validate_year_Ok rt v v' :
  validate_year rt v = Ok v' ↔
  v' = v ∧ ∀ y, v = Some y → y = 0%Z ∨ (1900 ≤ y ≤ this_year rt + 1)%Z.
Proof.
  unfold validate_year. destruct v as [y|]; [|split; [by intros [= <-] | by intros [-> _]]].
  destruct (Z.eqb_spec y 0), (Z.ltb_spec y 1900), (Z.ltb_spec (this_year rt + 1) y);
    simpl; (split; [intros [= <-]; split; try done; intros ? [= <-]; lia
                   | intros [-> Hy]; try done; destruct (Hy _ eq_refl); lia]).
Qed.

Lemma validate_title_Ok v v' :
  validate_title v = Ok v' ↔ v' = strip v ∧ strip v ≠ "".
Proof.
  unfold validate_title. destruct v as [|a v]; simpl; [split; [done | by intros [_ ?]]|].
  case_bool_decide; split; try done; [by intros [_ ?] | by intros [= <-] | by intros [-> _]].
Qed.

Lemma validate_year_end_Ok v values v' :
  validate_year_end v values = Ok v' ↔
  v' = v ∧ ∀ a b, dict_get "year_start" values = Some (VInt a) → v = Some b →
            a = 0%Z ∨ b = 0%Z ∨ (a ≤ b)%Z.
Proof.
  unfold validate_year_end.
  destruct (dict_get "year_start" values) as [[|?|ys|?|?|?|?|?|]|], v as [ye|];
    try (split; [by intros [= <-] | by intros [-> _]]).
  destruct (Z.eqb_spec ye 0), (Z.eqb_spec ys 0), (Z.ltb_spec ye ys); simpl;
    (split; [intros [= <-]; split; try done; intros ?? [= <-] [= <-]; lia
            | intros [-> Hy]; try done; destruct (Hy _ _ eq_refl eq_refl) as [|[|]]; lia]).
Qed.

Lemma validate_url_Ok v v' :
  validate_url v = Ok v' ↔
  v' = v ∧ startswith_any v ["http://"; "https://"; "//"] = true.
Proof.
  unfold validate_url. destruct (startswith_any v _) eqn:E.
  - destruct v; [done|]. simpl. split; [by intros [= <-] | by intros [-> _]].
  - rewrite orb_true_r. split; [done | by intros [_ ?]].
Qed.

Lemma validate_language_Ok v v' :
  validate_language v = Ok v' ↔ v' = v ∧ v ∈ valid_languages.
Proof.
  unfold validate_language. case_bool_decide as E.
  - split; [done | by intros [_ ?]].
  - split; [by intros [= <-] | by intros [-> _]].
Qed.

(** ** Every class accepts its own instances *)

Lemma validate_year_stable rt v v' :
  validate_year rt v = Ok v' → validate_year rt v' = Ok v'.
Proof. intros [-> ?]%validate_year_Ok. by apply validate_year_Ok. Qed.

Lemma validate_title_stable v v' : validate_title v = Ok v' → validate_title v' = Ok v'.
Proof.
  intros [-> ?]%validate_title_Ok. apply validate_title_Ok.
  by rewrite strip_idemp.
Qed.

Lemma validate_year_end_stable v values v' :
  validate_year_end v values = Ok v' → validate_year_end v' values = Ok v'.
Proof. intros [-> ?]%validate_year_end_Ok. by apply validate_year_end_Ok. Qed.

Lemma validate_url_stable v v' : validate_url v = Ok v' → validate_url v' = Ok v'.
Proof. intros [-> ?]%validate_url_Ok. by apply validate_url_Ok. Qed.

Lemma validate_language_stable v v' :
  validate_language v = Ok v' → validate_language v' = Ok v'.
Proof. intros [-> ?]%validate_language_Ok. by apply validate_language_Ok. Qed.

(** The default of a field validates to itself whatever the fields before
    it hold. *)
Lemma validate_year_end_None values : validate_year_end None values = Ok None.
Proof. by apply validate_year_end_Ok. Qed.

Ltac stable_default :=
  intros ? values [= <-]; cbv [validate_field]; simpl;
  by rewrite ?validate_year_end_None.

Ltac stable_validators :=
  first
    [ apply stable_validators_nil
    | apply on_str_stable;
      [done | done | eauto using validate_title_stable, validate_url_stable,
                       validate_language_stable]
    | apply on_opt_int_values_stable;
      [done.. | eauto using validate_year_stable, validate_year_end_stable] ].

Ltac stable_model :=
  split; [apply (bool_decide_unpack _); by vm_compute|];
  repeat (apply Forall_cons_2 || apply Forall_nil_2);
  (split_and!;
   [ simpl; eauto using validate_model_again with akwam
   | stable_validators
   | stable_default ]).

Section stable.
Context (rt : runtime).

Lemma MovieBase_stable : stable_model rt (MovieBase rt).
Proof. stable_model. Qed.
#[local] Hint Resolve MovieBase_stable : akwam.

Lemma MovieCreate_stable : stable_model rt (MovieCreate rt).
Proof. stable_model. Qed.
#[local] Hint Resolve MovieCreate_stable : akwam.

Lemma MovieResponse_stable : stable_model rt (MovieResponse rt).
Proof. stable_model. Qed.
#[local] Hint Resolve MovieResponse_stable : akwam.

Lemma EpisodeBase_stable : stable_model rt EpisodeBase.
Proof. stable_model. Qed.
#[local] Hint Resolve EpisodeBase_stable : akwam.

Lemma EpisodeCreate_stable : stable_model rt EpisodeCreate.
Proof. stable_model. Qed.
#[local] Hint Resolve EpisodeCreate_stable : akwam.

Lemma EpisodeResponse_stable : stable_model rt EpisodeResponse.
Proof. stable_model. Qed.
#[local] Hint Resolve EpisodeResponse_stable : akwam.

Lemma SeriesBase_stable : stable_model rt SeriesBase.
Proof. stable_model. Qed.
#[local] Hint Resolve SeriesBase_stable : akwam.

Lemma SeriesCreate_stable : stable_model rt SeriesCreate.
Proof. stable_model. Qed.
#[local] Hint Resolve SeriesCreate_stable : akwam.

Lemma SeriesResponse_stable : stable_model rt (SeriesResponse rt).
Proof. stable_model. Qed.
#[local] Hint Resolve SeriesResponse_stable : akwam.

Lemma VideoSource_stable : stable_model rt VideoSource.
Proof. stable_model. Qed.
#[local] Hint Resolve VideoSource_stable : akwam.

Lemma Subtitle_stable : stable_model rt Subtitle.
Proof. stable_model. Qed.
#[local] Hint Resolve Subtitle_stable : akwam.

Lemma WatchResponse_stable : stable_model rt (WatchResponse rt).
Proof. stable_model. Qed.
#[local] Hint Resolve WatchResponse_stable : akwam.

Lemma SearchResult_stable : stable_model rt SearchResult.
Proof. stable_model. Qed.
#[local] Hint Resolve SearchResult_stable : akwam.

Lemma SearchResponse_stable : stable_model rt (SearchResponse rt).
Proof. stable_model. Qed.
#[local] Hint Resolve SearchResponse_stable : akwam.

Lemma CategoryItem_stable : stable_model rt CategoryItem.
Proof. stable_model. Qed.
#[local] Hint Resolve CategoryItem_stable : akwam.

Lemma HomeSection_stable : stable_model rt (HomeSection rt).
Proof. stable_model. Qed.
#[local] Hint Resolve HomeSection_stable : akwam.

Lemma HomeResponse_stable : stable_model rt (HomeResponse rt).
Proof. stable_model. Qed.
#[local] Hint Resolve HomeResponse_stable : akwam.

Lemma APIResponse_stable : stable_model rt APIResponse.
Proof. stable_model. Qed.
#[local] Hint Resolve APIResponse_stable : akwam.

Lemma SearchRequest_stable : stable_model rt Main.SearchRequest.
Proof. stable_model. Qed.
Lemma Main_MovieResponse_stable : stable_model rt Main.MovieResponse.
Proof. stable_model. Qed.
Lemma Main_EpisodeResponse_stable : stable_model rt Main.EpisodeResponse.
Proof. stable_model. Qed.
Lemma Main_VideoSource_stable : stable_model rt Main.VideoSource.
Proof. stable_model. Qed.

End stable.

#[export] Hint Resolve
  MovieBase_stable MovieCreate_stable MovieResponse_stable EpisodeBase_stable
  EpisodeCreate_stable EpisodeResponse_stable SeriesBase_stable SeriesCreate_stable
  SeriesResponse_stable VideoSource_stable Subtitle_stable WatchResponse_stable
  SearchResult_stable SearchResponse_stable CategoryItem_stable HomeSection_stable
  HomeResponse_stable APIResponse_stable
  SearchRequest_stable Main_MovieResponse_stable Main_EpisodeResponse_stable
  Main_VideoSource_stable : akwam.

(** ** What an instance of each class satisfies *)

(** Splits a hypothesis [m ∈ [c1; ...; cn]] into its cases. *)
Ltac class_cases Hm :=
  unfold Movie_classes, Episode_classes, Series_classes in Hm;
  rewrite ?elem_of_cons, elem_of_nil in Hm; destruct_or! Hm; try done; subst.

(** The [i]-th field of the instance that [H] says was built: its value
    [v], where it is in the dictionary, that it fits the field, and that
    the class validators return it unchanged. *)
Ltac field_ix rt H i v Hi Hd Hok Hv :=
  let St := fresh "St" in
  lazymatch type of H with
  | validate_model _ ?m _ = _ => assert (stable_model rt m) as St by auto with akwam
  end;
  destruct (validate_model_nth rt _ _ _ i _ St H eq_refl) as (v & Hi & Hd & Hok & Hv);
  clear St; unfold field_ok in Hok; cbn in Hi, Hd, Hok;
  rewrite ?andb_false_r, ?andb_true_r in Hok.

Ltac field_at rt H i v Hd Hok Hv :=
  let Hi := fresh "Hi" in field_ix rt H i v Hi Hd Hok Hv; clear Hi.

Section invariants.
Context (rt : runtime).
Implicit Types (m : model) (input d : dict).

(** C21: a movie instance of any of the three movie classes holds a year that is
    [None], zero, or between 1900 and next year. *)
Theorem Movie_year m input d :
  m ∈ Movie_classes rt → validate_model rt m input = Ok d →
  dict_get "year" d = Some VNone
  ∨ ∃ y, dict_get "year" d = Some (VInt y)
         ∧ (y = 0 ∨ 1900 ≤ y ≤ this_year rt + 1)%Z.
Proof.
  intros Hm H. class_cases Hm; field_at rt H 4%nat v Hd Hok Hv; rewrite Hd;
    apply (apply_validators_one (on_opt_int (validate_year rt))) in Hv;
    apply on_opt_int_values_Ok in Hv as (o & o' & -> & _ & [_ Hy]%validate_year_Ok);
    (destruct o as [y|]; [right; exists y; eauto | by left]).
Qed.

(** C22: the rating of a movie instance is [None] or lies between 0 and 10. *)
Theorem Movie_rating m input d :
  m ∈ Movie_classes rt → validate_model rt m input = Ok d →
  dict_get "rating" d = Some VNone
  ∨ ∃ q, dict_get "rating" d = Some (VFloat q) ∧ (0 <= q)%Q ∧ (q <= 10)%Q.
Proof.
  intros Hm H. class_cases Hm; field_at rt H 6%nat v Hd Hok Hv; rewrite Hd;
    (destruct Hok as [Hn|(q & -> & Hb)];
     [left; by destruct v | right; exists q; split; [done|]; by apply (in_bounds_spec 0 10)]).
Qed.

(** C29: the title of an episode instance is not empty and has no white space
    at either end. *)
Theorem Episode_title m input d :
  m ∈ Episode_classes → validate_model rt m input = Ok d →
  ∃ t, dict_get "title" d = Some (VStr t) ∧ t ≠ "" ∧ strip t = t.
Proof.
  intros Hm H. class_cases Hm; field_at rt H 1%nat v Hd Hok Hv; rewrite Hd;
    apply (apply_validators_one (on_str validate_title)) in Hv;
    apply on_str_Ok in Hv as (s & s' & -> & [= <-] & [Hs Hne]%validate_title_Ok);
    exists s; by rewrite <- Hs in Hne |- *.
Qed.

(** An episode instance has an episode number and a season number, both
    at least 1. *)
Theorem Episode_numbers m input d :
  m ∈ Episode_classes → validate_model rt m input = Ok d →
  ∃ e s, dict_get "episode_number" d = Some (VInt e)
         ∧ dict_get "season_number" d = Some (VInt s) ∧ (1 ≤ e)%Z ∧ (1 ≤ s)%Z.
Proof.
  intros Hm H.
  class_cases Hm; field_at rt H 2%nat v Hd Hok Hv; field_at rt H 3%nat w Hd' Hok' Hw;
    rewrite Hd, Hd';
    destruct Hok as [?|(e & -> & He%(in_bounds_ge 1))]; try done;
    destruct Hok' as [?|(s & -> & Hs%(in_bounds_ge 1))]; try done;
    by exists e, s.
Qed.

(** C28: when a series instance has a start year and an end year that are both
    non-zero, the end year is not before the start year. *)
Theorem Series_years m input d ys ye :
  m ∈ Series_classes rt → validate_model rt m input = Ok d →
  dict_get "year_start" d = Some (VInt ys) → dict_get "year_end" d = Some (VInt ye) →
  ys ≠ 0%Z → ye ≠ 0%Z → (ys ≤ ye)%Z.
Proof.
  intros Hm H Hs He ? ?.
  assert (NoDup d.*1) as Hnd.
  { class_cases Hm; apply validate_model_Ok, fields_ok_names in H as ->;
      apply (bool_decide_unpack _); by vm_compute. }
  assert (d !! 4%nat = Some ("year_start", VInt ys)
          ∧ validate_year_end (Some ye) (take 5 d) = Ok (Some ye)) as [H4 Hv].
  { class_cases Hm;
      field_ix rt H 4%nat v H4 Hd Hok Hv; field_at rt H 5%nat w Hd' Hok' Hw;
      rewrite Hd in Hs; rewrite Hd' in He; simplify_eq;
      (split; [done|]);
      apply (apply_validators_one (on_opt_int_values validate_year_end)) in Hw;
      apply on_opt_int_values_Ok in Hw as ([?|] & [?|] & ? & ? & ?); by simplify_eq/=. }
  apply validate_year_end_Ok in Hv as [_ Hv].
  destruct (Hv ys ye) as [|[|]]; try done. eapply dict_get_take; [done..|lia].
Qed.

Lemma VideoSource_url input d :
  validate_model rt VideoSource input = Ok d →
  ∃ u, dict_get "url" d = Some (VStr u) ∧ startswith_any u ["http://"; "https://"; "//"] = true.
Proof.
  intros H. field_at rt H 0%nat v Hd Hok Hv. rewrite Hd.
  apply (apply_validators_one (on_str validate_url)) in Hv.
  apply on_str_Ok in Hv as (s & s' & -> & _ & [_ Hs]%validate_url_Ok). by exists s.
Qed.

(** The language of a subtitle instance is one of the nine codes of the
    white list. *)
Theorem Subtitle_language input d :
  validate_model rt Subtitle input = Ok d →
  ∃ l, dict_get "language" d = Some (VStr l) ∧ l ∈ valid_languages.
Proof.
  intros H. field_at rt H 0%nat v Hd Hok Hv. rewrite Hd.
  apply (apply_validators_one (on_str validate_language)) in Hv.
  apply on_str_Ok in Hv as (s & s' & -> & _ & [_ Hs]%validate_language_Ok). by exists s.
Qed.

(** Every video source inside a watch response is a dictionary whose url
    starts with one of the three accepted prefixes. *)
Theorem Watch_sources input d :
  validate_model rt (WatchResponse rt) input = Ok d →
  ∃ l, dict_get "video_sources" d = Some (VList l)
       ∧ Forall (λ s, ∃ sd u, s = VDict sd ∧ dict_get "url" sd = Some (VStr u)
                              ∧ startswith_any u ["http://"; "https://"; "//"] = true) l.
Proof.
  intros H. field_at rt H 3%nat v Hd Hok Hv. rewrite Hd.
  destruct Hok as [?|(l & -> & Hl)]; [done|]. exists l. split; [done|].
  eapply Forall_impl; [exact Hl|]. intros s (sd & -> & m & Hm). simpl.
  destruct (VideoSource_url _ _ Hm) as (u & ? & ?). by exists sd, u.
Qed.

(** C38: the url of a video source instance is one of the prefixes
    [http://], [https://] and [//] followed by some text: [validate_url]
    refuses every other url, and the field is required. *)
Theorem VideoSource_url_shape input d :
  validate_model rt VideoSource input = Ok d →
  ∃ u p t, dict_get "url" d = Some (VStr u)
           ∧ p ∈ ["http://"; "https://"; "//"] ∧ u = p +:+ t.
Proof.
  intros (u & Hd & Hu)%VideoSource_url.
  apply startswith_any_spec in Hu as (p & t & ? & ->). by exists (p +:+ t), p, t.
Qed.

End invariants.

(** ** What the classes accept and reject *)

Section behaviour.
Context (rt : runtime).

Lemma validate_year_in_range y :
  (1900 ≤ y ≤ this_year rt + 1)%Z → validate_year rt (Some y) = Ok (Some y).
Proof. intros ?. apply validate_year_Ok. split; [done|]. intros ? [= <-]. by right. Qed.

Lemma validate_year_out_of_range y :
  y ≠ 0%Z → (y < 1900 ∨ this_year rt + 1 < y)%Z →
  validate_year rt (Some y) = Err "Invalid year".
Proof.
  intros ? ?. unfold validate_year.
  destruct (Z.eqb_spec y 0), (Z.ltb_spec y 1900), (Z.ltb_spec (this_year rt + 1) y);
    simpl; done || lia.
Qed.

(** A movie with a year in range and a rating within bounds is accepted,
    and the instance holds the given fields and [None] for the others. *)
Theorem MovieBase_accepts id title y q :
  (1900 ≤ y ≤ this_year rt + 1)%Z → (0 <= q)%Q → (q <= 10)%Q →
  validate_model rt (MovieBase rt) (movie_input id title y q)
  = Ok [("id", VStr id); ("title", VStr title); ("original_title", VNone);
        ("description", VNone); ("year", VInt y); ("duration", VNone);
        ("rating", VFloat q)].
Proof.
  intros Hy Hlo%Qle_bool_iff Hhi%Qle_bool_iff.
  unfold validate_model, movie_input. cbn.
  rewrite (validate_year_in_range y Hy). cbn.
  change (inject_Z 0) with 0%Q. change (inject_Z 10) with 10%Q. by rewrite Hlo, Hhi.
Qed.

(** A non-zero year before 1900 or after next year is rejected with one
    error, located at the field [year]. *)
Theorem MovieBase_rejects_year id title y q :
  y ≠ 0%Z → (y < 1900 ∨ this_year rt + 1 < y)%Z → (0 <= q)%Q → (q <= 10)%Q →
  validate_model rt (MovieBase rt) (movie_input id title y q)
  = Err (raise [LField "year"] (ValueError "Invalid year")).
Proof.
  intros Hy0 Hy Hlo%Qle_bool_iff Hhi%Qle_bool_iff.
  unfold validate_model, movie_input. cbn.
  rewrite (validate_year_out_of_range y Hy0 Hy). cbn.
  change (inject_Z 0) with 0%Q. change (inject_Z 10) with 10%Q. by rewrite Hlo, Hhi.
Qed.

(** A rating outside 0..10 is rejected with one error located at the field
    [rating], which names the bound that failed. *)
Theorem MovieBase_rejects_rating id title y q :
  (1900 ≤ y ≤ this_year rt + 1)%Z → ¬ ((0 <= q)%Q ∧ (q <= 10)%Q) →
  ∃ k, validate_model rt (MovieBase rt) (movie_input id title y q)
       = Err (raise [LField "rating"] k)
       ∧ (k = NumberNotGe (inject_Z 0) ∨ k = NumberNotLe (inject_Z 10)).
Proof.
  intros Hy Hq. unfold validate_model, movie_input. cbn.
  rewrite (validate_year_in_range y Hy). cbn.
  destruct (Qle_bool (inject_Z 0) q) eqn:Hlo; cbn; [|eauto].
  destruct (Qle_bool q (inject_Z 10)) eqn:Hhi; cbn; [|eauto].
  destruct Hq. by rewrite <- !Qle_bool_iff.
Qed.

(** C39: [validate_year] accepts exactly an absent year, year zero and
    the years from 1900 to next year, and returns what it was given.  Year
    zero passes because the test [if v and ...] treats it as absent. *)
Theorem validate_year_accepts v v' :
  validate_year rt v = Ok v' ↔
  v' = v ∧ (v = None ∨ v = Some 0%Z
            ∨ ∃ y, v = Some y ∧ (1900 ≤ y ≤ this_year rt + 1)%Z).
Proof.
  rewrite validate_year_Ok. split; intros [-> H]; (split; [done|]).
  - destruct v as [y|]; [|by left]. destruct (H y eq_refl) as [->|?]; eauto.
  - intros y ->. destruct H as [?|[[= ->]|(? & [= <-] & ?)]]; auto. done.
Qed.

(** A video source may be direct and require the proxy at once: no
    validator relates the two flags. *)
Theorem VideoSource_direct_and_proxied u :
  startswith_any u ["http://"; "https://"; "//"] = true →
  validate_model rt VideoSource
    [("url", VStr u); ("is_direct", VBool true); ("requires_proxy", VBool true)]
  = Ok [("url", VStr u); ("quality", VStr "HD"); ("type", VStr "video/mp4");
        ("size", VNone); ("bitrate", VNone); ("width", VNone); ("height", VNone);
        ("is_direct", VBool true); ("requires_proxy", VBool true)].
Proof.
  intros Hu. unfold validate_model. cbn.
  by rewrite (proj2 (validate_url_Ok u u) (conj eq_refl Hu)).
Qed.

(** A url with none of the three prefixes is rejected with the error of
    [validate_url]. *)
Theorem VideoSource_rejects_url u :
  startswith_any u ["http://"; "https://"; "//"] = false →
  validate_model rt VideoSource [("url", VStr u)]
  = Err (raise [LField "url"] (ValueError "Invalid URL format")).
Proof.
  intros Hu. unfold validate_model. cbn. unfold validate_url.
  by rewrite Hu, orb_true_r.
Qed.

(** An episode given without a season number is accepted with season 1, its
    title trimmed, and [None] for the optional fields. *)
Theorem EpisodeBase_defaults id title e :
  strip title ≠ "" → (1 ≤ e)%Z →
  validate_model rt EpisodeBase
    [("id", VStr id); ("title", VStr title); ("episode_number", VInt e)]
  = Ok [("id", VStr id); ("title", VStr (strip title)); ("episode_number", VInt e);
        ("season_number", VInt 1); ("description", VNone); ("duration", VNone)].
Proof.
  intros Ht He%(in_bounds_ge 1). unfold validate_model. cbn.
  rewrite (proj2 (validate_title_Ok title _) (conj eq_refl Ht)). cbn.
  unfold in_bounds in He. cbn in He. rewrite andb_true_r in He. by rewrite He.
Qed.

End behaviour.

(** ** Every class *)

Section generic.
Context (rt : runtime).

Lemma all_classes_stable m : m ∈ all_classes rt → stable_model rt m.
Proof.
  revert m. apply Forall_forall. unfold all_classes.
  repeat (apply Forall_cons_2 || apply Forall_nil_2);
    auto with akwam.
Qed.

(** C37: for every class of the two files, an instance passed back to its class
    validates to itself. *)
Theorem instance_revalidates m input d :
  m ∈ all_classes rt → validate_model rt m input = Ok d → validate_model rt m d = Ok d.
Proof. intros Hm. by apply validate_model_again, all_classes_stable. Qed.

(** C20: for every class, an instance has one value per field, in declaration
    order, each [None] where allowed or a value of the field's type within its
    bounds. *)
Theorem instance_well_typed m input d :
  m ∈ all_classes rt → validate_model rt m input = Ok d → well_typed m d.
Proof. intros Hm. by apply validate_model_typed, all_classes_stable. Qed.

(** The fields that a subclass inherits are validated as in its base
    class: cutting an instance of the subclass to the base's fields gives the
    base's instance for the same input. *)
Theorem subclass_instance sub base input d :
  (sub, base) ∈ subclasses rt → validate_model rt sub input = Ok d →
  validate_model rt base input = Ok (take (length (m_fields base)) d).
Proof.
  unfold subclasses. rewrite !elem_of_cons, elem_of_nil. intros Hm.
  destruct_or! Hm; try done; simplify_eq; apply validate_model_base.
Qed.

(** A required field that the input lacks makes validation fail with an
    error [Missing] located at that field. *)
Theorem missing_required m input f :
  m ∈ all_classes rt →
  f ∈ m_fields m → f_default f = Required → dict_get (f_name f) input = None →
  ∃ e, validate_model rt m input = Err e
       ∧ mkError [LField (f_name f)] Missing ∈ errors_of e.
Proof. intros _. apply validate_model_missing. Qed.

(** The classes with [orm_mode] are the three response classes, each of
    which keeps [use_enum_values] from the class it extends; no other
    class of [models.py] or [main.py] reads attributes. *)
Lemma orm_mode_classes m :
  m ∈ all_classes rt → orm_mode (m_config m) = true ↔ m ∈ orm_classes rt.
Proof.
  unfold all_classes, orm_classes. rewrite !elem_of_cons, elem_of_nil.
  intros H. split.
  - intros Ho. destruct_or!; subst; try done; auto.
  - intros Hm. by destruct_or!; subst.
Qed.

(** A field of a class with [orm_mode] refuses every value of Python
    data that is neither a dictionary, an object nor [None]: the class
    reads the attributes of the value, none has an attribute [id], and
    [id] is reported missing beneath the field; this holds also for a
    list of pairs, which a class without [orm_mode] takes for a
    dictionary. *)
Lemma orm_value_refused m ge le loc v :
  m ∈ orm_classes rt → is_none v = false →
  (∀ d, v ≠ VDict d) → (∀ a, v ≠ VObject a) →
  ∃ e, validate_type rt ge le (model_type rt m) loc v = Err e
       ∧ mkError (loc ++ [LField "id"]) Missing ∈ errors_of e.
Proof.
  intros Hm Hn Hv Ho.
  apply (validate_type_orm rt ge le m loc v (required "id" TStr));
    try done; [| |by apply attributes_no_id];
    unfold orm_classes in Hm; rewrite !elem_of_cons, elem_of_nil in Hm;
    destruct_or!; subst; try done; apply list_elem_of_here.
Qed.

(** A validated search body always gives the handler a query and a page,
    and the page may be [None]. *)
Theorem SearchRequest_to_request body d :
  validate_model rt Main.SearchRequest body = Ok d →
  ∃ q p, Main.to_request d = Some (mkSearchRequest q p).
Proof.
  intros H. unfold Main.to_request.
  field_at rt H 0%nat v Hd Hok Hv. field_at rt H 1%nat w Hd' Hok' Hw.
  rewrite Hd, Hd'. destruct Hok as [?|[q ->]]; [done|].
  destruct Hok' as [?|(p & -> & _)]; [destruct w; try done|]; eauto.
Qed.

End generic.

(** ** Witnesses *)

Lemma Movie_year_witness :
  dict_get "year" (instance_of rt0 (MovieResponse rt0) example_movie) = Some VNone
  ∨ ∃ y, dict_get "year" (instance_of rt0 (MovieResponse rt0) example_movie)
         = Some (VInt y)
         ∧ (y = 0 ∨ 1900 ≤ y ≤ this_year rt0 + 1)%Z.
Proof.
  apply (Movie_year rt0 (MovieResponse rt0) example_movie); [|reflexivity].
  do 2 apply list_elem_of_further. apply list_elem_of_here.
Defined.

Lemma Movie_rating_witness :
  dict_get "rating" (instance_of rt0 (MovieBase rt0) example_movie) = Some VNone
  ∨ ∃ q, dict_get "rating" (instance_of rt0 (MovieBase rt0) example_movie)
         = Some (VFloat q) ∧ (0 <= q)%Q ∧ (q <= 10)%Q.
Proof.
  apply (Movie_rating rt0 (MovieBase rt0) example_movie); [|reflexivity].
  apply list_elem_of_here.
Defined.

Lemma Episode_title_witness :
  ∃ t, dict_get "title" (instance_of rt0 EpisodeResponse example_episode)
       = Some (VStr t) ∧ t ≠ "" ∧ strip t = t.
Proof.
  apply (Episode_title rt0 EpisodeResponse example_episode); [|reflexivity].
  do 2 apply list_elem_of_further. apply list_elem_of_here.
Defined.

Lemma Episode_numbers_witness :
  ∃ e s, dict_get "episode_number" (instance_of rt0 EpisodeBase example_episode)
         = Some (VInt e)
         ∧ dict_get "season_number" (instance_of rt0 EpisodeBase example_episode)
           = Some (VInt s) ∧ (1 ≤ e)%Z ∧ (1 ≤ s)%Z.
Proof.
  apply (Episode_numbers rt0 EpisodeBase example_episode); [|reflexivity].
  apply list_elem_of_here.
Defined.

Lemma Series_years_witness : (2017 ≤ 2020)%Z.
Proof.
  apply (Series_years rt0 (SeriesResponse rt0) example_series
           (instance_of rt0 (SeriesResponse rt0) example_series));
    [|reflexivity..|done|done].
  do 2 apply list_elem_of_further. apply list_elem_of_here.
Defined.

Lemma VideoSource_url_shape_witness :
  ∃ u p t, dict_get "url" (instance_of rt0 VideoSource example_source) = Some (VStr u)
           ∧ p ∈ ["http://"; "https://"; "//"] ∧ u = p +:+ t.
Proof. apply (VideoSource_url_shape rt0 example_source). reflexivity. Defined.

Lemma Subtitle_language_witness :
  ∃ l, dict_get "language" (instance_of rt0 Subtitle example_subtitle) = Some (VStr l)
       ∧ l ∈ valid_languages.
Proof. apply (Subtitle_language rt0 example_subtitle). reflexivity. Defined.

Lemma Watch_sources_witness :
  ∃ l, dict_get "video_sources" (instance_of rt0 (WatchResponse rt0) example_watch)
       = Some (VList l)
       ∧ Forall (λ s, ∃ sd u, s = VDict sd ∧ dict_get "url" sd = Some (VStr u)
                              ∧ startswith_any u ["http://"; "https://"; "//"] = true) l.
Proof. apply (Watch_sources rt0 example_watch). reflexivity. Defined.

Lemma MovieBase_accepts_witness :
  validate_model rt0 (MovieBase rt0) (movie_input "m1" "Heat" 1995 (41 # 5))
  = Ok [("id", VStr "m1"); ("title", VStr "Heat"); ("original_title", VNone);
        ("description", VNone); ("year", VInt 1995); ("duration", VNone);
        ("rating", VFloat (41 # 5))].
Proof. apply (MovieBase_accepts rt0 "m1" "Heat" 1995 (41 # 5)); done. Defined.

Lemma MovieBase_rejects_year_witness :
  validate_model rt0 (MovieBase rt0) (movie_input "m1" "Heat" 1800 (41 # 5))
  = Err (raise [LField "year"] (ValueError "Invalid year")).
Proof.
  apply (MovieBase_rejects_year rt0 "m1" "Heat" 1800 (41 # 5)); [done|by left|done..].
Defined.

Lemma MovieBase_rejects_rating_witness :
  ∃ k, validate_model rt0 (MovieBase rt0) (movie_input "m1" "Heat" 1995 11)
       = Err (raise [LField "rating"] k)
       ∧ (k = NumberNotGe (inject_Z 0) ∨ k = NumberNotLe (inject_Z 10)).
Proof.
  apply (MovieBase_rejects_rating rt0 "m1" "Heat" 1995 11); [done|].
  by intros [_ ?].
Defined.

Lemma VideoSource_direct_and_proxied_witness :
  validate_model rt0 VideoSource
    [("url", VStr "https://cdn.example/v.mp4"); ("is_direct", VBool true);
     ("requires_proxy", VBool true)]
  = Ok [("url", VStr "https://cdn.example/v.mp4"); ("quality", VStr "HD");
        ("type", VStr "video/mp4"); ("size", VNone); ("bitrate", VNone);
        ("width", VNone); ("height", VNone); ("is_direct", VBool true);
        ("requires_proxy", VBool true)].
Proof. apply (VideoSource_direct_and_proxied rt0 "https://cdn.example/v.mp4"). reflexivity. Defined.

Lemma VideoSource_rejects_url_witness :
  validate_model rt0 VideoSource [("url", VStr "ftp://cdn.example/v.mp4")]
  = Err (raise [LField "url"] (ValueError "Invalid URL format")).
Proof. apply (VideoSource_rejects_url rt0 "ftp://cdn.example/v.mp4"). reflexivity. Defined.

Lemma EpisodeBase_defaults_witness :
  validate_model rt0 EpisodeBase
    [("id", VStr "e1"); ("title", VStr "  Pilot "); ("episode_number", VInt 3)]
  = Ok [("id", VStr "e1"); ("title", VStr (strip "  Pilot ")); ("episode_number", VInt 3);
        ("season_number", VInt 1); ("description", VNone); ("duration", VNone)].
Proof. apply (EpisodeBase_defaults rt0 "e1" "  Pilot " 3); done. Defined.

Lemma instance_revalidates_witness :
  validate_model rt0 (WatchResponse rt0) (instance_of rt0 (WatchResponse rt0) example_watch)
  = Ok (instance_of rt0 (WatchResponse rt0) example_watch).
Proof.
  apply (instance_revalidates rt0 (WatchResponse rt0) example_watch); [|reflexivity].
  do 11 apply list_elem_of_further. apply list_elem_of_here.
Defined.

Lemma instance_well_typed_witness :
  well_typed (SeriesResponse rt0) (instance_of rt0 (SeriesResponse rt0) example_series).
Proof.
  apply (instance_well_typed rt0 (SeriesResponse rt0) example_series); [|reflexivity].
  do 8 apply list_elem_of_further. apply list_elem_of_here.
Defined.

Lemma subclass_instance_witness :
  validate_model rt0 (MovieCreate rt0) example_movie
  = Ok (take (length (m_fields (MovieCreate rt0)))
          (instance_of rt0 (MovieResponse rt0) example_movie)).
Proof.
  apply (subclass_instance rt0 (MovieResponse rt0) (MovieCreate rt0) example_movie);
    [|reflexivity].
  apply list_elem_of_further, list_elem_of_here.
Defined.

Lemma missing_required_witness :
  ∃ e, validate_model rt0 (MovieResponse rt0) (movie_input "m1" "Heat" 1995 8) = Err e
       ∧ mkError [LField "source_url"] Missing ∈ errors_of e.
Proof.
  apply (missing_required rt0 (MovieResponse rt0) _ (required "source_url" TStr));
    [| |reflexivity..].
  - do 2 apply list_elem_of_further. apply list_elem_of_here.
  - do 19 apply list_elem_of_further. apply list_elem_of_here.
Defined.

(** A row of the table of movies. *)
Definition movie_row : pyval :=
  VObject (example_movie ++ [("rowid", VInt 7)]).

(** The home page takes a row for its featured movie, and a section takes
    rows for its items; a video source is no row. *)
Example home_of_rows :
  is_ok (validate_model rt0 (HomeResponse rt0)
           [("featured", movie_row);
            ("sections", VList [VDict [("title", VStr "New"); ("type", VStr "movies");
                                       ("items", VList [movie_row])]])]) = true
  ∧ is_ok (validate_model rt0 (WatchResponse rt0)
      [("content_id", VStr "m1"); ("title", VStr "Heat"); ("type", VStr "movie");
       ("video_sources", VList [VObject [("url", VStr "https://cdn.example/m1.mp4")]])])
    = false.
Proof. split; reflexivity. Qed.

(** The same pairs in a field of a class without [orm_mode]: the pairs
    of a video source make the instance. *)
Example pairs_make_instance :
  validate_model rt0 (WatchResponse rt0)
    [("content_id", VStr "m1"); ("title", VStr "Heat"); ("type", VStr "movie");
     ("video_sources", VList [pairs [("url", VStr "https://cdn.example/m1.mp4")]])]
  = validate_model rt0 (WatchResponse rt0)
      [("content_id", VStr "m1"); ("title", VStr "Heat"); ("type", VStr "movie");
       ("video_sources", VList [VDict [("url", VStr "https://cdn.example/m1.mp4")]])]
  ∧ is_ok (validate_model rt0 (WatchResponse rt0)
      [("content_id", VStr "m1"); ("title", VStr "Heat"); ("type", VStr "movie");
       ("video_sources", VList [pairs [("url", VStr "https://cdn.example/m1.mp4")]])])
    = true.
Proof. split; reflexivity. Qed.

(** What [dict] does not read is refused as [DictError], and pairs whose
    keys are not strings as the [TypeError] of the call. *)
Example not_pairs_refused :
  model_input rt0 (m_config VideoSource) (VInt 3) = Err DictError
  ∧ model_input rt0 (m_config VideoSource) (VStr "url") = Err DictError
  ∧ model_input rt0 (m_config VideoSource) (VList [VList [VInt 1; VStr "x"]])
    = Err (PlainTypeError "keywords must be strings")
  ∧ model_input rt0 (m_config VideoSource) (VList [VStr "ab"; VList [VStr "a"; VInt 1]])
    = Ok [("a", VInt 1); ("a", VStr "b")].
Proof. by split_and!. Qed.

Lemma SearchRequest_to_request_witness :
  ∃ q p, Main.to_request
           (instance_of rt0 Main.SearchRequest [("query", VStr "heat"); ("page", VNone)])
         = Some (mkSearchRequest q p).
Proof. apply (SearchRequest_to_request rt0 [("query", VStr "heat"); ("page", VNone)]). reflexivity. Defined.
