(* ===== verification/Http.v ===== *)
(** HTTP requests and responses as the application of [main.py] sees them:
    the method, the decoded path, the query pairs, the headers (names in
    lower case) and the body after JSON decoding; a response is a status,
    a content and headers.  An application maps a request and the state
    of the world to a response or an exception. *)

From S2P Require Import Prelude PyStr Json Redis Effects Pydantic.

Inductive http_body :=
| NoBody
| Malformed
| Parsed (v : pyval).

Definition is_malformed (b : http_body) : bool :=
  match b with Malformed => true | _ => false end.

Record http_request := mkRequest {
  h_method : string;
  h_path : string;
  h_query : list (string * string);
  h_headers : list (string * string);
  h_body : http_body;
}.

(** What a response carries: a JSON document, the errors of a request
    that did not validate, the report of a body that is not JSON, text, a
    generated page, or nothing. *)
Inductive content :=
| JSON (j : json)
| Errors (es : list error)
| DecodeError
| PlainText (s : string)
| Document (name : string)
| Empty.

Record response := mkResponse {
  status : Z;
  body : content;
  headers : list (string * string);
}.

(** An ASGI application with the world it acts on: an exception that it
    does not handle reaches its caller. *)
Definition application := http_request → world → result exn response * world.

(** ** Multi-dictionaries *)

(** [d.get(k)] on the pairs of a query string: the last value given for
    [k]. *)
Fixpoint multi_get (k : string) (d : list (string * string)) : option string :=
  match d with
  | [] => None
  | (k', v) :: d' =>
      match multi_get k d' with
      | Some v' => Some v'
      | None => if String.eqb k' k then Some v else None
      end
  end.

(** [h.get(k)] and [k in h] on headers: the first value given for [k]. *)
Fixpoint header_get (k : string) (d : list (string * string)) : option string :=
  match d with
  | [] => None
  | (k', v) :: d' => if String.eqb k' k then Some v else header_get k d'
  end.

Definition header_has (k : string) (d : list (string * string)) : bool :=
  match header_get k d with Some _ => true | None => false end.

(** [h[k] = v] on headers: the first pair of [k] takes the value and the
    others go; a new key is added at the end. *)
Fixpoint multi_remove (k : string) (d : list (string * string))
    : list (string * string) :=
  match d with
  | [] => []
  | (k', v') :: d' =>
      if String.eqb k' k then multi_remove k d' else (k', v') :: multi_remove k d'
  end.

Fixpoint multi_set (k v : string) (d : list (string * string))
    : list (string * string) :=
  match d with
  | [] => [(k, v)]
  | (k', v') :: d' =>
      if String.eqb k' k then (k, v) :: multi_remove k d'
      else (k', v') :: multi_set k v d'
  end.

(** [d.update(e)] *)
Definition multi_update (e d : list (string * string)) : list (string * string) :=
  foldl (λ acc kv, multi_set kv.1 kv.2 acc) d e.

(** ** The responses of the framework *)

Definition detail (msg : string) : content := JSON (JDict [("detail", JStr msg)]).

Definition not_found : response := mkResponse 404 (detail "Not Found") [].

Definition method_not_allowed (allow : list string) : response :=
  mkResponse 405 (detail "Method Not Allowed") [("allow", str_join ", " allow)].

(** The redirection to the same URL with the path [path]. *)
Definition redirect (path : string) : response :=
  mkResponse 307 Empty [("location", path)].

Definition unprocessable (es : list error) : response := mkResponse 422 (Errors es) [].

Definition body_not_json : response := mkResponse 422 DecodeError [].

Definition internal_server_error : response :=
  mkResponse 500 (PlainText "Internal Server Error") [].

Definition json_response (j : json) : response := mkResponse 200 (JSON j) [].

(** What the handler of server errors sends for the outcome of the
    application: an exception becomes the response 500. *)
Definition or_server_error (out : result exn response) : response :=
  match out with
  | Ok rs => rs
  | Err _ => internal_server_error
  end.

(** The outermost layer of an application: an exception that reaches it
    becomes the response 500. *)
Definition server_error_middleware (app : application) (req : http_request)
    (w : world) : response * world :=
  let out := app req w in
  match out.1 with
  | Ok rs => (rs, out.2)
  | Err _ => (internal_server_error, out.2)
  end.

(** ** Lemmas *)

Section multi.
Implicit Types (k v : string) (d : list (string * string)).

Lemma header_get_remove k k' d :
  header_get k (multi_remove k' d) = if String.eqb k' k then None else header_get k d.
Proof.
  induction d as [|[k0 v0] d IH]; simpl; [by destruct (_ =? _)%string|].
  destruct (String.eqb_spec k0 k') as [->|Hne]; simpl; rewrite IH.
  - by destruct (String.eqb_spec k' k).
  - destruct (String.eqb_spec k' k) as [->|Hk]; [|done].
    by rewrite (proj2 (String.eqb_neq _ _) Hne).
Qed.

(** After [h[k] = v] the key [k] has the value [v] and the other keys
    have the value they had. *)
Lemma header_get_set k k' v d :
  header_get k (multi_set k' v d) = if String.eqb k' k then Some v else header_get k d.
Proof.
  induction d as [|[k0 v0] d IH]; simpl; [done|].
  destruct (String.eqb_spec k0 k') as [->|Hne]; simpl.
  - rewrite header_get_remove. by destruct (String.eqb_spec k' k).
  - rewrite IH. destruct (String.eqb_spec k' k) as [->|Hk]; [|done].
    by rewrite (proj2 (String.eqb_neq _ _) Hne).
Qed.

Lemma header_has_set k k' v d :
  header_has k (multi_set k' v d) = String.eqb k' k || header_has k d.
Proof. unfold header_has. rewrite header_get_set. by destruct (_ =? _)%string. Qed.

End multi.

Lemma server_error_middleware_eq app req w :
  server_error_middleware app req w = (or_server_error (app req w).1, (app req w).2).
Proof. unfold server_error_middleware. by destruct (app req w).1. Qed.

Lemma server_error_middleware_Ok app req w rs :
  (app req w).1 = Ok rs → server_error_middleware app req w = (rs, (app req w).2).
Proof. unfold server_error_middleware. by intros ->. Qed.

Lemma server_error_middleware_Err app req w e :
  (app req w).1 = Err e →
  server_error_middleware app req w = (internal_server_error, (app req w).2).
Proof. unfold server_error_middleware. by intros ->. Qed.
