(* ===== verification/Cors.v ===== *)
(** The CORS middleware that [main.py] adds to the application: what it
    is configured with, the headers it computes once from the
    configuration, its answer to a preflight request, and the headers it
    adds to the response of the application beneath it.  Names of headers
    are in lower case, as they are on the wire. *)

From S2P Require Import Prelude PyStr Json Redis Effects Pydantic Http.

(** The keyword arguments of [CORSMiddleware]. *)
Record CORSMiddleware := mkCORS {
  allow_origins : list string;
  allow_methods : list string;
  allow_headers : list string;
  allow_credentials : bool;
  expose_headers : list string;
  max_age : Z;
}.

Definition ALL_METHODS : list string :=
  ["DELETE"; "GET"; "HEAD"; "OPTIONS"; "PATCH"; "POST"; "PUT"].

Definition SAFELISTED_HEADERS : list string :=
  ["Accept"; "Accept-Language"; "Content-Language"; "Content-Type"].

(** [sorted(set(l))]: insertion in code-point order, without repeats. *)
Fixpoint insert_sorted (s : string) (l : list string) : list string :=
  match l with
  | [] => [s]
  | x :: l' =>
      if String.eqb s x then l
      else if String.leb s x then s :: l
      else x :: insert_sorted s l'
  end.

Definition sorted_set (l : list string) : list string := foldr insert_sorted [] l.

(** [s.split(c)] *)
Fixpoint split_on (c : ascii) (s : string) : list string :=
  match s with
  | "" => [""]
  | String a s' =>
      if Ascii.eqb a c then "" :: split_on c s'
      else
        match split_on c s' with
        | [] => [String a ""]
        | x :: xs => String a x :: xs
        end
  end.

Section cors.
Context (cfg : CORSMiddleware).

Definition cors_methods : list string :=
  if str_in "*" (allow_methods cfg) then ALL_METHODS else allow_methods cfg.

Definition allow_all_origins : bool := str_in "*" (allow_origins cfg).

Definition allow_all_headers : bool := str_in "*" (allow_headers cfg).

Definition preflight_explicit_allow_origin : bool :=
  negb allow_all_origins || allow_credentials cfg.

(** The headers that may be requested: the safelisted ones and those of
    the configuration, in lower case. *)
Definition cors_headers : list string :=
  lower <$> sorted_set (SAFELISTED_HEADERS ++ allow_headers cfg).

Definition simple_headers : list (string * string) :=
  (if allow_all_origins then [("access-control-allow-origin", "*")] else [])
  ++ (if allow_credentials cfg then [("access-control-allow-credentials", "true")] else [])
  ++ (match expose_headers cfg with
      | [] => []
      | hs => [("access-control-expose-headers", str_join ", " hs)]
      end).

Definition preflight_headers : list (string * string) :=
  (if preflight_explicit_allow_origin then [("vary", "Origin")]
   else [("access-control-allow-origin", "*")])
  ++ [("access-control-allow-methods", str_join ", " cors_methods);
      ("access-control-max-age", str_int (max_age cfg))]
  ++ (if negb allow_all_headers
      then [("access-control-allow-headers",
             str_join ", " (sorted_set (SAFELISTED_HEADERS ++ allow_headers cfg)))]
      else [])
  ++ (if allow_credentials cfg then [("access-control-allow-credentials", "true")] else []).

Definition is_allowed_origin (origin : string) : bool :=
  allow_all_origins || str_in origin (allow_origins cfg).

(** The answer to a preflight request, from its headers: what is refused
    is listed in the text of the response 400. *)
Definition preflight_response (request_headers : list (string * string)) : response :=
  let requested_origin := from_option id "" (header_get "origin" request_headers) in
  let requested_method :=
    from_option id "" (header_get "access-control-request-method" request_headers) in
  let requested_headers := header_get "access-control-request-headers" request_headers in
  let origin_ok := is_allowed_origin requested_origin in
  let method_ok := str_in requested_method cors_methods in
  let headers_ok :=
    match requested_headers with
    | Some hs =>
        allow_all_headers
        || forallb (λ h, str_in (strip (lower h)) cors_headers) (split_on "," hs)
    | None => true
    end in
  let hs1 :=
    if origin_ok && preflight_explicit_allow_origin
    then multi_set "access-control-allow-origin" requested_origin preflight_headers
    else preflight_headers in
  let hs2 :=
    match requested_headers with
    | Some hs =>
        if allow_all_headers then multi_set "access-control-allow-headers" hs hs1 else hs1
    | None => hs1
    end in
  let failures :=
    (if origin_ok then [] else ["origin"])
    ++ (if method_ok then [] else ["method"])
    ++ (if headers_ok then [] else ["headers"]) in
  match failures with
  | [] => mkResponse 200 (PlainText "OK") hs2
  | _ => mkResponse 400 (PlainText ("Disallowed CORS " +:+ str_join ", " failures)) hs2
  end.

(** [headers.add_vary_header("Origin")] *)
Definition add_vary_origin (hs : list (string * string)) : list (string * string) :=
  match header_get "vary" hs with
  | None => multi_set "vary" "Origin" hs
  | Some existing => multi_set "vary" (existing +:+ ", Origin") hs
  end.

Definition allow_explicit_origin (origin : string) (hs : list (string * string))
    : list (string * string) :=
  add_vary_origin (multi_set "access-control-allow-origin" origin hs).

(** The headers of a response to a request that has an origin. *)
Definition cors_send (request_headers : list (string * string)) (rs : response)
    : response :=
  let origin := from_option id "" (header_get "origin" request_headers) in
  let hs := multi_update simple_headers (headers rs) in
  let hs' :=
    if allow_all_origins && header_has "cookie" request_headers
    then allow_explicit_origin origin hs
    else if negb allow_all_origins && is_allowed_origin origin
    then allow_explicit_origin origin hs
    else hs in
  mkResponse (status rs) (body rs) hs'.

(** The middleware around an application: a request without origin goes
    through, a preflight request is answered here, any other request is
    passed on and the response gets the headers.  An exception of the
    application passes through as it is. *)
Definition cors_middleware (app : application) : application := λ req w,
  match header_get "origin" (h_headers req) with
  | None => app req w
  | Some _ =>
      if String.eqb (h_method req) "OPTIONS"
         && header_has "access-control-request-method" (h_headers req)
      then (Ok (preflight_response (h_headers req)), w)
      else
        let out := app req w in
        (cors_send (h_headers req) <$> out.1, out.2)
  end.

(** A request that the middleware answers itself. *)
Definition is_preflight (req : http_request) : bool :=
  header_has "origin" (h_headers req)
  && String.eqb (h_method req) "OPTIONS"
  && header_has "access-control-request-method" (h_headers req).

(** What the middleware makes of the response of the application
    beneath it: a request with an origin gets the headers. *)
Definition cors_wrap (req : http_request) (rs : response) : response :=
  if header_has "origin" (h_headers req) then cors_send (h_headers req) rs else rs.

(** ** Lemmas *)

(** The middleware in one equation: the preflight response, or the
    application with its response wrapped. *)
Lemma cors_middleware_eq app req w :
  cors_middleware app req w =
    if is_preflight req then (Ok (preflight_response (h_headers req)), w)
    else (cors_wrap req <$> (app req w).1, (app req w).2).
Proof.
  unfold cors_middleware, is_preflight, cors_wrap, header_has.
  destruct (header_get "origin" _); simpl; [by destruct (_ && _)|].
  by destruct (app req w) as [[rs|e] w'].
Qed.

Lemma cors_middleware_no_origin app req w :
  header_get "origin" (h_headers req) = None → cors_middleware app req w = app req w.
Proof. unfold cors_middleware. by intros ->. Qed.

(** The middleware changes neither the world nor whether the application
    raises. *)
Lemma cors_middleware_world app req w :
  (cors_middleware app req w).2 = w ∨ (cors_middleware app req w).2 = (app req w).2.
Proof.
  unfold cors_middleware. destruct (header_get _ _); [|by right].
  destruct (_ && _); [by left | by right].
Qed.

Lemma cors_middleware_Err app req w e :
  (cors_middleware app req w).1 = Err e → (app req w).1 = Err e.
Proof.
  unfold cors_middleware. destruct (header_get _ _); [|done].
  destruct (_ && _); [done|]. simpl. by destruct (app req w).1.
Qed.

End cors.

Example split_on_comma : split_on "," "a, b,c" = ["a"; " b"; "c"].
Proof. reflexivity. Qed.

Example sorted_set_headers :
  sorted_set (SAFELISTED_HEADERS ++ ["X-Token"; "Accept"])
  = ["Accept"; "Accept-Language"; "Content-Language"; "Content-Type"; "X-Token"].
Proof. reflexivity. Qed.
