(* ===== verification/Service.v ===== *)
(** The application object of [main.py]: the routes that its decorators
    register, with the parameters that each endpoint function declares,
    the two endpoints that do not use the cache ([root] and
    [health_check]), the CORS middleware it is given, and the way a
    request travels through it: routing, the reading and validation of
    the parameters (422 when they do not validate), the call of the
    endpoint, and the response 500 for an exception that nothing
    handles.  [request_of] reads what a request asks for, and the
    application is characterised request by request: the handler of that
    operation runs and [deliver] makes the response of its outcome, or
    nothing touches the cache.  [stack] is the same application as one
    coroutine per request, which the event loop of [HttpLoop] runs in
    turns; [asgi] is that coroutine run in one go ([asgi_stack]). *)

From stdpp Require Import gmap.
From S2P Require Import Prelude PyStr Routing Keys Json JsonParse Redis Effects.
From S2P Require Import Handlers Enums Pydantic Models Http Cors.

(** ** Path operations *)

(** Where a parameter of an endpoint function is read from. *)
Inductive source := InPath | InQuery | InBody.

#[export] Instance source_eq_dec : EqDecision source.
Proof. solve_decision. Defined.

Definition source_name (s : source) : string :=
  match s with
  | InPath => "path"
  | InQuery => "query"
  | InBody => "body"
  end.

(** An endpoint function: the parameters of its signature, and its body
    once it is called with keyword arguments (no body when an argument
    has not the type the body expects). *)
Record operation := mkOperation {
  op_params : list field;
  op_call : dict → option (prog json response);
}.

(** The names between braces in a path template. *)
Definition path_names (template : string) : list string :=
  omap (λ p, match p with Param n => Some n | Lit _ => None end)
    (compile_path template).

(** A parameter named in the path is a path parameter; of the others,
    one whose type is a class is read from the body and one of a scalar
    type from the query. *)
Definition param_source (names : list string) (f : field) : source :=
  if str_in (f_name f) names then InPath
  else match f_type f with
       | TModel _ _ => InBody
       | _ => InQuery
       end.

Definition has_body_param (names : list string) (fs : list field) : bool :=
  existsb (λ f, bool_decide (param_source names f = InBody)) fs.

(** Arguments by keyword. *)
Definition kw_str (k : string) (kw : dict) : option string :=
  match dict_get k kw with Some (VStr s) => Some s | _ => None end.

Definition kw_int (k : string) (kw : dict) : option Z :=
  match dict_get k kw with Some (VInt z) => Some z | _ => None end.

Definition kw_dict (k : string) (kw : dict) : option dict :=
  match dict_get k kw with Some (VDict d) => Some d | _ => None end.

(** [@app.get(path)] and [@app.post(path)] on a function that returns a
    value: the value becomes the JSON content of a response 200. *)
Definition serialize_response (p : prog json json) : prog json response :=
  v ← p; mret (json_response v).

Definition api_route (method path : string) (params : list field)
    (call : dict → option (prog json json)) : route operation :=
  mkRoute path [method] (mkOperation params (λ kw, serialize_response <$> call kw)).

(** A route of the framework's own that serves a generated document. *)
Definition doc_route (path name : string) : route operation :=
  mkRoute path ["GET"; "HEAD"]
    (mkOperation [] (λ _, Some (Ret (mkResponse 200 (Document name) [])))).

(** ** Reading the parameters *)

Section solve.
Context (rt : runtime).
Context (path_params query : list (string * string)) (received_body : http_body).

(** What the request gives for a parameter. *)
Definition received (src : source) (name : string) : option pyval :=
  match src with
  | InPath => VStr <$> multi_get name path_params
  | InQuery => VStr <$> multi_get name query
  | InBody =>
      match received_body with
      | Parsed v => if is_none v then None else Some v
      | _ => None
      end
  end.

Definition param_loc (src : source) (name : string) : list loc_item :=
  match src with
  | InBody => [LField "body"]
  | _ => [LField (source_name src); LField name]
  end.

(** A parameter that the request does not give takes its default, or is
    reported missing; one that it gives is validated against its type. *)
Definition solve_param (src : source) (f : field) : result ValidationError pyval :=
  match received src (f_name f) with
  | None =>
      match get_default rt f with
      | None => Err (raise (param_loc src (f_name f)) Missing)
      | Some d => Ok d
      end
  | Some v =>
      validate_type rt (f_ge f) (f_le f) (f_type f) (param_loc src (f_name f)) v
  end.

(** The parameters read from [src], in the order of the signature. *)
Fixpoint solve_params (src : source) (names : list string) (fs : list field)
    (values : dict) (errs : list error) : dict * list error :=
  match fs with
  | [] => (values, errs)
  | f :: fs' =>
      if bool_decide (param_source names f = src) then
        match solve_param src f with
        | Ok v => solve_params src names fs' (values ++ [(f_name f, v)]) errs
        | Err es => solve_params src names fs' values (errs ++ errors_of es)
        end
      else solve_params src names fs' values errs
  end.

(** Path, then query, then body. *)
Definition solve_dependencies (names : list string) (fs : list field)
    : dict * list error :=
  let r1 := solve_params InPath names fs [] [] in
  let r2 := solve_params InQuery names fs r1.1 r1.2 in
  solve_params InBody names fs r2.1 r2.2.

End solve.

(** ** The application of [main.py] *)

Section app.
Context (rt : runtime) (isoformat : Z → string).

Definition root : prog json json :=
  mret (JDict [("message", JStr "Akwam Streaming API"); ("status", JStr "active")]).

Definition health_check : prog json json :=
  mret (JDict [("status", JStr "healthy");
               ("timestamp", JStr (isoformat (datetime_now rt)))]).

Definition root_route : route operation :=
  api_route "GET" "/" [] (λ _, Some root).

Definition home_route : route operation :=
  api_route "GET" "/api/home" [defaulted "page" TInt (VInt 1)]
    (λ kw, page ← kw_int "page" kw; Some (get_home_page page)).

Definition search_route : route operation :=
  api_route "POST" "/api/search"
    [required "request" (model_type rt Main.SearchRequest)]
    (λ kw, d ← kw_dict "request" kw; request ← Main.to_request d;
           Some (search_content request)).

Definition movie_route : route operation :=
  api_route "GET" "/api/movie/{movie_id}" [required "movie_id" TStr]
    (λ kw, movie_id ← kw_str "movie_id" kw; Some (get_movie_details movie_id)).

Definition series_route : route operation :=
  api_route "GET" "/api/series/{series_id}" [required "series_id" TStr]
    (λ kw, series_id ← kw_str "series_id" kw; Some (get_series_details series_id)).

Definition watch_route : route operation :=
  api_route "GET" "/api/watch/{content_id}" [required "content_id" TStr]
    (λ kw, content_id ← kw_str "content_id" kw; Some (get_video_sources content_id)).

Definition category_route : route operation :=
  api_route "GET" "/api/category/{category}"
    [required "category" TStr; defaulted "page" TInt (VInt 1)]
    (λ kw, category ← kw_str "category" kw; page ← kw_int "page" kw;
           Some (get_category category page)).

Definition health_route : route operation :=
  api_route "GET" "/health" [] (λ _, Some health_check).

(** [FastAPI(title=..., version=...)]: the other arguments have their
    defaults, which place the generated documents. *)
Record FastAPI := mkFastAPI {
  title : string;
  version : string;
  openapi_url : option string;
  docs_url : option string;
  redoc_url : option string;
  swagger_ui_oauth2_redirect_url : option string;
}.

Definition app : FastAPI := {|
  title := "Akwam Streaming API";
  version := "1.0.0";
  openapi_url := Some "/openapi.json";
  docs_url := Some "/docs";
  redoc_url := Some "/redoc";
  swagger_ui_oauth2_redirect_url := Some "/docs/oauth2-redirect";
|}.

(** The routes that the constructor registers before any decorator
    runs. *)
Definition setup (a : FastAPI) : list (route operation) :=
  match openapi_url a with
  | None => []
  | Some u => [doc_route u "openapi"]
  end
  ++ match openapi_url a, docs_url a with
     | Some _, Some u =>
         doc_route u "swagger-ui"
         :: match swagger_ui_oauth2_redirect_url a with
            | Some u' => [doc_route u' "swagger-ui-redirect"]
            | None => []
            end
     | _, _ => []
     end
  ++ match openapi_url a, redoc_url a with
     | Some _, Some u => [doc_route u "redoc"]
     | _, _ => []
     end.

(** The routes in the order of their registration. *)
Definition routes : list (route operation) :=
  setup app
  ++ [root_route; home_route; search_route; movie_route; series_route;
      watch_route; category_route; health_route].

(** [app.add_middleware(CORSMiddleware, ...)] with the four arguments of
    [main.py]; the headers to expose and the age of a preflight answer
    have the defaults of the class. *)
Definition middleware : CORSMiddleware := {|
  allow_origins := ["*"];
  allow_credentials := true;
  allow_methods := ["*"];
  allow_headers := ["*"];
  expose_headers := [];
  max_age := 600;
|}.

(** The application is a coroutine: the program that a request runs, up
    to the response that the router or the endpoint returns, and the
    response that is sent for its outcome.  These are the layers below,
    without a world to run in. *)

(** A request that has found its route: its parameters are solved and
    the endpoint is called if they all validate. *)
Definition endpoint (r : route operation) (path_params : list (string * string))
    (req : http_request) : prog json response :=
  let names := path_names (r_path r) in
  let fs := op_params (r_endpoint r) in
  if has_body_param names fs && is_malformed (h_body req) then Ret body_not_json
  else
    let solved :=
      solve_dependencies rt path_params (h_query req) (h_body req) names fs in
    match solved.2 with
    | _ :: _ => Ret (unprocessable solved.2)
    | [] =>
        match op_call (r_endpoint r) solved.1 with
        | Some p => p
        | None => Raise TypeError
        end
    end.

Definition route_request (req : http_request) : prog json response :=
  match router routes (h_method req) (h_path req) with
  | Found r path_params => endpoint r path_params req
  | MethodNotAllowed r => Ret (method_not_allowed (r_methods r))
  | RedirectSlashes path => Ret (redirect path)
  | NotFound => Ret not_found
  end.

(** What runs for a request: the answer of the CORS middleware to a
    preflight request, or the router. *)
Definition stack (req : http_request) : prog json response :=
  if is_preflight req then Ret (preflight_response middleware (h_headers req))
  else route_request req.

(** What is sent for the outcome of [stack]: the response with the
    headers of the CORS middleware, or the response 500. *)
Definition send_response (req : http_request) (out : result exn response) : response :=
  or_server_error
    ((λ rs, if is_preflight req then rs else cors_wrap middleware req rs) <$> out).

Context (R : resolver json).

(** A request that has found its route: the body is read when the
    endpoint has a body parameter, the parameters are solved, and the
    endpoint runs if they all validate. *)
Definition handle_request (r : route operation) (path_params : list (string * string))
    : application := λ req w,
  let names := path_names (r_path r) in
  let fs := op_params (r_endpoint r) in
  if has_body_param names fs && is_malformed (h_body req) then (Ok body_not_json, w)
  else
    let solved :=
      solve_dependencies rt path_params (h_query req) (h_body req) names fs in
    match solved.2 with
    | _ :: _ => (Ok (unprocessable solved.2), w)
    | [] =>
        match op_call (r_endpoint r) solved.1 with
        | Some p => run R p w
        | None => (Err TypeError, w)
        end
    end.

(** The router with the handlers of its outcomes. *)
Definition router_app : application := λ req w,
  match router routes (h_method req) (h_path req) with
  | Found r path_params => handle_request r path_params req w
  | MethodNotAllowed r => (Ok (method_not_allowed (r_methods r)), w)
  | RedirectSlashes path => (Ok (redirect path), w)
  | NotFound => (Ok not_found, w)
  end.

(** The application with its middleware: the handler of server errors
    outside, the CORS middleware, the router inside. *)
Definition asgi (req : http_request) (w : world) : response * world :=
  server_error_middleware (cors_middleware middleware router_app) req w.

End app.

(** ** Settings read at start-up *)

(** [os.getenv(k)] *)
Definition getenv (env : list (string * string)) (k : string) : option string :=
  (λ ikv : nat * (string * string), ikv.2.2) <$> list_find (λ kv, kv.1 = k) env.

(** [load_dotenv()]: the variables of the [.env] file join the
    environment of the process, which keeps the values it has. *)
Definition load_dotenv (dotenv environ : list (string * string))
    : list (string * string) :=
  environ ++ filter (λ kv, getenv environ kv.1 = None) dotenv.

(** [os.getenv('REDIS_HOST', 'localhost')] *)
Definition redis_host (env : list (string * string)) : string :=
  from_option id "localhost" (getenv env "REDIS_HOST").

(** [int(os.getenv('REDIS_PORT', 6379))]: there is no port, and the module
    does not load, when the variable holds a text that [int] does not
    read. *)
Definition redis_port (env : list (string * string)) : option Z :=
  match getenv env "REDIS_PORT" with
  | None => Some 6379%Z
  | Some s => py_int s
  end.

(** [uvicorn.run(app, host="0.0.0.0", port=8000)] *)
Definition uvicorn_run : string * Z := ("0.0.0.0", 8000%Z).

(** ** Requests of a client *)

(** The request that asks for what [r] stands for. *)
Definition http_of (r : request) : http_request :=
  match r with
  | GetHome p => mkRequest "GET" "/api/home" [("page", str_int p)] [] NoBody
  | Search req =>
      mkRequest "POST" "/api/search" [] []
        (Parsed (VDict [("query", VStr (query req)); ("page", of_opt_int (page req))]))
  | GetMovie i => mkRequest "GET" ("/api/movie/" +:+ i) [] [] NoBody
  | GetSeries i => mkRequest "GET" ("/api/series/" +:+ i) [] [] NoBody
  | GetWatch i => mkRequest "GET" ("/api/watch/" +:+ i) [] [] NoBody
  | GetCategory c p =>
      mkRequest "GET" ("/api/category/" +:+ c) [("page", str_int p)] [] NoBody
  end.

(** A text that can stand for a path parameter: not empty and without
    slash. *)
Definition segment (s : string) : bool := str_truthy s && negb (char_in slash s).

Definition routable (r : request) : bool :=
  match r with
  | GetMovie i | GetSeries i | GetWatch i => segment i
  | GetCategory c _ => segment c
  | _ => true
  end.

(** What the client gets for the outcome of a handler. *)
Definition respond (res : result exn json) : response :=
  match res with
  | Ok v => json_response v
  | Err _ => internal_server_error
  end.

(** The page that a query string gives: the default when it has none,
    what [int] reads otherwise. *)
Definition query_page (q : list (string * string)) : option Z :=
  match multi_get "page" q with
  | None => Some 1%Z
  | Some s => py_int s
  end.

(** The search that a body asks for, when it validates: the body is a
    dictionary, or pairs that make one. *)
Definition searched (rt : runtime) (b : http_body) : option SearchRequest :=
  match b with
  | Parsed v =>
      if is_none v then None
      else
        match model_input rt (m_config Main.SearchRequest) v with
        | Ok m =>
            match validate_model rt Main.SearchRequest m with
            | Ok d => Main.to_request d
            | Err _ => None
            end
        | Err _ => None
        end
  | _ => None
  end.

(** A path that is the text [lit]: the pattern of a route ends with [$],
    which lets a final newline pass. *)
Definition literal (lit path : string) : bool :=
  String.eqb path lit || String.eqb path (lit +:+ String newline "").

(** What a request asks for, read from its method, its path, its query
    and its body: the inverse of [http_of], on every request that reaches
    an operation. *)
Definition request_of (rt : runtime) (req : http_request) : option request :=
  let path := h_path req in
  if String.eqb (h_method req) "POST" then
    if literal "/api/search" path then Search <$> searched rt (h_body req) else None
  else if String.eqb (h_method req) "GET" then
    if literal "/api/home" path then GetHome <$> query_page (h_query req)
    else
      match strip_prefix "/api/movie/" path with
      | Some i => if segment i then Some (GetMovie i) else None
      | None =>
      match strip_prefix "/api/series/" path with
      | Some i => if segment i then Some (GetSeries i) else None
      | None =>
      match strip_prefix "/api/watch/" path with
      | Some i => if segment i then Some (GetWatch i) else None
      | None =>
      match strip_prefix "/api/category/" path with
      | Some c => if segment c then GetCategory c <$> query_page (h_query req) else None
      | None => None
      end end end end
  else None.

(** The response to a request whose handler gave [res]: the value with
    the headers that the CORS middleware adds for a request with an
    origin, and the bare 500 for an exception, which the middleware does
    not see. *)
Definition deliver (req : http_request) (res : result exn json) : response :=
  match res with
  | Ok v =>
      match header_get "origin" (h_headers req) with
      | None => json_response v
      | Some _ => cors_send middleware (h_headers req) (json_response v)
      end
  | Err _ => internal_server_error
  end.

(** ** What explains a response *)

Section explained.
Context (R : resolver json).

(** The statuses of the responses that are made without running a
    handler. *)
Definition static_status : list Z := [200; 307; 400; 404; 405; 422]%Z.

(** The outcome of a handler of [Handlers] run on the world. *)
Definition from_handler (w : world) (out : result exn response * world) : Prop :=
  ∃ r, out = (json_response <$> (run R (handle r) w).1, (run R (handle r) w).2).

(** A response made without the cache and without the upstream. *)
Definition from_static (w : world) (out : result exn response * world) : Prop :=
  ∃ rs, out = (Ok rs, w) ∧ status rs ∈ static_status.

Definition explained_out (w : world) (out : result exn response * world) : Prop :=
  from_handler w out ∨ from_static w out.

(** What the client observes of an outcome once the middleware has
    passed: the value or the failure of a handler, or a response made
    without touching the world. *)
Definition observed (w : world) (out : response * world) : Prop :=
  (∃ r, out.2 = (run R (handle r) w).2
        ∧ match (run R (handle r) w).1 with
          | Ok v => status out.1 = 200%Z ∧ body out.1 = JSON v
          | Err _ => out.1 = internal_server_error
          end)
  ∨ (out.2 = w ∧ status out.1 ∈ static_status).

End explained.

(** ** Lemmas *)

#[local] Arguments run : simpl never.

Section lemmas.
Context (rt : runtime) (isoformat : Z → string) (R : resolver json).
Implicit Types (w : world) (req : http_request).

Lemma routes_eq :
  routes rt isoformat =
    [doc_route "/openapi.json" "openapi"; doc_route "/docs" "swagger-ui";
     doc_route "/docs/oauth2-redirect" "swagger-ui-redirect"; doc_route "/redoc" "redoc";
     root_route; home_route; search_route rt; movie_route; series_route;
     watch_route; category_route; health_route rt isoformat].
Proof. reflexivity. Qed.

(** A route whose template ends with its one parameter matches a path
    made of the literal text and a segment. *)
Lemma route_matches_segment tmpl p n ms (e : operation) m i :
  compile_path tmpl = [Lit p; Param n] → str_in m ms = true → segment i = true →
  route_matches (mkRoute tmpl ms e) m (p +:+ i) = MatchFull [(n, i)].
Proof.
  intros Hc Hm Hi. unfold route_matches, match_path. simpl.
  rewrite Hc, match_last_param, strip_prefix_app. unfold segment in Hi.
  by rewrite Hi, Hm.
Qed.

Lemma run_serialize_response p w :
  run R (serialize_response p) w = (json_response <$> (run R p w).1, (run R p w).2).
Proof.
  unfold serialize_response. rewrite run_bind. by destruct (run R p w) as [[v|e] w'].
Qed.

(** A request whose parameters validate runs its endpoint. *)
Lemma handle_request_call (r : route operation) pp req w kw p :
  has_body_param (path_names (r_path r)) (op_params (r_endpoint r))
    && is_malformed (h_body req) = false →
  solve_dependencies rt pp (h_query req) (h_body req)
    (path_names (r_path r)) (op_params (r_endpoint r)) = (kw, []) →
  op_call (r_endpoint r) kw = Some p →
  handle_request rt R r pp req w = run R p w.
Proof. intros Hb Hs Hc. unfold handle_request. rewrite Hb, Hs. simpl. by rewrite Hc. Qed.

(** A request without origin that finds its route and validates gets
    what the endpoint returns, or the response 500 when it raises. *)
Lemma asgi_run req w (r : route operation) pp kw p :
  header_get "origin" (h_headers req) = None →
  router (routes rt isoformat) (h_method req) (h_path req) = Found r pp →
  has_body_param (path_names (r_path r)) (op_params (r_endpoint r))
    && is_malformed (h_body req) = false →
  solve_dependencies rt pp (h_query req) (h_body req)
    (path_names (r_path r)) (op_params (r_endpoint r)) = (kw, []) →
  op_call (r_endpoint r) kw = Some (serialize_response p) →
  asgi rt isoformat R req w = (respond (run R p w).1, (run R p w).2).
Proof.
  intros Ho Hr Hb Hs Hc. unfold asgi, server_error_middleware.
  rewrite cors_middleware_no_origin by done. unfold router_app. rewrite Hr.
  rewrite (handle_request_call _ _ _ _ _ _ Hb Hs Hc), run_serialize_response.
  by destruct (run R p w) as [[v|e] w'].
Qed.

(** ** The application as a coroutine *)

Lemma handle_request_endpoint (r : route operation) pp req w :
  handle_request rt R r pp req w = run R (endpoint rt r pp req) w.
Proof.
  unfold handle_request, endpoint. destruct (_ && _); [done|].
  destruct (solve_dependencies _ _ _ _ _ _).2; [|done]. by destruct (op_call _ _).
Qed.

Lemma router_app_run req w :
  router_app rt isoformat R req w = run R (route_request rt isoformat req) w.
Proof.
  unfold router_app, route_request. destruct (router _ _ _); try done.
  apply handle_request_endpoint.
Qed.

(** The application run on a world is the coroutine of the request run
    to its end, and the response sent for its outcome. *)
Lemma asgi_stack req w :
  asgi rt isoformat R req w
  = (send_response req (run R (stack rt isoformat req) w).1,
     (run R (stack rt isoformat req) w).2).
Proof.
  unfold asgi. rewrite server_error_middleware_eq, cors_middleware_eq.
  unfold stack, send_response. destruct (is_preflight req); [done|].
  simpl. by rewrite router_app_run.
Qed.

(** A request that finds its route and validates runs the endpoint, and
    nothing else. *)
Lemma stack_endpoint req (r : route operation) pp kw p :
  String.eqb (h_method req) "OPTIONS" = false →
  router (routes rt isoformat) (h_method req) (h_path req) = Found r pp →
  has_body_param (path_names (r_path r)) (op_params (r_endpoint r))
    && is_malformed (h_body req) = false →
  solve_dependencies rt pp (h_query req) (h_body req)
    (path_names (r_path r)) (op_params (r_endpoint r)) = (kw, []) →
  op_call (r_endpoint r) kw = Some p →
  stack rt isoformat req = p.
Proof.
  intros Hm Hr Hb Hs Hc. unfold stack, is_preflight. rewrite Hm, andb_false_r.
  simpl. unfold route_request. rewrite Hr. unfold endpoint. rewrite Hb, Hs. simpl.
  by rewrite Hc.
Qed.

(** What is sent for the outcome of an endpoint of the application is
    what [deliver] makes of it. *)
Lemma send_response_deliver req res :
  String.eqb (h_method req) "OPTIONS" = false →
  send_response req (json_response <$> res) = deliver req res.
Proof.
  intros Hm. unfold send_response, deliver, is_preflight, cors_wrap, header_has.
  rewrite Hm, andb_false_r. destruct res as [v|e]; simpl; [|done].
  by destruct (header_get _ _).
Qed.

(** A request without origin that is answered before any endpoint
    runs. *)
Lemma asgi_static req w (r : route operation) pp rs :
  header_get "origin" (h_headers req) = None →
  router (routes rt isoformat) (h_method req) (h_path req) = Found r pp →
  handle_request rt R r pp req w = (Ok rs, w) →
  asgi rt isoformat R req w = (rs, w).
Proof.
  intros Ho Hr Hh. unfold asgi, server_error_middleware.
  rewrite cors_middleware_no_origin by done. unfold router_app. by rewrite Hr, Hh.
Qed.

(** The page of a query string that [int] reads. *)
Lemma solve_page s z b :
  py_int s = Some z →
  solve_dependencies rt [] [("page", s)] b [] [defaulted "page" TInt (VInt 1)]
  = ([("page", VInt z)], []).
Proof.
  intros Hs. unfold solve_dependencies. simpl. unfold solve_param. simpl.
  by rewrite Hs.
Qed.

Lemma solve_category c s z b :
  py_int s = Some z →
  solve_dependencies rt [("category", c)] [("page", s)] b ["category"]
    [required "category" TStr; defaulted "page" TInt (VInt 1)]
  = ([("category", VStr c); ("page", VInt z)], []).
Proof.
  intros Hs. unfold solve_dependencies. simpl. unfold solve_param. simpl.
  by rewrite Hs.
Qed.

Lemma explained_handler r w :
  explained_out R w (run R (serialize_response (handle r)) w).
Proof. left. exists r. apply run_serialize_response. Qed.

Lemma explained_static rs w :
  status rs ∈ static_status → explained_out R w (Ok rs, w).
Proof. right. by exists rs. Qed.

Lemma explained_ret rs w :
  status rs ∈ static_status → explained_out R w (run R (Ret rs) w).
Proof. apply explained_static. Qed.

Lemma explained_const j w : explained_out R w (run R (serialize_response (Ret j)) w).
Proof. apply explained_static. unfold static_status. set_solver. Qed.

Lemma preflight_status cfg hs : status (preflight_response cfg hs) ∈ static_status.
Proof.
  unfold preflight_response, static_status. destruct (_ ++ _); simpl; set_solver.
Qed.

(** With the configuration of [main.py] a response to a request that has
    an origin and a cookie names that origin and allows credentials. *)
Lemma cors_send_credentials hs rs o :
  header_get "origin" hs = Some o → header_has "cookie" hs = true →
  header_get "access-control-allow-origin" (headers (cors_send middleware hs rs)) = Some o
  ∧ header_get "access-control-allow-credentials" (headers (cors_send middleware hs rs))
    = Some "true".
Proof.
  intros Ho Hc. unfold cors_send. rewrite Ho, Hc. simpl.
  unfold allow_explicit_origin, add_vary_origin.
  by destruct (header_get "vary" _); rewrite !header_get_set.
Qed.

End lemmas.

(** Finds the route of a path that starts with literal text: the routes
    before it fail on the text. *)
Ltac find_route :=
  unfold router; rewrite routes_eq;
  repeat (rewrite find_route_skip by reflexivity);
  erewrite find_route_here; [reflexivity|];
  first [ reflexivity
        | apply route_matches_segment; [reflexivity | reflexivity | assumption] ].

(** Splits on what the request gives for the parameters of a route. *)
Ltac solve_cases :=
  unfold handle_request, solve_dependencies; simpl; unfold solve_param; simpl;
  repeat match goal with
         | |- context [multi_get ?k ?d] => destruct (multi_get k d); simpl
         | |- context [py_int ?s] => destruct (py_int s); simpl
         end.

(** Closes a goal [explained_out] on an outcome in closed form. *)
Ltac explained :=
  lazymatch goal with
  | |- explained_out ?R _ (run _ (serialize_response (get_home_page ?p)) _) =>
      apply (explained_handler R (GetHome p))
  | |- explained_out ?R _ (run _ (serialize_response (search_content ?q)) _) =>
      apply (explained_handler R (Search q))
  | |- explained_out ?R _ (run _ (serialize_response (get_movie_details ?i)) _) =>
      apply (explained_handler R (GetMovie i))
  | |- explained_out ?R _ (run _ (serialize_response (get_series_details ?i)) _) =>
      apply (explained_handler R (GetSeries i))
  | |- explained_out ?R _ (run _ (serialize_response (get_video_sources ?i)) _) =>
      apply (explained_handler R (GetWatch i))
  | |- explained_out ?R _ (run _ (serialize_response (get_category ?c ?p)) _) =>
      apply (explained_handler R (GetCategory c p))
  | |- explained_out _ _ (run _ (serialize_response _) _) => apply explained_const
  | |- explained_out _ _ (run _ (Ret _) _) =>
      apply explained_ret; unfold static_status; set_solver
  | |- explained_out _ _ (Ok _, _) =>
      apply explained_static; unfold static_status; set_solver
  end.

Lemma match_path_literal tmpl p s :
  compile_path tmpl = [Lit p] →
  match_path tmpl s
  = if String.eqb s p || String.eqb s (p +:+ String newline "") then Some [] else None.
Proof. intros Hc. unfold match_path. rewrite Hc. apply match_literal. Qed.

Lemma match_path_segment tmpl p n s :
  compile_path tmpl = [Lit p; Param n] →
  match_path tmpl s
  = match strip_prefix p s with
    | Some v => if str_truthy v && negb (char_in slash v) then Some [(n, v)] else None
    | None => None
    end.
Proof. intros Hc. unfold match_path. rewrite Hc. apply match_last_param. Qed.

(** The paths that a template of the application matches, by shape: the
    text of the template (with or without a final newline), or the
    literal text followed by a segment. *)
Ltac path_shape H :=
  first
    [ erewrite match_path_literal in H by reflexivity;
      repeat match type of H with
             | context [String.eqb ?a ?b] =>
                 destruct (String.eqb_spec a b) as [->|_]; simpl in H
             end;
      try (by destruct H)
    | erewrite match_path_segment in H by reflexivity;
      match type of H with
      | context [strip_prefix ?p ?s] =>
          let v := fresh "v" in let E := fresh in
          destruct (strip_prefix p s) as [v|] eqn:E; [|by destruct H];
          apply strip_prefix_spec in E as ->
      end ].

(** One goal for each element of a list given in full. *)
Ltac split_index i H :=
  first [ by rewrite lookup_nil in H
        | destruct i as [|i]; simpl in H; [injection H as <- | split_index i H] ].

(** Serves a request whose method and path are known, given how its
    parameters are solved. *)
Tactic Notation "served" tactic3(solve) :=
  split; [reflexivity|];
  eapply stack_endpoint; [reflexivity | simpl; find_route | reflexivity | solve | ].

Section cases.
Context (rt : runtime) (isoformat : Z → string) (R : resolver json).
Implicit Types (w : world) (req : http_request).

Lemma handle_request_search pp req w :
  explained_out R w (handle_request rt R (search_route rt) pp req w).
Proof.
  unfold handle_request. simpl. unfold solve_dependencies. simpl. unfold solve_param.
  destruct (h_body req) as [| |v]; simpl; [explained..|].
  destruct (is_none v) eqn:Hv; simpl; [explained|]. rewrite Hv.
  destruct (model_input rt _ v) as [m|k]; simpl; [|explained].
  destruct (validate_model rt Main.SearchRequest m) as [d|es] eqn:Hd; simpl; [|explained].
  destruct (SearchRequest_to_request rt m d Hd) as (q & p & ->). simpl. explained.
Qed.

(** Whatever a request gives for the parameters of a route, the endpoint
    runs with arguments of the declared types or the request is refused:
    no call fails on the type of an argument. *)
Lemma handle_request_cases (r : route operation) pp req w :
  r ∈ routes rt isoformat → explained_out R w (handle_request rt R r pp req w).
Proof.
  rewrite routes_eq. intros Hr.
  repeat (apply elem_of_cons in Hr as [->|Hr]); [..|by apply elem_of_nil in Hr];
    try apply handle_request_search; solve_cases; explained.
Qed.

(** The router answers with the outcome of a handler, or by itself
    without touching the world. *)
Lemma router_app_explained req w :
  explained_out R w (router_app rt isoformat R req w).
Proof.
  unfold router_app.
  destruct (router _ _ _) as [r pp|r|path|] eqn:Hr; [|explained..].
  apply handle_request_cases. by apply router_Found in Hr as [? _].
Qed.

(** Every response of the application is the outcome of a handler, or
    is made without touching the world. *)
Lemma asgi_observed req w : observed R w (asgi rt isoformat R req w).
Proof.
  unfold asgi, server_error_middleware, cors_middleware, observed.
  pose proof (router_app_explained req w) as [[r ->]|(rs & -> & Hrs)];
    destruct (header_get "origin" _); try destruct (_ && _); simpl;
    eauto using preflight_status.
  - left. exists r. by destruct (run R (handle r) w).1.
  - left. exists r. by destruct (run R (handle r) w).1.
Qed.

(** The request that stands for [r] reaches the handler of [r] with the
    arguments of [r]. *)
Lemma asgi_handle r w :
  routable r = true →
  asgi rt isoformat R (http_of r) w
  = (respond (run R (handle r) w).1, (run R (handle r) w).2).
Proof.
  intros Hr. destruct r as [p|[q p]|i|i|i|c p]; simpl in Hr.
  - eapply asgi_run; [reflexivity | find_route | reflexivity
                     | apply solve_page, py_int_str_int | reflexivity].
  - eapply asgi_run; [reflexivity | find_route | reflexivity
                     | by destruct p | by destruct p].
  - eapply asgi_run; [reflexivity | simpl; find_route | reflexivity..].
  - eapply asgi_run; [reflexivity | simpl; find_route | reflexivity..].
  - eapply asgi_run; [reflexivity | simpl; find_route | reflexivity..].
  - eapply asgi_run; [reflexivity | simpl; find_route | reflexivity
                     | exact (solve_category rt c _ p NoBody (py_int_str_int p))
                     | reflexivity].
Qed.

Lemma solve_query_page q b z :
  query_page q = Some z →
  solve_dependencies rt [] q b [] [defaulted "page" TInt (VInt 1)]
  = ([("page", VInt z)], []).
Proof.
  unfold query_page, solve_dependencies. simpl. unfold solve_param. simpl.
  destruct (multi_get "page" q) as [s|]; simpl; [by intros ->|by intros [= <-]].
Qed.

Lemma solve_category_page c q b z :
  query_page q = Some z →
  solve_dependencies rt [("category", c)] q b ["category"]
    [required "category" TStr; defaulted "page" TInt (VInt 1)]
  = ([("category", VStr c); ("page", VInt z)], []).
Proof.
  unfold query_page, solve_dependencies. simpl. unfold solve_param. simpl.
  destruct (multi_get "page" q) as [s|]; simpl; [by intros ->|by intros [= <-]].
Qed.

Lemma literal_true lit path :
  literal lit path = true → path = lit ∨ path = lit +:+ String newline "".
Proof.
  unfold literal. intros [H|H]%orb_true_iff; apply String.eqb_eq in H; auto.
Qed.

Lemma solve_search q v m d :
  is_none v = false →
  model_input rt (m_config Main.SearchRequest) v = Ok m →
  validate_model rt Main.SearchRequest m = Ok d →
  solve_dependencies rt [] q (Parsed v) []
    [required "request" (model_type rt Main.SearchRequest)]
  = ([("request", VDict d)], []).
Proof.
  intros Hv Hm Hd. unfold solve_dependencies. simpl. unfold solve_param. simpl.
  simpl in Hm. rewrite Hv. simpl. by rewrite Hv, Hm, Hd.
Qed.

(** The coroutine of a request that asks for [r] is the handler of [r]
    with its value made a response. *)
Lemma stack_operation req r :
  request_of rt req = Some r →
  String.eqb (h_method req) "OPTIONS" = false
  ∧ stack rt isoformat req = serialize_response (handle r).
Proof.
  destruct req as [m path q hs b]. unfold request_of.
  cbn [h_method h_path h_query h_body].
  destruct (String.eqb_spec m "POST") as [->|_].
  { destruct (literal _ path) eqn:Hl; [|done].
    destruct b as [| |v]; try done. simpl.
    destruct (is_none v) eqn:Hv; [done|].
    destruct (model_input rt _ v) as [body|] eqn:Hb; [|done].
    destruct (validate_model rt Main.SearchRequest body) as [d|] eqn:Hd; [|done].
    destruct (Main.to_request d) as [sr|] eqn:Hsr; [|done]. intros [= <-].
    apply literal_true in Hl as [-> | ->];
      (served (by eapply solve_search); simpl; by rewrite Hsr). }
  destruct (String.eqb_spec m "GET") as [->|_]; [|done].
  destruct (literal _ path) eqn:Hl.
  { destruct (query_page q) as [z|] eqn:Hq; [|done]. intros [= <-].
    apply literal_true in Hl as [-> | ->];
      (served (by apply solve_query_page); reflexivity). }
  clear Hl.
  repeat match goal with
  | |- context [strip_prefix ?p path] =>
      let E := fresh in
      destruct (strip_prefix p path) as [i|] eqn:E;
        [apply strip_prefix_spec in E as ->; destruct (segment i) eqn:Hi; [|done] |]
  end; try done.
  1-3: intros [= <-]; served reflexivity; reflexivity.
  destruct (query_page q) as [z|] eqn:Hq; [|done]. intros [= <-].
  served (by apply solve_category_page). reflexivity.
Qed.

(** A request that asks for [r] runs the handler of [r], and the client
    gets what [deliver] makes of its outcome. *)
Lemma request_delivered req r w :
  request_of rt req = Some r →
  asgi rt isoformat R req w
  = (deliver req (run R (handle r) w).1, (run R (handle r) w).2).
Proof.
  intros [Hm Hs]%stack_operation.
  rewrite asgi_stack, Hs, run_serialize_response. simpl.
  by rewrite send_response_deliver.
Qed.

(** The method of a request that a route with one method accepts. *)
Lemma str_in_one m m' : str_in m [m'] = true → m = m'.
Proof. simpl. rewrite orb_false_r. by intros ?%String.eqb_eq. Qed.

(** A page that [int] does not read and a body that does not validate
    are refused before the handler runs. *)
Lemma home_refused pp req :
  query_page (h_query req) = None → ∃ rs, endpoint rt home_route pp req = Ret rs.
Proof.
  unfold query_page, endpoint, solve_dependencies. simpl. unfold solve_param. simpl.
  destruct (multi_get "page" (h_query req)) as [s|]; [|done]. simpl. intros ->.
  by eexists.
Qed.

Lemma category_refused pp req :
  query_page (h_query req) = None → ∃ rs, endpoint rt category_route pp req = Ret rs.
Proof.
  unfold query_page, endpoint, solve_dependencies. simpl. unfold solve_param. simpl.
  destruct (multi_get "page" (h_query req)) as [s|]; [|done].
  destruct (multi_get "category" pp); simpl; intros ->; by eexists.
Qed.

Lemma search_refused pp req :
  searched rt (h_body req) = None → ∃ rs, endpoint rt (search_route rt) pp req = Ret rs.
Proof.
  unfold searched, endpoint, solve_dependencies. simpl. unfold solve_param.
  destruct (h_body req) as [| |v]; simpl; try by eexists.
  destruct (is_none v) eqn:Hv; simpl; [by eexists|]. rewrite Hv.
  destruct (model_input rt _ v) as [m|k]; simpl; [|by eexists].
  destruct (validate_model rt Main.SearchRequest m) as [d|es] eqn:Hd; simpl;
    [|by eexists].
  by destruct (SearchRequest_to_request rt m d Hd) as (q & p & ->).
Qed.

(** A request that asks for nothing runs no handler, whatever route it
    finds: the endpoint returns at once. *)
Lemma endpoint_static (r : route operation) pp req :
  r ∈ routes rt isoformat →
  route_matches r (h_method req) (h_path req) = MatchFull pp →
  request_of rt req = None →
  ∃ rs, endpoint rt r pp req = Ret rs.
Proof.
  rewrite routes_eq. destruct req as [m path q hs b]. unfold route_matches.
  cbn [h_method h_path]. intros Hr Hm Hnone.
  destruct (match_path _ path) as [pp'|] eqn:M; [|done].
  destruct (str_in m _) eqn:Hmeth; [|done]. injection Hm as ->.
  assert (is_Some (match_path (r_path r) path)) as M' by (by rewrite M).
  repeat (apply elem_of_cons in Hr as [->|Hr]); [..|by apply elem_of_nil in Hr];
    try (by eexists).
  all: apply str_in_one in Hmeth as ->; simpl in M'; path_shape M'.
  all: unfold request_of, literal in Hnone; simpl in Hnone.
  all: rewrite ?str_app_nil_l in Hnone; unfold segment in Hnone.
  all: try (destruct (str_truthy _ && _); [|by destruct M']); try done.
  all: apply fmap_None in Hnone.
  all: by first [apply home_refused | apply category_refused | apply search_refused].
Qed.

(** The coroutine of a request that asks for nothing is a response:
    no command of Redis, no call of the upstream. *)
Lemma stack_static req :
  request_of rt req = None → ∃ rs, stack rt isoformat req = Ret rs.
Proof.
  intros Hnone. unfold stack. destruct (is_preflight req); [by eexists|].
  unfold route_request.
  destruct (router _ _ _) as [r pp|r|path|] eqn:Hr; try by eexists.
  apply router_Found in Hr as [Hin Hm]. by apply endpoint_static.
Qed.

(** A request that asks for nothing is answered without the cache and
    without the upstream. *)
Lemma request_ignored req w :
  request_of rt req = None → (asgi rt isoformat R req w).2 = w.
Proof. intros [rs Hs]%stack_static. by rewrite asgi_stack, Hs. Qed.

(** The response of a coroutine that runs no handler has one of the
    statuses that the framework gives by itself, and the middleware
    leaves the status of a response as it is. *)
Lemma stack_static_status req rs :
  stack rt isoformat req = Ret rs → status rs ∈ static_status.
Proof.
  unfold stack. destruct (is_preflight req); [intros [= <-]; apply preflight_status|].
  intros Hs. pose proof (router_app_explained req w0) as He.
  rewrite router_app_run, Hs in He. change (run R (Ret rs) w0) with (Ok (E:=exn) rs, w0) in He.
  destruct He as [[r He]|(rs' & [= <-] & Hrs)]; [|done].
  destruct (run R (handle r) w0).1; simplify_eq/=. set_solver.
Qed.

Lemma send_response_status req rs : status (send_response req (Ok rs)) = status rs.
Proof.
  unfold send_response, cors_wrap. simpl.
  destruct (is_preflight req); [done|]. by destruct (header_has _ _).
Qed.

(** A response 500 answers a request that asks for an operation. *)
Lemma server_error_asked req w :
  status (asgi rt isoformat R req w).1 = 500%Z → is_Some (request_of rt req).
Proof.
  intros H500. destruct (request_of rt req) as [r|] eqn:Hn; [done|].
  destruct (stack_static req Hn) as [rs Hs]. rewrite asgi_stack, Hs in H500.
  change (run R (Ret rs) w) with (Ok (E:=exn) rs, w) in H500.
  cbn [fst] in H500. rewrite send_response_status in H500.
  pose proof (stack_static_status req rs Hs) as Hin. rewrite H500 in Hin.
  unfold static_status in Hin. rewrite !elem_of_cons, elem_of_nil in Hin. by destruct_or!.
Qed.

(** The request that stands for [r] asks for [r]. *)
Lemma request_of_http_of r : routable r = true → request_of rt (http_of r) = Some r.
Proof.
  destruct r as [p|[q p]|i|i|i|c p]; unfold request_of; simpl;
    rewrite ?str_app_nil_l; unfold segment; intros Hr.
  - unfold query_page. simpl. by rewrite py_int_str_int.
  - by destruct p.
  - by rewrite Hr.
  - by rewrite Hr.
  - by rewrite Hr.
  - rewrite Hr. unfold query_page. simpl. by rewrite py_int_str_int.
Qed.

(** ** The service end to end *)

(** C35: no route of the application shadows another: a path that matches
    the template of a route matches the template of no other, so the
    route that answers a request does not depend on the order of the
    decorators in [main.py]. *)
Theorem routes_unambiguous path i j (r1 r2 : route operation) :
  routes rt isoformat !! i = Some r1 → routes rt isoformat !! j = Some r2 →
  i ≠ j → is_Some (match_path (r_path r1) path) →
  match_path (r_path r2) path = None.
Proof.
  rewrite routes_eq. intros H1 H2 Hij M1.
  split_index i H1; path_shape M1; split_index j H2; done.
Qed.

(** C9: the whole application, request by request: a request that asks for
    an operation runs the handler of that operation, once, and the client
    gets its value, with the CORS headers when the request has an origin,
    or the bare response 500; any other request is answered without the
    cache and without the upstream. *)
Theorem request_dispatch req w :
  match request_of rt req with
  | Some r =>
      asgi rt isoformat R req w
      = (deliver req (run R (handle r) w).1, (run R (handle r) w).2)
  | None => (asgi rt isoformat R req w).2 = w
  end.
Proof.
  destruct (request_of rt req) as [r|] eqn:Hreq;
    [by apply request_delivered | by apply request_ignored].
Qed.

(** C27: a request that is refused (not found, method not allowed,
    redirected, parameters that do not validate, preflight refused) never
    reaches the cache or the upstream: the store, the clock and the log of
    calls are as they were. *)
Theorem rejected_request_leaves_world req w :
  status (asgi rt isoformat R req w).1 ≠ 200%Z →
  status (asgi rt isoformat R req w).1 ≠ 500%Z →
  (asgi rt isoformat R req w).2 = w.
Proof.
  intros H200 H500. destruct (asgi_observed req w) as [(r & _ & Hr)|[? _]]; [|done].
  destruct (run R (handle r) w).1; [by destruct Hr | by rewrite Hr in H500].
Qed.

(** C26: a response 500 is always the exception of the handler that the
    request asks for (the framework itself never fails, and no endpoint
    is called with an argument of the wrong type), and it carries no
    header: the CORS middleware does not see it, whatever the origin of
    the request. *)
Theorem server_error_is_handlers req w :
  status (asgi rt isoformat R req w).1 = 500%Z →
  (asgi rt isoformat R req w).1 = internal_server_error
  ∧ ∃ r e, request_of rt req = Some r
           ∧ run R (handle r) w = (Err e, (asgi rt isoformat R req w).2).
Proof.
  intros H500. destruct (server_error_asked req w H500) as [r Hr].
  rewrite (request_delivered req r w Hr) in *.
  destruct (run R (handle r) w) as [[v|e] w'] eqn:Hrun; cbn [fst snd deliver] in *.
  - by destruct (header_get "origin" _).
  - split; [done|]. by exists r, e.
Qed.

(** C36: the CORS configuration of [main.py] lets every origin read with
    credentials every response that the middleware sees: a request other
    than [OPTIONS] with an origin and a cookie, whose response is not the
    500 of the error middleware (which carries no header), gets that
    origin back as the allowed one, with
    [Access-Control-Allow-Credentials: true]. *)
Theorem any_origin_gets_credentials req w o :
  header_get "origin" (h_headers req) = Some o →
  header_has "cookie" (h_headers req) = true →
  h_method req ≠ "OPTIONS" →
  status (asgi rt isoformat R req w).1 ≠ 500%Z →
  header_get "access-control-allow-origin" (headers (asgi rt isoformat R req w).1) = Some o
  ∧ header_get "access-control-allow-credentials" (headers (asgi rt isoformat R req w).1)
    = Some "true".
Proof.
  intros Ho Hc Hm. unfold asgi, server_error_middleware, cors_middleware. rewrite Ho.
  rewrite (proj2 (String.eqb_neq _ _) Hm). simpl.
  destruct (router_app rt isoformat R req w).1; simpl; [|done].
  intros _. by apply cors_send_credentials.
Qed.

(** C34: the [page] of [GET /api/home] is what [int] reads in the text of
    the query: every spelling of a number (spaces, a sign, leading zeros,
    underscores) is served as that page, zero and negative pages
    included, and a text that is not a number is answered 422 before the
    handler runs. *)
Theorem home_page_parameter s b w :
  asgi rt isoformat R (mkRequest "GET" "/api/home" [("page", s)] [] b) w =
    match py_int s with
    | Some p => (respond (run R (handle (GetHome p)) w).1, (run R (handle (GetHome p)) w).2)
    | None =>
        (unprocessable [mkError [LField "query"; LField "page"] IntegerError], w)
    end.
Proof.
  destruct (py_int s) as [p|] eqn:Hs.
  - eapply asgi_run; [reflexivity | find_route | reflexivity
                     | by apply solve_page | reflexivity].
  - eapply asgi_static; [reflexivity | find_route |].
    unfold handle_request, solve_dependencies. simpl. unfold solve_param. simpl.
    by rewrite Hs.
Qed.

(** The health endpoint does not look at Redis: with the connection
    down it still answers "healthy", while every operation of the API
    answers 500. *)
Theorem health_ignores_redis r q b w :
  connected (w_redis w) = false → routable r = true →
  asgi rt isoformat R (mkRequest "GET" "/health" q [] b) w
  = (json_response (JDict [("status", JStr "healthy");
                           ("timestamp", JStr (isoformat (datetime_now rt)))]), w)
  ∧ asgi rt isoformat R (http_of r) w = (internal_server_error, w).
Proof.
  intros Hc Hr. split.
  - eapply asgi_static; [reflexivity | find_route | reflexivity].
  - by rewrite asgi_handle, run_handle, outcome_down.
Qed.

End cases.

(** The cache works through HTTP: after a request that missed and
    stored [v], the same request sent again less than [ttl] seconds later
    is answered 200 with [v], whatever the upstream would answer by then,
    and the upstream has been called once in all. *)
Theorem second_request_cached rt isoformat R R' r w v d :
  routable r = true → connected (w_redis w) = true →
  cached_truthy (visible (w_redis w) (cache_key r)) = false →
  resolve R (call_of r) = Ok v → stores_falsy r || truthy v = true →
  (d < ttl r)%Z →
  ∃ w1, asgi rt isoformat R (http_of r) w = (json_response v, w1)
        ∧ asgi rt isoformat R' (http_of r) (later d w1) = (json_response v, later d w1)
        ∧ w_log (later d w1) = w_log w ++ [call_of r].
Proof.
  intros Hroute Hc Hm Hr Hs Hd. exists (stored r v w).
  rewrite !asgi_handle, !run_handle, outcome_miss, Hr, Hs by done. simpl.
  split_and!; [done| |done].
  rewrite (outcome_hit R' r _ v); [done..|].
  rewrite w_redis_later, visible_stored_tick. pose proof (ttl_pos r).
  by rewrite (proj2 (Z.ltb_lt _ _)) by lia.
Qed.

(** ** Witnesses *)

Definition isoformat0 (t : Z) : string := "2025-01-01T00:00:00".

Definition asgi0 : http_request → world → response * world :=
  asgi rt0 isoformat0 stub_resolver.

(** A world whose Redis is not reachable. *)
Definition w_down : world := mkWorld (set_connected false (redis_client ∅ 0)) [].

(** A request from a page of another site, with the cookies of the
    browser. *)
Definition cross_site : http_request :=
  mkRequest "GET" "/api/category/drama" [("page", "2")]
    [("origin", "https://other.example"); ("cookie", "session=1")] NoBody.

(** A movie that the upstream does not have is answered 200 with the
    body [null]. *)
Example missing_movie_is_null :
  asgi0 (http_of (GetMovie "m1")) w0 = (json_response JNull, logged (CMovie "m1") w0).
Proof. reflexivity. Qed.

(** A preflight request is answered before routing: any origin is
    allowed for any path, known or not. *)
Example preflight_unknown_path :
  let rs := (asgi0 (mkRequest "OPTIONS" "/nowhere" []
                      [("origin", "https://other.example");
                       ("access-control-request-method", "DELETE")] NoBody) w0).1 in
  status rs = 200%Z
  ∧ header_get "access-control-allow-origin" (headers rs) = Some "https://other.example".
Proof. split; reflexivity. Qed.

Lemma rejected_request_leaves_world_witness :
  (asgi0 (mkRequest "GET" "/api/home" [("page", "two")] [] NoBody) w0).2 = w0.
Proof.
  apply (rejected_request_leaves_world rt0 isoformat0 stub_resolver); by vm_compute.
Defined.

Lemma server_error_is_handlers_witness :
  (asgi0 cross_site w_down).1 = internal_server_error
  ∧ ∃ r e, request_of rt0 cross_site = Some r
           ∧ run stub_resolver (handle r) w_down = (Err e, (asgi0 cross_site w_down).2).
Proof.
  apply (server_error_is_handlers rt0 isoformat0 stub_resolver cross_site w_down).
  reflexivity.
Defined.

Lemma any_origin_gets_credentials_witness :
  header_get "access-control-allow-origin" (headers (asgi0 cross_site w0).1)
  = Some "https://other.example"
  ∧ header_get "access-control-allow-credentials" (headers (asgi0 cross_site w0).1)
    = Some "true".
Proof.
  apply (any_origin_gets_credentials rt0 isoformat0 stub_resolver cross_site w0);
    by vm_compute.
Defined.

Lemma health_ignores_redis_witness :
  asgi0 (mkRequest "GET" "/health" [] [] NoBody) w_down
  = (json_response (JDict [("status", JStr "healthy");
                           ("timestamp", JStr "2025-01-01T00:00:00")]), w_down)
  ∧ asgi0 (http_of (GetHome 1)) w_down = (internal_server_error, w_down).
Proof.
  apply (health_ignores_redis rt0 isoformat0 stub_resolver (GetHome 1) [] NoBody w_down);
    reflexivity.
Defined.

(** A search may come as a list of pairs: the body [[["query", "heat"]]]
    asks for what [{"query": "heat"}] asks for and the handler runs; an
    empty list is a body without [query], a number is no dictionary, and
    pairs with a key that is not a string are refused by the call of the
    class. *)
Example search_by_pairs :
  let post b := mkRequest "POST" "/api/search" [] [] (Parsed b) in
  request_of rt0 (post (pairs [("query", VStr "heat")]))
    = Some (Search (mkSearchRequest "heat" (Some 1%Z)))
  ∧ (asgi0 (post (pairs [("query", VStr "heat")])) w0).1
    = (asgi0 (post (VDict [("query", VStr "heat")])) w0).1
  ∧ (asgi0 (post (VList [])) w0).1
    = unprocessable [mkError [LField "body"; LField "query"] Missing]
  ∧ (asgi0 (post (VInt 3)) w0).1 = unprocessable [mkError [LField "body"] DictError]
  ∧ (asgi0 (post (VList [VList [VInt 1; VInt 2]])) w0).1
    = unprocessable [mkError [LField "body"] (PlainTypeError "keywords must be strings")].
Proof. by split_and!. Qed.

Example redis_settings :
  redis_host [] = "localhost" ∧ redis_port [] = Some 6379%Z
  ∧ redis_port (load_dotenv [("REDIS_PORT", "7000")] [("REDIS_PORT", " 6380 ")])
    = Some 6380%Z
  ∧ redis_port (load_dotenv [("REDIS_PORT", "")] []) = None.
Proof. repeat split; reflexivity. Qed.

Lemma routes_unambiguous_witness :
  match_path "/api/series/{series_id}" "/api/movie/m1" = None.
Proof.
  apply (routes_unambiguous rt0 isoformat0 "/api/movie/m1" 7 8 movie_route series_route);
    [reflexivity | reflexivity | lia | by eexists].
Defined.

Lemma second_request_cached_witness :
  ∃ w1, asgi0 (http_of (GetHome 1)) w0 = (json_response home_stub, w1)
        ∧ asgi rt0 isoformat0 down_resolver (http_of (GetHome 1)) (later 3599 w1)
          = (json_response home_stub, later 3599 w1)
        ∧ w_log (later 3599 w1) = w_log w0 ++ [CHome 1].
Proof.
  apply (second_request_cached rt0 isoformat0 stub_resolver down_resolver (GetHome 1) w0);
    reflexivity.
Defined.
