(* ===== verification/HttpLoop.v ===== *)
(** The application of [main.py] under the event loop: the requests on
    the wire as tasks.  An exchange is a request with the coroutine that
    serves it ([stack]: the middleware, the router and the endpoint with
    its handler), which runs up to the [await] of the resolver, is woken
    up by the upstream and runs to its return, when [send_response]
    makes what goes on the wire; between the two, the other exchanges
    run and the clock, the connection and the Redis server change.
    [http_step] is the step relation, [http_fire] and [http_schedule] its
    executable form.

    The loop of [Async] runs the handlers alone.  [embeds] relates the
    two: the exchanges that ask for an operation are the tasks of the
    handlers, in the same order and states, and the others are answered
    at their first run without touching the server.  Every step here is
    a step of the loop of handlers or none ([http_step_embeds]), under
    the same policy of scheduling ([Follows]), so what holds of the
    handlers on every interleaving holds of the responses on the wire. *)

From stdpp Require Import gmap.
From S2P Require Import Prelude PyStr Routing Keys Json JsonParse Redis Effects.
From S2P Require Import Handlers Async Interleaving Enums Pydantic Models Http Cors.
From S2P Require Import Service.

(** A request and where its coroutine is: not yet run, at its [await]
    with the rest of its body, woken up, or returned with the response
    that was sent. *)
Inductive exchange :=
| Received (req : http_request)
| Suspended (req : http_request) (c : call) (k : json → prog json response)
| Woken (req : http_request) (p : prog json response)
| Sent (req : http_request) (rs : response).

Record server := mkServer {
  s_redis : redis;
  s_exchanges : list exchange;
  s_log : list call;
}.

(** What can happen next: a request is accepted, the loop runs an
    exchange that is ready, the upstream answers one that waits, time
    passes, the connection to Redis changes, the Redis server drops
    expired keys. *)
Inductive http_label :=
| Accept (req : http_request)
| Proceed (i : nat)
| Upstream (i : nat)
| Sleep (d : Z)
| Network (b : bool)
| Evict.

Section loop.
Context (rt : runtime) (isoformat : Z → string).

Definition accept (req : http_request) (s : server) : server :=
  mkServer (s_redis s) (s_exchanges s ++ [Received req]) (s_log s).

(** Exchange [i] runs [p] up to its next stop; at its return the
    response is sent. *)
Definition proceed (i : nat) (req : http_request) (p : prog json response)
    (s : server) : server :=
  let out := run_until_await p (s_redis s) in
  match out.1 with
  | Returned res =>
      mkServer out.2 (<[i := Sent req (send_response req res)]> (s_exchanges s)) (s_log s)
  | Awaiting c k =>
      mkServer out.2 (<[i := Suspended req c k]> (s_exchanges s)) (s_log s ++ [c])
  end.

(** The resolver's answer wakes exchange [i] up. *)
Definition upstream (R : resolver json) (i : nat) (req : http_request) (c : call)
    (k : json → prog json response) (s : server) : server :=
  let p := match resolve R c with Ok v => k v | Err e => Raise e end in
  mkServer (s_redis s) (<[i := Woken req p]> (s_exchanges s)) (s_log s).

Definition on_store (f : redis → redis) (s : server) : server :=
  mkServer (f (s_redis s)) (s_exchanges s) (s_log s).

Inductive http_step (R : resolver json) : server → http_label → server → Prop :=
| http_accept s req : http_step R s (Accept req) (accept req s)
| http_start s i req :
    s_exchanges s !! i = Some (Received req) →
    http_step R s (Proceed i) (proceed i req (stack rt isoformat req) s)
| http_resume s i req p :
    s_exchanges s !! i = Some (Woken req p) →
    http_step R s (Proceed i) (proceed i req p s)
| http_upstream s i req c k :
    s_exchanges s !! i = Some (Suspended req c k) →
    http_step R s (Upstream i) (upstream R i req c k s)
| http_sleep s d : http_step R s (Sleep d) (on_store (tick d) s)
| http_network s b : http_step R s (Network b) (on_store (set_connected b) s)
| http_evict s : http_step R s Evict (on_store purge s).

(** An exchange that the upstream has answered and that has not run
    since. *)
Definition roused (ex : exchange) : bool :=
  match ex with Woken _ _ => true | _ => false end.

(** Which labels the server may fire: any, or the clock does not move
    while an exchange is woken (running a coroutine takes no time). *)
Definition http_unconstrained (s : server) (a : http_label) : bool := true.

Definition http_prompt (s : server) (a : http_label) : bool :=
  match a with
  | Sleep d => (d <=? 0)%Z || forallb (λ ex, negb (roused ex)) (s_exchanges s)
  | _ => true
  end.

(** An execution under the upstream [U], a function of the time. *)
Inductive http_run (U : Z → resolver json) (policy : server → http_label → bool)
    : server → list http_label → server → Prop :=
| http_run_nil s : http_run U policy s [] s
| http_run_cons s1 a s2 ls s3 :
    policy s1 a = true →
    http_step (U (now (s_redis s1))) s1 a s2 →
    http_run U policy s2 ls s3 →
    http_run U policy s1 (a :: ls) s3.

(** The loop as a function: the state after a label, when it is
    enabled. *)
Definition http_fire (R : resolver json) (a : http_label) (s : server) : option server :=
  match a with
  | Accept req => Some (accept req s)
  | Proceed i =>
      match s_exchanges s !! i with
      | Some (Received req) => Some (proceed i req (stack rt isoformat req) s)
      | Some (Woken req p) => Some (proceed i req p s)
      | _ => None
      end
  | Upstream i =>
      match s_exchanges s !! i with
      | Some (Suspended req c k) => Some (upstream R i req c k s)
      | _ => None
      end
  | Sleep d => Some (on_store (tick d) s)
  | Network b => Some (on_store (set_connected b) s)
  | Evict => Some (on_store purge s)
  end.

Fixpoint http_schedule (U : Z → resolver json) (policy : server → http_label → bool)
    (ls : list http_label) (s : server) : option server :=
  match ls with
  | [] => Some s
  | a :: ls' =>
      if policy s a
      then http_fire (U (now (s_redis s))) a s ≫= http_schedule U policy ls'
      else None
  end.

(** Fires a label when it is enabled, and does nothing otherwise. *)
Definition http_fire_try (R : resolver json) (a : http_label) (s : server) : server :=
  match http_fire R a s with Some s' => s' | None => s end.

(** Exchange [i] scheduled until its response is sent. *)
Definition http_drive (R : resolver json) (i : nat) (s : server) : server :=
  http_fire_try R (Proceed i) (http_fire_try R (Upstream i) (http_fire_try R (Proceed i) s)).

(** The server with no exchange. *)
Definition listening (rd : redis) : server := mkServer rd [] [].

Definition http_world (s : server) : world := mkWorld (s_redis s) (s_log s).

(** ** The handlers inside the exchanges *)

(** The task of the loop of handlers that an exchange is: its request
    asks for the operation of the task, what is left of its coroutine is
    what is left of the handler with its value made a response, and what
    was sent is what [deliver] makes of the handler's outcome. *)
Definition stands_for (ex : exchange) (t : task json) : Prop :=
  match ex, t with
  | Received req, Created r => request_of rt req = Some r
  | Suspended req c k, Waiting r c' k' =>
      request_of rt req = Some r ∧ c = c' ∧ k = λ v, serialize_response (k' v)
  | Woken req p, Resumed r p' =>
      request_of rt req = Some r ∧ p = serialize_response p'
  | Sent req rs, Finished r res =>
      request_of rt req = Some r ∧ rs = deliver req res
  | _, _ => False
  end.

(** An exchange that is no task of a handler: its request asks for no
    operation, and what was sent is the response of the application,
    which left the server as it was. *)
Definition asks_nothing (ex : exchange) : Prop :=
  match ex with
  | Received req => request_of rt req = None
  | Sent req rs =>
      request_of rt req = None ∧ ∀ R w, asgi rt isoformat R req w = (rs, w)
  | _ => False
  end.

(** The tasks of the handlers among the exchanges, in order. *)
Inductive embeds : list exchange → list (task json) → Prop :=
| embeds_nil : embeds [] []
| embeds_skip ex exs ts :
    asks_nothing ex → embeds exs ts → embeds (ex :: exs) ts
| embeds_task ex t exs ts :
    stands_for ex t → embeds exs ts → embeds (ex :: exs) (t :: ts).

(** The server and the loop of handlers in the same state. *)
Definition same_state (s : server) (l : loop json) : Prop :=
  s_redis s = l_redis l ∧ s_log s = l_log l ∧ embeds (s_exchanges s) (l_tasks l).

(** The step of the loop of handlers that a step of the server is: the
    same kind of step, on the task that the exchange is. *)
Definition follows (a : http_label) (b : label) (s' : server) (l' : loop json) : Prop :=
  match a, b with
  | Accept _, Arrive _ | Evict, Expire => True
  | Proceed i, Run j | Upstream i, Answer j =>
      ∃ ex t, s_exchanges s' !! i = Some ex ∧ l_tasks l' !! j = Some t ∧ stands_for ex t
  | Sleep d, Pass d' => d = d'
  | Network c, Connection c' => c = c'
  | _, _ => False
  end.

(** The steps of the server that the handlers do not see: a request that
    asks for nothing arrives or is answered. *)
Definition unseen (a : http_label) (s' : server) : Prop :=
  match a with
  | Accept req => request_of rt req = None
  | Proceed i => ∃ ex, s_exchanges s' !! i = Some ex ∧ asks_nothing ex
  | _ => False
  end.

(** A policy of the server that the policy [policy] of the loop of
    handlers allows. *)
Class Follows (hp : server → http_label → bool) (policy : loop json → label → bool) :=
  follows_policy s l a b s' l' :
    same_state s l → follows a b s' l' → hp s a = true → policy l b = true.

(** A response that its request explains: the application's own
    response when the request asks for nothing, and otherwise what
    [deliver] makes of an outcome that the resolver [R] explains. *)
Definition response_explained (R : resolver json) (req : http_request) (rs : response)
    : Prop :=
  match request_of rt req with
  | Some r => ∃ res, answered R r res ∧ rs = deliver req res
  | None => ∀ R' w, asgi rt isoformat R' req w = (rs, w)
  end.

(** The arrivals of a schedule are requests that a client can write. *)
Definition arrivals_routable (ls : list label) : Prop :=
  Forall (λ b, ∀ r, b = Arrive r → routable r = true) ls.

(** A coroutine that returns at its first run after an [await]. *)
Definition awaits_once {A} (p : prog json A) : Prop :=
  ∀ rd c k rd', run_until_await p rd = (Awaiting c k, rd') →
    ∀ R rd'', ∃ res,
      (run_until_await match resolve R c with Ok v => k v | Err e => Raise e end rd'').1
      = Returned res.

End loop.

(** ** Lemmas *)

Section lemmas.
Context (rt : runtime) (isoformat : Z → string).
Implicit Types (R : resolver json) (U : Z → resolver json) (s : server).
Implicit Types (l : loop json) (req : http_request) (ex : exchange) (t : task json).

Lemma http_fire_step R a s s' :
  http_fire rt isoformat R a s = Some s' ↔ http_step rt isoformat R s a s'.
Proof.
  split.
  - destruct a; simpl; repeat case_match; try done; intros [= <-]; by constructor.
  - destruct 1; simpl; by simplify_option_eq.
Qed.

Lemma http_schedule_run U policy ls s s' :
  http_schedule rt isoformat U policy ls s = Some s'
  ↔ http_run rt isoformat U policy s ls s'.
Proof.
  split.
  - revert s. induction ls as [|a ls IH]; simpl; intros s.
    + intros [= <-]. constructor.
    + destruct (policy s a) eqn:Hp; [|done].
      destruct (http_fire _ _ _ a s) as [s1|] eqn:Hf; [|done]. simpl. intros Hs.
      econstructor; [done | by apply http_fire_step | by apply IH].
  - induction 1 as [|s1 a s2 ls s3 Hp Hs _ IH]; simpl; [done|].
    apply http_fire_step in Hs. by rewrite Hp, Hs.
Qed.

Lemma http_world_mk w exs : http_world (mkServer (w_redis w) exs (w_log w)) = w.
Proof. by destruct w. Qed.

Lemma http_run_app U policy s1 ls1 s2 ls2 s3 :
  http_run rt isoformat U policy s1 ls1 s2 → http_run rt isoformat U policy s2 ls2 s3 →
  http_run rt isoformat U policy s1 (ls1 ++ ls2) s3.
Proof. induction 1; simpl; [done|]. intros. econstructor; eauto. Qed.

(** A handler with its value made a response stops where the handler
    stops. *)
Lemma run_until_await_serialize (p : prog json json) rd :
  run_until_await (serialize_response p) rd =
    match run_until_await p rd with
    | (Returned res, rd') => (Returned (json_response <$> res), rd')
    | (Awaiting c k, rd') => (Awaiting c (λ v, serialize_response (k v)), rd')
    end.
Proof.
  unfold serialize_response. rewrite run_until_await_bind.
  by destruct (run_until_await p rd) as [[[v|e]|c k] rd'].
Qed.

(** *** The pool *)

Lemma embeds_app exs ts exs' ts' :
  embeds rt isoformat exs ts → embeds rt isoformat exs' ts' →
  embeds rt isoformat (exs ++ exs') (ts ++ ts').
Proof.
  induction 1; simpl; intros; [done | apply embeds_skip | apply embeds_task]; auto.
Qed.

(** An exchange of the pool asks for nothing and may be replaced by
    another that asks for nothing, or it is a task of the handlers and
    the two may be replaced together. *)
Lemma embeds_lookup exs ts i ex :
  embeds rt isoformat exs ts → exs !! i = Some ex →
  (asks_nothing rt isoformat ex
   ∧ ∀ ex', asks_nothing rt isoformat ex' → embeds rt isoformat (<[i := ex']> exs) ts)
  ∨ (∃ j t, ts !! j = Some t ∧ stands_for rt ex t
     ∧ ∀ ex' t', stands_for rt ex' t' →
         embeds rt isoformat (<[i := ex']> exs) (<[j := t']> ts)).
Proof.
  intros He. revert i. induction He as [|ex0 exs ts H0 He IH|ex0 t0 exs ts H0 He IH];
    intros [|i]; simpl; try done.
  - intros [= ->]. left. split; [done|]. intros. by apply embeds_skip.
  - intros [[Hn Hr]|(j & t & Hj & Hst & Hr)]%IH; [left|right].
    + split; [done|]. intros. apply embeds_skip; auto.
    + exists j, t. split_and!; [done..|]. intros. apply embeds_skip; auto.
  - intros [= ->]. right. exists 0, t0. split_and!; [done..|]. intros. by apply embeds_task.
  - intros [[Hn Hr]|(j & t & Hj & Hst & Hr)]%IH; [left|right].
    + split; [done|]. intros. apply embeds_task; auto.
    + exists (S j), t. split_and!; [done..|]. intros. apply embeds_task; auto.
Qed.

(** A task of the handlers is an exchange of the pool, and the two may
    be replaced together. *)
Lemma embeds_lookup_task exs ts j t :
  embeds rt isoformat exs ts → ts !! j = Some t →
  ∃ i ex, exs !! i = Some ex ∧ stands_for rt ex t
    ∧ ∀ ex' t', stands_for rt ex' t' →
        embeds rt isoformat (<[i := ex']> exs) (<[j := t']> ts).
Proof.
  intros He. revert j. induction He as [|ex0 exs ts H0 He IH|ex0 t0 exs ts H0 He IH];
    [done|intros j|intros [|j]]; simpl.
  - intros (i & ex & Hi & Hst & Hr)%IH. exists (S i), ex. split_and!; [done..|].
    intros. apply embeds_skip; auto.
  - intros [= ->]. exists 0, ex0. split_and!; [done..|]. intros. by apply embeds_task.
  - intros (i & ex & Hi & Hst & Hr)%IH. exists (S i), ex. split_and!; [done..|].
    intros. apply embeds_task; auto.
Qed.

(** No exchange is woken: no task of the handlers is. *)
Lemma embeds_roused exs ts :
  embeds rt isoformat exs ts → forallb (λ ex, negb (roused ex)) exs = true →
  forallb (λ t, negb (woken t)) ts = true.
Proof.
  induction 1 as [|ex exs ts _ _ IH|ex t exs ts Hst _ IH]; simpl; [done|..].
  - intros [_ ?]%andb_true_iff. auto.
  - intros [Hex ?]%andb_true_iff. rewrite IH by done.
    by destruct ex, t.
Qed.

(** *** One step *)

(** An exchange that asks for nothing is answered at its first run, and
    the server stays as it was. *)
Lemma proceed_static s i req :
  request_of rt req = None →
  ∃ rs, proceed i req (stack rt isoformat req) s
        = mkServer (s_redis s) (<[i := Sent req rs]> (s_exchanges s)) (s_log s)
      ∧ ∀ R w, asgi rt isoformat R req w = (rs, w).
Proof.
  intros [rs0 Hs]%(stack_static rt isoformat). exists (send_response req (Ok rs0)).
  unfold proceed. rewrite Hs. split; [done|]. intros R w. by rewrite asgi_stack, Hs.
Qed.

(** An exchange and its task replaced by an exchange and its task. *)
Lemma same_state_insert rd log exs ts i j ex t ex' t' :
  exs !! i = Some ex → ts !! j = Some t → stands_for rt ex' t' →
  (∀ ex' t', stands_for rt ex' t' →
     embeds rt isoformat (<[i := ex']> exs) (<[j := t']> ts)) →
  let s' := mkServer rd (<[i := ex']> exs) log in
  let l' := mkLoop rd (<[j := t']> ts) log in
  same_state rt isoformat s' l'
  ∧ ∃ ex t, s_exchanges s' !! i = Some ex ∧ l_tasks l' !! j = Some t
            ∧ stands_for rt ex t.
Proof.
  intros Hi%lookup_lt_Some Hj%lookup_lt_Some Hst Hrep. split.
  - split_and!; [done..|]. by apply Hrep.
  - exists ex', t'. simpl. by rewrite !list_lookup_insert_eq.
Qed.

(** An exchange that is a task of a handler runs as the task runs. *)
Lemma proceed_resume s l i j req r p ex t :
  same_state rt isoformat s l → request_of rt req = Some r →
  s_exchanges s !! i = Some ex → l_tasks l !! j = Some t →
  (∀ ex' t', stands_for rt ex' t' →
     embeds rt isoformat (<[i := ex']> (s_exchanges s)) (<[j := t']> (l_tasks l))) →
  let s' := proceed i req (serialize_response p) s in
  same_state rt isoformat s' (resume j r p l)
  ∧ follows rt (Proceed i) (Run j) s' (resume j r p l).
Proof.
  intros (Hrd & Hlog & He) Hreq Hi Hj Hrep. unfold proceed, resume.
  rewrite run_until_await_serialize, Hrd, Hlog.
  destruct (run_until_await p (l_redis l)) as [[res|c k] rd']; simpl;
    eapply same_state_insert; try done.
  split; [done|]. apply send_response_deliver.
  by destruct (stack_operation rt isoformat req r Hreq).
Qed.

Lemma on_store_same_state s l f :
  same_state rt isoformat s l → same_state rt isoformat (on_store f s) (on_redis f l).
Proof. intros (Hrd & Hlog & He). split_and!; simpl; [by rewrite Hrd|done..]. Qed.

Lemma accept_same_state s l req :
  same_state rt isoformat s l →
  same_state rt isoformat (accept req s)
    match request_of rt req with Some r => arrive r l | None => l end.
Proof.
  intros (Hrd & Hlog & He). destruct (request_of rt req) as [r|] eqn:Hr.
  - split_and!; [done..|]. apply embeds_app; [done|].
    apply embeds_task; [done|constructor].
  - split_and!; [done..|]. simpl. rewrite <-(app_nil_r (l_tasks l)).
    apply embeds_app; [done|]. apply embeds_skip; [done|constructor].
Qed.

(** Every step of the server is the same step of the loop of handlers
    on the task that the exchange is, or none when the exchange asks
    for nothing. *)
Lemma http_step_embeds R s a s' l :
  http_step rt isoformat R s a s' → same_state rt isoformat s l →
  ∃ l', same_state rt isoformat s' l'
        ∧ ((l' = l ∧ unseen rt isoformat a s') ∨ ∃ b, follows rt a b s' l' ∧ step R l b l').
Proof.
  intros Hs Hsim. pose proof Hsim as (Hrd & Hlog & He).
  destruct Hs as [s req|s i req Hi|s i req p Hi|s i req c k Hi|s d|s b|s];
    try (eexists; split; [by apply on_store_same_state|];
         right; eexists; split; [|constructor]; done).
  - eexists. split; [by apply accept_same_state|].
    destruct (request_of rt req) as [r|] eqn:Hr; [right|by left].
    exists (Arrive r). split; [done|constructor].
  - destruct (embeds_lookup _ _ _ _ He Hi) as [[Hn Hrep]|(j & t & Hj & Hst & Hrep)].
    + destruct (proceed_static s i req Hn) as (rs & -> & Hrs). exists l. split.
      { split_and!; [done..|]. by apply Hrep. }
      left. split; [done|]. exists (Sent req rs). simpl.
      rewrite list_lookup_insert_eq by (by eapply lookup_lt_Some). done.
    + destruct t as [r| | |]; try done. exists (resume j r (handle r) l).
      destruct (stack_operation rt isoformat req r Hst) as [_ ->].
      destruct (proceed_resume s l i j req r (handle r) _ _ Hsim Hst Hi Hj Hrep).
      split; [done|]. right. exists (Run j). split; [done | by apply step_start].
  - destruct (embeds_lookup _ _ _ _ He Hi) as [[[] _]|(j & t & Hj & Hst & Hrep)].
    destruct t as [| |r p'|]; try done. destruct Hst as [Hreq ->].
    exists (resume j r p' l).
    destruct (proceed_resume s l i j req r p' _ _ Hsim Hreq Hi Hj Hrep).
    split; [done|]. right. exists (Run j). split; [done | by apply step_resume].
  - destruct (embeds_lookup _ _ _ _ He Hi) as [[[] _]|(j & t & Hj & Hst & Hrep)].
    destruct t as [|r c' k'| |]; try done. destruct Hst as (Hreq & <- & ->).
    exists (answer R j r c k' l). unfold upstream, answer. rewrite Hrd, Hlog.
    assert (stands_for rt
              (Woken req match resolve R c with
                         | Ok v => serialize_response (k' v)
                         | Err e => Raise e
                         end)
              (Resumed r match resolve R c with Ok v => k' v | Err e => Raise e end))
      as Hst by (split; [done | by destruct (resolve R c)]).
    destruct (same_state_insert (l_redis l) (l_log l) _ _ _ _ _ _ _ _ Hi Hj Hst Hrep).
    split; [done|]. right. exists (Answer j). split; [done | by apply step_answer].
Qed.

(** Every step of the loop of handlers is a step of the server: what
    the handlers do alone they do on the wire, for the requests that a
    client can write. *)
Lemma step_lifts R s l b l' :
  step R l b l' → same_state rt isoformat s l →
  (∀ r, b = Arrive r → routable r = true) →
  ∃ a s', http_step rt isoformat R s a s' ∧ same_state rt isoformat s' l'.
Proof.
  intros Hb Hsim Hr. pose proof Hsim as (Hrd & Hlog & He).
  destruct Hb as [l r|l j r Hj|l j r p Hj|l j r c k Hj|l d|l b|l];
    try (eexists _, _; split; [constructor | by apply on_store_same_state]).
  - exists (Accept (http_of r)), (accept (http_of r) s). split; [constructor|].
    pose proof (accept_same_state s l (http_of r) Hsim) as Ha.
    by rewrite (request_of_http_of rt r (Hr r eq_refl)) in Ha.
  - destruct (embeds_lookup_task _ _ _ _ He Hj) as (i & ex & Hi & Hst & Hrep).
    destruct ex as [req| | |]; try done. exists (Proceed i). eexists.
    split; [by apply http_start|].
    destruct (stack_operation rt isoformat req r Hst) as [_ ->].
    by destruct (proceed_resume s l i j req r (handle r) _ _ Hsim Hst Hi Hj Hrep).
  - destruct (embeds_lookup_task _ _ _ _ He Hj) as (i & ex & Hi & Hst & Hrep).
    destruct ex as [| |req p'|]; try done. destruct Hst as [Hreq ->].
    exists (Proceed i). eexists. split; [by eapply http_resume|].
    by destruct (proceed_resume s l i j req r p _ _ Hsim Hreq Hi Hj Hrep).
  - destruct (embeds_lookup_task _ _ _ _ He Hj) as (i & ex & Hi & Hst & Hrep).
    destruct ex as [|req c' k'| |]; try done. destruct Hst as (Hreq & -> & ->).
    exists (Upstream i). eexists. split; [by eapply http_upstream|].
    unfold upstream, answer. rewrite Hrd, Hlog.
    eapply same_state_insert; [done..| |done]. split; [done|]. by destruct (resolve R c).
Qed.

(** *** Policies *)

#[export] Instance unconstrained_follows : Follows rt isoformat http_unconstrained unconstrained.
Proof. by intros s l a b s' l' _ _ _. Qed.

#[export] Instance prompt_follows : Follows rt isoformat http_prompt prompt.
Proof.
  intros s l a b s' l' (_ & _ & He) Hf. destruct a, b; try done. simpl in *. subst.
  intros [->|Hq]%orb_true_iff; [done|]. by rewrite (embeds_roused _ _ He Hq), orb_true_r.
Qed.

(** *** Executions *)

Section executions.
Context (U : Z → resolver json).
Context (hp : server → http_label → bool) (policy : loop json → label → bool).
Context `{!Follows rt isoformat hp policy}.

Lemma http_run_embeds s ls s' l :
  http_run rt isoformat U hp s ls s' → same_state rt isoformat s l →
  ∃ ls' l', execution U policy l ls' l' ∧ length ls' ≤ length ls
            ∧ same_state rt isoformat s' l'.
Proof.
  intros Hrun. revert l. induction Hrun as [s|s1 a s2 ls s3 Hp Hs _ IH]; intros l Hsim.
  { exists [], l. split_and!; [constructor|done..]. }
  destruct (http_step_embeds _ _ _ _ l Hs Hsim) as (l2 & Hsim2 & Hl).
  destruct (IH l2 Hsim2) as (ls' & l3 & Hex & Hlen & Hsim3).
  destruct Hl as [[-> _]|(b & Hf & Hb)].
  - exists ls', l3. split_and!; [done|simpl; lia|done].
  - exists (b :: ls'), l3. split_and!; [|simpl; lia|done].
    econstructor; [by eapply follows_policy| |done]. by destruct Hsim as [<- _].
Qed.

(** The response that is sent when an exchange returns is what
    [deliver] makes of the response with which its task finishes, at the
    same step. *)
Lemma http_run_sent s ls s' l i s2 req rs r :
  http_run rt isoformat U hp s ls s' → same_state rt isoformat s l →
  http_step rt isoformat (U (now (s_redis s'))) s' (Proceed i) s2 →
  s_exchanges s2 !! i = Some (Sent req rs) → request_of rt req = Some r →
  ∃ ls' l' j l2 res,
    execution U policy l ls' l' ∧ step (U (now (l_redis l'))) l' (Run j) l2
    ∧ now (l_redis l') = now (s_redis s')
    ∧ l_tasks l2 !! j = Some (Finished r res) ∧ rs = deliver req res.
Proof.
  intros Hrun Hsim Hs Hi Hr.
  destruct (http_run_embeds _ _ _ _ Hrun Hsim) as (ls' & l' & Hex & _ & Hsim').
  destruct (http_step_embeds _ _ _ _ l' Hs Hsim')
    as (l2 & Hsim2 & [[-> (ex & Hex' & Hn)]|(b & Hf & Hb)]).
  { rewrite Hi in Hex'. injection Hex' as <-. destruct Hn as [Hn _]. congruence. }
  destruct b as [|j| | | |]; try done. destruct Hf as (ex & t & Hex' & Ht & Hst).
  rewrite Hi in Hex'. injection Hex' as <-. destruct t as [| | |r' res]; try done.
  destruct Hst as [Hreq ->]. assert (r' = r) as -> by congruence.
  destruct Hsim' as [Hrd _]. exists ls', l', j, l2, res.
  rewrite <-Hrd. by split_and!.
Qed.

End executions.

Lemma execution_lifts U s l ls l' :
  execution U unconstrained l ls l' → same_state rt isoformat s l →
  arrivals_routable ls →
  ∃ ls' s', http_run rt isoformat U http_unconstrained s ls' s'
            ∧ length ls' = length ls ∧ same_state rt isoformat s' l'.
Proof.
  intros Hex. revert s. induction Hex as [l|l1 b l2 ls l3 _ Hb _ IH]; intros s Hsim Hr.
  { exists [], s. split_and!; [constructor|done..]. }
  apply Forall_cons in Hr as [Hr Hrs].
  destruct (step_lifts _ s _ _ _ Hb Hsim Hr) as (a & s2 & Ha & Hsim2).
  destruct (IH s2 Hsim2 Hrs) as (ls' & s3 & Hrun & Hlen & Hsim3).
  exists (a :: ls'), s3. split_and!; [|simpl; lia|done].
  econstructor; [done| |done]. by destruct Hsim as [-> _].
Qed.

Lemma listening_idle rd : same_state rt isoformat (listening rd) (idle rd).
Proof. split_and!; [done..|constructor]. Qed.

(** What was sent is explained when the tasks of the handlers are. *)
Lemma same_state_explained R s l i req rs :
  same_state rt isoformat s l → loop_ok R l →
  s_exchanges s !! i = Some (Sent req rs) → response_explained rt isoformat R req rs.
Proof.
  intros (_ & _ & He) [_ Hts] Hi. unfold response_explained.
  destruct (embeds_lookup _ _ _ _ He Hi) as [[[-> Hrs] _]|(j & t & Hj & Hst & _)];
    [done|].
  destruct t as [| | |r res]; try done. destruct Hst as [-> ->].
  exists res. split; [|done]. exact (Forall_lookup_1 _ _ _ _ Hts Hj).
Qed.

(** The loop of handlers behind the server stays well formed. *)
Lemma http_step_backed R s a s' :
  http_step rt isoformat R s a s' →
  (∃ l, same_state rt isoformat s l ∧ loop_ok R l) →
  ∃ l', same_state rt isoformat s' l' ∧ loop_ok R l'.
Proof.
  intros Hs (l & Hsim & Hl).
  destruct (http_step_embeds _ _ _ _ l Hs Hsim) as (l' & Hsim' & Hl').
  exists l'. split; [done|].
  destruct Hl' as [[-> _]|(b & _ & Hb)]; [done | by eapply step_ok].
Qed.

(** *** An exchange alone *)

(** The coroutine of a request has one [await]. *)
Lemma awaits_once_stack req : awaits_once (stack rt isoformat req).
Proof.
  intros rd c k rd' Hp R rd''. destruct (request_of rt req) as [r|] eqn:Hr.
  - destruct (stack_operation rt isoformat req r Hr) as [_ Hs].
    rewrite Hs, run_until_await_serialize, run_until_await_handle in Hp.
    repeat case_match; simplify_eq; [|by eexists].
    rewrite run_until_await_serialize, run_until_await_after.
    destruct (_ || _); [destruct (redis_setex _ _ _ _)|]; simpl; by eexists.
  - destruct (stack_static rt isoformat req Hr) as [rs Hs]. by rewrite Hs in Hp.
Qed.

(** A coroutine with one [await] that is scheduled without interruption
    does to the server and to the log what it does when it runs in one
    go, and what it returns is sent. *)
Lemma proceed_alone R s i req p ex :
  awaits_once p → s_exchanges s !! i = Some ex →
  http_fire_try rt isoformat R (Proceed i)
    (http_fire_try rt isoformat R (Upstream i) (proceed i req p s)) =
    let out := run R p (http_world s) in
    mkServer (w_redis out.2)
      (<[i := Sent req (send_response req out.1)]> (s_exchanges s)) (w_log out.2).
Proof.
  intros Hp Hi. apply lookup_lt_Some in Hi. unfold http_world. rewrite run_split.
  unfold proceed. destruct (run_until_await p (s_redis s)) as [[res|c k] rd'] eqn:Hrun; simpl.
  { unfold http_fire_try. simpl. rewrite list_lookup_insert_eq by done. simpl.
    by rewrite list_lookup_insert_eq. }
  unfold http_fire_try at 2. simpl. rewrite list_lookup_insert_eq by done.
  unfold http_fire_try, upstream. simpl.
  rewrite list_lookup_insert_eq by (by rewrite length_insert).
  unfold proceed. simpl. rewrite run_split.
  destruct (Hp _ _ _ _ Hrun R rd') as [res Hres].
  destruct (run_until_await _ rd') as [x rd3]. simpl in Hres. subst x. simpl.
  by rewrite !list_insert_insert_eq.
Qed.

End lemmas.

(** ** Theorems *)

Section theorems.
Context (rt : runtime) (isoformat : Z → string).
Implicit Types (R : resolver json) (U : Z → resolver json) (s : server).

(** C10: the application under the event loop refines the loop of handlers.
    Whatever requests arrive and however the loop interleaves their
    coroutines with one another, with the answers of an upstream that
    changes over time, with the clock, the connection and the purges of
    Redis, there is an execution of the handlers alone, with no more
    steps, that leaves the same Redis server and the same log of
    upstream calls, and whose tasks are the exchanges that ask for an
    operation, in the same order and at the same point of their bodies:
    routing, validation, CORS and the error response add nothing to what
    the handlers do to the cache. *)
Theorem wire_refines_handlers U rd ls s :
  http_run rt isoformat U http_unconstrained (listening rd) ls s →
  ∃ ls' l, execution U unconstrained (idle rd) ls' l ∧ length ls' ≤ length ls
           ∧ same_state rt isoformat s l.
Proof.
  intros Hrun.
  exact (http_run_embeds rt isoformat U http_unconstrained unconstrained _ _ _ _
           Hrun (listening_idle rt isoformat rd)).
Qed.

(** Conversely, the handlers do nothing alone that they do not do on
    the wire: every execution of the loop of handlers whose requests a
    client can write is that of an execution of the server, step for
    step.  With the refinement above, the server and the loop of
    handlers are the same system for the requests that ask for an
    operation. *)
Theorem wire_runs_handlers U rd ls l :
  execution U unconstrained (idle rd) ls l → arrivals_routable ls →
  ∃ ls' s, http_run rt isoformat U http_unconstrained (listening rd) ls' s
           ∧ length ls' = length ls ∧ same_state rt isoformat s l.
Proof.
  intros Hex.
  exact (execution_lifts rt isoformat U _ _ _ _ Hex (listening_idle rt isoformat rd)).
Qed.

(** C11: on every interleaving, what goes on the wire is explained by the
    request it answers.  From a server with a coherent cache, the
    response sent to a request that asks for an operation is what
    [deliver] makes of the resolver's value for that very operation, of
    the resolver's exception, or of the connection error; the response
    to any other request is the one the application gives it alone, which
    touches neither Redis nor the upstream. *)
Theorem wire_responses_explained R rd ls s i req rs :
  coherent R rd →
  http_run rt isoformat (λ _, R) http_unconstrained (listening rd) ls s →
  s_exchanges s !! i = Some (Sent req rs) →
  response_explained rt isoformat R req rs.
Proof.
  intros Hc Hrun Hi.
  destruct (http_run_embeds rt isoformat _ http_unconstrained unconstrained _ _ _ _
              Hrun (listening_idle rt isoformat rd))
    as (ls' & l & Hex%execution_trace & _ & Hsim).
  eapply same_state_explained; [done| |done].
  eapply trace_ok; [done | by apply idle_ok].
Qed.

(** C15: on the wire and under the event loop, with an upstream whose
    answers change over time, a response is never older than its TTL.
    From a server that holds nothing, on every interleaving of requests,
    runs, answers, clock ticks, connection changes and purges in which
    an exchange that was answered runs before the clock moves, the
    response sent at time [t] to a request that asks for an operation is
    what [deliver] makes of a value that the upstream gave for that
    operation at an instant of the last [ttl] seconds, of the exception
    that the upstream raises at [t], or of the connection error. *)
Theorem wire_responses_timely U t0 ls s i s' req rs r :
  http_run rt isoformat U http_prompt (listening (redis_client ∅ t0)) ls s →
  http_step rt isoformat (U (now (s_redis s))) s (Proceed i) s' →
  s_exchanges s' !! i = Some (Sent req rs) → request_of rt req = Some r →
  ∃ res, rs = deliver req res ∧ timely U (now (s_redis s)) r res.
Proof.
  intros Hrun Hs Hi Hr.
  destruct (http_run_sent rt isoformat U http_prompt prompt _ _ _ _ _ _ _ _ _
              Hrun (listening_idle rt isoformat _) Hs Hi Hr)
    as (ls' & l' & j & l2 & res & Hex & Hstep & <- & Hj & ->).
  exists res. split; [done|]. apply explained_timely.
  exact (execution_explained U prompt eq t0 ls' l' j l2 r res Hex Hstep Hj).
Qed.

(** An exchange that the loop schedules without interruption: started,
    answered and resumed with nothing in between, its coroutine does to
    Redis and to the log what [asgi] does in one go. *)
Lemma exchange_alone_is_asgi R s i req :
  s_exchanges s !! i = Some (Received req) →
  http_drive rt isoformat R i s =
    let out := asgi rt isoformat R req (http_world s) in
    mkServer (w_redis out.2) (<[i := Sent req out.1]> (s_exchanges s)) (w_log out.2).
Proof.
  intros Hi. unfold http_drive. unfold http_fire_try at 3. simpl. rewrite Hi.
  rewrite (proceed_alone _ _ _ _ _ _ _ (Received req)) by (done || apply awaits_once_stack).
  by rewrite asgi_stack.
Qed.

End theorems.

(** ** Witnesses *)

(** A request for a movie and a health check that arrives while the
    first waits for the upstream. *)
Definition movie_and_health : list http_label :=
  [Accept (http_of (GetMovie "m1")); Proceed 0;
   Accept (mkRequest "GET" "/health" [] [] NoBody); Proceed 1;
   Upstream 0; Proceed 0].

Definition after_movie_and_health : server :=
  from_option id (listening (redis_client ∅ 0))
    (http_schedule rt0 isoformat0 (λ _, stub_resolver) http_unconstrained movie_and_health
       (listening (redis_client ∅ 0))).

Lemma wire_refines_handlers_witness :
  ∃ ls' l, execution (λ _, stub_resolver) unconstrained (idle (redis_client ∅ 0)) ls' l
           ∧ length ls' ≤ length movie_and_health
           ∧ same_state rt0 isoformat0 after_movie_and_health l.
Proof.
  apply (wire_refines_handlers rt0 isoformat0 (λ _, stub_resolver) (redis_client ∅ 0)
           movie_and_health after_movie_and_health).
  apply http_schedule_run. reflexivity.
Defined.

Lemma wire_responses_explained_witness :
  response_explained rt0 isoformat0 stub_resolver (http_of (GetMovie "m1"))
    (json_response JNull).
Proof.
  apply (wire_responses_explained rt0 isoformat0 stub_resolver (redis_client ∅ 0)
           movie_and_health after_movie_and_health 0).
  - apply coherent_empty.
  - apply http_schedule_run. reflexivity.
  - reflexivity.
Defined.

(** The home page is asked for, answered and stored at once; it is asked
    for again just under an hour later, when the upstream has long
    changed. *)
Definition prompt_wire : list http_label :=
  [Accept (http_of (GetHome 1)); Proceed 0; Upstream 0; Proceed 0; Sleep 3599;
   Accept (http_of (GetHome 1))].

Definition after_prompt_wire : server :=
  from_option id (listening (redis_client ∅ 0))
    (http_schedule rt0 isoformat0 turning_upstream http_prompt prompt_wire
       (listening (redis_client ∅ 0))).

Lemma wire_responses_timely_witness :
  ∃ res, json_response (JStr "old") = deliver (http_of (GetHome 1)) res
         ∧ timely turning_upstream 3599 (GetHome 1) res.
Proof.
  apply (wire_responses_timely rt0 isoformat0 turning_upstream 0 prompt_wire
           after_prompt_wire 1
           (proceed 1 (http_of (GetHome 1)) (stack rt0 isoformat0 (http_of (GetHome 1)))
              after_prompt_wire)).
  - apply http_schedule_run. reflexivity.
  - by apply http_start.
  - reflexivity.
  - reflexivity.
Defined.

Lemma wire_runs_handlers_witness :
  ∃ ls' s, http_run rt0 isoformat0 (λ _, stub_resolver) http_unconstrained
             (listening (redis_client ∅ 0)) ls' s
           ∧ length ls' = length two_homes
           ∧ same_state rt0 isoformat0 s after_two_homes.
Proof.
  apply (wire_runs_handlers rt0 isoformat0 (λ _, stub_resolver) (redis_client ∅ 0)
           two_homes after_two_homes).
  - apply execution_trace, schedule_trace. reflexivity.
  - repeat constructor; by intros r [= <-].
Defined.

(** Two requests for one movie that both miss before either stores:
    each calls the upstream, on the wire as in the loop of handlers. *)
Example wire_misses_resolve_twice :
  s_log <$> http_schedule rt0 isoformat0 (λ _, stub_resolver) http_unconstrained
              [Accept (http_of (GetMovie "m1")); Accept (http_of (GetMovie "m1"));
               Proceed 0; Proceed 1]
              (listening (redis_client ∅ 0))
  = Some [CMovie "m1"; CMovie "m1"].
Proof. reflexivity. Qed.

(** The health check is answered while the movie waits, and the movie
    when its answer has come. *)
Example health_overtakes_movie :
  s_exchanges after_movie_and_health
  = [Sent (http_of (GetMovie "m1")) (json_response JNull);
     Sent (mkRequest "GET" "/health" [] [] NoBody)
       (json_response (JDict [("status", JStr "healthy");
                              ("timestamp", JStr "2025-01-01T00:00:00")]))]
  ∧ s_log after_movie_and_health = [CMovie "m1"].
Proof. split; reflexivity. Qed.
