(* ===== verification/HttpLiveness.v ===== *)
(** Progress of the application under the event loop of [HttpLoop]: every
    request that was accepted gets its response, however the loop
    schedules the exchanges and whatever the upstream answers.  The
    measure is the number of steps an exchange has left (start, be
    answered, resume); what it needs is that the coroutine of a request
    has one [await] ([settles]), which [stack] guarantees for every
    request.  With an upstream that does not change, the responses are
    those that the requests explain. *)

From stdpp Require Import gmap.
From S2P Require Import Prelude PyStr Routing Keys Json JsonParse Redis Effects.
From S2P Require Import Handlers Async Interleaving Enums Pydantic Models Http Cors.
From S2P Require Import Service HttpLoop.

(** The steps an exchange has left. *)
Definition left_to_do (ex : exchange) : nat :=
  match ex with
  | Received _ => 3
  | Suspended _ _ _ => 2
  | Woken _ _ => 1
  | Sent _ _ => 0
  end.

Definition outstanding (s : server) : nat := weight left_to_do (s_exchanges s).

(** The labels of the scheduler and the arrivals. *)
Definition http_internal (a : http_label) : bool :=
  match a with
  | Proceed _ | Upstream _ => true
  | _ => false
  end.

Definition http_arrival (a : http_label) : bool :=
  match a with
  | Accept _ => true
  | _ => false
  end.

(** An exchange whose coroutine returns at its next run after the
    answer. *)
Definition settles (ex : exchange) : Prop :=
  match ex with
  | Suspended _ c k =>
      ∀ R rd, ∃ res,
        (run_until_await match resolve R c with Ok v => k v | Err e => Raise e end rd).1
        = Returned res
  | Woken _ p => ∀ rd, ∃ res, (run_until_await p rd).1 = Returned res
  | _ => True
  end.

(** Every exchange has its response. *)
Definition all_sent (s : server) : Prop :=
  ∀ i ex, s_exchanges s !! i = Some ex → ∃ req rs, ex = Sent req rs.

Section liveness.
Context (rt : runtime) (isoformat : Z → string).

(** A move of the scheduler under the upstream [U]. *)
Definition http_moves (U : Z → resolver json) (s s' : server) : Prop :=
  ∃ a, http_internal a = true ∧ http_step rt isoformat (U (now (s_redis s))) s a s'.

(** [P] is reached on every schedule of the exchanges. *)
Definition http_eventually (U : Z → resolver json) : (server → Prop) → server → Prop :=
  reached (http_moves U).

(** Every exchange has a response that its request explains. *)
Definition all_explained (R : resolver json) (s : server) : Prop :=
  ∀ i ex, s_exchanges s !! i = Some ex →
    ∃ req rs, ex = Sent req rs ∧ response_explained rt isoformat R req rs.

End liveness.

(** ** Lemmas *)

Section lemmas.
Context (rt : runtime) (isoformat : Z → string).
Implicit Types (R : resolver json) (U : Z → resolver json) (s : server).

(** The server builds no other exchanges. *)
Lemma http_step_settles R s a s' :
  http_step rt isoformat R s a s' →
  Forall settles (s_exchanges s) → Forall settles (s_exchanges s').
Proof.
  destruct 1 as [s req|s i req Hi|s i req p Hi|s i req c k Hi| | |]; intros Hs;
    simpl; try done.
  - apply Forall_app. by split; [|repeat constructor].
  - unfold proceed.
    destruct (run_until_await _ (s_redis s)) as [[res|c k] rd'] eqn:Hrun; simpl;
      apply Forall_insert; try done.
    intros R' rd. by eapply awaits_once_stack.
  - destruct (Forall_lookup_1 _ _ _ _ Hs Hi (s_redis s)) as [res Hres].
    unfold proceed. rewrite Hres. by apply Forall_insert.
  - apply Forall_insert; [done|]. intros rd.
    apply (Forall_lookup_1 _ _ _ _ Hs Hi R rd).
Qed.

Lemma http_run_settles U policy s ls s' :
  http_run rt isoformat U policy s ls s' →
  Forall settles (s_exchanges s) → Forall settles (s_exchanges s').
Proof. induction 1; eauto using http_step_settles. Qed.

(** What a step does to the work left: a step of the scheduler lowers
    it, an arrival adds the three steps of the new exchange, and the
    environment leaves it as it is. *)
Lemma http_step_outstanding R s a s' :
  http_step rt isoformat R s a s' → Forall settles (s_exchanges s) →
  outstanding s' + (if http_internal a then 1 else 0)
  ≤ outstanding s + (if http_arrival a then 3 else 0).
Proof.
  unfold outstanding.
  destruct 1 as [s req|s i req Hi|s i req p Hi|s i req c k Hi| | |]; intros Hs;
    simpl; try lia.
  - rewrite weight_app. simpl. lia.
  - pose proof (weight_insert left_to_do (s_exchanges s) i) as Hins. unfold proceed.
    destruct (run_until_await _ (s_redis s)).1; simpl;
      [specialize (Hins _ (Sent req (send_response req res)) Hi)
      |specialize (Hins _ (Suspended req c k) Hi)]; simpl in Hins; lia.
  - destruct (Forall_lookup_1 _ _ _ _ Hs Hi (s_redis s)) as [res Hres].
    unfold proceed. rewrite Hres. simpl.
    pose proof (weight_insert left_to_do _ _ _ (Sent req (send_response req res)) Hi).
    simpl in *. lia.
  - pose proof (weight_insert left_to_do _ _ _ (Woken req
      match resolve R c with Ok v => k v | Err e => Raise e end) Hi). simpl in *. lia.
Qed.

Lemma http_run_outstanding U policy s ls s' :
  http_run rt isoformat U policy s ls s' → Forall settles (s_exchanges s) →
  outstanding s' + count http_internal ls ≤ outstanding s + 3 * count http_arrival ls.
Proof.
  induction 1 as [|s1 a s2 ls s3 _ Hs _ IH]; intros Hl; simpl; [lia|].
  pose proof (http_step_outstanding _ _ _ _ Hs Hl).
  specialize (IH (http_step_settles _ _ _ _ Hs Hl)).
  destruct (http_internal a), (http_arrival a); lia.
Qed.

(** While an exchange has work left the scheduler has a step to take. *)
Lemma http_progress R s :
  outstanding s ≠ 0 → ∃ a s', http_internal a = true ∧ http_step rt isoformat R s a s'.
Proof.
  intros (i & ex & Hi & Hex)%weight_pos. destruct ex as [req|req c k|req p|req rs]; [| | |done].
  - exists (Proceed i). eexists. split; [done|]. by apply http_start.
  - exists (Upstream i). eexists. split; [done|]. by eapply http_upstream.
  - exists (Proceed i). eexists. split; [done|]. by eapply http_resume.
Qed.

Lemma quiescent_sent s : outstanding s = 0 → all_sent s.
Proof.
  intros Hz i ex Hi. pose proof (weight_zero left_to_do _ _ _ Hz Hi).
  destruct ex; simpl in *; try done. eauto.
Qed.

(** The scheduler runs out of work on every schedule, with every
    invariant [I] of its steps kept. *)
Lemma http_eventually_quiescent U (I : server → Prop) s :
  (∀ s a s', http_internal a = true →
     http_step rt isoformat (U (now (s_redis s))) s a s' → I s → I s') →
  I s → Forall settles (s_exchanges s) →
  http_eventually rt isoformat U (λ s', I s' ∧ all_sent s') s.
Proof.
  intros HI Hs Hl.
  eapply reached_impl;
    [|apply (reached_measure (http_moves rt isoformat U) outstanding
               (λ s, I s ∧ Forall settles (s_exchanges s)))]; [|..|done].
  - intros s' [[? _] ?]. split; [done | by apply quiescent_sent].
  - intros s1 _ Hp.
    destruct (http_progress (U (now (s_redis s1))) s1 Hp) as (a & s' & Ha & Hst).
    by exists s', a.
  - intros s1 s2 [H1 Hs1] (a & Ha & Hst).
    pose proof (http_step_outstanding _ _ _ _ Hst Hs1) as Hle. rewrite Ha in Hle.
    split; [split; [by eapply HI | by eapply http_step_settles]|].
    destruct (http_arrival a) eqn:Hb; [by destruct a|lia].
Qed.

End lemmas.

(** ** Theorems *)

Section theorems.
Context (rt : runtime) (isoformat : Z → string).
Implicit Types (R : resolver json) (U : Z → resolver json) (s : server).

(** C18: every request that the server accepted gets its response.  From
    any state that the server reaches (requests accepted, coroutines
    suspended at their [await], time passed, the connection lost or
    back), on every schedule of the exchanges, every exchange ends with
    a response sent, and the response is the one its request explains:
    what [deliver] makes of the resolver's value, of its exception or of
    the connection error when the request asks for an operation, and the
    application's own response otherwise. *)
Theorem wire_requests_answered R rd ls s :
  coherent R rd →
  http_run rt isoformat (λ _, R) http_unconstrained (listening rd) ls s →
  http_eventually rt isoformat (λ _, R) (all_explained rt isoformat R) s.
Proof.
  intros Hc Hrun. eapply reached_impl;
    [|apply (http_eventually_quiescent rt isoformat (λ _, R)
               (λ s, ∃ l, same_state rt isoformat s l ∧ loop_ok R l))].
  - intros s' [(l & Hsim & Hl) Hsent] i ex Hi.
    destruct (Hsent i ex Hi) as (req & rs & ->). exists req, rs. split; [done|].
    by eapply same_state_explained.
  - intros s1 a s2 _. apply http_step_backed.
  - destruct (http_run_embeds rt isoformat _ http_unconstrained unconstrained _ _ _ _
                Hrun (listening_idle rt isoformat rd))
      as (ls' & l & Hex%execution_trace & _ & Hsim).
    exists l. split; [done|]. eapply trace_ok; [done | by apply idle_ok].
  - exact (http_run_settles _ _ _ _ _ _ _ Hrun (Forall_nil_2 _)).
Qed.

(** C40: the scheduler has at most three steps to take per request: in an
    execution from the server with no exchange, the runs and the answers
    number at most three times the requests accepted, whatever the
    requests, the cache and the upstream. *)
Theorem wire_steps_bounded U policy rd ls s :
  http_run rt isoformat U policy (listening rd) ls s →
  count http_internal ls ≤ 3 * count http_arrival ls.
Proof.
  intros Hrun.
  pose proof (http_run_outstanding _ _ _ _ _ _ _ Hrun (Forall_nil_2 _)) as Hle.
  unfold outstanding in Hle. simpl in Hle. lia.
Qed.

End theorems.

(** ** Witnesses *)

Lemma wire_requests_answered_witness :
  http_eventually rt0 isoformat0 (λ _, stub_resolver)
    (all_explained rt0 isoformat0 stub_resolver)
    (from_option id (listening (redis_client ∅ 0))
       (http_schedule rt0 isoformat0 (λ _, stub_resolver) http_unconstrained
          [Accept (http_of (GetMovie "m1")); Proceed 0;
           Accept (mkRequest "GET" "/health" [] [] NoBody)]
          (listening (redis_client ∅ 0)))).
Proof.
  apply (wire_requests_answered rt0 isoformat0 stub_resolver (redis_client ∅ 0)
           [Accept (http_of (GetMovie "m1")); Proceed 0;
            Accept (mkRequest "GET" "/health" [] [] NoBody)]).
  - apply coherent_empty.
  - apply http_schedule_run. reflexivity.
Defined.

Lemma wire_steps_bounded_witness :
  count http_internal movie_and_health ≤ 3 * count http_arrival movie_and_health.
Proof.
  apply (wire_steps_bounded rt0 isoformat0 (λ _, stub_resolver) http_unconstrained
           (redis_client ∅ 0) movie_and_health after_movie_and_health).
  apply http_schedule_run. reflexivity.
Defined.
