(* ===== verification/Server.v ===== *)
(** The service over time: HTTP requests arrive one after the other,
    with the clock, the connection to Redis and the purges of the server
    in between.  A history of HTTP requests is a history of the handlers
    (the requests that ask for an operation, in order), and through it a
    history of the contract of the cache: this is the service of
    [main.py] end to end, from the request on the wire to the typed
    cache.  It is also the event loop of [HttpLoop] when each exchange is
    scheduled as it comes ([in_turn]), as it is with resolver functions
    that do not suspend. *)

From stdpp Require Import gmap.
From S2P Require Import Prelude PyStr Routing Keys Json JsonParse Redis Effects.
From S2P Require Import Handlers Contract Enums Pydantic Models Http Cors Service.
From S2P Require Import Async Interleaving Atomic HttpLoop.

(** What happens to the service: an HTTP request arrives and is served
    with the upstream of that moment, time passes, the connection to Redis
    changes, the server drops expired keys. *)
Inductive http_event :=
| Http (R : resolver json) (req : http_request)
| Elapse (d : Z)
| Link (b : bool)
| Sweep.

Section server.
Context (rt : runtime) (isoformat : Z → string).

(** The same event as the handlers see it: a request that asks for no
    operation is no event for them. *)
Definition cache_event (ev : http_event) : option (event json) :=
  match ev with
  | Http R req => Req R <$> request_of rt req
  | Elapse d => Some (Tick d)
  | Link b => Some (Conn b)
  | Sweep => Some Purge
  end.

(** The world after an event and, for a request, its response. *)
Definition serve_http1 (ev : http_event) (w : world) : option response * world :=
  match ev with
  | Http R req => prod_map Some id (asgi rt isoformat R req w)
  | Elapse d => (None, later d w)
  | Link b => (None, with_redis (set_connected b (w_redis w)) w)
  | Sweep => (None, with_redis (purge (w_redis w)) w)
  end.

(** A history; the responses to the requests that ask for an operation
    are returned oldest first. *)
Fixpoint serve_http (evs : list http_event) (w : world) : list response * world :=
  match evs with
  | [] => ([], w)
  | ev :: evs' =>
      let now := serve_http1 ev w in
      let rest := serve_http evs' now.2 in
      (match ev, now.1 with
       | Http _ req, Some rs =>
           match request_of rt req with Some _ => [rs] | None => [] end
       | _, _ => []
       end ++ rest.1, rest.2)
  end.

(** The request of an event that asks for an operation. *)
Definition operation_request (ev : http_event) : option http_request :=
  match ev with
  | Http _ req => match request_of rt req with Some _ => Some req | None => None end
  | _ => None
  end.

(** The same history in the event loop: a request is accepted and its
    exchange is scheduled at once and without interruption, as it is
    with resolver functions that do not suspend. *)
Definition in_turn1 (ev : http_event) (s : server) : server :=
  match ev with
  | Http R req => http_drive rt isoformat R (length (s_exchanges s)) (accept req s)
  | Elapse d => on_store (tick d) s
  | Link b => on_store (set_connected b) s
  | Sweep => on_store purge s
  end.

Definition in_turn (evs : list http_event) (s : server) : server :=
  foldl (flip in_turn1) s evs.

(** A request for the operation [r], served by the upstream [R]. *)
Definition asks_for (R : resolver json) (r : request) (ev : http_event) : Prop :=
  ∃ req, ev = Http R req ∧ request_of rt req = Some r.

(** What was sent to a request that asks for an operation. *)
Definition sent_operation (ex : exchange) : option response :=
  match ex with
  | Sent req rs => match request_of rt req with Some _ => Some rs | None => None end
  | _ => None
  end.

End server.

(** ** Lemmas *)

Section lemmas.
Context (rt : runtime) (isoformat : Z → string).
Implicit Types (w : world) (ev : http_event) (evs : list http_event).

(** One event: the handlers see the world change as the service changes
    it, and answer what the client reads. *)
Lemma serve_http1_world ev w :
  (serve_http1 rt isoformat ev w).2
  = match cache_event rt ev with
    | Some e => (serve1 e w).2
    | None => w
    end.
Proof.
  destruct ev as [R req|d|b|]; simpl; try done.
  destruct (request_of rt req) as [r|] eqn:Hreq; simpl.
  - by rewrite (request_delivered rt isoformat R req r w Hreq).
  - by apply request_ignored.
Qed.

(** A history of the service is the history of the handlers that its
    requests for operations make: same world at the end, and each client
    gets what [deliver] makes of the outcome of its handler. *)
Lemma serve_http_handlers evs w :
  (serve_http rt isoformat evs w).2 = (serve (omap (cache_event rt) evs) w).2
  ∧ (serve_http rt isoformat evs w).1
    = zip_with deliver (omap (operation_request rt) evs)
        (serve (omap (cache_event rt) evs) w).1.
Proof.
  revert w. induction evs as [|ev evs IH]; intros w; [done|].
  cbn [serve_http omap list_omap]. rewrite serve_http1_world.
  destruct ev as [R req|d|b|]; simpl; try apply IH.
  destruct (request_of rt req) as [r|] eqn:Hreq; simpl; [|apply IH].
  rewrite (request_delivered rt isoformat R req r w Hreq). simpl.
  destruct (IH (run R (handle r) w).2) as [IH1 IH2]. by rewrite IH1, IH2.
Qed.

(** Every request that asks for an operation gets a response. *)
Lemma serve_http_length evs w :
  length (serve_http rt isoformat evs w).1 = length (omap (operation_request rt) evs).
Proof.
  revert w. induction evs as [|ev evs IH]; intros w; [done|].
  cbn [serve_http omap list_omap fst]. rewrite length_app, IH.
  destruct ev as [R req|d|b|]; simpl; try done. by destruct (request_of rt req).
Qed.

(** One event in the loop: the exchange of a request is added with the
    response of the application, and the world is the world after the
    event. *)
Lemma in_turn1_service ev s :
  let now := serve_http1 rt isoformat ev (http_world s) in
  in_turn1 rt isoformat ev s =
    mkServer (w_redis now.2)
      (s_exchanges s ++ match ev, now.1 with
                        | Http _ req, Some rs => [Sent req rs]
                        | _, _ => []
                        end)
      (w_log now.2).
Proof.
  destruct ev as [R req|d|b|]; simpl; unfold on_store; rewrite ?app_nil_r; try done.
  rewrite (exchange_alone_is_asgi rt isoformat R _ _ req)
    by (simpl; by rewrite lookup_app_r, Nat.sub_diag).
  simpl. by rewrite insert_app_r_alt, Nat.sub_diag.
Qed.

(** The loop that serves each request as it comes is the sequential
    service: same Redis server, same log of upstream calls, and the same
    responses to the requests that ask for an operation, in order. *)
Lemma in_turn_service evs s :
  let out := serve_http rt isoformat evs (http_world s) in
  http_world (in_turn rt isoformat evs s) = out.2
  ∧ omap (sent_operation rt) (s_exchanges (in_turn rt isoformat evs s))
    = omap (sent_operation rt) (s_exchanges s) ++ out.1.
Proof.
  revert s. induction evs as [|ev evs IH]; intros s; simpl; [by rewrite app_nil_r|].
  unfold in_turn in *. destruct (IH (in_turn1 rt isoformat ev s)) as [-> ->].
  rewrite in_turn1_service. cbn [s_exchanges]. rewrite http_world_mk. split; [done|].
  rewrite omap_app, <-(assoc_L (++)). do 2 f_equal.
  destruct ev as [R req|d|b|]; simpl; try done. by destruct (request_of rt req).
Qed.

(** With resolver functions that do not suspend, the event loop is the
    sequential service.  When every request is accepted and its exchange
    scheduled before the next event, the Redis server and the log of
    upstream calls at the end of a history are those of the application
    called once per request, and the responses sent to the requests that
    ask for an operation are its responses, in order. *)
Theorem loop_in_turn_is_service evs rd :
  let out := serve_http rt isoformat evs (mkWorld rd []) in
  let s := in_turn rt isoformat evs (listening rd) in
  http_world s = out.2 ∧ omap (sent_operation rt) (s_exchanges s) = out.1.
Proof. apply (in_turn_service evs (listening rd)). Qed.

(** Requests for one thing are the handler's requests for it. *)
Lemma asks_for_events R r evs :
  Forall (asks_for rt R r) evs → omap (cache_event rt) evs = (λ _, Req R r) <$> evs.
Proof.
  induction 1 as [|ev evs (req & -> & Hreq) _ IH]; [done|].
  cbn [omap list_omap cache_event]. rewrite Hreq. simpl. by f_equal.
Qed.

(** Simultaneous requests for one thing are resolved once on the wire,
    with resolver functions that do not suspend: any number of requests
    that ask for the same operation, whatever else they carry, reach a
    server that holds nothing and are served as they come; the upstream
    is called for the first and for no other, provided its answer is one
    that the handler stores. *)
Theorem wire_burst_resolved_once R r v t evs :
  resolve R (call_of r) = Ok v → stores_falsy r || truthy v = true →
  Forall (asks_for rt R r) evs →
  s_log (in_turn rt isoformat evs (listening (redis_client ∅ t)))
  = match evs with [] => [] | _ => [call_of r] end.
Proof.
  intros Hr Hs Hevs.
  destruct (in_turn_service evs (listening (redis_client ∅ t))) as [Hw _].
  change (s_log ?s) with (w_log (http_world s)). rewrite Hw.
  rewrite (proj1 (serve_http_handlers evs _)), (asks_for_events R r evs Hevs).
  unfold http_world, listening. simpl.
  rewrite (serve_burst R r v); [by destruct evs|done..|].
  apply Forall_fmap, Forall_true. by intros.
Qed.

(** C7: the service end to end implements the contract of the cache.
    Along every history of HTTP requests, clock ticks, losses of the
    connection and purges, from a server that holds nothing: the
    responses to the requests that ask for an operation are what the
    contract gives for those operations, one for each, delivered as 200
    with the value (and the CORS headers for a request with an origin)
    or as the bare 500, and the world at the end reads as the cache of
    the contract at the end.  The requests that ask for no operation
    change nothing. *)
Theorem service_refines_contract evs t l :
  let reads := omap (cache_event rt) evs in
  let asking := omap (operation_request rt) evs in
  let out := serve_http rt isoformat evs (mkWorld (redis_client ∅ t) l) in
  length out.1 = length asking
  ∧ out.1 = zip_with deliver asking (contract reads (vacant t l)).1
  ∧ abstraction out.2 ≡ (contract reads (vacant t l)).2.
Proof.
  intros reads asking out. subst reads asking out.
  split; [apply serve_http_length|].
  destruct (serve_http_handlers evs (mkWorld (redis_client ∅ t) l)) as [Hw Hr].
  destruct (serve_refined (omap (cache_event rt) evs) _ (cache_ok_empty t l))
    as [Hres Hst].
  assert (abstraction (mkWorld (redis_client ∅ t) l) ≡ vacant t l) as Hv
    by (by split_and!).
  destruct (contract_proper (omap (cache_event rt) evs) _ _ Hv) as [Hres' Hst'].
  rewrite Hw, Hr, Hres, Hres'. split; [done | by etrans].
Qed.

End lemmas.

(** ** Example *)

(** A client of another origin asks for a category page, a page that does
    not exist is asked for, 59 minutes pass, and the category page is
    asked for again with a cookie: two responses 200, one call to the
    upstream. *)
Definition one_hour : list http_event :=
  [Http stub_resolver cross_site;
   Http stub_resolver (mkRequest "GET" "/nowhere" [] [] NoBody);
   Elapse 3540;
   Http down_resolver
     (mkRequest "GET" "/api/category/drama" [("x", "1"); ("page", "2")] [] NoBody)].

Example one_hour_served :
  let out := serve_http rt0 isoformat0 one_hour w0 in
  status <$> out.1 = [200; 200]%Z ∧ w_log out.2 = [CCategory "drama" 2]
  ∧ (λ rs, header_get "access-control-allow-origin" (headers rs)) <$> out.1
    = [Some "https://other.example"; None].
Proof. split_and!; reflexivity. Qed.

(** Three clients ask for the same category page at once, one of them
    from another site: one call to the upstream. *)
Example three_clients_one_call :
  s_log (in_turn rt0 isoformat0
           [Http stub_resolver cross_site;
            Http stub_resolver (mkRequest "GET" "/api/category/drama" [("page", "2")] [] NoBody);
            Http stub_resolver
              (mkRequest "GET" "/api/category/drama" [("page", "02"); ("x", "1")] [] NoBody)]
           (listening (redis_client ∅ 0)))
  = [CCategory "drama" 2].
Proof. reflexivity. Qed.
